(* ===== verification/_CoqProject ===== *)
-Q . S2P
Prelude.v
Codec.v
CircularBuffer.v
Text.v
Os.v
MmapLog.v
LogFormat.v
LogScan.v
LogSpec.v
LogRecover.v
LogLife.v
LogDamage.v
LogTheorems.v
Store.v
HttpParser.v
HttpChunks.v
HttpRender.v
HttpTheorems.v
Double.v
RateLimiter.v
RateTheorems.v
Router.v
RouterTheorems.v
ThreadPool.v
PoolTheorems.v
Config.v
ConfigTheorems.v
Metrics.v
MetricsTheorems.v
MetricsText.v
Messages.v
MessageTheorems.v
Sockets.v
EpollLoop.v
TcpServer.v
Protocol.v
ProtocolInv.v
WorkerInv.v
WorkerSteps.v
WorkerLoop.v
WorkerDrain.v
WorkerRefines.v
WorkerServe.v
ServerTheorems.v
SessionTheorems.v
Handoff.v
HandoffTheorems.v
Logger.v
Gateway.v
GatewayTheorems.v
EndToEnd.v
Process.v
ProcessTheorems.v
