(* ===== verification/Prelude.v ===== *)
(** * The IoT delivery-fleet gateway: verification library

    ** The program

    The gateway is one process (src/src/main.cpp).  [main] reads the configuration
    (core/config.cpp) and the log file of the process (core/logger.h), registers
    the routes, and calls [TCPServer::start] (network/tcp_server.cpp), which opens
    the memory-mapped message log (storage/mmap_log.cpp with its cache
    storage/circular_buffer.h), creates the thread pool (network/thread_pool.h) and
    one event-loop worker per thread.  A worker has a listener, an epoll loop
    (network/epoll_loop.cpp) and the clients it accepted
    (network/connection_manager.cpp).  It feeds what it reads to the parser of the
    client (http/http_parser.cpp), submits a complete request to the pool, and goes
    on.  A pool thread routes the request (http/router.cpp) past the rate limiter
    (security/rate_limiter.cpp) to a handler, and pushes the serialised response
    (http/http_response.cpp) on the completion queue of the worker, which sends it.
    All of them count into the metrics (monitoring/metrics.cpp).

    ** The files

    Every component has a file of definitions that read like the source, with the
    scenarios of its tests evaluated, and files with its lemmas and properties.

    - Prelude: bytes, machine integers, exceptions, the state-and-exception monad,
      the tactics and the hint databases.  Text: what is used of [std::string].
      Double: binary64 arithmetic.
    - Storage.  Codec, CircularBuffer and MmapLog are the code; Os is the file
      system it runs on: page cache, stable storage, descriptors, and a script of
      failures.  LogFormat is the abstract format (a chain of messages and its
      image), LogScan what recovery reads from arbitrary bytes, LogSpec the
      invariant [log_inv] between the members, the directory and a history,
      LogRecover and LogLife opening, closing and power failures, LogDamage
      corruption; LogTheorems has the properties.  Store is the interface
      [MessageStore] that the log implements and its clients use.
    - HTTP.  HttpParser is the code; HttpChunks (independence of the cuts between
      reads) and HttpRender (texts of requests) carry HttpTheorems.  Router and
      RouterTheorems: responses, routes, dispatch.
    - RateLimiter and RateTheorems: the token bucket, and [check] as three critical
      sections that interleave (a step relation).
    - ThreadPool and PoolTheorems: the critical sections of the pool and its
      threads and condition variable (a step relation).
    - Config and ConfigTheorems; Metrics, MetricsTheorems and MetricsText (the
      accesses to the atomic members interleave; the exposition is read back).
    - Server.  Messages and MessageTheorems: the JSON of /recent.  Sockets is the
      kernel as a worker sees it, EpollLoop the loop, TcpServer the whole worker.
      WorkerInv has its invariant, WorkerSteps that every operation keeps it,
      WorkerLoop the runs, WorkerDrain flushing and draining, ServerTheorems the
      properties and, in ServerFindings, runs that go wrong.
      Handoff is the exchange of completions between the pool threads and a worker
      at the granularity of the code, with the eventfd and the lifetime of the
      worker's state; HandoffTheorems has its invariants.
    - Clients.  Protocol is the abstract specification of a worker: the sessions of
      its clients, read off the trace of socket events, and the moves it may make;
      ProtocolInv shows what every sequence of moves guarantees to a session;
      WorkerRefines that every operation of TcpServer is a sequence of moves;
      WorkerServe follows one request through a worker; SessionTheorems has the
      properties.
    - Process.  Logger, Gateway (the server object and the routes of [main]) with
      GatewayTheorems, EndToEnd (a request from the socket to the log and back),
      Process ([start] and [main]) with ProcessTheorems.

    ** What is shown

    - Log: [append] adds exactly one message or refuses it for the reason of the
      source; [get_recent] returns the newest messages; [open] recovers every
      complete message from any bytes after the last record; messages flushed before
      a power failure survive it; closing and opening is the identity on the history;
      damage in a sealed segment is reported; the loops of recovery end.
    - Parser: the result does not depend on the cuts between reads; the text of a
      request is parsed to that request; the limits hold for all inputs.
    - Router and limiter: a handler runs exactly for the requests that the bucket of
      the address admits; concurrent checks act like one sequential bucket; the
      bucket admits exactly its capacity in a burst, in binary64 arithmetic.
    - Pool: first in first out, exactly once, no lost wakeup, and a shutdown that
      executes what was accepted and ends.
    - Configuration: what is returned is usable by every component; files are read
      back; the command line overrides the file.
    - Metrics: counters, maximum and histogram are exact under every interleaving.
    - Worker: for any answers of the kernel, the pool and other threads, the worker
      owns exactly the descriptors of its clients and its own; a waiting client has
      its task or completion pending; a completion reaches only the client that
      asked, also when descriptors are reused; the bytes queued for a client are
      bounded; a worker that ends has closed every client and lost no request; and
      a stop ends when the pool has executed the tasks and the clients take their
      bytes.
    - Handoff: completions are processed exactly once and in order, no wakeup is
      lost, and a worker that has returned leaves only notifications behind (which
      use its state after its end).
    - Clients: a worker refines the protocol; each session gets whole responses to
      the request that its own bytes spell, the last one possibly in part, and
      nothing else; a request that arrives in any pieces is dispatched as written
      and its answer arrives completely.
    - End to end: POST /publish on a socket extends the stored history by exactly
      its body and is answered with its offset; GET /recent on a socket reads the
      stored history back.
    - Process: published bodies are what /recent returns, any other request changes
      nothing, and exit code 0 means that all of the above ended well.

    ** Modelling conventions

    A [std::string] is a list of bytes.  An unsigned integer is a [Z] whose
    operations wrap around at its width ([u64_add], [u64_sub]); container sizes are
    [nat].  A member function takes and returns the members, in the monad [stm]
    where it throws.  Where threads share state the critical sections or the atomic
    accesses are the steps of a relation (rate limiter, pool, metrics); in TcpServer
    everything that other threads do between two steps of a worker is an
    [env_change], and the theorems quantify over all of them.

    Two members are records of the model and not of the source: [k_trace], the
    events on the sockets, and [produced], the tasks done with their responses.  No
    operation reads them; the theorems about clients are stated on them.

    Fuel is used by the loops of recovery ([scan_fuel]: a record has at least 32
    bytes; [zero_tail]: a chunk has 4096), which is shown to be always enough
    ([recovery_loops_end]); by the header loop of the parser (one line feed per
    iteration, [header_loop_fuel]); and by the printing of numerals.  The loops over
    reads, sends, accepts and [epoll_wait] recurse on the list of answers of the
    kernel: when the list ends the call would block, and the run is a prefix of a
    longer one.

    ** Not modelled

    The bytes of the socket address, ports and backlog as seen by the network; in
    TcpServer the eventfd counter, which only wakes the loop up (Handoff has it);
    the descriptor of the epoll instance; the timing of [epoll_wait]; text on standard error; the iteration
    order of [unordered_map], which no theorem fixes; [std::hash], a parameter.  The
    flag [shutdown_requested] is each worker's view of it, so that a stop by one
    worker reaches another as a change by the environment.  A kernel never returns a
    descriptor that is in use, and a process does not accept 2^64 connections. *)
From stdpp Require Import base gmap list sorting strings numbers.
From Stdlib Require Import Strings.Byte.

Local Open Scope Z_scope.

(** ** Bytes and [std::string] *)

(** A C++ [std::string] or [string_view] is a list of bytes. *)
Abbreviation bytes := (list byte).

(** A string literal of the source. *)
Definition B (s : string) : bytes := String.list_byte_of_string s.

(** The value of an [unsigned char]. *)
Definition byte_to_Z (b : byte) : Z := Z.of_N (Byte.to_N b).

(** [static_cast<unsigned char>] of an integer: reduction modulo 256. *)
Definition byte_of_Z (z : Z) : byte := default x00 (Byte.of_N (Z.to_N (z mod 256))).

#[export] Instance byte_eq_decision : EqDecision byte := Byte.byte_eq_dec.

#[export] Program Instance byte_countable : Countable byte :=
  inj_countable Byte.to_N Byte.of_N _.
Next Obligation. intros b. apply Byte.of_to_N. Qed.

#[export] Instance byte_inhabited : Inhabited byte := populate x00.

Lemma byte_to_Z_range b : 0 <= byte_to_Z b < 256.
Proof. unfold byte_to_Z. pose proof (Byte.to_N_bounded b). lia. Qed.

Lemma byte_to_Z_inj b1 b2 : byte_to_Z b1 = byte_to_Z b2 -> b1 = b2.
Proof.
  unfold byte_to_Z. intros H%N2Z.inj.
  pose proof (Byte.of_to_N b1). pose proof (Byte.of_to_N b2). congruence.
Qed.

Lemma byte_to_of_Z z : byte_to_Z (byte_of_Z z) = z mod 256.
Proof.
  unfold byte_of_Z, byte_to_Z.
  assert (0 <= z mod 256 < 256) by (apply Z.mod_pos_bound; lia).
  destruct (Byte.of_N (Z.to_N (z mod 256))) as [b|] eqn:E; simpl.
  - apply Byte.to_of_N in E. lia.
  - apply Byte.of_N_None_iff in E. lia.
Qed.

Lemma byte_of_to_Z b : byte_of_Z (byte_to_Z b) = b.
Proof.
  apply byte_to_Z_inj. rewrite byte_to_of_Z.
  apply Z.mod_small, byte_to_Z_range.
Qed.

(** ** Machine integers *)

(** The moduli and maxima of [std::uint32_t], and of [std::uint64_t] and
    [std::size_t] on the 64-bit targets the program is built for. *)
Definition u32_modulus : Z := 2 ^ 32.
Definition u64_modulus : Z := 2 ^ 64.
Definition u32_max : Z := u32_modulus - 1.
Definition u64_max : Z := u64_modulus - 1.
(** [std::numeric_limits<off_t>::max()] *)
Definition off_max : Z := 2 ^ 63 - 1.

(** Unsigned 64-bit arithmetic with its wrap-around. *)
Definition u64_add (a b : Z) : Z := (a + b) mod u64_modulus.
Definition u64_sub (a b : Z) : Z := (a - b) mod u64_modulus.

(** Linear arithmetic with the integer limits spelled out. *)
Ltac width :=
  unfold u64_max, u32_max, off_max, u64_modulus, u32_modulus in *; lia.

Lemma u64_add_small a b : 0 <= a + b < u64_modulus -> u64_add a b = a + b.
Proof. apply Z.mod_small. Qed.

Lemma u64_sub_small a b : 0 <= a - b < u64_modulus -> u64_sub a b = a - b.
Proof. apply Z.mod_small. Qed.

(** The size of a container as an integer. *)
Abbreviation zlen l := (Z.of_nat (length l)).

(** ** Exceptions *)

(** The exceptions the program throws, by C++ class, with the message. *)
Inductive exn :=
| logic_error (what : bytes)
| invalid_argument (what : bytes)
| length_error (what : bytes)
| overflow_error (what : bytes)
| runtime_error (what : bytes)
| system_error (code : Z) (what : bytes)
| filesystem_error (code : Z) (what : bytes)
(** Not an exception of the source: an access outside an allocated object,
    which C++ leaves undefined.  The theorems show it is never reached. *)
| out_of_bounds.

Inductive outcome (A : Type) :=
| Ok (a : A)
| Throw (e : exn).
Arguments Ok {A} a.
Arguments Throw {A} e.

#[export] Instance outcome_ret : MRet outcome := fun A a => Ok a.
#[export] Instance outcome_bind : MBind outcome := fun A B f m =>
  match m with Ok a => f a | Throw e => Throw e end.

(** A computation over a state [S] that may throw; the state survives the
    exception, as the members of a C++ object do. *)
Definition stm (S A : Type) : Type := S -> outcome A * S.

#[export] Instance stm_ret S : MRet (stm S) := fun A a s => (Ok a, s).
#[export] Instance stm_bind S : MBind (stm S) := fun A B f m s =>
  match m s with
  | (Ok a, s') => f a s'
  | (Throw e, s') => (Throw e, s')
  end.

Definition throw {S A} (e : exn) : stm S A := fun s => (Throw e, s).
Definition get {S} : stm S S := fun s => (Ok s, s).
Definition gets {S A} (f : S -> A) : stm S A := fun s => (Ok (f s), s).
Definition modify {S} (f : S -> S) : stm S unit := fun s => (Ok tt, f s).
Definition when {S} (c : bool) (m : stm S unit) : stm S unit := if c then m else mret tt.

(** [try { m } catch (...) { h; throw; }] *)
Definition on_exception {S A} (m : stm S A) (h : stm S unit) : stm S A := fun s =>
  match m s with
  | (Throw e, s') =>
      match h s' with
      | (Ok _, s'') => (Throw e, s'')
      | (Throw e', s'') => (Throw e', s'')
      end
  | r => r
  end.

Lemma stm_bind_ok {S A B} (m : stm S A) (f : A -> stm S B) s a s' :
  m s = (Ok a, s') -> (m ≫= f) s = f a s'.
Proof. intros H. unfold mbind, stm_bind. by rewrite H. Qed.

(** Continuations that agree on the result. *)
Lemma stm_bind_ext {S A B} (m : stm S A) (f g : A -> stm S B) s :
  (forall a s', m s = (Ok a, s') -> f a s' = g a s') -> (m ≫= f) s = (m ≫= g) s.
Proof. intros H. unfold mbind, stm_bind. destruct (m s) as [[a|e] s'] eqn:E; [by apply H|done]. Qed.

Lemma stm_bind_throw {S A B} (m : stm S A) (f : A -> stm S B) s e s' :
  m s = (Throw e, s') -> (m ≫= f) s = (Throw e, s').
Proof. intros H. unfold mbind, stm_bind. by rewrite H. Qed.

Lemma stm_bind_inv {S A B} (m : stm S A) (f : A -> stm S B) s b s' :
  (m ≫= f) s = (Ok b, s') ->
  exists a s1, m s = (Ok a, s1) /\ f a s1 = (Ok b, s').
Proof.
  unfold mbind, stm_bind. destruct (m s) as [[a|e] s1]; intros; simplify_eq; eauto.
Qed.

(** ** Lists updated at one position *)

Section ListUpdate.
Context {A : Type}.
Implicit Types (l : list A) (x y : A).

Lemma elem_of_insert_inv l i x y : y ∈ <[i := x]> l -> y = x \/ y ∈ l.
Proof.
  rewrite list_elem_of_lookup. intros (j & Hj). apply list_lookup_insert_Some in Hj as [(_ & -> & _)|(_ & Hj)].
  - by left.
  - right. by eapply list_elem_of_lookup_2.
Qed.

Lemma elem_of_insert_old l i x x' y : l !! i = Some x -> y ∈ l -> y = x \/ y ∈ <[i := x']> l.
Proof.
  intros Hi (j & Hj)%list_elem_of_lookup. destruct (decide (i = j)) as [->|Hne]; [left; congruence|].
  right. apply (list_elem_of_lookup_2 _ j). by rewrite list_lookup_insert_ne.
Qed.

Lemma elem_of_insert_new l i x x' : l !! i = Some x -> x' ∈ <[i := x']> l.
Proof. intros Hi. by apply list_elem_of_insert, (lookup_lt_Some _ _ x). Qed.
End ListUpdate.

(** ** Automation *)

(** Sizes of lists. *)
Create HintDb sizes.
#[export] Hint Rewrite @length_app @length_take @length_drop @length_replicate @length_insert @length_fmap
  @length_seq : sizes.

(** Arithmetic over the sizes of lists. *)
Ltac sizes := autorewrite with sizes; cbn [length]; lia.
