(* ===== verification/Codec.v ===== *)
(** * Codec: the little-endian fields and the CRC-32 of the on-disk format

    Models the anonymous-namespace helpers of src/src/storage/mmap_log.cpp:
    [put_u32], [put_u64], [get_u32], [get_u64], [crc32_update],
    [record_crc] and [segment_crc].  The theorems give the field round trip,
    the shape of the CRC step as a linear bijection of 32-bit words, and that
    a corruption confined to four consecutive bytes always changes the CRC. *)
From stdpp Require Import base list numbers list_numbers strings.
From Stdlib Require Import Strings.Byte.
From S2P Require Import Prelude.

Local Open Scope Z_scope.

(** ** Writing into a byte array *)

(** The bytes [pos, pos + length src) of [buf] replaced by [src]: the effect of
    [memcpy], and of a loop of stores, inside the bounds of [buf]. *)
Definition store (buf : bytes) (pos : nat) (src : bytes) : bytes :=
  take pos buf ++ src ++ drop (pos + length src) buf.

(** The bytes the store loop of [put_u32]/[put_u64] writes for [width]
    iterations: [(value >> (index * 8)) & 0xff]. *)
Definition le_bytes (width : nat) (value : Z) : bytes :=
  (fun index : nat => byte_of_Z (Z.land (Z.shiftr value (Z.of_nat index * 8)) 0xff))
    <$> seq 0 width.

Definition put_u32 (destination : bytes) (pos : nat) (value : Z) : bytes :=
  store destination pos (le_bytes 4 value).

Definition put_u64 (destination : bytes) (pos : nat) (value : Z) : bytes :=
  store destination pos (le_bytes 8 value).

(** The accumulation loop of [get_u32]/[get_u64]:
    [value |= source[index] << (index * 8)]. *)
Definition get_le (width : nat) (source : bytes) (pos : nat) : Z :=
  foldl (fun value (index : nat) =>
           Z.lor value (Z.shiftl (byte_to_Z (source !!! (pos + index)%nat))
                                 (Z.of_nat index * 8)))
        0 (seq 0 width).

Definition get_u32 (source : bytes) (pos : nat) : Z := get_le 4 source pos.
Definition get_u64 (source : bytes) (pos : nat) : Z := get_le 8 source pos.

(** ** CRC-32 *)

Definition crc_polynomial : Z := 0xedb88320.

(** One iteration of the inner loop of [crc32_update]. *)
Definition crc32_bit (crc : Z) : Z :=
  let mask := (0 - Z.land crc 1) mod u32_modulus in
  Z.lxor (Z.shiftr crc 1) (Z.land crc_polynomial mask).

(** One iteration of its outer loop. *)
Definition crc32_byte (crc : Z) (b : byte) : Z :=
  Nat.iter 8 crc32_bit (Z.lxor crc (byte_to_Z b)).

(** Compare [crc32_byte] by unfolding it before the iteration it stands for. *)
#[global] Strategy expand [crc32_byte].

Definition crc32_update (crc : Z) (data : bytes) : Z := foldl crc32_byte crc data.

(** [header] has at least 28 bytes; the CRC covers the first 28 and the payload. *)
Definition record_crc (header payload : bytes) : Z :=
  let crc := crc32_update 0xffffffff (take 28 header) in
  let crc := crc32_update crc payload in
  Z.lxor crc 0xffffffff.

Definition segment_crc (header : bytes) : Z :=
  Z.lxor (crc32_update 0xffffffff (take 32 header)) 0xffffffff.

(** The published check value of CRC-32/IEEE. *)
Example crc32_check_value :
  Z.lxor (crc32_update 0xffffffff (B "123456789")) 0xffffffff = 0xcbf43926.
Proof. vm_compute. reflexivity. Qed.

(** ** Lemmas on stores *)

Lemma length_store buf pos src :
  (pos + length src <= length buf)%nat -> length (store buf pos src) = length buf.
Proof. intros. unfold store. sizes. Qed.

Lemma store_app l1 old l2 src :
  length old = length src -> store (l1 ++ old ++ l2) (length l1) src = l1 ++ src ++ l2.
Proof.
  intros Hlen. unfold store. rewrite take_app_length. f_equal. f_equal.
  by rewrite drop_app_add, <- Hlen, drop_app_length.
Qed.

Lemma length_le_bytes width v : length (le_bytes width v) = width.
Proof. unfold le_bytes. sizes. Qed.

(** ** The field round trip *)

(** The value of a little-endian byte string. *)
Definition le_value (l : bytes) : Z := foldr (fun b v => byte_to_Z b + 256 * v) 0 l.

Lemma land_shiftl_disjoint a b k :
  0 <= k -> 0 <= a < 2 ^ k -> Z.land a (Z.shiftl b k) = 0.
Proof.
  intros Hk Ha. apply Z.bits_inj'. intros n Hn. rewrite Z.land_spec, Z.bits_0.
  destruct (decide (n < k)).
  - rewrite Z.shiftl_spec_low by done. apply andb_false_r.
  - rewrite <- (Z.mod_small a (2 ^ k)) by done. by rewrite Z.mod_pow2_bits_high by lia.
Qed.

Lemma lxor_shiftl_add a b k :
  0 <= k -> 0 <= a < 2 ^ k -> Z.lxor a (Z.shiftl b k) = a + b * 2 ^ k.
Proof.
  intros Hk Ha. rewrite <- Z.shiftl_mul_pow2 by done.
  by rewrite Z.add_nocarry_lxor by (by apply land_shiftl_disjoint).
Qed.

Lemma lor_shiftl_add a b k :
  0 <= k -> 0 <= a < 2 ^ k -> Z.lor a (Z.shiftl b k) = a + b * 2 ^ k.
Proof.
  intros Hk Ha. rewrite <- lxor_shiftl_add by done.
  by rewrite Z.lxor_lor by (by apply land_shiftl_disjoint).
Qed.

Lemma le_value_range l : 0 <= le_value l < 256 ^ zlen l.
Proof.
  induction l as [|b l IH]; cbn [le_value foldr length]; [done|].
  fold (le_value l). pose proof (byte_to_Z_range b).
  rewrite Nat2Z.inj_succ, Z.pow_succ_r by lia. lia.
Qed.

Lemma le_value_snoc l b : le_value (l ++ [b]) = le_value l + byte_to_Z b * 256 ^ zlen l.
Proof.
  induction l as [|a l IH]; cbn [le_value foldr app length].
  - fold (le_value []). simpl. lia.
  - fold (le_value (l ++ [b])). fold (le_value l). rewrite IH.
    rewrite Nat2Z.inj_succ, Z.pow_succ_r by lia. lia.
Qed.

Lemma le_value_inj l l' : length l = length l' -> le_value l = le_value l' -> l = l'.
Proof.
  revert l'. induction l as [|b l IH]; intros [|b' l'] Hlen; try done.
  cbn [le_value foldr]. fold (le_value l). fold (le_value l'). intros H.
  pose proof (byte_to_Z_range b). pose proof (byte_to_Z_range b').
  f_equal; [apply byte_to_Z_inj; lia | apply IH; [by injection Hlen | lia]].
Qed.

Lemma get_le_value width source pos :
  (pos + width <= length source)%nat ->
  get_le width source pos = le_value (take width (drop pos source)).
Proof.
  intros Hlen. unfold get_le. induction width as [|w IH]; [done|].
  rewrite seq_S, foldl_app, IH by lia. cbn [foldl].
  destruct (lookup_lt_is_Some_2 source (pos + w)) as [b Hb]; [lia|].
  erewrite take_S_r by (rewrite lookup_drop; exact Hb).
  rewrite list_lookup_total_alt, Nat.add_0_l, Hb, le_value_snoc; simpl.
  pose proof (le_value_range (take w (drop pos source))) as Hr.
  rewrite length_take_le in * by (rewrite length_drop; lia).
  assert (Hp : 2 ^ (Z.of_nat w * 8) = 256 ^ Z.of_nat w).
  { by rewrite Z.mul_comm, Z.pow_mul_r by lia. }
  rewrite lor_shiftl_add, Hp; [done|lia|by rewrite Hp].
Qed.

Lemma le_bytes_S width v :
  le_bytes (S width) v = le_bytes width v ++ [byte_of_Z (Z.shiftr v (Z.of_nat width * 8))].
Proof.
  unfold le_bytes. rewrite seq_S, fmap_app. simpl. do 2 f_equal.
  apply byte_to_Z_inj. rewrite !byte_to_of_Z.
  change 255 with (Z.ones 8). rewrite Z.land_ones by lia.
  by rewrite Z.mod_mod by lia.
Qed.

Lemma le_value_le_bytes width v : le_value (le_bytes width v) = v mod 256 ^ Z.of_nat width.
Proof.
  induction width as [|w IH]; [by rewrite Z.mod_1_r|].
  rewrite le_bytes_S, le_value_snoc, IH, length_le_bytes, byte_to_of_Z.
  rewrite Z.shiftr_div_pow2 by lia.
  rewrite (Z.mul_comm (Z.of_nat w) 8), Z.pow_mul_r by lia. change (2 ^ 8) with 256.
  rewrite Nat2Z.inj_succ, Z.pow_succ_r, (Z.mul_comm 256) by lia.
  rewrite Z.rem_mul_r by lia. lia.
Qed.

Lemma get_le_app l1 width v l2 :
  get_le width (l1 ++ le_bytes width v ++ l2) (length l1) = v mod 256 ^ Z.of_nat width.
Proof.
  rewrite get_le_value by (rewrite !length_app, length_le_bytes; lia).
  rewrite drop_app_length, take_app_length' by (by rewrite length_le_bytes).
  apply le_value_le_bytes.
Qed.

Lemma get_le_at l1 width v l2 pos :
  pos = length l1 -> 0 <= v < 256 ^ Z.of_nat width ->
  get_le width (l1 ++ le_bytes width v ++ l2) pos = v.
Proof. intros -> Hv. rewrite get_le_app. by apply Z.mod_small. Qed.

Lemma get_le_range width source pos :
  (pos + width <= length source)%nat -> 0 <= get_le width source pos < 256 ^ Z.of_nat width.
Proof.
  intros H. rewrite get_le_value by done.
  pose proof (le_value_range (take width (drop pos source))) as Hr.
  by rewrite length_take_le in Hr by (rewrite length_drop; lia).
Qed.

(** ** The CRC step as a linear bijection of 32-bit words *)

Definition is_u32 (x : Z) : Prop := 0 <= x < u32_modulus.

Lemma crc32_bit_odd x :
  crc32_bit x = if Z.odd x then Z.lxor (Z.shiftr x 1) crc_polynomial else Z.shiftr x 1.
Proof.
  unfold crc32_bit. assert (Z.land x 1 = x mod 2) as -> by (by apply (Z.land_ones x 1)).
  rewrite Zmod_odd. destruct (Z.odd x); [done|].
  by rewrite Z.lxor_0_r.
Qed.

Lemma odd_lxor x y : Z.odd (Z.lxor x y) = xorb (Z.odd x) (Z.odd y).
Proof. by rewrite <- !Z.bit0_odd, Z.lxor_spec. Qed.

Lemma crc32_bit_lxor x y : crc32_bit (Z.lxor x y) = Z.lxor (crc32_bit x) (crc32_bit y).
Proof.
  rewrite !crc32_bit_odd, odd_lxor, Z.shiftr_lxor.
  generalize (Z.shiftr x 1), (Z.shiftr y 1). intros a b.
  apply Z.bits_inj'; intros n Hn.
  destruct (Z.odd x), (Z.odd y); simpl; rewrite !Z.lxor_spec;
    destruct (Z.testbit a n), (Z.testbit b n), (Z.testbit crc_polynomial n); done.
Qed.

Lemma is_u32_lxor x y : is_u32 x -> is_u32 y -> is_u32 (Z.lxor x y).
Proof.
  unfold is_u32, u32_modulus. intros Hx Hy.
  assert (Hnn : 0 <= Z.lxor x y) by (apply Z.lxor_nonneg; lia).
  split; [done|].
  destruct (decide (Z.lxor x y = 0)) as [->|]; [lia|].
  apply Z.log2_lt_pow2; [lia|].
  eapply Z.le_lt_trans; [apply Z.log2_lxor; lia|].
  apply Z.max_lub_lt;
    [destruct (decide (x = 0)) as [->|]; [done|] | destruct (decide (y = 0)) as [->|]; [done|]];
    apply Z.log2_lt_pow2; lia.
Qed.

Lemma crc32_bit_u32 x : is_u32 x -> is_u32 (crc32_bit x).
Proof.
  intros Hx. rewrite crc32_bit_odd.
  assert (is_u32 (Z.shiftr x 1)).
  { unfold is_u32, u32_modulus in *. rewrite Z.shiftr_div_pow2 by lia.
    split; [apply Z.div_pos; lia|]. apply Z.div_lt_upper_bound; lia. }
  destruct (Z.odd x); [|done]. by apply is_u32_lxor.
Qed.

Lemma crc32_bit_zero x : is_u32 x -> crc32_bit x = 0 -> x = 0.
Proof.
  unfold is_u32, u32_modulus. rewrite crc32_bit_odd. intros Hx H.
  pose proof (Z.div2_odd x) as Hd. rewrite Z.div2_spec in Hd.
  destruct (Z.odd x); simpl in Hd; [|lia].
  apply Z.lxor_eq in H. unfold crc_polynomial in H. lia.
Qed.

Lemma crc32_bits_lxor n x y :
  Nat.iter n crc32_bit (Z.lxor x y) = Z.lxor (Nat.iter n crc32_bit x) (Nat.iter n crc32_bit y).
Proof. induction n as [|n IH]; [done|]. simpl. by rewrite IH, crc32_bit_lxor. Qed.

Lemma crc32_bits_u32 n x : is_u32 x -> is_u32 (Nat.iter n crc32_bit x).
Proof. intros. induction n; [done|]. by apply crc32_bit_u32. Qed.

Lemma crc32_bits_zero n x : is_u32 x -> Nat.iter n crc32_bit x = 0 -> x = 0.
Proof.
  intros Hx. induction n as [|n IH]; [done|]. simpl. intros H.
  apply IH, crc32_bit_zero; auto using crc32_bits_u32.
Qed.

Lemma crc32_bits_inj n x y :
  is_u32 x -> is_u32 y -> Nat.iter n crc32_bit x = Nat.iter n crc32_bit y -> x = y.
Proof.
  intros Hx Hy H. apply Z.lxor_eq, (crc32_bits_zero n); [by apply is_u32_lxor|].
  by rewrite crc32_bits_lxor, H, Z.lxor_nilpotent.
Qed.

(** Shifting zeros out of the register leaves the polynomial out of play. *)
Lemma crc32_bits_shiftl n x : Nat.iter n crc32_bit (Z.shiftl x (Z.of_nat n)) = x.
Proof.
  induction n as [|n IH]; [simpl; by rewrite Z.shiftl_0_r|].
  rewrite Nat.iter_succ_r. replace (crc32_bit _) with (Z.shiftl x (Z.of_nat n)); [done|].
  rewrite Nat2Z.inj_succ, <- Z.add_1_r, <- Z.shiftl_shiftl by lia.
  generalize (Z.shiftl x (Z.of_nat n)). intros z.
  rewrite crc32_bit_odd, Z.shiftl_mul_pow2 by lia.
  change (2 ^ 1) with 2. rewrite Z.odd_mul, andb_false_r.
  rewrite Z.shiftr_div_pow2 by lia. change (2 ^ 1) with 2. by rewrite Z.div_mul by lia.
Qed.

Lemma is_u32_byte b : is_u32 (byte_to_Z b).
Proof. pose proof (byte_to_Z_range b). unfold is_u32, u32_modulus. lia. Qed.

Lemma crc32_byte_u32 c b : is_u32 c -> is_u32 (crc32_byte c b).
Proof. intros. apply crc32_bits_u32, is_u32_lxor; auto using is_u32_byte. Qed.

Lemma crc32_update_u32 c l : is_u32 c -> is_u32 (crc32_update c l).
Proof. revert c. induction l; intros c Hc; [done|]. apply IHl, crc32_byte_u32, Hc. Qed.

Lemma crc32_update_app c l1 l2 :
  crc32_update c (l1 ++ l2) = crc32_update (crc32_update c l1) l2.
Proof. apply foldl_app. Qed.

Lemma lxor_cancel_r x y z : Z.lxor x z = Z.lxor y z -> x = y.
Proof.
  intros H. apply (f_equal (fun u => Z.lxor u z)) in H.
  by rewrite !Z.lxor_assoc, !Z.lxor_nilpotent, !Z.lxor_0_r in H.
Qed.

Lemma crc32_byte_inj b c1 c2 :
  is_u32 c1 -> is_u32 c2 -> crc32_byte c1 b = crc32_byte c2 b -> c1 = c2.
Proof.
  intros H1 H2 H. apply (lxor_cancel_r _ _ (byte_to_Z b)), (crc32_bits_inj 8);
    [by apply is_u32_lxor; auto using is_u32_byte..|].
  exact H.
Qed.

Lemma crc32_update_inj l c1 c2 :
  is_u32 c1 -> is_u32 c2 -> crc32_update c1 l = crc32_update c2 l -> c1 = c2.
Proof.
  revert c1 c2. induction l as [|b l IH]; intros c1 c2 H1 H2 H; [done|].
  apply (crc32_byte_inj b); [done..|].
  apply IH; [by apply crc32_byte_u32..|exact H].
Qed.

(** Up to four bytes are absorbed as one little-endian word. *)
Lemma crc32_update_word w c :
  (length w <= 4)%nat -> is_u32 c ->
  crc32_update c w = Nat.iter (8 * length w) crc32_bit (Z.lxor c (le_value w)).
Proof.
  revert c. induction w as [|b w IH]; intros c Hlen Hc.
  { cbn. by rewrite Z.lxor_0_r. }
  cbn [length] in Hlen. cbn [crc32_update foldl]. fold (crc32_update (crc32_byte c b) w).
  rewrite IH by (auto using crc32_byte_u32 || lia).
  cbn [length]. rewrite Nat.mul_succ_r, Nat.iter_add. f_equal.
  unfold crc32_byte. cbn [le_value foldr]. fold (le_value w).
  rewrite <- (crc32_bits_shiftl 8 (le_value w)) at 1.
  rewrite <- crc32_bits_lxor, Z.lxor_assoc. do 2 f_equal.
  pose proof (byte_to_Z_range b) as Hb. change (Z.of_nat 8) with 8.
  rewrite lxor_shiftl_add by (simpl; lia). simpl. lia.
Qed.

(** The CRC register separates two byte strings that differ only inside a
    window of at most four consecutive bytes. *)
Lemma crc32_update_burst c l1 w w' l2 :
  is_u32 c -> length w = length w' -> (length w <= 4)%nat -> w <> w' ->
  crc32_update c (l1 ++ w ++ l2) <> crc32_update c (l1 ++ w' ++ l2).
Proof.
  intros Hc Hlen H4 Hne. rewrite !crc32_update_app. intros H.
  pose proof (crc32_update_u32 c l1 Hc) as Hc1.
  apply crc32_update_inj in H; [|by apply crc32_update_u32..].
  rewrite (crc32_update_word w), (crc32_update_word w'), Hlen in H by (lia || done).
  assert (Hu : forall v : bytes, (length v <= 4)%nat -> is_u32 (le_value v)).
  { intros v Hv. pose proof (le_value_range v). unfold is_u32, u32_modulus.
    assert (256 ^ zlen v <= 256 ^ 4) by (apply Z.pow_le_mono_r; lia). lia. }
  apply crc32_bits_inj in H; [|apply is_u32_lxor; auto with lia..].
  rewrite !(Z.lxor_comm (crc32_update c l1)) in H. apply lxor_cancel_r in H.
  by apply Hne, le_value_inj.
Qed.
