(* ===== verification/CircularBuffer.v ===== *)
(** * CircularBuffer: the recent-message cache container

    Models src/src/storage/circular_buffer.h.  The backing vector is a list,
    [write_index] and [count] are the members of the class.  [represents]
    relates a buffer to the history of values pushed into it; the theorems
    show that [get_recent] returns the newest values of that history in
    chronological order, whatever the number of wrap-arounds. *)
From stdpp Require Import base list numbers strings.
From S2P Require Import Prelude.

Record CircularBuffer (T : Type) := mkCircularBuffer {
  entries : list T;
  write_index : nat;
  count : nat
}.
Arguments mkCircularBuffer {T}.
Arguments entries {T}.
Arguments write_index {T}.
Arguments count {T}.

Section CircularBuffer.
Context {T : Type} `{!Inhabited T}.
Implicit Types (b : CircularBuffer T) (hist : list T).

(** The constructor: [entries(capacity)] default-constructs the slots. *)
Definition new_buffer (capacity : nat) : outcome (CircularBuffer T) :=
  let b := mkCircularBuffer (replicate capacity inhabitant) 0 0 in
  if (capacity =? 0)%nat
  then Throw (invalid_argument (B "circular buffer capacity must be positive"))
  else Ok b.

Definition push (value : T) b : CircularBuffer T :=
  let entries' := <[write_index b := value]> (entries b) in
  let write_index' := (write_index b + 1) mod length entries' in
  let count' := if (count b <? length entries')%nat then S (count b) else count b in
  mkCircularBuffer entries' write_index' count'.

Definition get_recent (n : nat) b : list T :=
  let result_size := if (n <? count b)%nat then n else count b in
  let first := (write_index b + length (entries b) - result_size) mod length (entries b) in
  (fun index => entries b !!! ((first + index) mod length (entries b))) <$> seq 0 result_size.

Definition capacity b : nat := length (entries b).
Definition size b : nat := count b.

(** The newest [n] elements of a list, oldest first. *)
Definition newest (n : nat) (l : list T) : list T := drop (length l - n) l.

(** [b] holds the newest [capacity b] values of [hist]: value number [j] of
    the history is in slot [j mod capacity]. *)
Record represents b hist : Prop := {
  rep_capacity : 0 < length (entries b);
  rep_write_index : write_index b = length hist mod length (entries b);
  rep_count : count b = length (entries b) `min` length hist;
  rep_slots : forall j, length hist - count b <= j < length hist ->
              entries b !! (j mod length (entries b)) = hist !! j
}.

Lemma new_buffer_represents n b : new_buffer n = Ok b -> represents b [] /\ capacity b = n.
Proof.
  unfold new_buffer. destruct (Nat.eqb_spec n 0); intros; simplify_eq.
  unfold capacity; simpl. rewrite length_replicate. split; [|done].
  split; simpl; rewrite ?length_replicate, ?Nat.Div0.mod_0_l; lia.
Qed.

Lemma push_capacity x b : capacity (push x b) = capacity b.
Proof. unfold capacity; simpl. apply length_insert. Qed.

(** Two indices less than [n] apart are congruent modulo [n] only when equal. *)
Lemma mod_window_inj n i j : i mod n = j mod n -> i <= j < i + n -> i = j.
Proof.
  intros Hm Hij. assert (n <> 0) by lia.
  pose proof (Nat.div_mod i n). pose proof (Nat.div_mod j n).
  pose proof (Nat.mod_upper_bound i n). pose proof (Nat.mod_upper_bound j n).
  destruct (decide (i / n = j / n)) as [E|E]; [rewrite E in *; lia|nia].
Qed.

Lemma push_represents x b hist : represents b hist -> represents (push x b) (hist ++ [x]).
Proof.
  intros [Hcap Hwi Hct Hs]. set (n := length (entries b)) in *.
  assert (Hct' : count (push x b) = n `min` (length hist + 1)).
  { simpl. rewrite length_insert. fold n. destruct (Nat.ltb_spec (count b) n); lia. }
  split.
  - simpl. by rewrite length_insert.
  - simpl. rewrite length_insert, length_app. fold n. simpl.
    by rewrite Hwi, Nat.Div0.add_mod_idemp_l.
  - rewrite Hct'. simpl. by rewrite length_insert, length_app.
  - intros j. rewrite Hct'. simpl. rewrite length_app, length_insert. fold n. simpl. intros Hj.
    destruct (decide (j = length hist)) as [->|Hne].
    + rewrite Hwi, list_lookup_insert_eq by (apply Nat.mod_upper_bound; lia).
      by rewrite lookup_app_r, Nat.sub_diag by lia.
    + rewrite lookup_app_l, <- Hs by lia. apply list_lookup_insert_ne.
      rewrite Hwi. intros He. symmetry in He. apply mod_window_inj in He; lia.
Qed.

(** What is pushed after a history is appended to it. *)
Lemma push_list_represents l b hist :
  represents b hist -> represents (foldl (fun b x => push x b) b l) (hist ++ l).
Proof.
  revert b hist. induction l as [|x l IH]; intros b hist H; simpl.
  - by rewrite app_nil_r.
  - rewrite cons_middle, app_assoc. by apply IH, push_represents.
Qed.

Lemma push_list_capacity l b : capacity (foldl (fun b x => push x b) b l) = capacity b.
Proof. revert b. induction l as [|x l IH]; intros b; simpl; [done|]. by rewrite IH, push_capacity. Qed.

Lemma get_recent_represents n b hist :
  represents b hist -> get_recent n b = newest (n `min` capacity b) hist.
Proof.
  intros [Hcap Hwi Hct Hs]. unfold get_recent, newest, capacity.
  set (c := length (entries b)) in *.
  set (rs := if (n <? count b)%nat then n else count b).
  assert (Hrs : rs = n `min` (c `min` length hist)).
  { unfold rs. destruct (Nat.ltb_spec n (count b)); lia. }
  apply list_eq_same_length with (n := rs).
  - rewrite length_drop. lia.
  - by rewrite length_fmap, length_seq.
  - intros i x y Hi. rewrite list_lookup_fmap, lookup_seq_lt by done. simpl.
    intros [= <-]. rewrite lookup_drop. intros Hy.
    assert (Hmod : ((write_index b + c - rs) mod c + i) mod c =
                   (length hist - n `min` c + i) mod c).
    { rewrite Nat.Div0.add_mod_idemp_l, Hwi.
      pose proof (Nat.div_mod (length hist) c ltac:(lia)) as Hd.
      pose proof (Nat.mod_upper_bound (length hist) c ltac:(lia)).
      rewrite <- (Nat.Div0.mod_add (_ mod _ + c - rs + i) (length hist / c)).
      rewrite <- (Nat.Div0.mod_add (length hist - _ + i) 1). f_equal. nia. }
    rewrite Hmod, list_lookup_total_alt. fold c in Hs.
    rewrite Hs by (rewrite Hct; lia). by rewrite Hy.
Qed.
End CircularBuffer.
