(* ===== verification/Text.v ===== *)
(** * Text: the [std::string] and number-formatting operations the sources use

    [find] and [substr] of [std::string]/[string_view], [std::to_string] on
    integers, [std::from_chars] on [size_t] and zero padding.  A position is a
    [nat]; [std::string::npos] is [None]. *)
From stdpp Require Import base list numbers strings.
From Stdlib Require Import Strings.Byte.
From S2P Require Import Prelude.

Local Open Scope Z_scope.

(** ** Searching *)

Fixpoint starts_with (pat s : bytes) : bool :=
  match pat, s with
  | [], _ => true
  | p :: pat', c :: s' => bool_decide (p = c) && starts_with pat' s'
  | _ :: _, [] => false
  end.

(** [s.find(pat)]: the position of the first occurrence. *)
Fixpoint find (pat s : bytes) : option nat :=
  if starts_with pat s then Some 0%nat
  else match s with
       | [] => None
       | _ :: s' => S <$> find pat s'
       end.

(** [s.find(pat, pos)] for a non-empty [pat]. *)
Definition find_from (pat s : bytes) (pos : nat) : option nat :=
  Nat.add pos <$> find pat (drop pos s).

(** [s.find(c)] and [s.find(c, pos)] for a character. *)
Definition find_char (c : byte) (s : bytes) : option nat := find [c] s.
Definition find_char_from (c : byte) (s : bytes) (pos : nat) : option nat := find_from [c] s pos.

(** [s.substr(pos)] and [s.substr(pos, n)]. *)
Definition substr_from (s : bytes) (pos : nat) : bytes := drop pos s.
Definition substr (s : bytes) (pos n : nat) : bytes := take n (drop pos s).

Definition contains_char (c : byte) (s : bytes) : bool := bool_decide (is_Some (find_char c s)).

Fixpoint take_while (P : byte -> bool) (s : bytes) : bytes :=
  match s with
  | c :: s' => if P c then c :: take_while P s' else []
  | [] => []
  end.

Fixpoint drop_while (P : byte -> bool) (s : bytes) : bytes :=
  match s with
  | c :: s' => if P c then drop_while P s' else s
  | [] => []
  end.

(** ** Decimal numbers *)

Definition is_digit (c : byte) : bool := (48 <=? byte_to_Z c) && (byte_to_Z c <=? 57).
Definition digit_value (c : byte) : Z := byte_to_Z c - 48.
Definition digit_char (d : Z) : byte := byte_of_Z (48 + d).

Definition decimal_value (s : bytes) : Z := foldl (fun v c => v * 10 + digit_value c) 0 s.

Fixpoint decimal_digits (fuel : nat) (n : Z) (acc : bytes) : bytes :=
  match fuel with
  | O => acc
  | S fuel =>
      let acc := digit_char (n mod 10) :: acc in
      if n / 10 =? 0 then acc else decimal_digits fuel (n / 10) acc
  end.

(** [std::to_string]; a number of [k] bits has at most [k] digits. *)
Definition decimal (n : Z) : bytes := decimal_digits (S (Z.to_nat (Z.log2 n))) n [].
Definition to_string (n : Z) : bytes := if n <? 0 then x2d :: decimal (- n) else decimal n.

(** [%0<width>u] of [printf]. *)
Definition pad_zero (width : nat) (s : bytes) : bytes := replicate (width - length s) x30 ++ s.

(** [std::from_chars] for [std::size_t]: the longest digit prefix, an error
    code and the number of characters consumed. *)
Inductive errc := errc_ok | errc_invalid_argument | errc_result_out_of_range.
#[export] Instance errc_eq_dec : EqDecision errc.
Proof. solve_decision. Defined.

Record from_chars_result := { ec : errc; ptr : nat; parsed : option Z }.

Definition from_chars (s : bytes) : from_chars_result :=
  let digits := take_while is_digit s in
  match digits with
  | [] => {| ec := errc_invalid_argument; ptr := 0; parsed := None |}
  | _ =>
      if u64_max <? decimal_value digits
      then {| ec := errc_result_out_of_range; ptr := length digits; parsed := None |}
      else {| ec := errc_ok; ptr := length digits; parsed := Some (decimal_value digits) |}
  end.

(** ** Lemmas *)

Lemma starts_with_spec pat s : starts_with pat s = true <-> exists k, s = pat ++ k.
Proof.
  revert s. induction pat as [|p pat IH]; intros s; simpl.
  { split; [by exists s|done]. }
  destruct s as [|c s]; simpl; [by split; [|intros [k Hk]]|].
  rewrite andb_true_iff, bool_decide_eq_true, IH. split.
  - intros [-> [k ->]]. by exists k.
  - intros [k [= -> ->]]. split; [done|by exists k].
Qed.

Lemma starts_with_app_true pat s k : starts_with pat s = true -> starts_with pat (s ++ k) = true.
Proof. rewrite !starts_with_spec. intros [j ->]. exists (j ++ k). by rewrite app_assoc. Qed.

Lemma starts_with_app_false pat s k :
  (length pat <= length s)%nat -> starts_with pat (s ++ k) = starts_with pat s.
Proof.
  revert s. induction pat as [|p pat IH]; intros [|c s] H; simpl in *; try done; try lia.
  by rewrite IH by lia.
Qed.

Lemma find_Some pat s i :
  find pat s = Some i ->
  exists k, s = take i s ++ pat ++ k /\ (i + length pat <= length s)%nat.
Proof.
  revert i. induction s as [|c s IH]; intros i; cbn [find].
  - destruct (starts_with pat []) eqn:E; [|done]. apply starts_with_spec in E as [k E].
    intros [= <-]. symmetry in E. apply app_eq_nil in E as [-> ->]. by exists [].
  - destruct (starts_with pat (c :: s)) eqn:E.
    + intros [= <-]. apply starts_with_spec in E as [k E]. exists k. rewrite E, length_app.
      split; [done|lia].
    + intros (j & Hj & ->)%fmap_Some. destruct (IH j Hj) as (k & Hk & Hl).
      exists k. simpl. rewrite <- Hk. split; [done|lia].
Qed.

(** The first occurrence is not moved by what follows it. *)
Lemma find_app_Some pat s k i : find pat s = Some i -> find pat (s ++ k) = Some i.
Proof.
  revert i. induction s as [|c s IH]; intros i; cbn [find app].
  - destruct (starts_with pat []) eqn:E; [|done]. intros [= <-].
    assert (pat = []) as -> by (destruct pat; done). by destruct k.
  - destruct (starts_with pat (c :: s)) eqn:E.
    + intros [= <-]. change (c :: s ++ k) with ((c :: s) ++ k).
      by rewrite starts_with_app_true.
    + intros (j & Hj & ->)%fmap_Some. pose proof (find_Some _ _ _ Hj) as (? & ? & Hl).
      change (c :: s ++ k) with ((c :: s) ++ k).
      rewrite starts_with_app_false, E by (simpl; lia). by rewrite (IH j Hj).
Qed.

(** An occurrence found in an extension of [s] that does not fit in [s] was
    not in [s]; one that fits was. *)
Lemma find_app_inv pat s k i :
  find pat (s ++ k) = Some i -> (i + length pat <= length s)%nat -> find pat s = Some i.
Proof.
  revert i. induction s as [|c s IH]; intros i; cbn [find app].
  - intros H Hl. simpl in Hl. assert (i = 0%nat /\ pat = []) as [-> ->]; [|done].
    destruct pat; simpl in Hl; [split; [lia|done]|lia].
  - intros H Hl. simpl in Hl. change (c :: s ++ k) with ((c :: s) ++ k) in H.
    destruct (decide (length pat <= length (c :: s))%nat) as [Hp|Hp]; [|simpl in Hp; lia].
    rewrite starts_with_app_false in H by done.
    destruct (starts_with pat (c :: s)) eqn:E; [done|].
    apply fmap_Some in H as (j & Hj & ->). rewrite (IH j Hj); [done|lia].
Qed.

Lemma find_app_None pat s k i :
  find pat s = None -> find pat (s ++ k) = Some i -> (length s < i + length pat)%nat.
Proof.
  intros Hn Hs. destruct (decide (i + length pat <= length s)%nat); [|lia].
  rewrite (find_app_inv pat s k i) in Hn by done. done.
Qed.

Lemma find_from_Some pat s pos i :
  find_from pat s pos = Some i -> (pos <= i)%nat.
Proof. unfold find_from. intros (j & _ & ->)%fmap_Some. lia. Qed.

(** A character that does not occur is not found, and the first one is. *)
Lemma find_char_None c s : c ∉ s -> find_char c s = None.
Proof.
  induction s as [|d s IH]; intros H; [done|]. cbn.
  apply not_elem_of_cons in H as [H1 H2].
  rewrite bool_decide_eq_false_2 by done. unfold find_char in IH. cbn. by rewrite IH.
Qed.

Lemma find_char_app c s k : c ∉ s -> find_char c (s ++ c :: k) = Some (length s).
Proof.
  induction s as [|d s IH]; intros H; cbn.
  - by rewrite bool_decide_eq_true_2.
  - apply not_elem_of_cons in H as [H1 H2].
    rewrite bool_decide_eq_false_2 by done. unfold find_char in IH. cbn. by rewrite IH.
Qed.

Lemma digit_char_digit d : 0 <= d < 10 -> is_digit (digit_char d) = true.
Proof. intros. unfold is_digit, digit_char. rewrite byte_to_of_Z, Z.mod_small by lia. lia. Qed.

Lemma digit_value_char d : 0 <= d < 10 -> digit_value (digit_char d) = d.
Proof. intros. unfold digit_value, digit_char. rewrite byte_to_of_Z, Z.mod_small by lia. lia. Qed.

Lemma digit_value_range c : is_digit c = true -> 0 <= digit_value c < 10.
Proof. unfold is_digit, digit_value. lia. Qed.

Lemma digit_char_value c : is_digit c = true -> digit_char (digit_value c) = c.
Proof.
  intros. apply byte_to_Z_inj. pose proof (digit_value_range c H).
  unfold digit_char, digit_value in *. rewrite byte_to_of_Z, Z.mod_small; lia.
Qed.

Lemma decimal_value_snoc l c : decimal_value (l ++ [c]) = decimal_value l * 10 + digit_value c.
Proof. unfold decimal_value. by rewrite foldl_app. Qed.

Lemma pow10_snoc (l : bytes) (c : byte) : 10 ^ zlen (l ++ [c]) = 10 ^ zlen l * 10.
Proof. rewrite length_app, Nat2Z.inj_add, Z.pow_add_r by lia. done. Qed.

Lemma decimal_value_app l1 l2 :
  decimal_value (l1 ++ l2) = decimal_value l1 * 10 ^ zlen l2 + decimal_value l2.
Proof.
  induction l2 as [|c l2 IH] using rev_ind.
  - rewrite app_nil_r. change (decimal_value []) with 0.
    change (10 ^ zlen ([] : bytes)) with 1. lia.
  - rewrite app_assoc, !decimal_value_snoc, IH, pow10_snoc. lia.
Qed.

Lemma decimal_value_range l :
  Forall (fun c => is_digit c = true) l -> 0 <= decimal_value l < 10 ^ zlen l.
Proof.
  induction l as [|c l IH] using rev_ind; [done|].
  intros [Hl Hc]%Forall_app. apply Forall_cons in Hc as [Hc _]. specialize (IH Hl).
  rewrite decimal_value_snoc, pow10_snoc. pose proof (digit_value_range c Hc). lia.
Qed.

(** What the digit loop accumulates: the digits of [n] in front of [acc]. *)
Lemma decimal_digits_spec fuel n acc :
  0 <= n < 2 ^ Z.of_nat fuel -> (0 < fuel)%nat ->
  exists ds, decimal_digits fuel n acc = ds ++ acc /\ decimal_value ds = n /\
    Forall (fun c => is_digit c = true) ds /\ (0 < length ds)%nat /\
    (forall k, n < 10 ^ Z.of_nat k -> (0 < k)%nat -> (length ds <= k)%nat).
Proof.
  revert n acc. induction fuel as [|fuel IH]; intros n acc Hn Hf; [lia|].
  cbn [decimal_digits].
  assert (Hm : 0 <= n mod 10 < 10) by (apply Z.mod_pos_bound; lia).
  pose proof (Z.div_mod n 10 ltac:(lia)) as Hdm.
  destruct (Z.eqb_spec (n / 10) 0) as [Hz|Hz].
  - exists [digit_char (n mod 10)]. unfold decimal_value. simpl.
    rewrite digit_value_char by lia. repeat split; try lia.
    repeat constructor. by apply digit_char_digit.
  - rewrite Nat2Z.inj_succ, Z.pow_succ_r in Hn by lia.
    assert (Hd : 0 < n / 10 < 2 ^ Z.of_nat fuel) by lia.
    assert (Hf' : (0 < fuel)%nat) by (destruct fuel; [simpl in Hd; lia|lia]).
    destruct (IH (n / 10) (digit_char (n mod 10) :: acc)) as (ds & -> & Hv & Hds & Hl & Hk);
      [lia|done|].
    exists (ds ++ [digit_char (n mod 10)]). rewrite <- app_assoc. split; [done|].
    rewrite decimal_value_snoc, Hv, length_app. simpl. rewrite digit_value_char by lia. repeat split; try lia.
    + apply Forall_app_2; [done|]. repeat constructor. by apply digit_char_digit.
    + intros [|k] Hnk Hk0; [lia|]. rewrite Nat2Z.inj_succ, Z.pow_succ_r in Hnk by lia.
      assert (Hk' : (0 < k)%nat) by (destruct k; [simpl in Hnk; lia|lia]).
      specialize (Hk k). lia.
Qed.

Lemma decimal_spec n :
  0 <= n ->
  decimal_value (decimal n) = n /\ Forall (fun c => is_digit c = true) (decimal n) /\
  (0 < length (decimal n))%nat /\
  (forall k, n < 10 ^ Z.of_nat k -> (0 < k)%nat -> (length (decimal n) <= k)%nat).
Proof.
  intros Hn. unfold decimal.
  destruct (decimal_digits_spec (S (Z.to_nat (Z.log2 n))) n []) as (ds & -> & ?); [|lia|].
  - rewrite Nat2Z.inj_succ, Z2Nat.id by apply Z.log2_nonneg. split; [done|].
    destruct (decide (n = 0)) as [->|]; [done|]. apply Z.log2_spec. lia.
  - by rewrite app_nil_r.
Qed.

Lemma to_string_decimal n : 0 <= n -> to_string n = decimal n.
Proof. intros. unfold to_string. by destruct (Z.ltb_spec n 0); [lia|]. Qed.

Lemma take_while_Forall P s : Forall (fun c => P c = true) (take_while P s).
Proof. induction s as [|c s IH]; simpl; [constructor|]. destruct (P c) eqn:E; by constructor. Qed.

Lemma drop_while_app P s k :
  Forall (fun c => P c = true) s -> match k with c :: _ => P c = false | [] => True end ->
  drop_while P (s ++ k) = k.
Proof.
  induction 1 as [|c s Hc _ IH]; intros Hk; simpl.
  - destruct k as [|d k]; simpl; [done|]. by rewrite Hk.
  - by rewrite Hc, IH.
Qed.

Lemma drop_while_none P s :
  match s with c :: _ => P c = false | [] => True end -> drop_while P s = s.
Proof. destruct s as [|c s]; simpl; [done|]. by intros ->. Qed.

Lemma take_while_all P s : Forall (fun c => P c = true) s -> take_while P s = s.
Proof. induction 1 as [|c s Hc _ IH]; simpl; [done|]. by rewrite Hc, IH. Qed.

Lemma take_while_app P s c k :
  Forall (fun c => P c = true) s -> P c = false -> take_while P (s ++ c :: k) = s.
Proof.
  induction 1 as [|d s Hd _ IH]; intros Hc; simpl; [by rewrite Hc|]. by rewrite Hd, IH.
Qed.

Lemma from_chars_digits s :
  Forall (fun c => is_digit c = true) s -> (0 < length s)%nat -> decimal_value s <= u64_max ->
  from_chars s = {| ec := errc_ok; ptr := length s; parsed := Some (decimal_value s) |}.
Proof.
  intros Hs Hl Hv. unfold from_chars. rewrite take_while_all by done.
  destruct s as [|c s]; [simpl in Hl; lia|].
  by destruct (Z.ltb_spec u64_max (decimal_value (c :: s))); [lia|].
Qed.

Lemma from_chars_to_string n :
  0 <= n <= u64_max ->
  from_chars (to_string n) =
  {| ec := errc_ok; ptr := length (to_string n); parsed := Some n |}.
Proof.
  intros Hn. rewrite to_string_decimal by lia.
  destruct (decimal_spec n) as (Hv & Hd & Hl & _); [lia|].
  rewrite from_chars_digits by (done || lia). by rewrite Hv.
Qed.

Lemma decimal_value_inj l l' :
  Forall (fun c => is_digit c = true) l -> Forall (fun c => is_digit c = true) l' ->
  length l = length l' -> decimal_value l = decimal_value l' -> l = l'.
Proof.
  revert l'. induction l as [|c l IH] using rev_ind; intros l' Hl Hl' Hlen Hv.
  { by destruct l'. }
  destruct l' as [|c' l' _] using rev_ind; rewrite !length_app in Hlen; simpl in Hlen; [lia|].
  apply Forall_app in Hl as [Hl Hc], Hl' as [Hl' Hc'].
  apply Forall_cons in Hc as [Hc _], Hc' as [Hc' _].
  rewrite !decimal_value_snoc in Hv.
  pose proof (digit_value_range c Hc). pose proof (digit_value_range c' Hc').
  assert (decimal_value l = decimal_value l' /\ digit_value c = digit_value c') as [Hll Hcc] by lia.
  rewrite (IH l') by (done || lia).
  by rewrite <- (digit_char_value c), <- (digit_char_value c'), Hcc.
Qed.

Lemma decimal_value_zeros n l : decimal_value (replicate n x30 ++ l) = decimal_value l.
Proof.
  rewrite decimal_value_app. replace (decimal_value (replicate n x30)) with 0; [lia|].
  induction n as [|n IH]; [done|].
  by rewrite replicate_S_end, decimal_value_snoc, <- IH.
Qed.

(** A number below [10 ^ width] padded to [width] digits. *)
Lemma pad_zero_spec width n :
  0 <= n < 10 ^ Z.of_nat width -> (0 < width)%nat ->
  length (pad_zero width (decimal n)) = width /\
  Forall (fun c => is_digit c = true) (pad_zero width (decimal n)) /\
  decimal_value (pad_zero width (decimal n)) = n.
Proof.
  intros Hn Hw. destruct (decimal_spec n) as (Hv & Hd & Hl & Hk); [lia|].
  specialize (Hk width ltac:(lia) Hw). unfold pad_zero.
  split_and!.
  - rewrite length_app, length_replicate. lia.
  - apply Forall_app_2; [by apply Forall_replicate|done].
  - by rewrite decimal_value_zeros.
Qed.

Lemma pad_zero_value width s :
  length s = width -> (0 < width)%nat -> Forall (fun c => is_digit c = true) s ->
  pad_zero width (decimal (decimal_value s)) = s.
Proof.
  intros Hl Hw Hs. pose proof (decimal_value_range s Hs) as Hr. rewrite Hl in Hr.
  destruct (pad_zero_spec width (decimal_value s) Hr Hw) as (Hpl & Hpd & Hpv).
  apply decimal_value_inj; [done|done|congruence|done].
Qed.
