(* ===== verification/Os.v ===== *)
(** * Os: the part of the operating system the storage layer calls

    The log directory as a finite map from file names to entries, the page
    cache and what of it has reached stable storage, the open descriptors, and
    a script of outcomes for the system calls.  Each call takes the next
    outcome of the script; an exhausted script means success, so a world with
    an empty script is one in which the operating system never fails.  The
    descriptors and mappings the log creates refer to one file each, so a
    descriptor is represented by the name of the file it is open on.
    Nothing in this file models code of the repository: it is the environment
    the definitions of [MmapLog] run in. *)
From stdpp Require Import base gmap list numbers strings.
From Stdlib Require Import Strings.Byte.
From S2P Require Import Prelude Text.

Local Open Scope Z_scope.

Inductive dir_entry :=
| Regular (content : bytes)
| Other.

Inductive sys_event :=
| SysOk
(** A successful [pread] that transfers at most [S n] bytes. *)
| SysShort (n : nat)
| SysErr (code : Z).

Definition EINTR : Z := 4.
Definition ENOENT : Z := 2.
Definition EEXIST : Z := 17.
Definition EISDIR : Z := 21.

Record world := mkWorld {
  (** The directory as the processes see it. *)
  files : gmap bytes dir_entry;
  (** File contents that survive a power failure. *)
  disk : gmap bytes bytes;
  (** Directory entries that survive a power failure. *)
  disk_names : gset bytes;
  (** Open descriptors, each as the name it is open on. *)
  fds : list bytes;
  (** Outcomes of the coming system calls. *)
  script : list sys_event
}.

Definition set_files f w := mkWorld f (disk w) (disk_names w) (fds w) (script w).
Definition set_disk d w := mkWorld (files w) d (disk_names w) (fds w) (script w).
Definition set_disk_names n w := mkWorld (files w) (disk w) n (fds w) (script w).
Definition set_fds l w := mkWorld (files w) (disk w) (disk_names w) l (script w).
Definition set_script s w := mkWorld (files w) (disk w) (disk_names w) (fds w) s.

(** The name of the log directory itself, for its descriptor. *)
Definition directory_name : bytes := B ".".

(** The next scripted outcome as an error code, [None] for success. *)
Definition sys_next : stm world (option Z) := fun w =>
  match script w with
  | [] => (Ok None, w)
  | SysErr code :: rest => (Ok (Some code), set_script rest w)
  | _ :: rest => (Ok None, set_script rest w)
  end.

Definition content_of (name : bytes) (w : world) : bytes :=
  match files w !! name with Some (Regular c) => c | _ => [] end.

(** [::open(path, O_RDWR | O_CREAT | O_EXCL | O_CLOEXEC, 0644)] *)
Definition sys_open_excl (name : bytes) : stm world (option Z) :=
  r ← sys_next;
  match r with
  | Some code => mret (Some code)
  | None => w ← get;
      match files w !! name with
      | Some _ => mret (Some EEXIST)
      | None => modify (set_files (<[name := Regular []]> (files w)));;
                modify (set_fds (name :: fds w));; mret None
      end
  end.

(** [::open(path, O_RDWR | O_CLOEXEC)] *)
Definition sys_open (name : bytes) : stm world (option Z) :=
  r ← sys_next;
  match r with
  | Some code => mret (Some code)
  | None => w ← get;
      match files w !! name with
      | None => mret (Some ENOENT)
      | Some Other => mret (Some EISDIR)
      | Some (Regular _) => modify (set_fds (name :: fds w));; mret None
      end
  end.

(** [::open(directory, O_RDONLY | O_DIRECTORY | O_CLOEXEC)] *)
Definition sys_open_directory : stm world (option Z) :=
  r ← sys_next;
  match r with
  | Some code => mret (Some code)
  | None => w ← get; modify (set_fds (directory_name :: fds w));; mret None
  end.

Fixpoint remove_one (x : bytes) (l : list bytes) : list bytes :=
  match l with
  | [] => []
  | y :: l' => if decide (x = y) then l' else y :: remove_one x l'
  end.

(** [::close(fd)]: the descriptor is released also when an error is reported. *)
Definition sys_close (name : bytes) : stm world (option Z) :=
  r ← sys_next; w ← get; modify (set_fds (remove_one name (fds w)));; mret r.

Definition resize (n : nat) (c : bytes) : bytes := take n c ++ replicate (n - length c) x00.

Definition sys_ftruncate (name : bytes) (size : Z) : stm world (option Z) :=
  r ← sys_next;
  match r with
  | Some code => mret (Some code)
  | None => w ← get;
      modify (set_files (<[name := Regular (resize (Z.to_nat size) (content_of name w))]> (files w)));;
      mret None
  end.

(** [mmap], [munmap]: only success or failure is observable here, since a
    shared mapping of a file reads and writes that file's page cache. *)
Definition sys_mmap : stm world (option Z) := sys_next.
Definition sys_munmap : stm world (option Z) := sys_next.

(** [msync(.., MS_SYNC)] and [fsync] of a file: on success its contents are
    on stable storage. *)
Definition sys_sync (name : bytes) : stm world (option Z) :=
  r ← sys_next;
  match r with
  | Some code => mret (Some code)
  | None => w ← get; modify (set_disk (<[name := content_of name w]> (disk w)));; mret None
  end.

(** [fsync] of the directory descriptor. *)
Definition sys_sync_directory : stm world (option Z) :=
  r ← sys_next;
  match r with
  | Some code => mret (Some code)
  | None => w ← get; modify (set_disk_names (dom (files w)));; mret None
  end.

(** [fstat(fd)]: the size. *)
Definition sys_fstat (name : bytes) : stm world (Z + Z) :=
  r ← sys_next;
  match r with
  | Some code => mret (inr code)
  | None => w ← get; mret (inl (zlen (content_of name w)))
  end.

(** [std::filesystem::remove(path)] *)
Definition fs_remove (name : bytes) : stm world unit :=
  r ← sys_next;
  match r with
  | Some code => throw (filesystem_error code (B "cannot remove"))
  | None => w ← get; modify (set_files (delete name (files w)))
  end.

(** [std::filesystem::create_directories(directory)] *)
Definition fs_create_directories : stm world unit :=
  r ← sys_next;
  match r with
  | Some code => throw (filesystem_error code (B "cannot create directories"))
  | None => mret tt
  end.

(** The entries a [directory_iterator] visits, in some order. *)
Definition fs_list : stm world (list (bytes * dir_entry)) :=
  r ← sys_next;
  match r with
  | Some code => throw (filesystem_error code (B "directory iterator cannot open directory"))
  | None => gets (fun w => map_to_list (files w))
  end.

(** [std::filesystem::file_size(path, error)] *)
Definition fs_file_size (name : bytes) : stm world (Z + Z) :=
  r ← sys_next;
  match r with
  | Some code => mret (inr code)
  | None => w ← get;
      match files w !! name with
      | Some (Regular c) => mret (inl (zlen c))
      | Some Other => mret (inr EISDIR)
      | None => mret (inr ENOENT)
      end
  end.

(** A world in which no call fails and [pread] transfers what is asked. *)
Definition reliable (w : world) : Prop := script w = [].
