(* ===== verification/MmapLog.v ===== *)
(** * MmapLog: the segmented, memory-mapped message log

    Models src/src/storage/mmap_log.h and mmap_log.cpp: the on-disk headers,
    [open] with recovery, [append] with rollover, [flush], [close] and the
    accessors, as computations over the members of [MemoryMappedLog] and the
    operating system of [Os].  The log directory is the directory of [Os], so
    a path is its file name.  The mutex of the class serialises the public
    operations; each is one computation here. *)
From stdpp Require Import base gmap list numbers sorting strings.
From Stdlib Require Import Strings.Byte.
From S2P Require Import Prelude Codec Text CircularBuffer Os.

Local Open Scope Z_scope.

(** ** Data *)

Definition segment_magic : bytes := B "IOTLOG01".
Definition segment_version : Z := 1.
Definition record_magic : Z := 0x31434552.
Definition segment_header_size : Z := 40.
Definition record_header_size : Z := 32.
Definition record_version_size : Z := record_header_size.
Definition maximum_segment_id : Z := 99999999.

Record Message := mkMessage {
  offset : Z;
  timestamp_ns : Z;
  payload_length : Z;
  payload : bytes
}.
#[export] Instance message_inhabited : Inhabited Message := populate (mkMessage 0 0 0 []).

Record LogSegmentInfo := mkInfo {
  segment_id : Z;
  first_offset : Z;
  end_offset : Z;
  valid_bytes : Z;
  path : bytes
}.

(** [struct Mapping]: [fd] is [None] for -1, [data] is [false] for [nullptr]. *)
Record Mapping := mkMapping {
  fd : option bytes;
  data : bool;
  map_size : Z;
  map_path : bytes;
  map_segment_id : Z;
  base_offset : Z;
  write_position : Z
}.
Definition empty_mapping : Mapping := mkMapping None false 0 [] 0 0 segment_header_size.

Record MemoryMappedLog := mkLog {
  segment_size : Z;
  next_message_offset : Z;
  active : Mapping;
  segment_index : list LogSegmentInfo;
  recent_cache : CircularBuffer Message;
  opened : bool
}.

(** A default-constructed log; [recent_cache{1}]. *)
Definition empty_log : MemoryMappedLog :=
  mkLog 0 0 empty_mapping [] (mkCircularBuffer [inhabitant] 0 0) false.

Definition set_segment_size x l :=
  mkLog x (next_message_offset l) (active l) (segment_index l) (recent_cache l) (opened l).
Definition set_next_message_offset x l :=
  mkLog (segment_size l) x (active l) (segment_index l) (recent_cache l) (opened l).
Definition set_active x l :=
  mkLog (segment_size l) (next_message_offset l) x (segment_index l) (recent_cache l) (opened l).
Definition set_segment_index x l :=
  mkLog (segment_size l) (next_message_offset l) (active l) x (recent_cache l) (opened l).
Definition set_recent_cache x l :=
  mkLog (segment_size l) (next_message_offset l) (active l) (segment_index l) x (opened l).
Definition set_opened x l :=
  mkLog (segment_size l) (next_message_offset l) (active l) (segment_index l) (recent_cache l) x.

Definition set_fd x m :=
  mkMapping x (data m) (map_size m) (map_path m) (map_segment_id m) (base_offset m) (write_position m).
Definition set_data x m :=
  mkMapping (fd m) x (map_size m) (map_path m) (map_segment_id m) (base_offset m) (write_position m).
Definition set_map_size x m :=
  mkMapping (fd m) (data m) x (map_path m) (map_segment_id m) (base_offset m) (write_position m).
Definition set_write_position x m :=
  mkMapping (fd m) (data m) (map_size m) (map_path m) (map_segment_id m) (base_offset m) x.

(** The state of a computation: the members of the log and the world. *)
Record state := mkState { log : MemoryMappedLog; os : world }.
Abbreviation LogM := (stm state).

Definition lift_os {A} (m : stm world A) : LogM A := fun s =>
  let '(r, w) := m (os s) in (r, mkState (log s) w).
Definition modify_log (f : MemoryMappedLog -> MemoryMappedLog) : LogM unit :=
  modify (fun s => mkState (f (log s)) (os s)).
Definition get_log {A} (f : MemoryMappedLog -> A) : LogM A := gets (fun s => f (log s)).

(** [throw_errno(operation, path)], with the error number that was set. *)
Definition throw_errno {A} (code : Z) (operation path : bytes) : LogM A :=
  throw (system_error code (operation ++ B " " ++ path)).

(** ** File names *)

(** [snprintf("log-%08u.seg", segment_id)] *)
Definition segment_path (id : Z) : bytes := B "log-" ++ pad_zero 8 (decimal id) ++ B ".seg".

Fixpoint parse_id_digits (s : bytes) (parsed : Z) : option Z :=
  match s with
  | [] => Some parsed
  | c :: s' =>
      if is_digit c then parse_id_digits s' ((parsed * 10 + digit_value c) mod u32_modulus)
      else None
  end.

Definition parse_segment_id (name : bytes) : option Z :=
  if negb (length name =? 16)%nat ||
     negb (bool_decide (substr name 0 4 = B "log-")) ||
     negb (bool_decide (substr name 12 4 = B ".seg"))
  then None
  else parse_id_digits (substr name 4 8) 0.

(** ** Headers *)

(** The record header [append] fills, fields in store order. *)
Definition record_header (message_offset timestamp_ns : Z) (payload : bytes) : bytes :=
  let header := replicate 32 x00 in
  let header := put_u32 header 0 record_magic in
  let header := put_u32 header 4 record_version_size in
  let header := put_u64 header 8 message_offset in
  let header := put_u64 header 16 timestamp_ns in
  let header := put_u32 header 24 (zlen payload mod u32_modulus) in
  put_u32 header 28 (record_crc header payload).

(** The segment header [create_segment] fills. *)
Definition segment_header (id base_offset segment_size : Z) : bytes :=
  let header := replicate 40 x00 in
  let header := store header 0 segment_magic in
  let header := put_u32 header 8 segment_version in
  let header := put_u32 header 12 id in
  let header := put_u64 header 16 base_offset in
  let header := put_u64 header 24 segment_size in
  put_u32 header 32 (segment_crc header).

(** ** Reading files *)

(** The loop of [pread_all]: [content] is the file, [remaining] the bytes still
    wanted at [offset], [acc] what was read.  Returns the error number of the
    failing [pread], if any, the bytes read and the rest of the script. *)
Fixpoint pread_loop (events : list sys_event) (content : bytes) (offset remaining : nat)
    (acc : bytes) : option Z * bytes * list sys_event :=
  match events with
  | [] => (None, acc ++ take remaining (drop offset content), [])
  | event :: rest =>
      if (remaining =? 0)%nat then (None, acc, events) else
      match event with
      | SysErr code =>
          if (code =? EINTR)%Z then pread_loop rest content offset remaining acc
          else (Some code, acc, rest)
      | _ =>
          let limit := match event with SysShort n => S n `min` remaining | _ => remaining end in
          let chunk := take limit (drop offset content) in
          match chunk with
          | [] => (None, acc, rest)
          | _ => pread_loop rest content (offset + length chunk)
                            (remaining - length chunk) (acc ++ chunk)
          end
      end
  end%nat.

Definition pread_all (name : bytes) (length : nat) (offset : Z) : stm world (option Z * bytes) :=
  fun w =>
    let '(err, out, rest) := pread_loop (script w) (content_of name w) (Z.to_nat offset) length [] in
    (Ok (err, out), set_script rest w).

Definition all_zero (l : bytes) : bool := forallb (fun b => bool_decide (b = x00)) l.

(** The loop of [zero_tail], one chunk of at most 4096 bytes per iteration. *)
Fixpoint zero_tail_loop (fuel : nat) (name : bytes) (offset length : Z) : LogM bool :=
  match fuel with
  | O => mret true
  | S fuel =>
      if length =? 0 then mret true else
      let chunk := Z.min length 4096 in
      '(err, out) ← lift_os (pread_all name (Z.to_nat chunk) offset);
      match err with
      | Some code => throw_errno code (B "pread") name
      | None =>
          if negb (zlen out =? chunk)
          then throw (runtime_error (B "unable to read segment tail: " ++ name))
          else if negb (all_zero out) then mret false
          else zero_tail_loop fuel name (u64_add offset chunk) (u64_sub length chunk)
      end
  end.

(** [length / 4096 + 2] iterations read everything. *)
Definition zero_tail (name : bytes) (offset length : Z) : LogM bool :=
  zero_tail_loop (Z.to_nat (length / 4096) + 2) name offset length.

(** ** Recovery *)

(** [::close(fd); throw std::runtime_error(message + path)] *)
Definition close_throw {A} (name message : bytes) : LogM A :=
  lift_os (sys_close name);; throw (runtime_error (message ++ name)).

(** [saved_errno = errno; ::close(fd); errno = saved_errno; throw_errno(operation, path)] *)
Definition close_throw_errno {A} (name : bytes) (code : Z) (operation : bytes) : LogM A :=
  lift_os (sys_close name);; throw_errno code operation name.

(** The record loop of [scan_segment]: returns the position and the offset after
    the last valid record, and [truncate_tail]. *)
Fixpoint scan_loop (fuel : nat) (name : bytes) (is_latest : bool) (segment_size actual_size : Z)
    (position expected_offset : Z) : LogM (Z * Z * bool) :=
  match fuel with
  | O => mret (position, expected_offset, false)
  | S fuel =>
    if negb (u64_add position record_header_size <=? actual_size)
    then mret (position, expected_offset, false)
    else
    '(err, out) ← lift_os (pread_all name 32 position);
    match err with
    | Some code => close_throw_errno name code (B "pread")
    | None =>
      if (length out =? 0)%nat then mret (position, expected_offset, false) else
      let header := resize 32 out in
      if get_u32 header 0 =? 0 then
        zero ← zero_tail name position (u64_sub actual_size position);
        if (zero : bool) then mret (position, expected_offset, false)
        else if negb is_latest then close_throw name (B "corrupt tail in sealed segment: ")
        else mret (position, expected_offset, true)
      else
      let valid := (length out =? 32)%nat && (get_u32 header 0 =? record_magic) &&
                   (get_u32 header 4 =? record_version_size) &&
                   (get_u64 header 8 =? expected_offset) in
      let payload_length := if valid then get_u32 header 24 else 0 in
      let total_record_size := u64_add record_header_size payload_length in
      let valid := valid && (total_record_size <=? u64_sub segment_size position) &&
                   (u64_add position total_record_size <=? actual_size) in
      '(valid, payload) ←
        (if valid then
           '(err, out) ← (if payload_length =? 0 then mret (None, [])
                          else lift_os (pread_all name (Z.to_nat payload_length)
                                          (u64_add position record_header_size))
                          : LogM (option Z * bytes));
           match err with
           | Some code => close_throw_errno name code (B "pread")
           | None =>
               mret ((zlen out =? payload_length) &&
                     (get_u32 header 28 =? record_crc header out), out)
           end
         else mret (false, []) : LogM (bool * bytes));
      if negb (valid : bool) then
        if negb is_latest then close_throw name (B "corrupt record in sealed segment: ")
        else mret (position, expected_offset, true)
      else if u64_sub u64_max total_record_size <? expected_offset then
        close_throw name (B "record offsets overflow in segment: ")
      else
      let message := mkMessage expected_offset (get_u64 header 16) payload_length payload in
      modify_log (fun l => set_recent_cache (push message (recent_cache l)) l);;
      scan_loop fuel name is_latest segment_size actual_size
        (u64_add position total_record_size) (u64_add expected_offset total_record_size)
    end
  end.

(** Every record occupies at least 32 bytes, which bounds the iterations. *)
Definition scan_fuel (actual_size : Z) : nat := S (Z.to_nat (actual_size / 32)).

(** The check of the bytes after the last position where a header fits. *)
Definition scan_tail (name : bytes) (is_latest : bool) (actual_size position : Z)
    (truncate_tail : bool) : LogM bool :=
  if (position <? actual_size) && (actual_size <? u64_add position record_header_size) then
    let tail_size := u64_sub actual_size position in
    '(err, out) ← lift_os (pread_all name (Z.to_nat tail_size) position);
    match err with
    | Some code => close_throw_errno name code (B "pread")
    | None =>
        let tail := resize 32 out in
        if all_zero (take (Z.to_nat tail_size) tail) then mret truncate_tail
        else if negb is_latest then close_throw name (B "truncated record in sealed segment: ")
        else mret true
    end
  else mret truncate_tail.

(** [scan_segment]: returns the new [expected_offset] and the completed [info]. *)
Definition scan_segment (name : bytes) (expected_id : Z) (is_latest : bool)
    (expected_offset : Z) (info : LogSegmentInfo) : LogM (Z * LogSegmentInfo) :=
  r ← lift_os (sys_open name);
  match r with Some code => throw_errno code (B "open") name | None =>
  st_size ← lift_os (sys_fstat name);
  match st_size with inr code => close_throw_errno name code (B "fstat") | inl st_size =>
  if st_size <? segment_header_size
  then close_throw name (B "segment header is truncated: ") else
  '(err, out) ← lift_os (pread_all name 40 0);
  if negb (bool_decide (err = None)) || negb (length out =? 40)%nat
  then close_throw name (B "unable to read segment header: ") else
  segment_size ← get_log segment_size;
  if negb (bool_decide (take 8 out = segment_magic)) ||
     negb (get_u32 out 8 =? segment_version) ||
     negb (get_u32 out 12 =? expected_id) ||
     negb (get_u64 out 24 =? segment_size) ||
     negb (get_u32 out 32 =? segment_crc out)
  then close_throw name (B "invalid segment header: ") else
  let base := get_u64 out 16 in
  if negb (base =? expected_offset)
  then close_throw name (B "segment base offset is discontinuous: ") else
  let actual_size := st_size in
  if segment_size <? actual_size
  then close_throw name (B "segment file exceeds configured size: ") else
  '(position, expected_offset, truncate_tail) ←
    scan_loop (scan_fuel actual_size) name is_latest segment_size actual_size
              segment_header_size expected_offset;
  let truncate_tail := truncate_tail || (actual_size <? segment_header_size) in
  truncate_tail ← scan_tail name is_latest actual_size position truncate_tail;
  r ← (if (truncate_tail : bool) then lift_os (sys_ftruncate name position) else mret None
       : LogM (option Z));
  match r with Some code => close_throw_errno name code (B "truncate recovered segment") | None =>
  r ← lift_os (sys_close name);
  match r with Some code => throw_errno code (B "close") name | None =>
  mret (expected_offset,
        mkInfo (segment_id info) base expected_offset position (path info))
  end end end end.

(** ** Segments *)

Definition unmap_active (sync : bool) : LogM unit :=
  name ← get_log (fun l => map_path (active l));
  mapped ← get_log (fun l => data (active l));
  first_error ←
    (if (mapped : bool) then
       e1 ← (if sync then lift_os (sys_sync name) else mret None : LogM (option Z));
       e2 ← lift_os sys_munmap;
       modify_log (fun l => set_active (set_data false (active l)) l);;
       mret (match e1 with Some _ => e1 | None => e2 end)
     else mret None : LogM (option Z));
  descriptor ← get_log (fun l => fd (active l));
  first_error ←
    (match descriptor with
     | Some name' =>
         e1 ← (if sync then lift_os (sys_sync name') else mret None : LogM (option Z));
         e2 ← lift_os (sys_close name');
         modify_log (fun l => set_active (set_fd None (active l)) l);;
         mret (match first_error with
               | Some _ => first_error
               | None => match e1 with Some _ => e1 | None => e2 end
               end)
     | None => mret first_error
     end : LogM (option Z));
  modify_log (fun l => set_active (set_map_size 0 (active l)) l);;
  match first_error with
  | Some code => throw (system_error code (B "flush and close segment " ++ name))
  | None => mret tt
  end.

(** A store through the mapping of the active segment. *)
Definition memcpy_active (pos : Z) (src : bytes) : LogM unit :=
  m ← get_log active;
  c ← lift_os (gets (content_of (map_path m)));
  if negb (data m) || (pos <? 0) || (map_size m <? pos + zlen src) || (zlen c <? pos + zlen src)
  then throw out_of_bounds
  else lift_os (modify (fun w =>
         set_files (<[map_path m := Regular (store c (Z.to_nat pos) src)]> (files w)) w)).

(** [unmap_active(false); std::filesystem::remove(path); throw_errno(..)] *)
Definition abandon_segment (name : bytes) (code : Z) (operation target : bytes) : LogM unit :=
  unmap_active false;; lift_os (fs_remove name);; throw_errno code operation target.

Definition create_segment (id base : Z) : LogM unit :=
  let name := segment_path id in
  size ← get_log segment_size;
  r ← lift_os (sys_open_excl name);
  match r with Some code => throw_errno code (B "open") name | None =>
  r ← lift_os (sys_ftruncate name size);
  match r with
  | Some code =>
      lift_os (sys_close name);; lift_os (fs_remove name);; throw_errno code (B "ftruncate") name
  | None =>
  r ← lift_os sys_mmap;
  match r with
  | Some code =>
      lift_os (sys_close name);; lift_os (fs_remove name);; throw_errno code (B "mmap") name
  | None =>
  modify_log (set_active (mkMapping (Some name) true size name id base segment_header_size));;
  memcpy_active 0 (segment_header id base size);;
  r ← lift_os (sys_sync name);
  r ← (match r with Some _ => mret r | None => lift_os (sys_sync name) end : LogM (option Z));
  match r with Some code => abandon_segment name code (B "persist segment header") name | None =>
  r ← lift_os sys_open_directory;
  match r with Some code => abandon_segment name code (B "open directory") directory_name | None =>
  r ← lift_os sys_sync_directory;
  match r with
  | Some code =>
      lift_os (sys_close directory_name);;
      abandon_segment name code (B "fsync directory") directory_name
  | None =>
  lift_os (sys_close directory_name);;
  modify_log (fun l => set_segment_index
    (segment_index l ++ [mkInfo id base base segment_header_size name]) l)
  end end end end end end.

Definition map_active_segment (id base write_position : Z) : LogM unit :=
  let name := segment_path id in
  size ← get_log segment_size;
  r ← lift_os (sys_open name);
  match r with Some code => throw_errno code (B "open") name | None =>
  r ← lift_os (sys_ftruncate name size);
  match r with Some code => close_throw_errno name code (B "ftruncate") | None =>
  r ← lift_os sys_mmap;
  match r with Some code => close_throw_errno name code (B "mmap") | None =>
  modify_log (set_active (mkMapping (Some name) true size name id base write_position))
  end end end.

(** The regular files with a segment name, with their ids. *)
Definition segment_files (entries : list (bytes * dir_entry)) : list (Z * bytes) :=
  omap (fun '(name, entry) =>
          match entry with
          | Regular _ => (fun id => (id, name)) <$> parse_segment_id name
          | Other => None
          end) entries.

Definition id_le (x y : Z * bytes) : Prop := x.1 <= y.1.
#[export] Instance id_le_dec : RelDecision id_le.
Proof. intros x y. unfold id_le. apply _. Defined.

Fixpoint recover_loop (index : nat) (files : list (Z * bytes)) (expected_offset : Z) : LogM Z :=
  match files with
  | [] => mret expected_offset
  | (id, name) :: rest =>
      if negb (id =? Z.of_nat index + 1)
      then throw (runtime_error (B "log segment sequence has a gap"))
      else
      let is_latest := bool_decide (rest = []) in
      '(expected_offset, info) ←
        scan_segment name id is_latest expected_offset (mkInfo id 0 0 0 name);
      modify_log (fun l => set_segment_index (segment_index l ++ [info]) l);;
      recover_loop (S index) rest expected_offset
  end.

Definition recover_or_create : LogM unit :=
  entries ← lift_os fs_list;
  let files := merge_sort id_le (segment_files entries) in
  modify_log (set_next_message_offset 0);;
  modify_log (set_segment_index []);;
  expected_offset ← recover_loop 0 files 0;
  modify_log (set_next_message_offset expected_offset);;
  match files with
  | [] => create_segment 1 0
  | _ =>
      index ← get_log segment_index;
      match last index with
      | None => throw out_of_bounds
      | Some info => map_active_segment (segment_id info) (first_offset info) (valid_bytes info)
      end
  end.

(** ** Public operations *)

Definition open (initial_size : Z) (recent_capacity : nat) : LogM unit :=
  is_open ← get_log opened;
  if (is_open : bool) then throw (logic_error (B "memory-mapped log is already open")) else
  if (initial_size <? segment_header_size + record_header_size + 1) ||
     (u64_max <? initial_size) || (off_max <? initial_size)
  then throw (invalid_argument (B "segment size is outside the supported range")) else
  if (recent_capacity =? 0)%nat
  then throw (invalid_argument (B "recent capacity must be positive")) else
  modify_log (set_segment_size initial_size);;
  match new_buffer recent_capacity with
  | Throw e => throw e
  | Ok cache =>
  modify_log (set_recent_cache cache);;
  lift_os fs_create_directories;;
  recover_or_create;;
  modify_log (set_opened true)
  end.

(** The part of [append] after the rollover: build the header, push the message
    into the cache, copy payload and header into the mapping, advance. *)
Definition write_record (payload : bytes) (record_size now : Z) : LogM Z :=
  message_offset ← get_log next_message_offset;
  let timestamp_ns := now mod u64_modulus in
  let header := record_header message_offset timestamp_ns payload in
  let cached := mkMessage message_offset timestamp_ns (zlen payload mod u32_modulus) payload in
  modify_log (fun l => set_recent_cache (push cached (recent_cache l)) l);;
  destination ← get_log (fun l => write_position (active l));
  (if (length payload =? 0)%nat then mret tt
   else memcpy_active (u64_add destination record_header_size) payload);;
  memcpy_active destination header;;
  modify_log (fun l => set_active
    (set_write_position (u64_add (write_position (active l)) record_size) (active l)) l);;
  modify_log (fun l => set_next_message_offset (u64_add (next_message_offset l) record_size) l);;
  l ← get_log id;
  match last (segment_index l) with
  | None => throw out_of_bounds
  | Some info =>
      let info := mkInfo (segment_id info) (first_offset info) (next_message_offset l)
                         (write_position (active l)) (path info) in
      modify_log (fun l => set_segment_index
        (take (length (segment_index l) - 1) (segment_index l) ++ [info]) l);;
      mret message_offset
  end.

(** [append(payload)]; [now] is the reading of the system clock. *)
Definition append (payload : bytes) (now : Z) : LogM Z :=
  is_open ← get_log opened;
  if negb (is_open : bool) then throw (logic_error (B "memory-mapped log is not open")) else
  if u32_max <? zlen payload
  then throw (length_error (B "payload exceeds the on-disk format limit")) else
  let record_size := u64_add record_header_size (zlen payload) in
  m ← get_log active;
  if u64_sub (map_size m) segment_header_size <? record_size
  then throw (length_error (B "record is too large to fit in an empty segment")) else
  next ← get_log next_message_offset;
  if u64_sub u64_max record_size <? next
  then throw (overflow_error (B "message offset space is exhausted")) else
  (if u64_sub (map_size m) record_size <? write_position m then
     if maximum_segment_id <=? map_segment_id m
     then throw (overflow_error (B "segment id space is exhausted"))
     else on_exception
       (unmap_active true;; create_segment ((map_segment_id m + 1) mod u32_modulus) next)
       (modify_log (set_opened false))
   else mret tt);;
  write_record payload record_size now.

Definition flush : LogM unit :=
  is_open ← get_log opened;
  if negb (is_open : bool) then mret tt else
  m ← get_log active;
  r ← lift_os (sys_sync (map_path m));
  match r with Some code => throw_errno code (B "msync") (map_path m) | None =>
  r ← lift_os (sys_sync (map_path m));
  match r with Some code => throw_errno code (B "fsync") (map_path m) | None => mret tt end
  end.

Definition close : LogM unit :=
  l ← get_log id;
  if negb (opened l) && bool_decide (fd (active l) = None) && negb (data (active l))
  then mret tt else
  modify_log (set_opened false);;
  if bool_decide (fd (active l) = None) then mret tt else unmap_active true.

(** The destructor: an exception of [close] is reported on standard error and
    swallowed. *)
Definition destroy : LogM unit := fun s =>
  match close s with (_, s') => (Ok tt, s') end.

Definition log_get_recent (count : nat) : LogM (list Message) :=
  get_log (fun l => get_recent count (recent_cache l)).

Definition segments : LogM (list LogSegmentInfo) := get_log segment_index.

Fixpoint sum_file_sizes (index : list LogSegmentInfo) (total : Z) : LogM Z :=
  match index with
  | [] => mret total
  | info :: rest =>
      size ← lift_os (fs_file_size (path info));
      match size with
      | inr code => throw (filesystem_error code (B "unable to read log segment size"))
      | inl size => sum_file_sizes rest (u64_add total size)
      end
  end.

Definition disk_usage_bytes : LogM Z :=
  index ← get_log segment_index; sum_file_sizes index 0.

Definition next_offset : LogM Z := get_log next_message_offset.
Definition is_open : LogM bool := get_log opened.

(** ** The scenarios of tests/mmap_log_test.cpp *)

Module LogTests.
Definition fresh_world : world := mkWorld ∅ ∅ ∅ [] [].
Definition start : state := mkState empty_log fresh_world.

(** Run a computation that must not throw and keep what it returns. *)
Definition result {A} (m : LogM A) (s : state) : option A :=
  match m s with (Ok a, _) => Some a | _ => None end.
Definition reopened (s : state) : state := mkState empty_log (os s).

Example rollover_offsets :
  result (open 84 10;; a ← append (B "abcdefghijkl") 1; b ← append (B "mnopqrstuvwx") 2;
          c ← append (B "123456789012") 3; s ← segments; d ← disk_usage_bytes;
          mret (a, b, c, (fun i => (segment_id i, first_offset i, end_offset i)) <$> s, d)) start
  = Some (0, 44, 88, [(1, 0, 44); (2, 44, 88); (3, 88, 132)], 252).
Proof. vm_compute. reflexivity. Qed.

Example oversized_rejected :
  fst ((open 84 4;; append (B "1234567890123") 1) start)
  = Throw (length_error (B "record is too large to fit in an empty segment")).
Proof. vm_compute. reflexivity. Qed.

Definition after_rollover : state :=
  reopened (snd ((open 84 4;; append (B "abcdefghijkl") 1;; append (B "mnopqrstuvwx") 2;; close)
                   start)).

Example rollover_recovers :
  result (open 84 4;; m ← log_get_recent 10; n ← next_offset; mret (payload <$> m, n))
    after_rollover
  = Some ([B "abcdefghijkl"; B "mnopqrstuvwx"], 88).
Proof. vm_compute. reflexivity. Qed.
End LogTests.
