(* ===== verification/LogFormat.v ===== *)
(** * LogFormat: the on-disk image of a log

    The abstract view of a segment: a chained list of messages, its encoding
    and the image of the file.  The lemmas read the fields of the headers of
    [MmapLog] back, and show that the header tests of [scan_segment] accept
    exactly the encodings of messages. *)
From stdpp Require Import base gmap list numbers strings.
From Stdlib Require Import Strings.Byte.
From S2P Require Import Prelude Codec Text CircularBuffer Os MmapLog.

Local Open Scope Z_scope.

(** ** Records *)

(** The 28 bytes of a record header that the checksum covers. *)
Definition header_prefix (off ts len : Z) : bytes :=
  le_bytes 4 record_magic ++ le_bytes 4 record_version_size ++
  le_bytes 8 off ++ le_bytes 8 ts ++ le_bytes 4 len.

Lemma length_header_prefix off ts len : length (header_prefix off ts len) = 28%nat.
Proof. reflexivity. Qed.

Lemma record_crc_prefix h p crc :
  length h = 28%nat -> record_crc (h ++ crc) p = record_crc h p.
Proof.
  intros Hh. unfold record_crc. by rewrite take_app_length', (take_ge h) by (rewrite ?Hh; lia).
Qed.

Lemma record_header_eq off ts p :
  record_header off ts p =
  header_prefix off ts (zlen p mod u32_modulus) ++
  le_bytes 4 (record_crc (header_prefix off ts (zlen p mod u32_modulus)) p).
Proof.
  assert (Hh : forall c, put_u32 (put_u32 (put_u64 (put_u64 (put_u32 (put_u32
      (replicate 32 x00) 0 record_magic) 4 record_version_size) 8 off) 16 ts) 24
      (zlen p mod u32_modulus)) 28 c =
      header_prefix off ts (zlen p mod u32_modulus) ++ le_bytes 4 c) by reflexivity.
  unfold record_header. rewrite Hh. reflexivity.
Qed.

Lemma length_record_header off ts p : length (record_header off ts p) = 32%nat.
Proof. rewrite record_header_eq, length_app, length_header_prefix, length_le_bytes. lia. Qed.

#[global] Arguments record_header : simpl never.
#[global] Arguments segment_header : simpl never.
#[global] Arguments segment_path : simpl never.
#[global] Arguments crc32_update : simpl never.

(** The field accessors of a 32-byte header that has the given layout. *)
Section HeaderFields.
Context (off ts len crc : Z).
Hypothesis Hoff : 0 <= off < u64_modulus.
Hypothesis Hts : 0 <= ts < u64_modulus.
Hypothesis Hlen : 0 <= len < u32_modulus.
Hypothesis Hcrc : 0 <= crc < u32_modulus.
Let h := header_prefix off ts len ++ le_bytes 4 crc.

Let m4 := le_bytes 4 record_magic.
Let v4 := le_bytes 4 record_version_size.
Let o8 := le_bytes 8 off.
Let t8 := le_bytes 8 ts.
Let l4 := le_bytes 4 len.
Let c4 := le_bytes 4 crc.

Lemma field_magic : get_u32 h 0 = record_magic.
Proof. exact (get_le_at [] 4 record_magic (v4 ++ o8 ++ t8 ++ l4 ++ c4) 0 eq_refl ltac:(done)). Qed.
Lemma field_version : get_u32 h 4 = record_version_size.
Proof. exact (get_le_at m4 4 record_version_size (o8 ++ t8 ++ l4 ++ c4) 4 eq_refl ltac:(done)). Qed.
Lemma field_offset : get_u64 h 8 = off.
Proof. exact (get_le_at (m4 ++ v4) 8 off (t8 ++ l4 ++ c4) 8 eq_refl Hoff). Qed.
Lemma field_timestamp : get_u64 h 16 = ts.
Proof. exact (get_le_at (m4 ++ v4 ++ o8) 8 ts (l4 ++ c4) 16 eq_refl Hts). Qed.
Lemma field_length : get_u32 h 24 = len.
Proof. exact (get_le_at (m4 ++ v4 ++ o8 ++ t8) 4 len c4 24 eq_refl Hlen). Qed.
Lemma field_crc : get_u32 h 28 = crc.
Proof. exact (get_le_at (m4 ++ v4 ++ o8 ++ t8 ++ l4) 4 crc [] 28 eq_refl Hcrc). Qed.
End HeaderFields.

(** A field's bytes are determined by its value. *)
Lemma slice_le_bytes w h pos :
  (pos + w <= length h)%nat -> take w (drop pos h) = le_bytes w (get_le w h pos).
Proof.
  intros Hl. apply le_value_inj.
  - rewrite length_le_bytes, length_take, length_drop. lia.
  - rewrite le_value_le_bytes, get_le_value by done.
    pose proof (le_value_range (take w (drop pos h))) as Hr.
    rewrite length_take_le in Hr by (rewrite length_drop; lia).
    by rewrite Z.mod_small.
Qed.

Lemma header_of_fields h :
  length h = 32%nat -> get_u32 h 0 = record_magic -> get_u32 h 4 = record_version_size ->
  h = header_prefix (get_u64 h 8) (get_u64 h 16) (get_u32 h 24) ++ le_bytes 4 (get_u32 h 28).
Proof.
  intros Hl Hm Hv. unfold header_prefix. rewrite <- Hm, <- Hv. unfold get_u32, get_u64.
  rewrite <- !slice_le_bytes by lia. rewrite <- !app_assoc.
  do 32 (destruct h as [|? h]; [simpl in Hl; lia|]).
  destruct h; [done|simpl in Hl; lia].
Qed.

(** ** Messages and their encoding *)

Definition record_size (m : Message) : Z := record_header_size + zlen (payload m).

Record wf_message (m : Message) : Prop := {
  wf_offset : 0 <= offset m < u64_modulus;
  wf_timestamp : 0 <= timestamp_ns m < u64_modulus;
  wf_length : payload_length m = zlen (payload m);
  wf_payload : zlen (payload m) <= u32_max
}.

Definition encode_record (m : Message) : bytes :=
  record_header (offset m) (timestamp_ns m) (payload m) ++ payload m.

Definition encode (ms : list Message) : bytes := concat (encode_record <$> ms).

(** The messages follow each other in the offset space, starting at [base]. *)
Fixpoint chained (base : Z) (ms : list Message) : Prop :=
  match ms with
  | [] => True
  | m :: ms => offset m = base /\ wf_message m /\ chained (base + record_size m) ms
  end.

Fixpoint end_of (base : Z) (ms : list Message) : Z :=
  match ms with [] => base | m :: ms => end_of (base + record_size m) ms end.

Lemma length_encode_record m : zlen (encode_record m) = record_size m.
Proof.
  unfold encode_record, record_size, record_header_size.
  rewrite length_app, length_record_header. lia.
Qed.

Lemma encode_cons m ms : encode (m :: ms) = encode_record m ++ encode ms.
Proof. done. Qed.

Lemma encode_single m : encode [m] = encode_record m.
Proof. apply app_nil_r. Qed.

Lemma encode_app ms1 ms2 : encode (ms1 ++ ms2) = encode ms1 ++ encode ms2.
Proof. unfold encode. by rewrite fmap_app, concat_app. Qed.

Lemma record_size_ge m : 32 <= record_size m.
Proof. unfold record_size, record_header_size. lia. Qed.

Lemma end_of_encode base ms : end_of base ms = base + zlen (encode ms).
Proof.
  revert base. induction ms as [|m ms IH]; intros base; cbn [end_of]; [cbn; lia|].
  rewrite IH, encode_cons, length_app. pose proof (length_encode_record m). lia.
Qed.

Lemma chained_app base ms1 ms2 :
  chained base (ms1 ++ ms2) <-> chained base ms1 /\ chained (end_of base ms1) ms2.
Proof. revert base. induction ms1 as [|m ms1 IH]; intros base; simpl; [tauto|]. rewrite IH. tauto. Qed.

Lemma end_of_app base ms1 ms2 : end_of base (ms1 ++ ms2) = end_of (end_of base ms1) ms2.
Proof. revert base. induction ms1 as [|m ms1 IH]; intros base; simpl; [done|]. apply IH. Qed.

Lemma is_u32_record_crc h p : is_u32 (record_crc h p).
Proof.
  unfold record_crc. apply is_u32_lxor; [|by unfold is_u32].
  by apply crc32_update_u32, crc32_update_u32.
Qed.

(** The fields of an encoded message. *)
Lemma encoded_fields m :
  wf_message m ->
  let h := record_header (offset m) (timestamp_ns m) (payload m) in
  get_u32 h 0 = record_magic /\ get_u32 h 4 = record_version_size /\
  get_u64 h 8 = offset m /\ get_u64 h 16 = timestamp_ns m /\
  get_u32 h 24 = zlen (payload m) /\ get_u32 h 28 = record_crc h (payload m).
Proof.
  intros [Ho Ht Hl Hp] h. unfold u32_max in Hp.
  assert (Hmod : zlen (payload m) mod u32_modulus = zlen (payload m)) by (apply Z.mod_small; lia).
  unfold h. rewrite record_header_eq, Hmod.
  rewrite record_crc_prefix by apply length_header_prefix.
  pose proof (is_u32_record_crc
    (header_prefix (offset m) (timestamp_ns m) (zlen (payload m))) (payload m)).
  split_and!; [apply field_magic | apply field_version | by apply field_offset
    | by apply field_timestamp | by apply field_length; lia | by apply field_crc].
Qed.

(** What passes the header tests of [scan_segment] is an encoded message. *)
Lemma accepted_is_encoded h p :
  length h = 32%nat -> get_u32 h 0 = record_magic -> get_u32 h 4 = record_version_size ->
  get_u32 h 24 = zlen p -> get_u32 h 28 = record_crc h p ->
  h = record_header (get_u64 h 8) (get_u64 h 16) p /\
  wf_message (mkMessage (get_u64 h 8) (get_u64 h 16) (zlen p) p).
Proof.
  intros Hl Hm Hv Hlen Hcrc.
  pose proof (get_le_range 4 h 24 ltac:(lia)) as Hr. fold (get_u32 h 24) in Hr.
  change (256 ^ Z.of_nat 4) with u32_modulus in Hr.
  split.
  - rewrite record_header_eq, Z.mod_small by lia.
    rewrite <- Hlen. rewrite (header_of_fields h) at 1 by done. f_equal. f_equal.
    rewrite Hcrc, (header_of_fields h) at 1 by done. by apply record_crc_prefix.
  - split; simpl; [apply (get_le_range 8 h 8); lia | apply (get_le_range 8 h 16); lia | done |].
    unfold u32_max. lia.
Qed.

(** ** Segments *)

Definition segment_prefix (id base size : Z) : bytes :=
  segment_magic ++ le_bytes 4 segment_version ++ le_bytes 4 id ++ le_bytes 8 base ++
  le_bytes 8 size.

Lemma segment_crc_prefix h k : length h = 32%nat -> segment_crc (h ++ k) = segment_crc h.
Proof.
  intros Hh. unfold segment_crc. by rewrite take_app_length', (take_ge h) by (rewrite ?Hh; lia).
Qed.

Lemma segment_header_eq id base size :
  segment_header id base size =
  segment_prefix id base size ++ le_bytes 4 (segment_crc (segment_prefix id base size)) ++
  replicate 4 x00.
Proof.
  set (h := put_u64 (put_u64 (put_u32 (put_u32 (store (replicate 40 x00) 0 segment_magic)
              8 segment_version) 12 id) 16 base) 24 size).
  assert (Hh : h = segment_prefix id base size ++ replicate 8 x00) by reflexivity.
  change (segment_header id base size) with (put_u32 h 32 (segment_crc h)).
  rewrite Hh, segment_crc_prefix by reflexivity.
  generalize (segment_crc (segment_prefix id base size)). reflexivity.
Qed.

Lemma length_segment_header id base size : length (segment_header id base size) = 40%nat.
Proof. rewrite segment_header_eq, !length_app, length_le_bytes. reflexivity. Qed.

Lemma is_u32_segment_crc h : is_u32 (segment_crc h).
Proof.
  unfold segment_crc. apply is_u32_lxor; [|by unfold is_u32]. by apply crc32_update_u32.
Qed.

Lemma segment_header_fields id base size :
  0 <= id < u32_modulus -> 0 <= base < u64_modulus -> 0 <= size < u64_modulus ->
  let h := segment_header id base size in
  take 8 h = segment_magic /\ get_u32 h 8 = segment_version /\ get_u32 h 12 = id /\
  get_u64 h 16 = base /\ get_u64 h 24 = size /\ get_u32 h 32 = segment_crc h.
Proof.
  intros Hid Hb Hs h. unfold h. rewrite segment_header_eq.
  set (c := segment_crc (segment_prefix id base size)).
  pose proof (is_u32_segment_crc (segment_prefix id base size)) as Hc. fold c in Hc.
  set (v4 := le_bytes 4 segment_version). set (i4 := le_bytes 4 id).
  set (b8 := le_bytes 8 base). set (s8 := le_bytes 8 size). set (c4 := le_bytes 4 c).
  set (z := replicate 4 x00).
  rewrite (segment_crc_prefix (segment_prefix id base size)) by reflexivity. fold c.
  clearbody c. split_and!; [reflexivity | | | | |].
  - exact (get_le_at segment_magic 4 segment_version (i4 ++ b8 ++ s8 ++ c4 ++ z) 8 eq_refl
             ltac:(done)).
  - exact (get_le_at (segment_magic ++ v4) 4 id (b8 ++ s8 ++ c4 ++ z) 12 eq_refl Hid).
  - exact (get_le_at (segment_magic ++ v4 ++ i4) 8 base (s8 ++ c4 ++ z) 16 eq_refl Hb).
  - exact (get_le_at (segment_magic ++ v4 ++ i4 ++ b8) 8 size (c4 ++ z) 24 eq_refl Hs).
  - exact (get_le_at (segment_magic ++ v4 ++ i4 ++ b8 ++ s8) 4 c z 32 eq_refl Hc).
Qed.

(** The file of a segment that holds [ms]: header, records, zeros. *)
Definition segment_image (size id base : Z) (ms : list Message) : bytes :=
  segment_header id base size ++ encode ms ++
  replicate (Z.to_nat size - 40 - length (encode ms)) x00.

Lemma length_segment_image size id base ms :
  40 + zlen (encode ms) <= size -> zlen (segment_image size id base ms) = size.
Proof.
  intros H. unfold segment_image.
  rewrite !length_app, length_segment_header, length_replicate. lia.
Qed.

(** ** Segment names *)

Lemma parse_id_digits_spec s v id :
  Forall (fun c => is_digit c = true) s -> 0 <= v ->
  v * 10 ^ zlen s + decimal_value s < u32_modulus ->
  parse_id_digits s v = Some id <-> id = v * 10 ^ zlen s + decimal_value s.
Proof.
  revert v. induction s as [|c s IH]; intros v Hs Hv Hlt.
  - cbn. change (10 ^ 0) with 1. split; intros; [by simplify_eq; lia|f_equal; lia].
  - apply Forall_cons in Hs as [Hc Hs]. cbn [parse_id_digits]. rewrite Hc.
    pose proof (digit_value_range c Hc) as Hd. pose proof (decimal_value_range s Hs) as Hr.
    assert (Hval : decimal_value (c :: s) = digit_value c * 10 ^ zlen s + decimal_value s).
    { by rewrite (decimal_value_app [c] s : decimal_value (c :: s) = _). }
    assert (Hpow : 10 ^ zlen (c :: s) = 10 * 10 ^ zlen s).
    { cbn [length]. by rewrite Nat2Z.inj_succ, Z.pow_succ_r by lia. }
    rewrite Hval, Hpow in *.
    assert (0 <= (v * 10 + digit_value c) < u32_modulus) by nia.
    rewrite Z.mod_small, IH by (done || nia). split; intros ->; lia.
Qed.

Lemma parse_id_digits_digits s v id :
  parse_id_digits s v = Some id -> Forall (fun c => is_digit c = true) s.
Proof.
  revert v. induction s as [|c s IH]; intros v H; [constructor|].
  cbn in H. destruct (is_digit c) eqn:E; [|done]. constructor; eauto.
Qed.

Lemma parse_segment_path id :
  0 <= id <= maximum_segment_id -> parse_segment_id (segment_path id) = Some id.
Proof.
  unfold maximum_segment_id. intros Hid.
  destruct (pad_zero_spec 8 id) as (Hl & Hd & Hv); [simpl; lia|lia|].
  unfold segment_path. set (s := pad_zero 8 (decimal id)) in *.
  assert (Hs : substr (B "log-" ++ s ++ B ".seg") 4 8 = s).
  { unfold substr. change (B "log-" ++ s ++ B ".seg") with ((B "log-") ++ (s ++ B ".seg")).
    rewrite drop_app_length' by done. by rewrite take_app_length'. }
  assert (He : substr (B "log-" ++ s ++ B ".seg") 12 4 = B ".seg").
  { unfold substr. rewrite (app_assoc (B "log-")), drop_app_length'; [done|].
    by rewrite length_app, Hl. }
  unfold parse_segment_id. rewrite Hs, He, !length_app, Hl.
  rewrite !bool_decide_eq_true_2 by done. cbn [negb orb length B Nat.add Nat.eqb].
  apply parse_id_digits_spec; [done|lia| |]; rewrite Hv; [unfold u32_modulus; lia|lia].
Qed.

Lemma parse_segment_id_inv name id :
  parse_segment_id name = Some id -> name = segment_path id /\ 0 <= id <= maximum_segment_id.
Proof.
  unfold parse_segment_id. intros H.
  destruct (Nat.eqb_spec (length name) 16) as [Hl|]; [|done].
  destruct (bool_decide_reflect (substr name 0 4 = B "log-")) as [H1|]; [|done].
  destruct (bool_decide_reflect (substr name 12 4 = B ".seg")) as [H3|]; [|done].
  cbn -[parse_id_digits substr] in H. set (s := substr name 4 8) in *.
  assert (Hs : length s = 8%nat) by (unfold s, substr; rewrite length_take, length_drop; lia).
  pose proof (parse_id_digits_digits _ _ _ H) as Hd.
  pose proof (decimal_value_range s Hd) as Hr. rewrite Hs in Hr. change (10 ^ Z.of_nat 8) with 100000000 in Hr.
  apply parse_id_digits_spec in H; [|done|lia|unfold u32_modulus; lia].
  rewrite Z.mul_0_l, Z.add_0_l in H. subst id. unfold maximum_segment_id. split; [|lia].
  unfold segment_path. rewrite pad_zero_value by (done || lia). rewrite <- H1, <- H3. unfold s, substr.
  rewrite (take_ge (drop 12 name)) by (rewrite length_drop; lia).
  rewrite <- (take_drop 4 name) at 1. f_equal.
  rewrite <- (take_drop 8 (drop 4 name)) at 1. by rewrite drop_drop.
Qed.

Lemma segment_path_inj id id' :
  0 <= id <= maximum_segment_id -> 0 <= id' <= maximum_segment_id ->
  segment_path id = segment_path id' -> id = id'.
Proof.
  intros H H' He. apply parse_segment_path in H, H'. rewrite He in H. congruence.
Qed.
