(* ===== verification/LogScan.v ===== *)
(** * LogScan: what recovery reads out of one segment file

    The functional behaviour of the readers of [MmapLog] when the operating
    system does not fail: [pread_all], [zero_tail], the record loop of
    [scan_segment] and [scan_segment] itself, for arbitrary file contents.
    The record loop splits the bytes after the header into the longest
    sequence of valid records and a rest, and what happens next depends only
    on whether the rest is zero padding and the segment is the newest. *)
From stdpp Require Import base gmap list numbers strings.
From Stdlib Require Import Strings.Byte.
From S2P Require Import Prelude Codec Text CircularBuffer Os MmapLog LogFormat.

Local Open Scope Z_scope.

(** ** Running computations *)

Lemma lift_os_ok {A} (m : stm world A) s r w :
  m (os s) = (r, w) -> lift_os m s = (r, mkState (log s) w).
Proof. intros H. unfold lift_os. by rewrite H. Qed.

Lemma state_eta s : mkState (log s) (os s) = s.
Proof. by destruct s. Qed.

Lemma set_script_reliable w : reliable w -> set_script [] w = w.
Proof. destruct w. unfold reliable. simpl. by intros ->. Qed.

Lemma sys_next_ok w : reliable w -> sys_next w = (Ok None, w).
Proof. unfold sys_next, reliable. by intros ->. Qed.

Lemma pread_all_ok name n off w :
  reliable w ->
  pread_all name n off w = (Ok (None, take n (drop (Z.to_nat off) (content_of name w))), w).
Proof.
  intros Hr. unfold pread_all. rewrite Hr. cbn. by rewrite set_script_reliable.
Qed.

Lemma lift_pread_ok name n off s :
  reliable (os s) ->
  lift_os (pread_all name n off) s =
  (Ok (None, take n (drop (Z.to_nat off) (content_of name (os s)))), s).
Proof.
  intros Hr. erewrite lift_os_ok by (by apply pread_all_ok). by rewrite state_eta.
Qed.

(** Run the first computation of a sequence with the lemma that gives its result. *)
Ltac run_with tac := erewrite stm_bind_ok by tac; cbv beta match.
Tactic Notation "run" "by" tactic3(tac) := run_with tac.

(** ** Zero tails *)

Lemma all_zero_spec l : all_zero l = true <-> l = replicate (length l) x00.
Proof.
  unfold all_zero. rewrite forallb_forall. split.
  - intros H. induction l as [|b l IH]; [done|]. cbn. f_equal.
    + specialize (H b (or_introl eq_refl)). by apply bool_decide_eq_true in H.
    + apply IH. intros x Hx. apply H. by right.
  - intros -> x Hx. apply bool_decide_eq_true.
    apply list_elem_of_In, elem_of_replicate in Hx as [-> _]. done.
Qed.

Lemma all_zero_app l1 l2 : all_zero (l1 ++ l2) = all_zero l1 && all_zero l2.
Proof. apply forallb_app. Qed.

Lemma all_zero_take_drop n l : all_zero l = all_zero (take n l) && all_zero (drop n l).
Proof. by rewrite <- all_zero_app, take_drop. Qed.

Lemma zero_tail_loop_ok fuel name off len s :
  reliable (os s) -> 0 <= off -> 0 <= len ->
  off + len <= zlen (content_of name (os s)) -> off + len < u64_modulus ->
  len <= 4096 * (Z.of_nat fuel - 1) ->
  zero_tail_loop fuel name off len s =
  (Ok (all_zero (take (Z.to_nat len) (drop (Z.to_nat off) (content_of name (os s))))), s).
Proof.
  intros Hr. set (c := content_of name (os s)).
  revert off len. induction fuel as [|fuel IH]; intros off len Ho Hl Hc Hm Hf; [lia|].
  cbn [zero_tail_loop]. destruct (Z.eqb_spec len 0) as [->|Hnz]; [done|].
  run by (by apply lift_pread_ok). fold c.
  set (k := Z.min len 4096). set (out := take (Z.to_nat k) (drop (Z.to_nat off) c)).
  assert (Hout : zlen out = k) by (unfold out; rewrite length_take, length_drop; lia).
  rewrite Hout, Z.eqb_refl. cbn [negb].
  assert (Hsplit : take (Z.to_nat len) (drop (Z.to_nat off) c) =
            out ++ take (Z.to_nat (len - k)) (drop (Z.to_nat (off + k)) c)).
  { unfold out. replace (Z.to_nat len) with (Z.to_nat k + Z.to_nat (len - k))%nat by lia.
    rewrite <- take_take_drop. f_equal. f_equal. rewrite drop_drop. f_equal. lia. }
  rewrite Hsplit, all_zero_app. destruct (all_zero out); [|done]. cbn [negb andb].
  rewrite u64_add_small, u64_sub_small by lia. apply IH; lia.
Qed.

Lemma zero_tail_ok name off len s :
  reliable (os s) -> 0 <= off -> 0 <= len ->
  off + len <= zlen (content_of name (os s)) -> off + len < u64_modulus ->
  zero_tail name off len s =
  (Ok (all_zero (take (Z.to_nat len) (drop (Z.to_nat off) (content_of name (os s))))), s).
Proof.
  intros. apply zero_tail_loop_ok; try done.
  pose proof (Z.div_mod len 4096). pose proof (Z.mod_pos_bound len 4096). lia.
Qed.

(** ** The record loop *)

(** The cache after the recovered messages were pushed. *)
Definition push_cache (ms : list Message) (s : state) : state :=
  mkState (set_recent_cache (foldl (fun b m => push m b) (recent_cache (log s)) ms) (log s)) (os s).

Lemma push_cache_nil s : push_cache [] s = s.
Proof. by destruct s as [[] w]. Qed.

Lemma push_cache_cons m ms s : push_cache (m :: ms) s = push_cache ms (push_cache [m] s).
Proof. done. Qed.

(** [l] starts with a record that is valid at the offset [off]. *)
Definition starts_record (off : Z) (l : bytes) : Prop :=
  exists m k, l = encode_record m ++ k /\ offset m = off /\ wf_message m.

Definition close_fd (name : bytes) (s : state) : state :=
  mkState (log s) (set_fds (remove_one name (fds (os s))) (os s)).

Lemma sys_close_ok name s :
  reliable (os s) -> lift_os (sys_close name) s = (Ok None, close_fd name s).
Proof.
  intros Hr. apply lift_os_ok. unfold sys_close.
  by run by (by apply sys_next_ok).
Qed.

Lemma close_throw_ok {A} name msg s :
  reliable (os s) ->
  close_throw (A := A) name msg s = (Throw (runtime_error (msg ++ name)), close_fd name s).
Proof. intros Hr. unfold close_throw. by run by (by apply sys_close_ok). Qed.

(** How the record loop ends when it stops in front of [rest]. *)
Definition scan_stop (name : bytes) (is_latest : bool) (position expected : Z) (rest : bytes)
    (s : state) (r : outcome (Z * Z * bool) * state) : Prop :=
  if all_zero rest || (zlen rest <? 32) then r = (Ok (position, expected, false), s)
  else if is_latest then r = (Ok (position, expected, true), s)
  else exists msg, r = (Throw (runtime_error msg), close_fd name s).

(** The tests of one iteration as a function of the bytes at the position. *)
Definition body_length (body : bytes) : Z := get_u32 (take 32 body) 24.
Definition body_payload (body : bytes) : bytes := take (Z.to_nat (body_length body)) (drop 32 body).
Definition body_message (expected : Z) (body : bytes) : Message :=
  mkMessage expected (get_u64 (take 32 body) 16) (body_length body) (body_payload body).
Definition body_valid (expected : Z) (body : bytes) : bool :=
  let h := take 32 body in
  (get_u32 h 0 =? record_magic) && (get_u32 h 4 =? record_version_size) &&
  (get_u64 h 8 =? expected) && (32 + body_length body <=? zlen body) &&
  (get_u32 h 28 =? record_crc h (body_payload body)).

Lemma body_length_range body : 32 <= zlen body -> 0 <= body_length body < u32_modulus.
Proof.
  intros. apply (get_le_range 4 (take 32 body) 24). rewrite length_take_le; lia.
Qed.

(** A valid body is the encoding of a message followed by the rest. *)
Lemma body_valid_encoded expected body :
  32 <= zlen body -> body_valid expected body = true ->
  let m := body_message expected body in
  body = encode_record m ++ drop (Z.to_nat (record_size m)) body /\ wf_message m /\
  record_size m = 32 + body_length body.
Proof.
  intros Hb Hv m. unfold body_valid in Hv. rewrite !andb_true_iff, !Z.eqb_eq in Hv.
  destruct Hv as ((((Hm & Hver) & Ho) & Hl) & Hc).
  pose proof (body_length_range body Hb) as Hr.
  set (h := take 32 body) in *. set (p := body_payload body) in *.
  assert (Hh : length h = 32%nat) by (unfold h; rewrite length_take_le; lia).
  assert (Hp : zlen p = body_length body).
  { unfold p, body_payload. rewrite length_take, length_drop. lia. }
  destruct (accepted_is_encoded h p Hh Hm Hver (eq_sym Hp) Hc) as [Heq Hwf].
  rewrite Ho, Hp in Hwf. rewrite Ho in Heq.
  assert (Hs : record_size m = 32 + body_length body).
  { unfold record_size, m, record_header_size. cbn [payload body_message]. fold p. lia. }
  split_and!; [|exact Hwf|exact Hs].
  rewrite Hs. unfold encode_record, m. cbn [payload offset timestamp_ns body_message].
  fold h p. rewrite <- Heq.
  replace (Z.to_nat (32 + body_length body)) with (32 + Z.to_nat (body_length body))%nat by lia.
  rewrite <- app_assoc, <- drop_drop. unfold p, body_payload, h. by rewrite !take_drop.
Qed.

Lemma starts_record_valid expected body :
  starts_record expected body -> 32 <= zlen body /\ body_valid expected body = true.
Proof.
  intros (m & k & -> & <- & Hwf). pose proof (length_encode_record m) as Hl.
  pose proof (record_size_ge m). rewrite length_app. split; [lia|].
  assert (Hh : take 32 (encode_record m ++ k) =
               record_header (offset m) (timestamp_ns m) (payload m)).
  { unfold encode_record. rewrite <- app_assoc. apply take_app_length'.
    by rewrite length_record_header. }
  destruct (encoded_fields m Hwf) as (F0 & F4 & F8 & F16 & F24 & F28).
  assert (Hbl : body_length (encode_record m ++ k) = zlen (payload m)).
  { unfold body_length. by rewrite Hh. }
  assert (Hbp : body_payload (encode_record m ++ k) = payload m).
  { unfold body_payload. rewrite Hbl, Nat2Z.id. unfold encode_record.
    rewrite <- app_assoc, drop_app_length' by (by rewrite length_record_header).
    by apply take_app_length. }
  unfold body_valid. rewrite Hbl, Hbp, Hh, F0, F4, F8, F28, !Z.eqb_refl, length_app.
  cbn [andb]. rewrite andb_true_r. apply Z.leb_le. rewrite Nat2Z.inj_add, Hl.
  unfold record_size, record_header_size. lia.
Qed.

Lemma length_body_payload body :
  32 <= zlen body -> 32 + body_length body <= zlen body -> zlen (body_payload body) = body_length body.
Proof.
  intros Hs Hfit. pose proof (body_length_range body Hs). unfold body_payload.
  rewrite length_take, length_drop. lia.
Qed.

(** The read of the payload after a record header that fits. *)
Lemma read_payload_ok name pre body s :
  reliable (os s) -> content_of name (os s) = pre ++ body ->
  32 <= zlen body -> 32 + body_length body <= zlen body ->
  (if body_length body =? 0 then mret (None, [])
   else lift_os (pread_all name (Z.to_nat (body_length body)) (zlen pre + 32))) s =
  ((Ok (None, body_payload body), s) : outcome (option Z * bytes) * state).
Proof.
  intros Hr Hc Hs Hfit. pose proof (length_body_payload body Hs Hfit) as Hp.
  destruct (Z.eqb_spec (body_length body) 0) as [E|E].
  - destruct (body_payload body); [done|simpl in Hp; lia].
  - rewrite lift_pread_ok, Hc by done. do 3 f_equal. unfold body_payload. f_equal.
    by rewrite Z2Nat.inj_add, Nat2Z.id, <- drop_drop, drop_app_length by lia.
Qed.

(** One iteration of the record loop. *)
Lemma scan_loop_step fuel name latest ssize pre body expected s :
  reliable (os s) -> content_of name (os s) = pre ++ body ->
  zlen (pre ++ body) <= ssize <= off_max -> 0 <= expected -> expected + zlen body <= u64_max ->
  scan_loop (S fuel) name latest ssize (zlen (pre ++ body)) (zlen pre) expected s =
  if zlen body <? 32 then (Ok (zlen pre, expected, false), s)
  else if get_u32 (take 32 body) 0 =? 0 then
    if all_zero body then (Ok (zlen pre, expected, false), s)
    else if latest then (Ok (zlen pre, expected, true), s)
    else close_throw name (B "corrupt tail in sealed segment: ") s
  else if body_valid expected body then
    scan_loop fuel name latest ssize (zlen (pre ++ body))
      (zlen pre + (32 + body_length body)) (expected + (32 + body_length body))
      (push_cache [body_message expected body] s)
  else if latest then (Ok (zlen pre, expected, true), s)
  else close_throw name (B "corrupt record in sealed segment: ") s.
Proof.
  intros Hr Hc Hsz He Hov.
  assert (Hlen : zlen (pre ++ body) = zlen pre + zlen body) by (rewrite length_app; lia).
  cbn [scan_loop]. unfold record_header_size. rewrite u64_add_small by width.
  rewrite Hlen. destruct (Z.ltb_spec (zlen body) 32) as [Hs|Hs].
  { by destruct (Z.leb_spec (zlen pre + 32) (zlen pre + zlen body)); [lia|]. }
  destruct (Z.leb_spec (zlen pre + 32) (zlen pre + zlen body)); [|lia]. cbn [negb].
  run by (by apply lift_pread_ok). rewrite Hc, Nat2Z.id, drop_app_length.
  set (h := take 32 body). assert (Hh : length h = 32%nat) by (unfold h; rewrite length_take_le; lia).
  assert (Hrs : resize 32 h = h).
  { unfold resize. rewrite Hh, take_ge by lia. apply app_nil_r. }
  rewrite Hrs, Hh. cbn [Nat.eqb].
  destruct (Z.eqb_spec (get_u32 h 0) 0) as [Hz|Hz].
  { rewrite u64_sub_small by width.
    run by (apply zero_tail_ok; rewrite ?Hc, ?Hlen; done || width).
    rewrite Hc, Nat2Z.id, drop_app_length, take_ge by lia.
    by destruct (all_zero body), latest. }
  pose proof (body_length_range body Hs) as Hbl. unfold body_valid. fold h. cbv zeta.
  change (get_u32 h 24) with (body_length body). cbn [andb].
  destruct ((get_u32 h 0 =? record_magic) && (get_u32 h 4 =? record_version_size) &&
            (get_u64 h 8 =? expected)) eqn:Hv; cbn [andb]; [|by destruct latest].
  rewrite (u64_add_small 32) by width.
  rewrite (u64_sub_small ssize) by width.
  destruct (Z.leb_spec (32 + body_length body) (zlen body)) as [Hfit|Hfit]; cbn [andb].
  2: { rewrite u64_add_small by width.
       replace (_ <=? zlen pre + zlen body) with false by lia.
       rewrite andb_false_r. by destruct latest. }
  rewrite !u64_add_small by width.
  replace (_ <=? ssize - zlen pre) with true by lia.
  replace (_ <=? zlen pre + zlen body) with true by lia. cbn [andb].
  set (p := body_payload body). assert (Hp : zlen p = body_length body) by (by apply length_body_payload).
  run by (erewrite stm_bind_ok by (by apply (read_payload_ok name pre body)); reflexivity). fold p.
  rewrite Hp, Z.eqb_refl. cbn [andb].
  destruct (get_u32 h 28 =? record_crc h p); cbn [negb]; [|by destruct latest].
  rewrite u64_sub_small by width.
  replace (_ <? expected) with false by width. reflexivity.
Qed.

Lemma starts_record_iff expected body :
  starts_record expected body <-> 32 <= zlen body /\ body_valid expected body = true.
Proof.
  split; [apply starts_record_valid|]. intros [Hs Hv].
  destruct (body_valid_encoded expected body Hs Hv) as (Hb & Hwf & _). by eexists _, _.
Qed.

(** A valid record has a magic number, hence bytes that are not zero. *)
Lemma body_valid_magic expected body : body_valid expected body = true -> get_u32 (take 32 body) 0 <> 0.
Proof. unfold body_valid. intros Hv Hz. by rewrite Hz in Hv. Qed.

Lemma nonzero_magic body : 32 <= zlen body -> get_u32 (take 32 body) 0 <> 0 -> all_zero body = false.
Proof.
  intros Hs Hz. apply not_true_is_false. intros Ha. apply Hz.
  rewrite (all_zero_take_drop 32) in Ha. apply andb_true_iff in Ha as [Ha _].
  apply all_zero_spec in Ha. rewrite Ha, length_take_le by lia. reflexivity.
Qed.

(** The loop stops where no record starts. *)
Lemma scan_loop_stops fuel name latest ssize pre body expected s :
  reliable (os s) -> content_of name (os s) = pre ++ body ->
  zlen (pre ++ body) <= ssize <= off_max -> 0 <= expected -> expected + zlen body <= u64_max ->
  ~ starts_record expected body ->
  scan_stop name latest (zlen pre) expected body s
    (scan_loop (S fuel) name latest ssize (zlen (pre ++ body)) (zlen pre) expected s).
Proof.
  intros Hr Hc Hsz He Hov Hn. rewrite scan_loop_step by done. unfold scan_stop.
  destruct (Z.ltb_spec (zlen body) 32) as [Hs|Hs]; [by rewrite orb_true_r|]. rewrite orb_false_r.
  destruct (Z.eqb_spec (get_u32 (take 32 body) 0) 0) as [Hz|Hz].
  { destruct (all_zero body), latest; try done. rewrite close_throw_ok by done. by eexists. }
  rewrite nonzero_magic by done. destruct (body_valid expected body) eqn:Hv; [by destruct Hn; apply starts_record_iff|].
  destruct latest; [done|]. rewrite close_throw_ok by done. by eexists.
Qed.

(** The record loop on arbitrary bytes: it consumes the longest sequence of
    valid records, pushes them into the cache and stops as [scan_stop] says. *)
Lemma scan_loop_ok fuel name latest ssize pre body expected s :
  reliable (os s) -> content_of name (os s) = pre ++ body ->
  zlen (pre ++ body) <= ssize <= off_max -> 0 <= expected -> expected + zlen body <= u64_max ->
  zlen body < 32 * Z.of_nat fuel ->
  exists ms rest,
    body = encode ms ++ rest /\ chained expected ms /\
    ~ starts_record (end_of expected ms) rest /\
    scan_stop name latest (zlen pre + zlen (encode ms)) (end_of expected ms) rest (push_cache ms s)
      (scan_loop fuel name latest ssize (zlen (pre ++ body)) (zlen pre) expected s).
Proof.
  revert pre body expected s. induction fuel as [|fuel IH];
    intros pre body expected s Hr Hc Hsz He Hov Hf; [lia|].
  destruct (decide (32 <= zlen body /\ body_valid expected body = true)) as [[Hs Hv]|Hn].
  2:{ rewrite <- starts_record_iff in Hn. exists [], body. rewrite push_cache_nil, Z.add_0_r.
      split_and!; [done..|]. by apply scan_loop_stops. }
  rewrite scan_loop_step, Hv, (proj2 (Z.eqb_neq _ _)), (proj2 (Z.ltb_ge _ _))
    by (done || by apply (body_valid_magic expected)).
  destruct (body_valid_encoded expected body Hs Hv) as (Hb & Hwf & Hrs). rewrite <- Hrs.
  set (m := body_message expected body) in *. set (body' := drop _ body) in *.
  pose proof (length_encode_record m) as Hle. pose proof (record_size_ge m).
  assert (Ho : offset m = expected) by done. clearbody m body'.
  assert (Hcb : pre ++ body = (pre ++ encode_record m) ++ body') by (by rewrite <- app_assoc, <- Hb).
  assert (Hlb : zlen body = record_size m + zlen body') by (rewrite Hb, length_app; lia).
  rewrite Hcb in Hc, Hsz |- *.
  replace (zlen pre + record_size m) with (zlen (pre ++ encode_record m)) by (rewrite length_app; lia).
  destruct (IH (pre ++ encode_record m) body' (expected + record_size m) (push_cache [m] s))
    as (ms & rest & Hms & Hch & Hns & Hst); [done..|lia|lia|lia|].
  exists (m :: ms), rest. rewrite encode_cons, length_app, push_cache_cons.
  cbn [chained end_of]. rewrite <- app_assoc, <- Hms. split_and!; try done.
  by replace (zlen pre + Z.of_nat (length (encode_record m) + length (encode ms))) with
    (zlen (pre ++ encode_record m) + zlen (encode ms)) by (rewrite length_app; lia).
Qed.

(** ** One segment *)

Definition open_fd (name : bytes) (s : state) : state :=
  mkState (log s) (set_fds (name :: fds (os s)) (os s)).

(** The contents of a file replaced. *)
Definition set_content (name c : bytes) (s : state) : state :=
  mkState (log s) (set_files (<[name := Regular c]> (files (os s))) (os s)).

Lemma close_open_fd name s : close_fd name (open_fd name s) = s.
Proof.
  destruct s as [l [f d n fd sc]]. unfold close_fd, open_fd, set_fds. cbn.
  by rewrite decide_True.
Qed.

Lemma content_of_regular name c w : files w !! name = Some (Regular c) -> content_of name w = c.
Proof. unfold content_of. by intros ->. Qed.

Lemma sys_open_ok name c s :
  reliable (os s) -> files (os s) !! name = Some (Regular c) ->
  lift_os (sys_open name) s = (Ok None, open_fd name s).
Proof.
  intros Hr Hf. apply lift_os_ok. unfold sys_open. run by (by apply sys_next_ok).
  unfold mbind, stm_bind, get. by rewrite Hf.
Qed.

Lemma sys_fstat_ok name s :
  reliable (os s) ->
  lift_os (sys_fstat name) s = (Ok (inl (zlen (content_of name (os s)))), s).
Proof.
  intros Hr. erewrite lift_os_ok; [by rewrite state_eta|].
  unfold sys_fstat. by run by (by apply sys_next_ok).
Qed.

Lemma sys_ftruncate_ok name size s :
  reliable (os s) ->
  lift_os (sys_ftruncate name size) s =
  (Ok None, set_content name (resize (Z.to_nat size) (content_of name (os s))) s).
Proof.
  intros Hr. apply lift_os_ok. unfold sys_ftruncate. by run by (by apply sys_next_ok).
Qed.

Lemma scan_tail_ok name latest pre rest tr s :
  reliable (os s) -> content_of name (os s) = pre ++ rest -> zlen (pre ++ rest) <= off_max ->
  scan_tail name latest (zlen (pre ++ rest)) (zlen pre) tr s =
  if (zlen rest <? 32) && negb (all_zero rest)
  then if latest then (Ok true, s)
       else (Throw (runtime_error (B "truncated record in sealed segment: " ++ name)),
             close_fd name s)
  else (Ok tr, s).
Proof.
  intros Hr Hc Hsz. unfold scan_tail, record_header_size.
  assert (Hlen : zlen (pre ++ rest) = zlen pre + zlen rest) by (rewrite length_app; lia).
  rewrite u64_add_small by width. rewrite Hlen.
  destruct (decide (rest = [])) as [->|Hne].
  { change (zlen ([] : bytes)) with 0. by rewrite Z.add_0_r, Z.ltb_irrefl. }
  assert (0 < zlen rest) by (destruct rest; [done|cbn; lia]).
  replace (zlen pre <? zlen pre + zlen rest) with true by lia. cbn [andb].
  replace (zlen pre + zlen rest <? zlen pre + 32) with (zlen rest <? 32) by lia.
  destruct (Z.ltb_spec (zlen rest) 32); [|done]. cbn [andb].
  rewrite u64_sub_small by width. replace (zlen pre + zlen rest - zlen pre) with (zlen rest) by lia.
  run by (by apply lift_pread_ok). rewrite Hc, !Nat2Z.id, drop_app_length.
  assert (Ht : take (length rest) (resize 32 (take (length rest) rest)) = rest).
  { unfold resize. by rewrite (take_ge rest), (take_ge rest), take_app_length by lia. }
  rewrite Ht. destruct (all_zero rest); [done|]. cbn [negb].
  destruct latest; [done|]. by apply close_throw_ok.
Qed.

(** What recovery makes of a segment file with a correct header: the records it
    starts with are kept, a zero tail is padding, any other tail is cut off in
    the newest segment and an error in an older one. *)
Definition scan_result (name : bytes) (latest : bool) (head base : Z) (ms : list Message)
    (kept rest : bytes) (info : LogSegmentInfo) (s : state)
    (r : outcome (Z * LogSegmentInfo) * state) : Prop :=
  let ok := Ok (end_of base ms,
                mkInfo (segment_id info) base (end_of base ms) (head + zlen (encode ms)) (path info)) in
  if all_zero rest then r = (ok, push_cache ms s)
  else if latest then r = (ok, set_content name kept (push_cache ms s))
  else exists msg, r = (Throw (runtime_error msg), push_cache ms s).

(** Cutting a file at the end of the bytes that are kept. *)
Lemma resize_kept pre rest : resize (Z.to_nat (zlen pre)) (pre ++ rest) = pre.
Proof.
  unfold resize. rewrite Nat2Z.id, take_app_length, length_app.
  replace (_ - _)%nat with 0%nat by lia. apply app_nil_r.
Qed.

Lemma scan_segment_ok name id latest base body info s :
  let size := segment_size (log s) in
  let header := segment_header id base size in
  reliable (os s) -> files (os s) !! name = Some (Regular (header ++ body)) ->
  0 <= id < u32_modulus -> 0 <= base -> base + zlen body <= u64_max ->
  40 + zlen body <= size <= off_max ->
  exists ms rest,
    body = encode ms ++ rest /\ chained base ms /\ ~ starts_record (end_of base ms) rest /\
    scan_result name latest 40 base ms (header ++ encode ms) rest info s
      (scan_segment name id latest base info s).
Proof.
  intros size header Hr Hf Hid Hb Hov Hsz.
  assert (Hhl : length header = 40%nat) by apply length_segment_header.
  assert (Hlen : zlen (header ++ body) = 40 + zlen body) by (rewrite length_app; lia).
  set (s1 := open_fd name s).
  assert (Hr1 : reliable (os s1)) by done.
  assert (Hc1 : content_of name (os s1) = header ++ body) by (by apply content_of_regular).
  destruct (segment_header_fields id base size) as (F0 & F8 & F12 & F16 & F24 & F32);
    [done|width|width|]. fold header in F0, F8, F12, F16, F24, F32. clearbody header.
  destruct (scan_loop_ok (scan_fuel (40 + zlen body)) name latest size header body base s1)
    as (ms & rest & Hbody & Hch & Hns & Hst); try done; [rewrite Hlen; lia| |].
  { unfold scan_fuel. pose proof (Z.div_mod (40 + zlen body) 32 ltac:(lia)).
    pose proof (Z.mod_pos_bound (40 + zlen body) 32 ltac:(lia)). lia. }
  exists ms, rest. split_and!; try done.
  unfold scan_segment. run by (by eapply sys_open_ok). fold s1.
  run by (by apply sys_fstat_ok). rewrite Hc1, Hlen. unfold segment_header_size.
  replace (40 + zlen body <? 40) with false by lia.
  run by (by apply lift_pread_ok). rewrite Hc1, drop_0, take_app_length' by done.
  rewrite bool_decide_eq_true_2, Hhl by done. cbn [negb orb Nat.eqb].
  run by reflexivity. change (segment_size (log s1)) with size.
  rewrite bool_decide_eq_true_2, F8, F12, F16, F24, F32, !Z.eqb_refl by done. cbn [negb orb].
  replace (size <? 40 + zlen body) with false by lia.
  rewrite Hlen, Hhl in Hst. change (Z.of_nat 40) with 40 in Hst.
  set (r := scan_loop _ _ _ _ _ _ _ _) in Hst |- *.
  set (s2 := push_cache ms s1) in *.
  assert (Hkept : 40 + zlen (encode ms) = zlen (header ++ encode ms)) by (rewrite length_app; lia).
  assert (Hall : content_of name (os s2) = (header ++ encode ms) ++ rest) by (by rewrite <- app_assoc, <- Hbody).
  assert (Hfile : 40 + zlen body = zlen ((header ++ encode ms) ++ rest)) by (by rewrite <- Hall, <- Hlen, <- Hc1).
  assert (Htail := fun tr => scan_tail_ok name latest (header ++ encode ms) rest tr s2 Hr1 Hall ltac:(lia)).
  rewrite <- Hkept, <- Hfile in Htail.
  assert (Hc2 : resize (Z.to_nat (40 + zlen (encode ms))) (content_of name (os s2)) = header ++ encode ms)
    by (rewrite Hkept, Hall; apply resize_kept).
  assert (Hclose : close_fd name s2 = push_cache ms s)
    by exact (f_equal (push_cache ms) (close_open_fd name s)).
  replace (40 + zlen body <? 40) with false in * by lia.
  unfold scan_stop in Hst. unfold scan_result.
  destruct (all_zero rest) eqn:Ha; cbn [orb negb] in *; [|destruct latest].
  - run by exact Hst. run by (rewrite Htail, andb_false_r; reflexivity).
    run by reflexivity. run by (by apply sys_close_ok). by rewrite Hclose.
  - destruct (zlen rest <? 32); cbn [andb] in *;
      (run by exact Hst; run by (rewrite Htail; reflexivity);
       run by (by apply sys_ftruncate_ok); run by (by apply sys_close_ok);
       rewrite Hc2; by rewrite <- Hclose).
  - destruct (zlen rest <? 32) eqn:H32.
    + run by exact Hst. erewrite stm_bind_throw by (rewrite Htail; reflexivity).
      rewrite Hclose. by eexists.
    + destruct Hst as [msg Hst]. erewrite stm_bind_throw by exact Hst.
      rewrite Hclose. by eexists.
Qed.
