(* ===== verification/LogSpec.v ===== *)
(** * LogSpec: the log as a sequence of messages

    The abstract log is the history of appended messages, cut into sealed
    segments and the current one.  [log_inv] relates the members of
    [MemoryMappedLog], the directory and the descriptors to that history.  The
    lemmas give the effect of the segment operations when the operating system
    does not fail. *)
From stdpp Require Import base gmap list numbers sorting strings.
From Stdlib Require Import Strings.Byte.
From S2P Require Import Prelude Codec Text CircularBuffer Os MmapLog LogFormat LogScan.

Local Open Scope Z_scope.

(** ** Segments of a history *)

Record seg := mkSeg { seg_id : Z; seg_base : Z; seg_msgs : list Message }.

(** Segments are numbered from [id] and continue the offset space at [base]. *)
Fixpoint layout (id base : Z) (segs : list (list Message)) : list seg :=
  match segs with
  | [] => []
  | ms :: segs => mkSeg id base ms :: layout (id + 1) (end_of base ms) segs
  end.

Definition seg_name (g : seg) : bytes := segment_path (seg_id g).

Definition seg_info (g : seg) : LogSegmentInfo :=
  mkInfo (seg_id g) (seg_base g) (end_of (seg_base g) (seg_msgs g))
         (40 + zlen (encode (seg_msgs g))) (seg_name g).

Definition seg_image (size : Z) (g : seg) : bytes :=
  segment_image size (seg_id g) (seg_base g) (seg_msgs g).

Lemma layout_app id base l1 l2 :
  layout id base (l1 ++ l2) =
  layout id base l1 ++ layout (id + zlen l1) (end_of base (concat l1)) l2.
Proof.
  revert id base. induction l1 as [|ms l1 IH]; intros id base.
  - cbn [app layout concat length end_of]. by rewrite Z.add_0_r.
  - cbn [app layout concat length]. rewrite IH, end_of_app. do 3 f_equal. lia.
Qed.

Lemma layout_lookup id base segs i g :
  layout id base segs !! i = Some g ->
  exists ms, segs !! i = Some ms /\
    g = mkSeg (id + Z.of_nat i) (end_of base (concat (take i segs))) ms.
Proof.
  revert id base i. induction segs as [|ms segs IH]; intros id base i; [done|].
  destruct i as [|i]; cbn [layout]; simpl.
  - intros [= <-]. exists ms. split; [done|]. by rewrite Z.add_0_r.
  - intros (ms' & Hms & ->)%IH. exists ms'. split; [done|].
    rewrite end_of_app. f_equal. lia.
Qed.

Lemma length_layout id base segs : length (layout id base segs) = length segs.
Proof. revert id base. induction segs; intros; simpl; [done|]. by rewrite IHsegs. Qed.

Lemma layout_ids id base segs g :
  g ∈ layout id base segs -> id <= seg_id g < id + zlen segs.
Proof.
  intros (i & Hi)%list_elem_of_lookup. pose proof (lookup_lt_Some _ _ _ Hi) as Hl.
  rewrite length_layout in Hl. apply layout_lookup in Hi as (ms & _ & ->). cbn. lia.
Qed.

(** The newest segment of a history. *)
Definition current (sealed : list (list Message)) (cur : list Message) : seg :=
  mkSeg (1 + zlen sealed) (end_of 0 (concat sealed)) cur.

Lemma layout_snoc sealed cur :
  layout 1 0 (sealed ++ [cur]) = layout 1 0 sealed ++ [current sealed cur].
Proof. by rewrite layout_app. Qed.

Definition history (sealed : list (list Message)) (cur : list Message) : list Message :=
  concat sealed ++ cur.

(** ** The directory *)

(** The directory holds the segment files of [segs], numbered from 1, with the
    images of their messages, and no other entry with a segment name. *)
Record dir_inv (size : Z) (segs : list seg) (f : gmap bytes dir_entry) : Prop := {
  dir_images : forall g, g ∈ segs -> f !! seg_name g = Some (Regular (seg_image size g));
  dir_only : forall id, 0 <= id <= maximum_segment_id ->
             is_Some (f !! segment_path id) -> 1 <= id <= zlen segs
}.

(** What holds of every history the log can represent. *)
Record hist_inv (size : Z) (sealed : list (list Message)) (cur : list Message) : Prop := {
  hist_size : 73 <= size <= off_max;
  hist_count : 1 + zlen sealed <= maximum_segment_id;
  hist_fits : Forall (fun ms => 40 + zlen (encode ms) <= size) (sealed ++ [cur]);
  hist_chained : chained 0 (history sealed cur);
  hist_end : end_of 0 (history sealed cur) <= u64_max
}.

Lemma hist_cur_fits size sealed cur : hist_inv size sealed cur -> 40 + zlen (encode cur) <= size.
Proof. intros [_ _ Hf _ _]. apply Forall_app in Hf as [_ Hf]. by inversion Hf. Qed.

(** The state of an open log whose history is [history sealed cur]; [outer] are
    the descriptors the log does not own. *)
Record log_inv (outer : list bytes) (s : state) (sealed : list (list Message))
    (cur : list Message) : Prop := {
  inv_hist : hist_inv (segment_size (log s)) sealed cur;
  inv_opened : opened (log s) = true;
  inv_index : segment_index (log s) = seg_info <$> layout 1 0 (sealed ++ [cur]);
  inv_active : active (log s) =
    let g := current sealed cur in
    mkMapping (Some (seg_name g)) true (segment_size (log s)) (seg_name g) (seg_id g) (seg_base g)
              (40 + zlen (encode cur));
  inv_next : next_message_offset (log s) = end_of 0 (history sealed cur);
  inv_cache : represents (recent_cache (log s)) (history sealed cur);
  inv_dir : dir_inv (segment_size (log s)) (layout 1 0 (sealed ++ [cur])) (files (os s));
  inv_fds : fds (os s) = seg_name (current sealed cur) :: outer
}.

Lemma concat_snoc {A} (l : list (list A)) x : concat (l ++ [x]) = concat l ++ x.
Proof. rewrite concat_app. simpl. by rewrite app_nil_r. Qed.

Lemma history_snoc sealed cur : history (sealed ++ [cur]) [] = history sealed cur.
Proof. unfold history. by rewrite concat_snoc, app_nil_r. Qed.

Lemma history_app sealed cur l : history sealed (cur ++ l) = history sealed cur ++ l.
Proof. apply app_assoc. Qed.

Lemma current_end sealed cur :
  end_of (seg_base (current sealed cur)) cur = end_of 0 (history sealed cur).
Proof. unfold history. by rewrite end_of_app. Qed.

Lemma hist_end_nonneg sealed cur : 0 <= end_of 0 (history sealed cur).
Proof. rewrite end_of_encode. lia. Qed.

(** ** Effects of the segment operations *)

Lemma world_eq w f d n l :
  files w = f -> disk w = d -> disk_names w = n -> fds w = l -> reliable w ->
  w = mkWorld f d n l [].
Proof. destruct w. unfold reliable. simpl. by intros -> -> -> -> ->. Qed.

Lemma unmap_active_ok name size id base wp outer s :
  reliable (os s) -> fds (os s) = name :: outer ->
  active (log s) = mkMapping (Some name) true size name id base wp ->
  unmap_active true s =
  (Ok tt, mkState (set_active (mkMapping None false 0 name id base wp) (log s))
                  (mkWorld (files (os s)) (<[name := content_of name (os s)]> (disk (os s)))
                           (disk_names (os s)) outer [])).
Proof.
  destruct s as [[ss no act idx rc op] [f d n l sc]]. unfold reliable; cbn. intros -> -> ->.
  unfold unmap_active. do 5 run by reflexivity. cbn. run by reflexivity. cbn.
  unfold set_fds, set_active, set_data, set_map_size. cbn.
  rewrite decide_True by done. cbn. by rewrite insert_insert_eq.
Qed.

Lemma memcpy_active_ok pos src c s :
  data (active (log s)) = true ->
  content_of (map_path (active (log s))) (os s) = c ->
  0 <= pos -> pos + zlen src <= map_size (active (log s)) -> pos + zlen src <= zlen c ->
  memcpy_active pos src s =
  (Ok tt, set_content (map_path (active (log s))) (store c (Z.to_nat pos) src) s).
Proof.
  intros Hd Hc Hp Hm Hl. unfold memcpy_active. run by reflexivity.
  run by (apply lift_os_ok; reflexivity). rewrite Hc, Hd, state_eta. cbn [negb orb].
  replace (pos <? 0) with false by lia. replace (map_size _ <? _) with false by lia.
  replace (zlen c <? _) with false by lia. cbn [orb].
  erewrite lift_os_ok by reflexivity. done.
Qed.

Lemma store_zeros_0 n src :
  (length src <= n)%nat ->
  store (replicate n x00) 0 src = src ++ replicate (n - length src) x00.
Proof. intros H. unfold store. by rewrite take_0, Nat.add_0_l, drop_replicate. Qed.

Lemma segment_image_nil size id base :
  40 <= size ->
  store (replicate (Z.to_nat size) x00) 0 (segment_header id base size) =
  segment_image size id base [].
Proof.
  intros H. rewrite store_zeros_0 by (rewrite length_segment_header; lia).
  unfold segment_image. rewrite length_segment_header. change (encode []) with ([] : bytes).
  cbn [app length]. by rewrite Nat.sub_0_r.
Qed.

Lemma sys_open_excl_ok name s :
  reliable (os s) -> files (os s) !! name = None ->
  lift_os (sys_open_excl name) s = (Ok None, open_fd name (set_content name [] s)).
Proof.
  intros Hr Hf. apply (lift_os_ok _ s _ (os (open_fd name (set_content name [] s)))).
  unfold sys_open_excl. run by (by apply sys_next_ok).
  unfold mbind, stm_bind, get. by rewrite Hf.
Qed.

Lemma create_segment_ok id base s :
  let size := segment_size (log s) in
  let name := segment_path id in
  let image := segment_image size id base [] in
  reliable (os s) -> files (os s) !! name = None -> 40 <= size ->
  create_segment id base s =
  (Ok tt,
   mkState (set_segment_index (segment_index (log s) ++ [mkInfo id base base 40 name])
              (set_active (mkMapping (Some name) true size name id base 40) (log s)))
           (mkWorld (<[name := Regular image]> (files (os s))) (<[name := image]> (disk (os s)))
                    (dom (<[name := Regular image]> (files (os s)))) (name :: fds (os s)) [])).
Proof.
  intros size name image Hr Hf Hsz. subst image. rewrite <- segment_image_nil by done.
  assert (Hhl : length (segment_header id base size) = 40%nat) by apply length_segment_header.
  unfold create_segment. fold name. set (hdr := segment_header id base size) in *.
  run by reflexivity. fold size. fold hdr. clearbody hdr name.
  destruct s as [[ss no act idx rc op] [f d n l sc]]. unfold reliable in Hr. cbn in Hr, Hf, size.
  subst sc size.
  run by (by apply sys_open_excl_ok).
  run by (by apply sys_ftruncate_ok). run by reflexivity. run by reflexivity.
  assert (Hc : forall z : bytes, content_of name (mkWorld (<[name := Regular z]> f) d n (name :: l) []) = z).
  { intros z. unfold content_of. cbn. by rewrite lookup_insert_eq. }
  assert (Hrz : resize (Z.to_nat ss) [] = replicate (Z.to_nat ss) x00).
  { unfold resize. rewrite take_nil. cbn. by rewrite Nat.sub_0_r. }
  unfold set_content. cbn. unfold set_fds, set_files. cbn.
  rewrite Hc, insert_insert_eq, Hrz.
  run by (eapply memcpy_active_ok; cbn; [done|apply Hc|lia| |];
          rewrite ?length_replicate, Hhl; lia).
  unfold set_content. cbn. unfold set_files. cbn. rewrite insert_insert_eq.
  run by (apply lift_os_ok; reflexivity). run by (apply lift_os_ok; reflexivity).
  run by (apply lift_os_ok; reflexivity). run by (apply lift_os_ok; reflexivity).
  run by (by apply sys_close_ok).
  unfold close_fd, set_disk, set_disk_names, set_fds. cbn.
  rewrite decide_True by done. cbn. rewrite !Hc. unfold content_of. cbn.
  by rewrite lookup_insert_eq, insert_insert_eq.
Qed.

(** Take the false branch of a test that the arithmetic in the context refutes. *)
Ltac skip_if c := replace c with false by width; cbv beta match zeta.

(** ** Appending to the image *)

Lemma store_nil buf pos : store buf pos [] = buf.
Proof. unfold store. cbn. by rewrite Nat.add_0_r, take_drop. Qed.

Lemma image_append size id base cur m :
  40 + zlen (encode (cur ++ [m])) <= size ->
  let wp := (40 + length (encode cur))%nat in
  store (store (segment_image size id base cur) (wp + 32) (payload m)) wp
        (record_header (offset m) (timestamp_ns m) (payload m)) =
  segment_image size id base (cur ++ [m]).
Proof.
  intros Hsz wp. rewrite encode_app, encode_single in Hsz.
  pose proof (length_record_header (offset m) (timestamp_ns m) (payload m)) as Hrl.
  unfold encode_record in Hsz. rewrite !length_app, Hrl in Hsz.
  unfold segment_image. rewrite encode_app, encode_single. unfold encode_record.
  pose proof (length_segment_header id base size) as Hhl.
  set (h := segment_header id base size) in *. set (r := record_header _ _ _) in *.
  set (k := (Z.to_nat size - 40 - length (encode cur) - 32 - length (payload m))%nat).
  replace (Z.to_nat size - 40 - length (encode cur))%nat with (32 + (length (payload m) + k))%nat
    by (unfold k; lia).
  rewrite !length_app, Hrl. replace (Z.to_nat size - 40 - _)%nat with k by (unfold k; lia).
  rewrite !replicate_add.
  assert (E1 : h ++ encode cur ++ replicate 32 x00 ++ replicate (length (payload m)) x00 ++
    replicate k x00 = (h ++ encode cur ++ replicate 32 x00) ++
    replicate (length (payload m)) x00 ++ replicate k x00) by (by rewrite <- !app_assoc).
  rewrite E1. replace (wp + 32)%nat with (length (h ++ encode cur ++ replicate 32 x00))
    by (rewrite !length_app, length_replicate; unfold wp; lia).
  rewrite store_app by (by rewrite length_replicate).
  assert (E2 : (h ++ encode cur ++ replicate 32 x00) ++ payload m ++ replicate k x00 =
    (h ++ encode cur) ++ replicate 32 x00 ++ payload m ++ replicate k x00)
    by (by rewrite <- !app_assoc).
  rewrite E2. replace wp with (length (h ++ encode cur)) by (rewrite length_app; unfold wp; lia).
  rewrite store_app by (by rewrite length_replicate). by rewrite <- !app_assoc.
Qed.

Lemma layout_name_inj segs g g' :
  zlen segs <= maximum_segment_id ->
  g ∈ layout 1 0 segs -> 1 <= seg_id g' <= maximum_segment_id -> seg_name g = seg_name g' ->
  seg_id g = seg_id g'.
Proof.
  intros Hm Hg%layout_ids Hg' He. apply segment_path_inj in He; [done|lia|lia].
Qed.

(** Giving the newest segment the contents of a history. *)
Lemma dir_inv_newest size sealed cur f :
  1 + zlen sealed <= maximum_segment_id ->
  (forall g, g ∈ layout 1 0 sealed -> f !! seg_name g = Some (Regular (seg_image size g))) ->
  (forall id, 0 <= id <= maximum_segment_id -> is_Some (f !! segment_path id) ->
     1 <= id <= 1 + zlen sealed) ->
  dir_inv size (layout 1 0 (sealed ++ [cur]))
    (<[seg_name (current sealed cur) := Regular (seg_image size (current sealed cur))]> f).
Proof.
  intros Hm Him Hon. rewrite layout_snoc. split.
  - intros g [Hg|Hg]%elem_of_app.
    + rewrite lookup_insert_ne; [by apply Him|].
      intros He. symmetry in He. apply (layout_name_inj sealed) in He; [|lia|done|cbn; lia].
      apply layout_ids in Hg. cbn in He. lia.
    + apply list_elem_of_singleton in Hg as ->. apply lookup_insert_eq.
  - intros id Hid Hs. rewrite length_app, length_layout. cbn.
    destruct (decide (segment_path id = seg_name (current sealed cur))) as [He|Hne].
    + apply segment_path_inj in He; [|done|cbn; lia]. cbn in He. lia.
    + rewrite lookup_insert_ne in Hs by done. apply (Hon id Hid) in Hs. lia.
Qed.

Lemma dir_inv_sealed size sealed cur f :
  dir_inv size (layout 1 0 (sealed ++ [cur])) f ->
  (forall g, g ∈ layout 1 0 sealed -> f !! seg_name g = Some (Regular (seg_image size g))) /\
  (forall id, 0 <= id <= maximum_segment_id -> is_Some (f !! segment_path id) ->
     1 <= id <= 1 + zlen sealed).
Proof.
  intros [Him Hon]. rewrite layout_snoc in *. split.
  - intros g Hg. apply Him, elem_of_app. by left.
  - intros id Hid Hs. apply (Hon id Hid) in Hs. rewrite length_app, length_layout in Hs. cbn in Hs. lia.
Qed.

Lemma dir_inv_update size sealed cur cur' f :
  1 + zlen sealed <= maximum_segment_id ->
  dir_inv size (layout 1 0 (sealed ++ [cur])) f ->
  dir_inv size (layout 1 0 (sealed ++ [cur']))
    (<[seg_name (current sealed cur) := Regular (seg_image size (current sealed cur'))]> f).
Proof.
  intros Hm [Him Hon]%dir_inv_sealed.
  change (seg_name (current sealed cur)) with (seg_name (current sealed cur')).
  by apply dir_inv_newest.
Qed.

(** ** Append *)

(** The message [append payload now] adds to a history that ends at [next]. *)
Definition new_message (next now : Z) (payload : bytes) : Message :=
  mkMessage next (now mod u64_modulus) (zlen payload) payload.

Lemma new_message_wf next now p :
  0 <= next < u64_modulus -> zlen p <= u32_max -> wf_message (new_message next now p).
Proof.
  intros. split; cbn; try done. by apply Z.mod_pos_bound.
Qed.

Lemma hist_inv_append size sealed cur m :
  hist_inv size sealed cur -> wf_message m -> offset m = end_of 0 (history sealed cur) ->
  40 + zlen (encode (cur ++ [m])) <= size ->
  end_of 0 (history sealed cur) + record_size m <= u64_max ->
  hist_inv size sealed (cur ++ [m]).
Proof.
  intros [Hs Hc Hf Hch He] Hm Ho Hfit Hmax. apply Forall_app in Hf as [Hf _].
  split; [done|done| | |].
  - apply Forall_app_2; [done|]. by repeat constructor.
  - rewrite history_app. apply chained_app. cbn. auto.
  - by rewrite history_app, end_of_app.
Qed.

Lemma segment_index_update sealed cur m :
  let idx := seg_info <$> layout 1 0 (sealed ++ [cur]) in
  let i := seg_info (current sealed cur) in
  take (length idx - 1) idx ++
    [mkInfo (segment_id i) (first_offset i) (end_of 0 (history sealed (cur ++ [m])))
            (40 + zlen (encode (cur ++ [m]))) (path i)] =
  seg_info <$> layout 1 0 (sealed ++ [cur ++ [m]]).
Proof.
  intros idx i. unfold idx. rewrite !layout_snoc, !fmap_app, length_app. cbn [fmap list_fmap length].
  rewrite Nat.add_sub, take_app_length. f_equal. cbn. rewrite <- current_end. done.
Qed.

Lemma set_content_same name c s : files (os s) !! name = Some (Regular c) -> set_content name c s = s.
Proof.
  destruct s as [l [f d n fd sc]]. unfold set_content, set_files. cbn. intros H.
  by rewrite insert_id.
Qed.

(** The payload copy of [append], which is skipped for an empty payload. *)
Lemma memcpy_payload_ok name pos p c s :
  data (active (log s)) = true -> map_path (active (log s)) = name ->
  files (os s) !! name = Some (Regular c) ->
  0 <= pos -> pos + zlen p <= map_size (active (log s)) -> pos + zlen p <= zlen c ->
  (if (length p =? 0)%nat then mret tt else memcpy_active pos p) s =
  (Ok tt, set_content name (store c (Z.to_nat pos) p) s).
Proof.
  intros Hd Hn Hf H0 H1 H2. destruct (Nat.eqb_spec (length p) 0) as [E|E].
  - destruct p; [|done]. by rewrite store_nil, set_content_same.
  - rewrite (memcpy_active_ok pos p c); rewrite ?Hn; try done. by apply content_of_regular.
Qed.

(** The offset, the size and the position of a record that fits. *)
Lemma length_encode_snoc cur m : zlen (encode (cur ++ [m])) = zlen (encode cur) + record_size m.
Proof.
  pose proof (length_encode_record m). rewrite encode_app, encode_single, length_app. lia.
Qed.

Lemma current_image outer s sealed cur :
  log_inv outer s sealed cur ->
  files (os s) !! seg_name (current sealed cur) =
  Some (Regular (seg_image (segment_size (log s)) (current sealed cur))).
Proof.
  intros Hinv. apply (dir_images _ _ _ (inv_dir _ _ _ _ Hinv)). rewrite layout_snoc.
  apply elem_of_app. right. by apply list_elem_of_singleton.
Qed.

(** The state of a log with history [history sealed cur], in terms of what the
    history does not determine: the cache, the files, and the rest of the world. *)
Definition log_state (sealed : list (list Message)) (cur : list Message)
    (cache : CircularBuffer Message) (s : state) : state :=
  let size := segment_size (log s) in
  let g := current sealed cur in
  mkState (mkLog size (end_of 0 (history sealed cur))
             (mkMapping (Some (seg_name g)) true size (seg_name g) (seg_id g) (seg_base g)
                        (40 + zlen (encode cur)))
             (seg_info <$> layout 1 0 (sealed ++ [cur])) cache true)
          (os (set_content (seg_name g) (seg_image size g) s)).

Lemma log_inv_log_state outer s sealed cur :
  log_inv outer s sealed cur -> s = log_state sealed cur (recent_cache (log s)) s.
Proof.
  intros Hinv. pose proof (current_image _ _ _ _ Hinv) as Himg.
  destruct Hinv as [_ Hop Hidx Hact Hnext _ _ _].
  unfold log_state. rewrite set_content_same by exact Himg.
  destruct s as [[ss no act idx rc op] w]. cbn in *. by rewrite Hop, Hidx, Hact, Hnext.
Qed.

(** The state after a record was added to the current segment. *)
Definition written (sealed : list (list Message)) (cur : list Message) (m : Message) (s : state) :
    state :=
  log_state sealed (cur ++ [m]) (push m (recent_cache (log s))) s.

Lemma written_inv outer s sealed cur m :
  log_inv outer s sealed cur -> wf_message m -> offset m = end_of 0 (history sealed cur) ->
  40 + zlen (encode (cur ++ [m])) <= segment_size (log s) ->
  end_of 0 (history sealed cur) + record_size m <= u64_max ->
  log_inv outer (written sealed cur m s) sealed (cur ++ [m]).
Proof.
  intros [Hh Hop Hidx Hact Hnext Hcache Hdir Hfds] Hwf Hoff Hfit Hmax.
  split; try done.
  - by apply hist_inv_append.
  - cbn. rewrite history_app. by apply push_represents.
  - apply (dir_inv_update _ _ cur); [apply Hh|done].
Qed.

(** The two copies of [append] turn the image of the segment into the next one. *)
Lemma write_record_copies outer s sealed cur m :
  let size := segment_size (log s) in
  let name := seg_name (current sealed cur) in
  let wp := 40 + zlen (encode cur) in
  log_inv outer s sealed cur -> 40 + zlen (encode (cur ++ [m])) <= size ->
  ((if (length (payload m) =? 0)%nat then mret tt else memcpy_active (wp + 32) (payload m));;
   memcpy_active wp (record_header (offset m) (timestamp_ns m) (payload m)))
    (mkState (set_recent_cache (push m (recent_cache (log s))) (log s)) (os s)) =
  (Ok tt, mkState (set_recent_cache (push m (recent_cache (log s))) (log s))
                  (os (set_content name (seg_image size (current sealed (cur ++ [m]))) s))).
Proof.
  intros size name wp Hinv Hfit. pose proof (current_image _ _ _ _ Hinv) as Himg.
  pose proof (inv_active _ _ _ _ Hinv) as Hact. pose proof (inv_hist _ _ _ _ Hinv) as [Hsz _ _ _ _].
  set (g := current sealed cur) in *. fold name in Himg, Hact. cbv zeta in Hact. fold size wp in Hact, Himg.
  pose proof (length_encode_snoc cur m) as Henc. unfold record_size, record_header_size in Henc.
  pose proof (length_segment_image size (seg_id g) (seg_base g) cur ltac:(lia)) as Hil.
  change (segment_image size _ _ cur) with (seg_image size g) in Hil.
  set (img := seg_image size g) in *. set (s1 := mkState _ _).
  assert (Hact1 : active (log s1) = active (log s)) by done.
  run by (apply (memcpy_payload_ok name (wp + 32) (payload m) img s1); rewrite ?Hact1, ?Hact; cbn; done || lia).
  set (c1 := store img (Z.to_nat (wp + 32)) (payload m)).
  assert (Hc1l : zlen c1 = size) by (unfold c1; rewrite length_store; lia).
  pose proof (length_record_header (offset m) (timestamp_ns m) (payload m)) as Hhl.
  rewrite (memcpy_active_ok wp _ c1); cbn; rewrite ?Hact; cbn; rewrite ?Hhl; try done; try lia.
  2: apply content_of_regular, lookup_insert_eq.
  f_equal. unfold set_content, set_files. cbn. rewrite insert_insert_eq. do 4 f_equal.
  unfold c1, wp. replace (Z.to_nat (40 + zlen (encode cur) + 32)) with
    (40 + length (encode cur) + 32)%nat by lia.
  replace (Z.to_nat (40 + zlen (encode cur))) with (40 + length (encode cur))%nat by lia.
  exact (image_append size (seg_id g) (seg_base g) cur m Hfit).
Qed.

Lemma write_record_ok outer s sealed cur p now :
  let next := end_of 0 (history sealed cur) in
  let m := new_message next now p in
  log_inv outer s sealed cur -> zlen p <= u32_max ->
  40 + zlen (encode (cur ++ [m])) <= segment_size (log s) -> next + record_size m <= u64_max ->
  write_record p (32 + zlen p) now s = (Ok next, written sealed cur m s).
Proof.
  intros next m Hinv Hp Hfit Hmax.
  pose proof (write_record_copies outer s sealed cur m Hinv Hfit) as Hcopy. cbv zeta in Hcopy.
  pose proof (length_encode_snoc cur m) as Henc.
  pose proof (hist_end_nonneg sealed cur) as Hnn. fold next in Hnn.
  pose proof (segment_index_update sealed cur m) as Hupd. cbv zeta in Hupd.
  destruct Hinv as [[Hsz _ _ _ _] Hop Hidx Hact Hnext _ _ _].
  assert (Hrs : record_size m = 32 + zlen p) by done.
  set (g := current sealed cur) in *. set (wp := 40 + zlen (encode cur)) in *.
  unfold write_record, record_header_size. run by reflexivity. rewrite Hnext. fold next. cbv zeta.
  rewrite (Z.mod_small (zlen p)) by width. fold (new_message next now p). fold m.
  run by reflexivity. run by reflexivity. cbn [write_position active log set_recent_cache].
  rewrite Hact. cbn [write_position]. fold wp. rewrite u64_add_small by width.
  apply stm_bind_inv in Hcopy as (u & s1 & Hcopy1 & Hcopy2). destruct u.
  run by exact Hcopy1. run by exact Hcopy2. do 3 run by reflexivity.
  assert (Hlast : last (segment_index (log s)) = Some (seg_info g)).
  { rewrite Hidx, layout_snoc, fmap_app. apply last_snoc. }
  replace (last _) with (Some (seg_info g)) by exact (eq_sym Hlast).
  run by reflexivity. cbv [mret stm_ret]. f_equal.
  assert (Hend' : end_of 0 (history sealed (cur ++ [m])) = next + (32 + zlen p)).
  { by rewrite history_app, end_of_app. }
  assert (Hwp' : 40 + zlen (encode (cur ++ [m])) = wp + (32 + zlen p)) by lia.
  unfold written, log_state. f_equal. unfold set_segment_index.
  cbn [log os segment_size next_message_offset active segment_index recent_cache opened
       set_next_message_offset set_active set_recent_cache].
  rewrite Hnext, Hact, Hop. cbn [write_position set_write_position fd data map_size map_path
    map_segment_id base_offset]. fold next wp.
  rewrite !u64_add_small by width. rewrite Hidx, <- Hupd, <- Hend', <- Hwp'. done.
Qed.

(** ** Rollover *)

Lemma dir_inv_extend size sealed cur f :
  2 + zlen sealed <= maximum_segment_id ->
  dir_inv size (layout 1 0 (sealed ++ [cur])) f ->
  f !! segment_path (2 + zlen sealed) = None /\
  dir_inv size (layout 1 0 ((sealed ++ [cur]) ++ [[]]))
    (<[segment_path (2 + zlen sealed) :=
       Regular (segment_image size (2 + zlen sealed) (end_of 0 (history sealed cur)) [])]> f).
Proof.
  intros Hm [Him Hon]. set (id := 2 + zlen sealed).
  assert (Hl : zlen (layout 1 0 (sealed ++ [cur])) = 1 + zlen sealed).
  { rewrite length_layout, length_app. cbn. lia. }
  assert (Hcur : current (sealed ++ [cur]) [] = mkSeg id (end_of 0 (history sealed cur)) []).
  { unfold current, id, history. rewrite concat_snoc, length_app. f_equal. cbn. lia. }
  rewrite Hl in Hon. split.
  { apply eq_None_not_Some. intros H%Hon; unfold id in *; lia. }
  rewrite (layout_snoc (sealed ++ [cur])), Hcur. split.
  - intros g [Hg|Hg]%elem_of_app.
    + rewrite lookup_insert_ne; [by apply Him|].
      intros He. symmetry in He. pose proof (layout_ids _ _ _ _ Hg) as Hids.
      rewrite length_app in Hids. cbn in Hids.
      apply segment_path_inj in He; unfold id in *; lia.
    + apply list_elem_of_singleton in Hg as ->. apply lookup_insert_eq.
  - intros id' Hid' Hs. rewrite length_app, length_layout, length_app. cbn.
    destruct (decide (segment_path id' = segment_path id)) as [He|Hne].
    + apply segment_path_inj in He; unfold id in *; lia.
    + rewrite lookup_insert_ne in Hs by done. apply Hon in Hs; lia.
Qed.

Lemma current_snoc sealed cur :
  current (sealed ++ [cur]) [] = mkSeg (2 + zlen sealed) (end_of 0 (history sealed cur)) [].
Proof. unfold current, history. rewrite concat_snoc, length_app. f_equal. cbn. lia. Qed.

(** The state after the current segment was sealed and an empty one created. *)
Definition rolled (outer : list bytes) (sealed : list (list Message)) (cur : list Message)
    (s : state) : state :=
  let size := segment_size (log s) in
  let g := current sealed cur in
  let g' := current (sealed ++ [cur]) [] in
  let f := <[seg_name g' := Regular (seg_image size g')]> (files (os s)) in
  mkState (log (log_state (sealed ++ [cur]) [] (recent_cache (log s)) s))
          (mkWorld f (<[seg_name g' := seg_image size g']> (<[seg_name g := seg_image size g]> (disk (os s))))
                   (dom f) (seg_name g' :: outer) []).

Lemma rolled_inv outer s sealed cur :
  log_inv outer s sealed cur -> 2 + zlen sealed <= maximum_segment_id ->
  log_inv outer (rolled outer sealed cur s) (sealed ++ [cur]) [].
Proof.
  intros [Hh Hop Hidx Hact Hnext Hcache Hdir Hfds] Hm.
  destruct (dir_inv_extend _ _ _ _ Hm Hdir) as [_ Hdir']. pose proof Hh as [Hsz Hcnt Hfits Hch Hend].
  split; try done; rewrite ?history_snoc; try done.
  - split; rewrite ?history_snoc; try done.
    + rewrite length_app. cbn. lia.
    + apply Forall_app_2; [done|]. repeat constructor. change (zlen (encode [])) with 0. cbn. lia.
  - unfold rolled. rewrite current_snoc. exact Hdir'.
Qed.

Lemma rollover_ok outer s sealed cur :
  log_inv outer s sealed cur -> reliable (os s) -> 2 + zlen sealed <= maximum_segment_id ->
  (unmap_active true;; create_segment (2 + zlen sealed) (end_of 0 (history sealed cur))) s =
  (Ok tt, rolled outer sealed cur s).
Proof.
  intros Hinv Hr Hm. pose proof (content_of_regular _ _ _ (current_image _ _ _ _ Hinv)) as Hc.
  destruct Hinv as [Hh Hop Hidx Hact Hnext Hcache Hdir Hfds].
  destruct (dir_inv_extend _ _ _ _ Hm Hdir) as [Hnone _].
  pose proof Hh as [Hsz Hcnt Hfits Hch Hend].
  run by (by eapply unmap_active_ok). set (s0 := mkState _ _).
  rewrite create_segment_ok by (done || (cbn; lia)). f_equal.
  change (segment_size (log s0)) with (segment_size (log s)).
  change (files (os s0)) with (files (os s)). change (fds (os s0)) with outer.
  change (disk (os s0)) with (<[seg_name (current sealed cur) :=
    content_of (seg_name (current sealed cur)) (os s)]> (disk (os s))).
  rewrite Hc. unfold rolled, log_state. rewrite (layout_snoc (sealed ++ [cur])), history_snoc.
  rewrite fmap_app, <- Hidx, current_snoc, <- Hop.
  assert (Hno : next_message_offset (log s0) = end_of 0 (history sealed cur)) by exact Hnext.
  rewrite <- Hno. reflexivity.
Qed.

(** ** Append, whole *)

Definition fits (size : Z) (cur : list Message) (m : Message) : bool :=
  40 + zlen (encode (cur ++ [m])) <=? size.

(** The guards of [append] on a history that accepts the record. *)
Lemma append_guards outer s sealed cur p now :
  let next := end_of 0 (history sealed cur) in
  log_inv outer s sealed cur -> zlen p <= u32_max ->
  72 + zlen p <= segment_size (log s) -> next + (32 + zlen p) <= u64_max ->
  append p now s =
  ((if segment_size (log s) - (32 + zlen p) <? 40 + zlen (encode cur) then
      if maximum_segment_id <=? 1 + zlen sealed
      then throw (overflow_error (B "segment id space is exhausted"))
      else on_exception (unmap_active true;; create_segment (2 + zlen sealed) next)
                        (modify_log (set_opened false))
    else mret tt);; write_record p (32 + zlen p) now) s.
Proof.
  intros next [Hh Hop Hidx Hact Hnext Hcache Hdir Hfds] Hp Hfit Hmax.
  pose proof Hh as [Hsz Hcnt Hfits Hch Hend].
  pose proof (hist_end_nonneg sealed cur) as Hnn. fold next in Hnn.
  set (size := segment_size (log s)) in *. unfold maximum_segment_id in Hcnt.
  unfold append. run by reflexivity. rewrite Hop. cbn [negb].
  skip_if (u32_max <? zlen p). run by reflexivity. rewrite Hact.
  cbn [map_size write_position map_segment_id current seg_id].
  unfold record_header_size, segment_header_size. rewrite u64_add_small by width.
  rewrite (u64_sub_small size 40) by width.
  skip_if (size - 40 <? 32 + zlen p). run by reflexivity. rewrite Hnext.
  rewrite (u64_sub_small u64_max) by width. fold next.
  skip_if (u64_max - (32 + zlen p) <? next).
  rewrite (u64_sub_small size), (Z.mod_small (1 + zlen sealed + 1)) by width.
  by replace (1 + zlen sealed + 1) with (2 + zlen sealed) by lia.
Qed.

(** [append] extends the history by one message, in the current segment when the
    record fits and in a fresh one otherwise. *)
Definition place (size : Z) (sealed : list (list Message)) (cur : list Message) (m : Message) :
    list (list Message) * list Message :=
  if 40 + zlen (encode (cur ++ [m])) <=? size then (sealed, cur ++ [m]) else (sealed ++ [cur], [m]).

Lemma place_history size sealed cur m :
  history (place size sealed cur m).1 (place size sealed cur m).2 = history sealed cur ++ [m].
Proof.
  unfold place. destruct (_ <=? _); cbn; [apply history_app|].
  unfold history. by rewrite concat_snoc.
Qed.

Definition appended (outer : list bytes) (sealed : list (list Message)) (cur : list Message)
    (m : Message) (s : state) : state :=
  if 40 + zlen (encode (cur ++ [m])) <=? segment_size (log s)
  then written sealed cur m s
  else written (sealed ++ [cur]) [] m (rolled outer sealed cur s).

(** What [append] needs of a payload, besides a reliable operating system. *)
Record appendable (size : Z) (sealed : list (list Message)) (cur : list Message) (p : bytes) :
    Prop := {
  app_length : zlen p <= u32_max;
  app_fits : 72 + zlen p <= size;
  app_offset : end_of 0 (history sealed cur) + 32 + zlen p <= u64_max;
  app_id : size < 40 + zlen (encode cur) + 32 + zlen p -> 2 + zlen sealed <= maximum_segment_id
}.

Lemma append_ok outer s sealed cur p now :
  let next := end_of 0 (history sealed cur) in
  let m := new_message next now p in
  log_inv outer s sealed cur -> reliable (os s) -> appendable (segment_size (log s)) sealed cur p ->
  append p now s = (Ok next, appended outer sealed cur m s).
Proof.
  intros next m Hinv Hr [Hp Hfit Hmax Hid]. set (size := segment_size (log s)) in *.
  rewrite (append_guards outer s sealed cur) by (done || lia). fold next size.
  pose proof (length_encode_snoc cur m) as Henc. change (record_size m) with (32 + zlen p) in Henc.
  unfold appended. fold size. destruct (Z.leb_spec (40 + zlen (encode (cur ++ [m]))) size) as [Hroom|Hroom].
  - skip_if (size - (32 + zlen p) <? 40 + zlen (encode cur)). run by reflexivity.
    apply (write_record_ok outer); [done..|]. fold next m. change (record_size m) with (32 + zlen p). lia.
  - assert (Hid' : 2 + zlen sealed <= maximum_segment_id) by (apply Hid; lia).
    replace (_ <? _) with true by lia.
    replace (maximum_segment_id <=? 1 + zlen sealed) with false by lia.
    pose proof (rollover_ok outer s sealed cur Hinv Hr Hid') as Hroll. fold next in Hroll.
    run by (unfold on_exception; rewrite Hroll; reflexivity).
    pose proof (rolled_inv outer s sealed cur Hinv Hid') as Hinv'.
    pose proof (write_record_ok outer _ _ _ p now Hinv' Hp) as Hw.
    rewrite history_snoc in Hw. fold next m in Hw. apply Hw.
    + rewrite length_encode_snoc. change (record_size m) with (32 + zlen p).
      change (zlen (encode [])) with 0. change (segment_size (log (rolled _ _ _ _))) with size. lia.
    + change (record_size m) with (32 + zlen p). lia.
Qed.

Lemma appended_inv outer s sealed cur p now :
  let m := new_message (end_of 0 (history sealed cur)) now p in
  let size := segment_size (log s) in
  log_inv outer s sealed cur -> appendable size sealed cur p ->
  log_inv outer (appended outer sealed cur m s) (place size sealed cur m).1 (place size sealed cur m).2.
Proof.
  intros m size Hinv [Hp Hfit Hmax Hid]. pose proof (hist_end_nonneg sealed cur) as Hnn.
  pose proof (length_encode_snoc cur m) as Henc. change (record_size m) with (32 + zlen p) in Henc.
  assert (Hwf : wf_message m) by (apply new_message_wf; [width|done]).
  unfold appended, place. fold size. destruct (Z.leb_spec (40 + zlen (encode (cur ++ [m]))) size) as [Hroom|Hroom];
    cbn [fst snd].
  - apply written_inv; try done. change (record_size m) with (32 + zlen p). lia.
  - assert (Hid' : 2 + zlen sealed <= maximum_segment_id) by (apply Hid; lia).
    apply (written_inv outer _ (sealed ++ [cur]) []); rewrite ?history_snoc; try done.
    + by apply rolled_inv.
    + rewrite length_encode_snoc. change (record_size m) with (32 + zlen p).
      change (zlen (encode [])) with 0. change (segment_size (log (rolled _ _ _ _))) with size. lia.
    + change (record_size m) with (32 + zlen p). lia.
Qed.

(** What [append] leaves alone. *)
Lemma appended_frame outer sealed cur m s :
  let s' := appended outer sealed cur m s in
  reliable (os s) -> reliable (os s') /\ segment_size (log s') = segment_size (log s) /\
  recent_cache (log s') = push m (recent_cache (log s)).
Proof. intros s' Hr. unfold s', appended. by destruct (_ <=? _). Qed.

(** ** The error branches of append *)

(** The exception [append p] throws on a history, if any, in the order the
    source tests for it. *)
Definition append_error (size : Z) (sealed : list (list Message)) (cur : list Message) (p : bytes) :
    option exn :=
  if u32_max <? zlen p
  then Some (length_error (B "payload exceeds the on-disk format limit"))
  else if size <? 72 + zlen p
  then Some (length_error (B "record is too large to fit in an empty segment"))
  else if u64_max <? end_of 0 (history sealed cur) + 32 + zlen p
  then Some (overflow_error (B "message offset space is exhausted"))
  else if (size <? 40 + zlen (encode cur) + 32 + zlen p) && (maximum_segment_id <? 2 + zlen sealed)
  then Some (overflow_error (B "segment id space is exhausted"))
  else None.

Lemma append_error_None size sealed cur p :
  append_error size sealed cur p = None -> appendable size sealed cur p.
Proof.
  unfold append_error. repeat case_match; intros; try done.
  apply andb_false_iff in H2 as [H2|H2]; split; lia.
Qed.

Lemma append_rejected outer s sealed cur p now e :
  log_inv outer s sealed cur -> append_error (segment_size (log s)) sealed cur p = Some e ->
  append p now s = (Throw e, s).
Proof.
  intros Hinv. unfold append_error.
  set (next := end_of 0 (history sealed cur)). set (size := segment_size (log s)).
  destruct (Z.ltb_spec u32_max (zlen p)) as [H1|H1];
    [|destruct (Z.ltb_spec size (72 + zlen p)) as [H2|H2];
      [|destruct (Z.ltb_spec u64_max (next + 32 + zlen p)) as [H3|H3]]].
  4:{ destruct (_ && _) eqn:H4; [|done]. intros [= <-]. apply andb_true_iff in H4 as [H4 H5].
      rewrite (append_guards outer s sealed cur) by (done || (fold next size; lia)). fold next size.
      replace (size - (32 + zlen p) <? 40 + zlen (encode cur)) with true by lia.
      by replace (maximum_segment_id <=? 1 + zlen sealed) with true by lia. }
  all: intros [= <-]; destruct Hinv as [[Hsz _ _ _ Hend] Hop _ Hact Hnext _ _ _];
    fold size in Hsz, Hact; unfold append; run by reflexivity; rewrite Hop; cbn [negb].
  - by replace (u32_max <? zlen p) with true by lia.
  - skip_if (u32_max <? zlen p). run by reflexivity. rewrite Hact. cbn [map_size].
    unfold record_header_size, segment_header_size.
    rewrite u64_add_small, (u64_sub_small size 40) by width.
    by replace (size - 40 <? 32 + zlen p) with true by lia.
  - skip_if (u32_max <? zlen p). run by reflexivity. rewrite Hact. cbn [map_size].
    unfold record_header_size, segment_header_size.
    rewrite u64_add_small, (u64_sub_small size 40) by width.
    skip_if (size - 40 <? 32 + zlen p). run by reflexivity.
    rewrite Hnext, (u64_sub_small u64_max) by width. fold next.
    by replace (u64_max - (32 + zlen p) <? next) with true by lia.
Qed.
