(* ===== verification/LogRecover.v ===== *)
(** * LogRecover: opening a log rebuilds its history

    From the directory a previous run left, [open] rebuilds the members of the
    log: the sealed segments must be intact, and the newest may end in any
    bytes, as after a crash. *)
From stdpp Require Import base gmap list numbers sorting strings.
From Stdlib Require Import Strings.Byte.
From S2P Require Import Prelude Codec Text CircularBuffer Os MmapLog LogFormat LogScan LogSpec.

Local Open Scope Z_scope.

(** ** Records are prefix-free *)

Lemma message_eq m m' :
  offset m = offset m' -> timestamp_ns m = timestamp_ns m' ->
  payload_length m = payload_length m' -> payload m = payload m' -> m = m'.
Proof. destruct m, m'. cbn. by intros -> -> -> ->. Qed.

Lemma encode_record_inj m m' k k' :
  wf_message m -> wf_message m' -> encode_record m ++ k = encode_record m' ++ k' ->
  m = m' /\ k = k'.
Proof.
  intros Hm Hm' He. unfold encode_record in He. rewrite <- !app_assoc in He.
  apply app_inj_1 in He as [Hh He]; [|by rewrite !length_record_header].
  destruct (encoded_fields m Hm) as (_ & _ & F8 & F16 & F24 & _).
  destruct (encoded_fields m' Hm') as (_ & _ & F8' & F16' & F24' & _).
  rewrite Hh in F8, F16, F24.
  apply app_inj_1 in He as [Hp ->]; [|lia]. split; [|done].
  apply message_eq; [congruence..| |done].
  by rewrite (wf_length _ Hm), (wf_length _ Hm'), Hp.
Qed.

Lemma encode_record_head m k : exists l, encode_record m ++ k = x52 :: l.
Proof. eexists. unfold encode_record. rewrite record_header_eq. reflexivity. Qed.

(** The scan of a body that starts with [ms0] finds [ms0] and possibly more. *)
Lemma encode_extends base ms0 ms tail rest :
  chained base ms0 -> chained base ms -> encode ms0 ++ tail = encode ms ++ rest ->
  ~ starts_record (end_of base ms) rest ->
  exists extra, ms = ms0 ++ extra /\ tail = encode extra ++ rest.
Proof.
  revert base ms. induction ms0 as [|m0 ms0 IH]; intros base ms H0 H He Hn; [by exists ms|].
  destruct H0 as (Ho0 & Hw0 & H0). rewrite encode_cons, <- app_assoc in He.
  destruct ms as [|m ms].
  - destruct Hn. cbn. exists m0, (encode ms0 ++ tail). done.
  - destruct H as (Ho & Hw & H). rewrite encode_cons, <- app_assoc in He.
    apply encode_record_inj in He as [-> He]; [|done|done].
    destruct (IH _ _ H0 H He Hn) as (extra & -> & ->). by exists extra.
Qed.

(** Bytes that do not start with the first byte of a record hold no record. *)
Lemma encode_no_head ms rest l :
  l = encode ms ++ rest -> head l <> Some x52 -> ms = [].
Proof.
  destruct ms as [|m ms]; [done|]. rewrite encode_cons, <- app_assoc. intros -> H.
  destruct (encode_record_head m (encode ms ++ rest)) as [l Hl]. by rewrite Hl in H.
Qed.

Lemma all_zero_head l : all_zero l = true -> head l <> Some x52.
Proof. intros ->%all_zero_spec. by destruct l. Qed.

(** ** Listing the directory *)

Definition file_of (g : seg) : Z * bytes := (seg_id g, seg_name g).

Lemma elem_of_segment_files (f : gmap bytes dir_entry) id name :
  (id, name) ∈ segment_files (map_to_list f) <->
  exists c, f !! name = Some (Regular c) /\ parse_segment_id name = Some id.
Proof.
  unfold segment_files. rewrite list_elem_of_omap. split.
  - intros ([name' e] & Hin & He). apply elem_of_map_to_list in Hin.
    destruct e as [c|]; [|done]. apply fmap_Some in He as (id' & Hp & [= -> ->]). eauto.
  - intros (c & Hf & Hp). exists (name, Regular c). split; [by apply elem_of_map_to_list|].
    by rewrite Hp.
Qed.

Lemma segment_files_names l : (segment_files l).*2 `sublist_of` l.*1.
Proof.
  induction l as [|[name e] l IH]; [done|]. cbn.
  destruct e as [c|]; [destruct (parse_segment_id name)|]; cbn; by constructor.
Qed.

Lemma NoDup_segment_files (f : gmap bytes dir_entry) : NoDup (segment_files (map_to_list f)).
Proof.
  apply (NoDup_fmap_1 snd). eapply sublist_NoDup; [|apply segment_files_names].
  apply NoDup_fst_map_to_list.
Qed.

Lemma layout_sorted id base segs : StronglySorted id_le (file_of <$> layout id base segs).
Proof.
  revert id base. induction segs as [|ms segs IH]; intros id base; cbn; constructor; [apply IH|].
  apply Forall_fmap, Forall_forall. intros g Hg%layout_ids. unfold id_le. cbn. lia.
Qed.

Lemma NoDup_layout id base segs : NoDup (file_of <$> layout id base segs).
Proof.
  revert id base. induction segs as [|ms segs IH]; intros id base; cbn; constructor; [|apply IH].
  intros (g & He & Hg)%list_elem_of_fmap. apply layout_ids in Hg. injection He. lia.
Qed.

(** The regular files with segment names, sorted, are the segments in order. *)
Lemma sorted_segment_files (f : gmap bytes dir_entry) segs :
  zlen segs <= maximum_segment_id ->
  (forall g, g ∈ layout 1 0 segs -> exists c, f !! seg_name g = Some (Regular c)) ->
  (forall id, 0 <= id <= maximum_segment_id -> is_Some (f !! segment_path id) -> 1 <= id <= zlen segs) ->
  merge_sort id_le (segment_files (map_to_list f)) = file_of <$> layout 1 0 segs.
Proof.
  intros Hm Hin Honly.
  assert (Hmem : forall x, x ∈ segment_files (map_to_list f) <-> x ∈ file_of <$> layout 1 0 segs).
  { intros [id name]. rewrite elem_of_segment_files, list_elem_of_fmap. split.
    - intros (c & Hf & Hp). apply parse_segment_id_inv in Hp as [-> Hid].
      pose proof (Honly id Hid ltac:(by eexists)) as Hr.
      destruct (lookup_lt_is_Some_2 (layout 1 0 segs) (Z.to_nat (id - 1))) as [g Hg].
      { rewrite length_layout. lia. }
      exists g. split; [|by eapply list_elem_of_lookup_2].
      apply layout_lookup in Hg as (ms & _ & ->). unfold file_of, seg_name. cbn.
      by replace (1 + Z.of_nat (Z.to_nat (id - 1))) with id by lia.
    - intros (g & [= -> ->] & Hg). destruct (Hin g Hg) as [c Hc]. exists c. split; [done|].
      apply layout_ids in Hg. apply parse_segment_path. lia. }
  apply (StronglySorted_unique_strong id_le).
  - intros [i n] [i' n'] H1 H2 Hle Hge. unfold id_le in *. cbn in *. assert (i = i') as -> by lia.
    rewrite merge_sort_Permutation in H1. apply Hmem, list_elem_of_fmap in H1 as (g & [= -> ->] & _).
    apply list_elem_of_fmap in H2 as (g' & [= He ->] & _). unfold seg_name. by rewrite He.
  - apply StronglySorted_merge_sort; [|]; intros [] []; unfold id_le; cbn; lia.
  - apply layout_sorted.
  - rewrite merge_sort_Permutation. apply NoDup_Permutation; auto using NoDup_segment_files, NoDup_layout.
Qed.

(** ** The segment loop *)

(** The members of the log after the segments [segs] were scanned. *)
Definition scanned (segs : list seg) (s : state) : state :=
  let s' := push_cache (concat (seg_msgs <$> segs)) s in
  mkState (set_segment_index (segment_index (log s) ++ (seg_info <$> segs)) (log s')) (os s).

Lemma scanned_cons g segs s : scanned (g :: segs) s = scanned segs (scanned [g] s).
Proof.
  unfold scanned, push_cache, set_segment_index, set_recent_cache. cbn.
  by rewrite app_nil_r, foldl_app, <- app_assoc.
Qed.

Lemma scanned_nil s : scanned [] s = s.
Proof. destruct s as [[] w]. unfold scanned, set_segment_index. cbn. by rewrite app_nil_r. Qed.

Lemma layout_msgs id base segs : seg_msgs <$> layout id base segs = segs.
Proof. revert id base. induction segs; intros; cbn; [done|]. by rewrite IHsegs. Qed.

(** One intact segment is scanned completely and left alone. *)
Lemma scan_segment_image latest g s :
  let size := segment_size (log s) in
  reliable (os s) -> files (os s) !! seg_name g = Some (Regular (seg_image size g)) ->
  0 <= seg_id g <= maximum_segment_id -> 0 <= seg_base g -> chained (seg_base g) (seg_msgs g) ->
  40 + zlen (encode (seg_msgs g)) <= size <= off_max -> seg_base g + size <= u64_max ->
  scan_segment (seg_name g) (seg_id g) latest (seg_base g) (mkInfo (seg_id g) 0 0 0 (seg_name g)) s =
  (Ok (end_of (seg_base g) (seg_msgs g), seg_info g), push_cache (seg_msgs g) s).
Proof.
  intros size Hr Hf Hid Hb Hch Hsz Hov.
  destruct g as [id base ms0]. unfold seg_image, segment_image in Hf. cbn [seg_id seg_base seg_msgs] in *.
  set (name := seg_name _) in *. set (z := replicate _ x00) in Hf.
  assert (Hz : all_zero z = true) by (apply all_zero_spec; unfold z; by rewrite length_replicate).
  assert (Hlz : zlen (encode ms0 ++ z) = size - 40)
    by (unfold z; rewrite length_app, length_replicate; lia).
  clearbody z.
  destruct (scan_segment_ok name id latest base (encode ms0 ++ z) (mkInfo id 0 0 0 name) s)
    as (ms & rest & He & Hms & Hn & Hres); try done; [unfold maximum_segment_id in *; width|lia|lia|].
  destruct (encode_extends base ms0 ms z rest) as (extra & -> & Hzr); try done.
  assert (extra = []) as -> by (by apply (encode_no_head extra rest z Hzr), all_zero_head).
  change (encode [] ++ rest) with rest in Hzr. subst rest. rewrite app_nil_r in *. unfold scan_result in Hres. by rewrite Hz in Hres.
Qed.

Lemma recover_loop_step g index rest s :
  seg_id g = Z.of_nat index + 1 ->
  scan_segment (seg_name g) (seg_id g) (bool_decide (rest = [])) (seg_base g)
    (mkInfo (seg_id g) 0 0 0 (seg_name g)) s =
  (Ok (end_of (seg_base g) (seg_msgs g), seg_info g), push_cache (seg_msgs g) s) ->
  recover_loop index (file_of g :: rest) (seg_base g) s =
  recover_loop (S index) rest (end_of (seg_base g) (seg_msgs g)) (scanned [g] s).
Proof.
  intros Hid Hs. cbn [recover_loop file_of]. rewrite Hid, Z.eqb_refl. cbn [negb].
  run by (rewrite <- Hid; exact Hs). run by reflexivity. f_equal.
  unfold scanned, push_cache, set_segment_index, set_recent_cache. cbn. by rewrite app_nil_r.
Qed.

Lemma recover_loop_sealed segs index base rest s :
  let size := segment_size (log s) in
  rest <> [] -> reliable (os s) ->
  (forall g, g ∈ layout (Z.of_nat index + 1) base segs ->
     files (os s) !! seg_name g = Some (Regular (seg_image size g))) ->
  Z.of_nat index + zlen segs <= maximum_segment_id -> 0 <= base ->
  chained base (concat segs) -> end_of base (concat segs) + size <= u64_max -> size <= off_max ->
  Forall (fun ms => 40 + zlen (encode ms) <= size) segs ->
  recover_loop index ((file_of <$> layout (Z.of_nat index + 1) base segs) ++ rest) base s =
  recover_loop (index + length segs) rest (end_of base (concat segs))
    (scanned (layout (Z.of_nat index + 1) base segs) s).
Proof.
  revert index base s. induction segs as [|ms segs IH];
    intros index base s size Hne Hr Hf Hm Hb Hch Hov Hsz Hfit.
  { cbn. by rewrite scanned_nil, Nat.add_0_r. }
  cbn [concat] in *. apply chained_app in Hch as [Hch1 Hch2]. rewrite end_of_app in *.
  apply Forall_cons in Hfit as [Hfit1 Hfit2]. cbn [layout length] in *.
  set (g := mkSeg (Z.of_nat index + 1) base ms) in *.
  pose proof (end_of_encode base ms). pose proof (end_of_encode (end_of base ms) (concat segs)).
  rewrite fmap_cons. cbn [app].
  change base with (seg_base g) at 2. rewrite recover_loop_step; [|done|].
  - rewrite (scanned_cons g (layout _ _ _)). cbn [seg_base seg_msgs g].
    replace (index + S (length segs))%nat with (S index + length segs)%nat by lia.
    replace (Z.of_nat index + 1 + 1) with (Z.of_nat (S index) + 1) in * by lia.
    apply IH; try done; [|lia|lia]. intros g' Hg'. apply Hf. by right.
  - apply scan_segment_image; cbn [seg_id seg_base seg_msgs g]; try done; try lia.
    apply Hf. by left.
Qed.

(** ** The directory a previous run left *)

(** The sealed segments are intact, and the newest file holds its header, the
    records of [cur] and then the bytes [tail]. *)
Record left_behind (size : Z) (sealed : list (list Message)) (cur : list Message) (tail : bytes)
    (f : gmap bytes dir_entry) : Prop := {
  left_sealed : forall g, g ∈ layout 1 0 sealed -> f !! seg_name g = Some (Regular (seg_image size g));
  left_newest :
    let g := current sealed cur in
    f !! seg_name g =
    Some (Regular (segment_header (seg_id g) (seg_base g) size ++ encode cur ++ tail));
  left_only : forall id, 0 <= id <= maximum_segment_id ->
              is_Some (f !! segment_path id) -> 1 <= id <= 1 + zlen sealed;
  left_fits : 40 + zlen (encode cur) + zlen tail <= size
}.

(** The directory of an open or closed log is one that was left behind with
    zero padding. *)
Lemma dir_inv_left_behind size sealed cur f :
  40 + zlen (encode cur) <= size ->
  dir_inv size (layout 1 0 (sealed ++ [cur])) f ->
  left_behind size sealed cur (replicate (Z.to_nat size - 40 - length (encode cur)) x00) f.
Proof.
  intros Hsz Hd. pose proof (dir_inv_sealed _ _ _ _ Hd) as [Him Hon]. split; [done| |done|].
  - destruct Hd as [Hall _]. apply Hall. rewrite layout_snoc. apply elem_of_app. right.
    by apply list_elem_of_singleton.
  - rewrite length_replicate. lia.
Qed.

Lemma lift_list_ok s :
  reliable (os s) -> lift_os fs_list s = (Ok (map_to_list (files (os s))), s).
Proof.
  intros Hr. erewrite lift_os_ok; [by rewrite state_eta|].
  unfold fs_list. by run by (by apply sys_next_ok).
Qed.

(** After the newest segment was scanned, mapping it restores its image. *)
Lemma resize_image size id base ms rest :
  40 + zlen (encode ms) + zlen rest <= size -> all_zero rest = true ->
  resize (Z.to_nat size) (segment_header id base size ++ encode ms ++ rest) =
  segment_image size id base ms.
Proof.
  intros Hsz Hz. pose proof (length_segment_header id base size) as Hh.
  unfold resize, segment_image. rewrite take_ge by (rewrite !length_app; lia).
  rewrite <- !app_assoc. do 2 f_equal. apply all_zero_spec in Hz. rewrite Hz at 1.
  rewrite <- replicate_add. f_equal. rewrite !length_app. lia.
Qed.

Lemma map_active_segment_ok id base wp c s :
  let size := segment_size (log s) in
  let name := segment_path id in
  reliable (os s) -> files (os s) !! name = Some (Regular c) ->
  map_active_segment id base wp s =
  (Ok tt, mkState (set_active (mkMapping (Some name) true size name id base wp) (log s))
                  (os (set_content name (resize (Z.to_nat size) c) (open_fd name s)))).
Proof.
  intros size name Hr Hf. unfold map_active_segment. fold name. run by reflexivity. fold size.
  run by (by eapply sys_open_ok). run by (by apply sys_ftruncate_ok).
  run by (apply lift_os_ok; by apply sys_next_ok).
  rewrite (content_of_regular name c) by exact Hf. reflexivity.
Qed.

(** ** Recovery *)

(** The newest segment: its records and any further valid record of the tail
    are kept, and only zeros are left behind them. *)
Lemma scan_newest sealed cur tail s :
  let size := segment_size (log s) in
  let g := current sealed cur in
  let header := segment_header (seg_id g) (seg_base g) size in
  reliable (os s) ->
  files (os s) !! seg_name g = Some (Regular (header ++ encode cur ++ tail)) ->
  0 <= seg_id g <= maximum_segment_id -> chained (seg_base g) cur ->
  40 + zlen (encode cur) + zlen tail <= size <= off_max -> seg_base g + size <= u64_max ->
  exists extra rest pad,
    tail = encode extra ++ rest /\ chained (seg_base g) (cur ++ extra) /\
    ~ starts_record (end_of (seg_base g) (cur ++ extra)) rest /\
    all_zero pad = true /\ zlen pad <= zlen rest /\
    scan_segment (seg_name g) (seg_id g) true (seg_base g) (mkInfo (seg_id g) 0 0 0 (seg_name g)) s =
    (Ok (end_of (seg_base g) (cur ++ extra), seg_info (current sealed (cur ++ extra))),
     set_content (seg_name g) (header ++ encode (cur ++ extra) ++ pad) (push_cache (cur ++ extra) s)).
Proof.
  intros size g header Hr Hf Hid Hch Hsz Hov.
  assert (Hb : 0 <= seg_base g) by (cbn; rewrite end_of_encode; lia).
  assert (Hlen : zlen (encode cur ++ tail) = zlen (encode cur) + zlen tail) by (rewrite length_app; lia).
  destruct (scan_segment_ok (seg_name g) (seg_id g) true (seg_base g) (encode cur ++ tail)
              (mkInfo (seg_id g) 0 0 0 (seg_name g)) s)
    as (ms & rest & He & Hms & Hn & Hres); try done;
    [unfold maximum_segment_id in *; width|lia|lia|].
  destruct (encode_extends (seg_base g) cur ms tail rest) as (extra & -> & Ht); try done.
  exists extra, rest. unfold scan_result in Hres. fold size header in Hres.
  destruct (all_zero rest) eqn:Hz.
  - exists rest. split_and!; try done. rewrite set_content_same; [done|].
    cbn [push_cache os]. by rewrite Hf, Ht, encode_app, <- app_assoc.
  - exists []. rewrite app_nil_r. split_and!; try done. cbn. lia.
Qed.

(** The history a recovery can keep: it fits and leaves room in the offset space. *)
Lemma hist_inv_extra size sealed cur extra rest :
  hist_inv size sealed cur -> chained (seg_base (current sealed cur)) (cur ++ extra) ->
  40 + zlen (encode cur) + zlen (encode extra ++ rest) <= size ->
  end_of 0 (history sealed cur) + size <= u64_max ->
  hist_inv size sealed (cur ++ extra).
Proof.
  intros [Hsz Hcnt Hfits Hch Hend] Hch' Hfit Hov. rewrite length_app in Hfit.
  apply Forall_app in Hfits as [Hfits _]. split; [done|done| | |].
  - apply Forall_app_2; [done|]. repeat constructor. rewrite encode_app, length_app. lia.
  - unfold history in *. apply chained_app in Hch as [Hch _]. by apply chained_app.
  - rewrite history_app, end_of_app, (end_of_encode _ extra). lia.
Qed.

(** The files of the directory, in the order they are scanned. *)
Lemma left_behind_files size sealed cur tail f :
  left_behind size sealed cur tail f -> 1 + zlen sealed <= maximum_segment_id ->
  merge_sort id_le (segment_files (map_to_list f)) =
  (file_of <$> layout 1 0 sealed) ++ [file_of (current sealed cur)].
Proof.
  intros [Hse Hnew Hon _] Hcnt. rewrite (sorted_segment_files _ (sealed ++ [cur])).
  - by rewrite layout_snoc, fmap_app.
  - rewrite length_app. cbn. lia.
  - rewrite layout_snoc. intros g' [Hg'|Hg'%list_elem_of_singleton]%elem_of_app; [|subst]; eauto.
  - intros id Hid Hs. rewrite length_app. cbn. specialize (Hon id Hid Hs). lia.
Qed.

(** The state after the segment loop: the cache saw the whole history, the index
    describes it, and the newest file has the contents [c]. *)
Definition recovered (sealed : list (list Message)) (cur : list Message) (c : bytes) (s : state) :
    state :=
  mkState (set_segment_index (segment_index (log s) ++ (seg_info <$> layout 1 0 (sealed ++ [cur])))
             (log (push_cache (history sealed cur) s)))
          (os (set_content (seg_name (current sealed cur)) c s)).

Lemma recover_loop_ok sealed cur tail s :
  let size := segment_size (log s) in
  let g := current sealed cur in
  reliable (os s) -> left_behind size sealed cur tail (files (os s)) -> hist_inv size sealed cur ->
  end_of 0 (history sealed cur) + size <= u64_max ->
  exists extra rest pad,
    tail = encode extra ++ rest /\ chained (seg_base g) (cur ++ extra) /\
    ~ starts_record (end_of 0 (history sealed (cur ++ extra))) rest /\
    all_zero pad = true /\ zlen pad <= zlen rest /\
    recover_loop 0 ((file_of <$> layout 1 0 sealed) ++ [file_of g]) 0 s =
    (Ok (end_of 0 (history sealed (cur ++ extra))),
     recovered sealed (cur ++ extra)
       (segment_header (seg_id g) (seg_base g) size ++ encode (cur ++ extra) ++ pad) s).
Proof.
  intros size g Hr [Hse Hnew Hon Hfit] [Hsz Hcnt Hfits Hch Hend] Hov. cbv zeta in Hnew.
  apply chained_app in Hch as [Hch1 Hch2].
  pose proof (end_of_encode 0 (history sealed cur)) as He0. unfold history in He0, Hov.
  rewrite encode_app, length_app in He0. pose proof (end_of_encode 0 (concat sealed)) as He1.
  set (s2 := scanned (layout 1 0 sealed) s).
  destruct (scan_newest sealed cur tail s2)
    as (extra & rest & pad & Ht & Hch' & Hns & Hpad & Hpl & Hscan);
    change (segment_size (log s2)) with size in *; try done; [cbn; lia|lia|cbn; lia|].
  exists extra, rest, pad. rewrite <- current_end. split_and!; try done.
  change 1 with (Z.of_nat 0 + 1) at 1.
  rewrite recover_loop_sealed; fold size; try done; [|lia|lia|lia|by apply Forall_app in Hfits as [? _]].
  cbn [recover_loop file_of Nat.add]. fold g in Hscan |- *.
  replace (seg_id g =? Z.of_nat (length sealed) + 1) with true by (cbn; lia). cbn [negb].
  rewrite bool_decide_eq_true_2 by done. change (Z.of_nat 0 + 1) with 1. fold s2.
  change (end_of 0 (concat sealed)) with (seg_base g).
  run by exact Hscan. run by reflexivity. cbv [mret stm_ret modify_log].
  do 2 f_equal. unfold recovered. rewrite layout_snoc, fmap_app, (app_assoc (segment_index _)).
  unfold s2, scanned, push_cache, history. rewrite layout_msgs.
  rewrite (foldl_app _ (concat sealed) (cur ++ extra)). reflexivity.
Qed.

(** What recovery leaves alone: stable storage and the set of names. *)
Record same_disk (w w' : world) : Prop := {
  same_disk_content : disk w' = disk w;
  same_disk_names : disk_names w' = disk_names w;
  same_names : dom (files w') = dom (files w);
  same_reliable : reliable w'
}.

Lemma recover_or_create_ok sealed cur tail s :
  let size := segment_size (log s) in
  reliable (os s) -> left_behind size sealed cur tail (files (os s)) -> hist_inv size sealed cur ->
  end_of 0 (history sealed cur) + size <= u64_max ->
  represents (recent_cache (log s)) [] ->
  exists extra rest s',
    tail = encode extra ++ rest /\
    ~ starts_record (end_of 0 (history sealed (cur ++ extra))) rest /\
    recover_or_create s = (Ok tt, s') /\
    log_inv (fds (os s)) (mkState (set_opened true (log s')) (os s')) sealed (cur ++ extra) /\
    same_disk (os s) (os s') /\ segment_size (log s') = size /\
    capacity (recent_cache (log s')) = capacity (recent_cache (log s)).
Proof.
  intros size Hr Hl Hh Hov Hcache. pose proof Hh as [_ Hcnt _ _ _].
  set (s1 := mkState (set_segment_index [] (set_next_message_offset 0 (log s))) (os s)).
  destruct (recover_loop_ok sealed cur tail s1)
    as (extra & rest & pad & Ht & Hch' & Hns & Hpad & Hpl & Hloop); try done.
  change (segment_size (log s1)) with size in Hloop.
  exists extra, rest. unfold recover_or_create.
  run by (by apply lift_list_ok). rewrite (left_behind_files size sealed cur tail) by done.
  do 2 run by reflexivity. fold s1. run by exact Hloop. run by reflexivity.
  set (g := current sealed cur) in *. set (c := _ ++ _ ++ pad) in *.
  set (fs := (file_of <$> layout 1 0 sealed) ++ [file_of g]).
  assert (Hne : fs <> []) by (unfold fs; by destruct (file_of <$> layout 1 0 sealed)).
  destruct fs as [|x fs]; [done|]. clear Hne x fs. run by reflexivity.
  set (s3 := mkState _ _). set (g' := current sealed (cur ++ extra)).
  assert (Hlast : last (segment_index (log s3)) = Some (seg_info g')).
  { change (last (seg_info <$> layout 1 0 (sealed ++ [cur ++ extra])) = Some (seg_info g')).
    rewrite layout_snoc, fmap_app. apply last_snoc. }
  rewrite Hlast. eexists. split; [done|]. split; [done|]. split.
  { eapply (map_active_segment_ok (segment_id (seg_info g')) (first_offset (seg_info g')) _ c); [done|].
    cbn. apply lookup_insert_eq. }
  assert (Hfit' : 40 + zlen (encode (cur ++ extra)) + zlen pad <= size).
  { destruct Hl as [_ _ _ Hfit]. rewrite Ht, length_app in Hfit. rewrite encode_app, length_app. lia. }
  split; [|split_and!; [|done|apply push_list_capacity]]; cycle 1.
  { split; try done. cbn. pose proof (left_newest _ _ _ _ _ Hl) as Hin. apply elem_of_dom_2 in Hin.
    change (segment_path _) with (seg_name g). rewrite !dom_insert_L. set_solver. }
  split; try done.
  - eapply hist_inv_extra; try done. rewrite <- Ht. by destruct Hl.
  - exact (push_list_represents (history sealed (cur ++ extra)) _ [] Hcache).
  - cbn [os set_content]. change (segment_size (log _)) with size.
    unfold c. rewrite resize_image by done. destruct Hl as [Hse _ Hon _].
    change (dir_inv size (layout 1 0 (sealed ++ [cur ++ extra]))
      (<[seg_name g' := Regular (seg_image size g')]> (<[seg_name g' := Regular c]> (files (os s))))).
    rewrite insert_insert_eq. by apply dir_inv_newest.
Qed.
