(* ===== verification/LogLife.v ===== *)
(** * LogLife: opening, flushing, closing and crashing

    The life of a log across runs: [open] on a fresh directory and on one that
    was left behind, [flush], [close], and a power failure, after which every
    byte of a file is either what had reached stable storage or what was in the
    page cache. *)
From stdpp Require Import base gmap list numbers sorting strings.
From Stdlib Require Import Strings.Byte.
From S2P Require Import Prelude Codec Text CircularBuffer Os MmapLog LogFormat LogScan LogSpec LogRecover.

Local Open Scope Z_scope.

(** ** Open *)

(** What [open] requires of its arguments. *)
Record open_args (size : Z) (cap : nat) : Prop := {
  args_size : 73 <= size <= off_max;
  args_capacity : cap <> 0%nat
}.

(** The guards of [open], which then recovers with an empty cache. *)
Lemma open_guards size cap s :
  open_args size cap -> opened (log s) = false -> reliable (os s) ->
  exists cache, represents cache [] /\ capacity cache = cap /\
    open size cap s =
    (recover_or_create;; modify_log (set_opened true))
      (mkState (set_recent_cache cache (set_segment_size size (log s))) (os s)).
Proof.
  intros [Hsz Hcap] Hop Hr.
  assert (Hnew : exists cache, new_buffer cap = Ok cache :> outcome (CircularBuffer Message)).
  { unfold new_buffer. destruct (Nat.eqb_spec cap 0); [done|]. by eexists. }
  destruct Hnew as [cache Hnew]. pose proof (new_buffer_represents _ _ Hnew) as [Hrep Hc].
  exists cache. split_and!; try done. unfold open. run by reflexivity. rewrite Hop.
  unfold segment_header_size, record_header_size.
  replace ((size <? 40 + 32 + 1) || (u64_max <? size) || (off_max <? size)) with false by width.
  replace (cap =? 0)%nat with false by (symmetry; by apply Nat.eqb_neq).
  run by reflexivity. rewrite Hnew. run by reflexivity.
  erewrite stm_bind_ok; [reflexivity|].
  erewrite lift_os_ok; [reflexivity|]. unfold fs_create_directories. by run by (by apply sys_next_ok).
Qed.

Lemma open_left_behind size cap sealed cur tail s :
  open_args size cap -> opened (log s) = false -> reliable (os s) ->
  left_behind size sealed cur tail (files (os s)) -> hist_inv size sealed cur ->
  end_of 0 (history sealed cur) + size <= u64_max ->
  exists extra rest s',
    tail = encode extra ++ rest /\
    ~ starts_record (end_of 0 (history sealed (cur ++ extra))) rest /\
    open size cap s = (Ok tt, s') /\
    log_inv (fds (os s)) s' sealed (cur ++ extra) /\
    same_disk (os s) (os s') /\ segment_size (log s') = size /\
    capacity (recent_cache (log s')) = cap.
Proof.
  intros Ha Hop Hr Hl Hh Hov.
  destruct (open_guards size cap s Ha Hop Hr) as (cache & Hrep & Hc & ->).
  set (s0 := mkState _ _).
  destruct (recover_or_create_ok sealed cur tail s0)
    as (extra & rest & s' & Ht & Hns & He & Hi & Hr' & Hsz & Hcap); try done.
  exists extra, rest, (mkState (set_opened true (log s')) (os s')).
  split_and!; try done; [|by rewrite <- Hc]. by run by exact He.
Qed.

(** The first [open] in a directory without segment files. *)
Lemma open_fresh size cap s :
  open_args size cap -> opened (log s) = false -> reliable (os s) ->
  (forall id, 0 <= id <= maximum_segment_id -> files (os s) !! segment_path id = None) ->
  let img := segment_image size 1 0 [] in
  let f := <[segment_path 1 := Regular img]> (files (os s)) in
  exists s', open size cap s = (Ok tt, s') /\ log_inv (fds (os s)) s' [] [] /\
    os s' = mkWorld f (<[segment_path 1 := img]> (disk (os s))) (dom f)
                    (segment_path 1 :: fds (os s)) [] /\
    segment_size (log s') = size /\ capacity (recent_cache (log s')) = cap.
Proof.
  intros Ha Hop Hr Hempty img f. pose proof Ha as [Hsz _].
  destruct (open_guards size cap s Ha Hop Hr) as (cache & Hrep & Hc & ->).
  set (s0 := mkState _ _).
  assert (Hfiles : merge_sort id_le (segment_files (map_to_list (files (os s)))) = []).
  { rewrite (sorted_segment_files _ []); [done|cbn; unfold maximum_segment_id; lia|..].
    - by intros g Hg%elem_of_nil.
    - intros id Hid [x Hx]. by rewrite Hempty in Hx. }
  assert (Hrec : recover_or_create s0 = create_segment 1 0
            (mkState (set_next_message_offset 0 (set_segment_index [] (set_next_message_offset 0 (log s0)))) (os s0))).
  { unfold recover_or_create. run by (by apply lift_list_ok).
    change (files (os s0)) with (files (os s)). rewrite Hfiles. by do 4 run by reflexivity. }
  erewrite stm_bind_ok; cycle 1.
  { rewrite Hrec. apply create_segment_ok; [done| |cbn; lia].
    apply Hempty. unfold maximum_segment_id. lia. }
  eexists. split; [reflexivity|].
  change (segment_size _) with size. split_and!; try done. cbn [files os].
  split; try done.
  - split; cbn; try done. repeat constructor. cbn. lia.
  - apply (dir_inv_newest size [] []); [unfold maximum_segment_id; cbn; lia|by intros g Hg%elem_of_nil|].
    intros id Hid [x Hx]. by rewrite Hempty in Hx.
Qed.

(** ** Flush and close *)

Lemma lift_sync_ok name s :
  reliable (os s) ->
  lift_os (sys_sync name) s =
  (Ok None, mkState (log s) (set_disk (<[name := content_of name (os s)]> (disk (os s))) (os s))).
Proof.
  intros Hr. apply lift_os_ok. unfold sys_sync. by run by (by apply sys_next_ok).
Qed.

Lemma flush_ok outer s sealed cur :
  let g := current sealed cur in
  log_inv outer s sealed cur -> reliable (os s) ->
  flush s = (Ok tt, mkState (log s)
    (set_disk (<[seg_name g := seg_image (segment_size (log s)) g]> (disk (os s))) (os s))).
Proof.
  intros g Hinv Hr. pose proof (content_of_regular _ _ _ (current_image _ _ _ _ Hinv)) as Hc.
  destruct Hinv as [Hh Hop Hidx Hact Hnext Hcache Hdir Hfds].
  unfold flush. run by reflexivity. rewrite Hop. cbn [negb]. run by reflexivity. rewrite Hact.
  cbn [map_path]. fold g in Hc |- *. do 2 run by (by apply lift_sync_ok). cbv [mret stm_ret].
  unfold set_disk. cbn [os log files disk disk_names fds script]. do 3 f_equal.
  rewrite insert_insert_eq. unfold content_of in *. cbn [files]. by rewrite Hc.
Qed.

Definition closed (outer : list bytes) (sealed : list (list Message)) (cur : list Message)
    (s : state) : state :=
  let g := current sealed cur in
  mkState (set_active (mkMapping None false 0 (seg_name g) (seg_id g) (seg_base g)
                                 (40 + zlen (encode cur))) (set_opened false (log s)))
          (mkWorld (files (os s)) (<[seg_name g := seg_image (segment_size (log s)) g]> (disk (os s)))
                   (disk_names (os s)) outer []).

Lemma close_ok outer s sealed cur :
  log_inv outer s sealed cur -> reliable (os s) -> close s = (Ok tt, closed outer sealed cur s).
Proof.
  intros Hinv Hr. pose proof (content_of_regular _ _ _ (current_image _ _ _ _ Hinv)) as Hc.
  destruct Hinv as [Hh Hop Hidx Hact Hnext Hcache Hdir Hfds].
  unfold close. run by reflexivity. cbn [id]. rewrite Hop, Hact. cbn [negb andb fd].
  run by reflexivity. rewrite bool_decide_eq_false_2 by done.
  rewrite (unmap_active_ok (seg_name (current sealed cur)) (segment_size (log s))
    (seg_id (current sealed cur)) (seg_base (current sealed cur)) (40 + zlen (encode cur)) outer)
    by done. cbn [os files disk disk_names]. by rewrite Hc.
Qed.

(** ** Stable storage and power failure *)

(** Every byte of [c] is the one on stable storage or the one in the page cache. *)
Definition torn (old new c : bytes) : Prop := forall i, c !! i = old !! i \/ c !! i = new !! i.

Lemma torn_same l c : torn l l c -> c = l.
Proof. intros H. apply list_eq. intros i. by destruct (H i). Qed.

Lemma torn_length old new c n :
  torn old new c -> (length old <= n)%nat -> (length new <= n)%nat -> (length c <= n)%nat.
Proof.
  intros H Ho Hn. apply lookup_ge_None.
  destruct (H n) as [->| ->]; by apply lookup_ge_None.
Qed.

Lemma torn_prefix p old new c :
  torn (p ++ old) (p ++ new) c -> exists tail, c = p ++ tail.
Proof.
  intros H. exists (drop (length p) c). rewrite <- (take_drop (length p) c) at 1. f_equal.
  apply list_eq. intros i. destruct (decide (i < length p)%nat) as [Hi|Hi].
  - rewrite lookup_take_lt by done.
    destruct (H i) as [->| ->]; by rewrite lookup_app_l by done.
  - rewrite lookup_take_ge by lia. symmetry. apply lookup_ge_None. lia.
Qed.

(** The world after a power failure: the directory entries and file contents
    that survive, no open descriptor. *)
Record crashed (w w' : world) : Prop := {
  crash_gone : forall name, name ∉ disk_names w -> files w' !! name = None;
  crash_kept : forall name old new,
    name ∈ disk_names w -> disk w !! name = Some old -> files w !! name = Some (Regular new) ->
    exists c, torn old new c /\ files w' !! name = Some (Regular c);
  crash_settled : forall name c, files w' !! name = Some (Regular c) -> disk w' !! name = Some c;
  crash_names : disk_names w' = dom (files w');
  crash_fds : fds w' = [];
  crash_script : reliable w'
}.

(** Stable storage holds the sealed segments, the header of the newest one and
    its first records [flushed], and the names of all of them. *)
Record durable (size : Z) (sealed : list (list Message)) (flushed : list Message) (w : world) :
    Prop := {
  dur_sealed : forall g, g ∈ layout 1 0 sealed -> disk w !! seg_name g = Some (seg_image size g);
  dur_newest : let g := current sealed flushed in
    exists tail, 40 + zlen (encode flushed) + zlen tail <= size /\
      disk w !! seg_name g =
      Some (segment_header (seg_id g) (seg_base g) size ++ encode flushed ++ tail);
  dur_names : forall id, 0 <= id <= maximum_segment_id ->
    segment_path id ∈ disk_names w <-> is_Some (files w !! segment_path id)
}.

(** The directory after a power failure is one that was left behind. *)
Lemma crash_left_behind outer s sealed flushed more w' :
  let size := segment_size (log s) in
  log_inv outer s sealed (flushed ++ more) -> durable size sealed flushed (os s) ->
  crashed (os s) w' -> exists tail, left_behind size sealed flushed tail (files w').
Proof.
  intros size Hinv [Hds Hdn Hnames] [Hgone Hkept _ _ _ _]. cbv zeta in Hdn.
  pose proof (current_image _ _ _ _ Hinv) as Himg.
  pose proof (hist_cur_fits _ _ _ (inv_hist _ _ _ _ Hinv)) as Hfit.
  destruct (inv_hist _ _ _ _ Hinv) as [Hsz Hcnt _ _ _]. fold size in Hsz, Hfit, Himg.
  destruct (dir_inv_sealed _ _ _ _ (inv_dir _ _ _ _ Hinv)) as [Hfs Hfo]. fold size in Hfs.
  assert (Hin : forall id c, 0 <= id <= maximum_segment_id ->
            files (os s) !! segment_path id = Some c -> segment_path id ∈ disk_names (os s)).
  { intros id c Hid Hc. apply Hnames; [done|by eexists]. }
  destruct Hdn as (tail0 & Hfit0 & Hd).
  set (g := current sealed flushed) in *.
  change (seg_name (current sealed (flushed ++ more))) with (seg_name g) in Himg.
  destruct (Hkept _ _ _ (Hin (seg_id g) _ ltac:(cbn; lia) Himg) Hd Himg) as (c & Ht & Hc).
  pose proof (length_segment_header (seg_id g) (seg_base g) size) as Hhl.
  pose proof (length_segment_image size (seg_id g) (seg_base g) (flushed ++ more) Hfit) as Hil.
  change (segment_image _ _ _ _) with (seg_image size (current sealed (flushed ++ more))) in Hil.
  assert (Hcl : (length c <= Z.to_nat size)%nat).
  { eapply torn_length; [exact Ht| |lia]. rewrite !length_app, Hhl. lia. }
  unfold seg_image, segment_image in Ht.
  change (seg_id (current sealed (flushed ++ more))) with (seg_id g) in Ht.
  change (seg_base (current sealed (flushed ++ more))) with (seg_base g) in Ht.
  cbn [seg_msgs current] in Ht. rewrite encode_app, <- (app_assoc (encode flushed)), !(app_assoc (segment_header _ _ _)) in Ht.
  apply torn_prefix in Ht as [tail ->]. rewrite <- app_assoc in Hc.
  exists tail. split; try done.
  - intros g' Hg'. pose proof (layout_ids _ _ _ _ Hg') as Hids.
    destruct (Hkept _ _ _ (Hin (seg_id g') _ ltac:(lia) (Hfs g' Hg')) (Hds g' Hg') (Hfs g' Hg'))
      as (c' & Hc' & Hf'). rewrite <- (torn_same _ _ Hc'). exact Hf'.
  - intros id Hid Hs. apply (Hfo id Hid), (Hnames id Hid).
    destruct (decide (segment_path id ∈ disk_names (os s))) as [|Hn]; [done|].
    apply Hgone in Hn. rewrite Hn in Hs. by destruct Hs.
  - rewrite !length_app, Hhl in Hcl. lia.
Qed.

Lemma hist_inv_prefix size sealed flushed more :
  hist_inv size sealed (flushed ++ more) -> hist_inv size sealed flushed.
Proof.
  intros Hh. pose proof (hist_cur_fits _ _ _ Hh) as Hfit. rewrite encode_app, length_app in Hfit.
  destruct Hh as [Hsz Hcnt Hf Hch Hend]. apply Forall_app in Hf as [Hf _].
  rewrite history_app in Hch, Hend. apply chained_app in Hch as [Hch _].
  rewrite end_of_app, (end_of_encode _ more) in Hend. split; try done; [|lia].
  apply Forall_app_2; [done|]. repeat constructor. lia.
Qed.

(** ** Durability of the operations *)

(** Reading the directory back does not change what is durable; the records
    found in the tail were read from stable storage. *)
Lemma durable_recovered size sealed cur tail extra rest w w' :
  left_behind size sealed cur tail (files w) -> tail = encode extra ++ rest ->
  (forall name c, files w !! name = Some (Regular c) -> disk w !! name = Some c) ->
  disk_names w = dom (files w) -> same_disk w w' ->
  durable size sealed (cur ++ extra) w'.
Proof.
  intros [Hse Hnew Hon Hfit] -> Hdisk Hnames [Hd Hn Hdom Hr]. split; rewrite ?Hd, ?Hn.
  - intros g Hg. by apply Hdisk, Hse.
  - exists rest. rewrite length_app in Hfit. rewrite encode_app, length_app, <- app_assoc.
    split; [lia|]. by apply Hdisk.
  - intros id Hid. by rewrite Hnames, <- Hdom, elem_of_dom.
Qed.

Lemma durable_flush size sealed cur flushed w :
  hist_inv size sealed cur -> durable size sealed flushed w ->
  durable size sealed cur
    (set_disk (<[seg_name (current sealed cur) := seg_image size (current sealed cur)]> (disk w)) w).
Proof.
  intros Hh [Hse Hnew Hn]. pose proof (hist_cur_fits _ _ _ Hh) as Hfit.
  destruct Hh as [_ Hcnt _ _ _]. split; cbn; [| |done].
  - intros g Hg. rewrite lookup_insert_ne; [by apply Hse|].
    intros He. symmetry in He. apply (layout_name_inj sealed) in He; [|lia|done|cbn; lia].
    apply layout_ids in Hg. cbn in He. lia.
  - eexists. rewrite lookup_insert_eq. split; [|reflexivity]. rewrite length_replicate. cbn [seg_msgs current]. lia.
Qed.

Lemma durable_written size sealed flushed cur m s :
  durable size sealed flushed (os s) ->
  is_Some (files (os s) !! seg_name (current sealed cur)) ->
  durable size sealed flushed (os (written sealed cur m s)).
Proof.
  intros [Hse Hnew Hn] Hin. split; cbn; try done.
  intros id Hid. rewrite (Hn id Hid). change (seg_name _) with (seg_name (current sealed cur)).
  destruct (decide (seg_name (current sealed cur) = segment_path id)) as [He|Hne].
  - rewrite He in Hin |- *. rewrite lookup_insert_eq. split; by eauto.
  - by rewrite lookup_insert_ne.
Qed.

Lemma durable_rolled outer size sealed flushed cur s :
  segment_size (log s) = size -> hist_inv size sealed cur ->
  2 + zlen sealed <= maximum_segment_id -> durable size sealed flushed (os s) ->
  durable size (sealed ++ [cur]) [] (os (rolled outer sealed cur s)).
Proof.
  intros Hs Hh Hm Hd. pose proof (durable_flush _ _ _ _ _ Hh Hd) as [Hse Hnew _].
  destruct Hh as [Hsz _ _ _ _]. unfold rolled. rewrite Hs, !current_snoc. split; rewrite ?current_snoc; cbn.
  - intros g Hg. pose proof (layout_ids _ _ _ _ Hg) as Hids. rewrite length_app in Hids. cbn in Hids.
    rewrite lookup_insert_ne.
    2:{ intros He. apply segment_path_inj in He; cbn in *; lia. }
    rewrite layout_snoc in Hg. apply elem_of_app in Hg as [Hg|Hg%list_elem_of_singleton].
    + by apply Hse.
    + subst g. apply lookup_insert_eq.
  - eexists. rewrite lookup_insert_eq. split; [|reflexivity].
    cbn. rewrite length_replicate. lia.
  - intros id Hid. by rewrite elem_of_dom.
Qed.

(** ** Sequences of operations *)

(** The log holds the messages [h], and those of [f] are on stable storage. *)
Definition holds (outer : list bytes) (s : state) (h f : list Message) : Prop :=
  exists sealed flushed more,
    log_inv outer s sealed (flushed ++ more) /\
    durable (segment_size (log s)) sealed flushed (os s) /\ reliable (os s) /\
    h = history sealed (flushed ++ more) /\ f `prefix_of` history sealed flushed.

Inductive log_op := OpAppend (p : bytes) (now : Z) | OpFlush.

Definition run_op (op : log_op) : LogM unit :=
  match op with OpAppend p now => append p now;; mret tt | OpFlush => flush end.

Fixpoint run_ops (ops : list log_op) : LogM unit :=
  match ops with [] => mret tt | op :: ops => run_op op;; run_ops ops end.

(** What the operations mean: the messages of the log and those that must survive. *)
Definition spec_op (hf : list Message * list Message) (op : log_op) : list Message * list Message :=
  match op with
  | OpAppend p now => (hf.1 ++ [new_message (end_of 0 hf.1) now p], hf.2)
  | OpFlush => (hf.1, hf.1)
  end.

Lemma holds_append outer s h f p now off s' :
  holds outer s h f -> append p now s = (Ok off, s') ->
  off = end_of 0 h /\ segment_size (log s') = segment_size (log s) /\
  holds outer s' (h ++ [new_message (end_of 0 h) now p]) f.
Proof.
  intros (sealed & flushed & more & Hinv & Hd & Hr & -> & Hf) He.
  set (size := segment_size (log s)) in *.
  destruct (append_error size sealed (flushed ++ more) p) as [e|] eqn:Herr.
  { by erewrite append_rejected in He. }
  apply append_error_None in Herr as Happ.
  rewrite (append_ok outer _ _ _ p now Hinv Hr Happ) in He. injection He as <- <-. split; [done|].
  pose proof (appended_inv outer s _ _ p now Hinv Happ) as Hinv'. cbv zeta in Hinv'. fold size in Hinv'.
  set (m := new_message _ _ _) in *.
  destruct (appended_frame outer sealed (flushed ++ more) m s Hr) as (Hr' & Hs' & _).
  split; [done|]. pose proof (inv_hist _ _ _ _ Hinv) as Hh. fold size in Hh.
  unfold holds. rewrite Hs'. fold size. rewrite <- history_app.
  unfold place in Hinv'. unfold appended in *. fold size in Hinv', Hr' |- *.
  destruct (Z.leb_spec (40 + zlen (encode ((flushed ++ more) ++ [m]))) size) as [Hroom|Hroom];
    cbn [fst snd] in Hinv'.
  - exists sealed, flushed, (more ++ [m]). rewrite app_assoc. split_and!; try done.
    apply durable_written; [done|]. by rewrite (current_image _ _ _ _ Hinv).
  - assert (Hid : 2 + zlen sealed <= maximum_segment_id).
    { apply (app_id _ _ _ _ Happ). rewrite length_encode_snoc in Hroom. cbn in Hroom.
      unfold record_size in Hroom. unfold record_header_size in Hroom. cbn in Hroom. lia. }
    exists (sealed ++ [flushed ++ more]), [], [m]. split_and!; try done.
    + apply durable_written; [by eapply durable_rolled|].
      rewrite (current_image _ _ _ _ (rolled_inv outer s _ _ Hinv Hid)). done.
    + unfold history. by rewrite concat_snoc, app_assoc.
    + rewrite history_snoc, history_app. by apply prefix_app_r.
Qed.

Lemma holds_flush outer s h f s' :
  holds outer s h f -> flush s = (Ok tt, s') ->
  segment_size (log s') = segment_size (log s) /\ holds outer s' h h.
Proof.
  intros (sealed & flushed & more & Hinv & Hd & Hr & -> & Hf) He.
  rewrite (flush_ok outer _ _ _ Hinv Hr) in He. injection He as <-. split; [done|].
  exists sealed, (flushed ++ more), []. rewrite app_nil_r. split_and!; try done.
  - by destruct Hinv.
  - eapply durable_flush; [apply Hinv|done].
Qed.

Lemma holds_ops outer ops s h f s' :
  holds outer s h f -> run_ops ops s = (Ok tt, s') ->
  let hf := foldl spec_op (h, f) ops in
  segment_size (log s') = segment_size (log s) /\ holds outer s' hf.1 hf.2.
Proof.
  revert s h f. induction ops as [|op ops IH]; intros s h f Hh He.
  - by injection He as <-.
  - cbn [run_ops] in He. apply stm_bind_inv in He as (u & s1 & H1 & H2). destruct u.
    cbn [foldl]. destruct op as [p now|]; cbn [run_op] in H1.
    + apply stm_bind_inv in H1 as (off & s2 & H1 & H3). injection H3 as ->.
      destruct (holds_append outer s h f p now off s1 Hh H1) as (_ & Hs & Hh1).
      rewrite <- Hs. by apply (IH s1).
    + destruct (holds_flush outer s h f s1 Hh H1) as (Hs & Hh1). rewrite <- Hs. by apply (IH s1).
Qed.

(** Opening a fresh directory, and opening what a power failure left. *)
Lemma holds_fresh size cap s s' :
  open_args size cap -> opened (log s) = false -> reliable (os s) ->
  (forall id, 0 <= id <= maximum_segment_id -> files (os s) !! segment_path id = None) ->
  open size cap s = (Ok tt, s') -> segment_size (log s') = size /\ holds (fds (os s)) s' [] [].
Proof.
  intros Ha Hop Hr Hempty He.
  destruct (open_fresh size cap s Ha Hop Hr Hempty) as (s'' & He' & Hi & Hos & Hs & _).
  rewrite He in He'. injection He' as <-. split; [done|].
  exists [], [], []. split_and!; try done; rewrite ?Hs, ?Hos; [|done].
  destruct Ha as [Hsz _]. split; cbn.
  - by intros g Hg%elem_of_nil.
  - eexists. rewrite lookup_insert_eq. split; [|reflexivity]. cbn. rewrite length_replicate. lia.
  - intros id _. by rewrite elem_of_dom.
Qed.

Lemma holds_crash outer s h f size cap w' :
  holds outer s h f -> segment_size (log s) = size -> open_args size cap ->
  crashed (os s) w' -> end_of 0 h + size <= u64_max ->
  exists s' h', open size cap (mkState empty_log w') = (Ok tt, s') /\
    holds [] s' h' h' /\ f `prefix_of` h' /\ segment_size (log s') = size.
Proof.
  intros (sealed & flushed & more & Hinv & Hd & Hr & -> & Hf) Hs Ha Hc Hov.
  destruct (crash_left_behind outer s sealed flushed more w' Hinv Hd Hc) as [tail Hl].
  pose proof (hist_inv_prefix _ _ _ _ (inv_hist _ _ _ _ Hinv)) as Hh. rewrite Hs in *.
  destruct (open_left_behind size cap sealed flushed tail (mkState empty_log w'))
    as (extra & rest & s' & Ht & _ & He & Hi & Hsd & Hs' & _); try done.
  - apply Hc.
  - rewrite history_app, end_of_app, (end_of_encode _ more) in Hov. lia.
  - exists s', (history sealed (flushed ++ extra)). cbn in Hi, Hsd. destruct Hc as [_ _ Hset Hn Hfd _].
    rewrite Hfd in Hi. split_and!; try done.
    + exists sealed, (flushed ++ extra), []. rewrite app_nil_r, Hs'. split_and!; try done; [|apply Hsd].
      by eapply durable_recovered.
    + rewrite history_app. by apply prefix_app_r.
Qed.
