(* ===== verification/LogDamage.v ===== *)
(** * LogDamage: damage that recovery must report

    A sealed segment is never repaired: a record whose payload was altered in a
    window of at most four bytes makes [open] fail, since CRC-32 separates the
    two payloads.  A newest segment without a complete header makes it fail too. *)
From stdpp Require Import base gmap list numbers sorting strings.
From Stdlib Require Import Strings.Byte.
From S2P Require Import Prelude Codec Text CircularBuffer Os MmapLog LogFormat LogScan LogSpec LogRecover LogLife.

Local Open Scope Z_scope.

(** [p'] is [p] with a window of at most four consecutive bytes altered. *)
Record burst (p p' : bytes) : Prop := {
  burst_parts : exists l1 w w' l2, p = l1 ++ w ++ l2 /\ p' = l1 ++ w' ++ l2 /\
                  length w = length w' /\ (length w <= 4)%nat /\ w <> w'
}.

Lemma record_crc_burst h p p' : burst p p' -> record_crc h p <> record_crc h p'.
Proof.
  intros [(l1 & w & w' & l2 & -> & -> & Hl & H4 & Hne)] He. unfold record_crc in He.
  assert (Hu : is_u32 (crc32_update 0xffffffff (take 28 h))) by (by apply crc32_update_u32).
  apply lxor_cancel_r in He. revert He. by apply crc32_update_burst.
Qed.

Lemma burst_length p p' : burst p p' -> length p = length p'.
Proof. intros [(l1 & w & w' & l2 & -> & -> & Hl & _)]. rewrite !length_app. lia. Qed.

(** A record with an altered payload is not a valid record. *)
Lemma damaged_not_record m p' k off :
  wf_message m -> burst (payload m) p' ->
  ~ starts_record off (record_header (offset m) (timestamp_ns m) (payload m) ++ p' ++ k).
Proof.
  intros Hm Hb (m' & k' & He & _ & Hm'). unfold encode_record in He. rewrite <- app_assoc in He.
  apply app_inj_1 in He as [Hh He]; [|by rewrite !length_record_header].
  destruct (encoded_fields m Hm) as (_ & _ & _ & _ & F24 & F28).
  destruct (encoded_fields m' Hm') as (_ & _ & _ & _ & F24' & F28').
  rewrite Hh in F24, F28. apply app_inj_1 in He as [Hp _].
  - apply (record_crc_burst (record_header (offset m') (timestamp_ns m') (payload m')) _ _ Hb). congruence.
  - pose proof (burst_length _ _ Hb). lia.
Qed.

(** The scan of a sealed segment that contains such a record. *)
Lemma scan_damaged g before m p' after z s :
  let size := segment_size (log s) in
  let name := seg_name g in
  let content := segment_header (seg_id g) (seg_base g) size ++ encode before ++
                 record_header (offset m) (timestamp_ns m) (payload m) ++ p' ++ after ++ z in
  reliable (os s) -> files (os s) !! name = Some (Regular content) ->
  0 <= seg_id g <= maximum_segment_id -> 0 <= seg_base g -> seg_base g + size <= u64_max ->
  zlen content <= size <= off_max -> chained (seg_base g) (before ++ [m]) ->
  burst (payload m) p' ->
  exists msg, scan_segment name (seg_id g) false (seg_base g) (mkInfo (seg_id g) 0 0 0 name) s =
    (Throw (runtime_error msg), push_cache before s).
Proof.
  intros size name content Hr Hf Hid Hb Hov Hsz [Hch Hm]%chained_app Hburst.
  cbn [chained] in Hm. destruct Hm as (_ & Hwf & _).
  pose proof (length_segment_header (seg_id g) (seg_base g) size) as Hhl.
  set (rest := record_header (offset m) (timestamp_ns m) (payload m) ++ p' ++ after ++ z) in *.
  assert (Hlen : zlen content = 40 + zlen (encode before ++ rest)).
  { unfold content. rewrite length_app, Hhl. lia. }
  destruct (scan_segment_ok name (seg_id g) false (seg_base g) (encode before ++ rest)
              (mkInfo (seg_id g) 0 0 0 name) s)
    as (ms & rest' & He & Hms & Hn & Hres); try done;
    [unfold maximum_segment_id in *; width|lia|lia|].
  destruct (encode_extends _ before ms rest rest' Hch Hms He Hn) as (extra & -> & Hr').
  assert (extra = []) as ->.
  { destruct extra as [|m' extra]; [done|]. exfalso.
    apply (damaged_not_record m p' (after ++ z) (offset m') Hwf Hburst).
    exists m', (encode extra ++ rest'). rewrite (app_assoc (encode_record m')), <- encode_cons. split_and!; try done.
    apply chained_app in Hms as [_ Hms]. by destruct Hms as (_ & ? & _). }
  change (encode [] ++ rest') with rest' in Hr'. subst rest'. unfold scan_result in Hres.
  rewrite app_nil_r in Hres.
  destruct (all_zero rest) eqn:Hz; [|done]. exfalso.
  apply all_zero_head in Hz. apply Hz. unfold rest. rewrite record_header_eq. reflexivity.
Qed.

(** The file of the segment [g], whose messages are [before], [m] and [after],
    with the payload of [m] replaced. *)
Definition damaged_image (size : Z) (g : seg) (before : list Message) (m : Message) (p' : bytes)
    (after : list Message) : bytes :=
  segment_header (seg_id g) (seg_base g) size ++ encode before ++
  record_header (offset m) (timestamp_ns m) (payload m) ++ p' ++ encode after ++
  replicate (Z.to_nat size - 40 - length (encode (before ++ m :: after))) x00.

Lemma length_damaged_image size g before m p' after :
  length p' = length (payload m) -> 40 + zlen (encode (before ++ m :: after)) <= size ->
  zlen (damaged_image size g before m p' after) = size.
Proof.
  intros Hp Hfit. unfold damaged_image. rewrite !length_app, length_replicate.
  rewrite length_segment_header, length_record_header, encode_app, encode_cons in *.
  unfold encode_record in *. rewrite !length_app, length_record_header in *. lia.
Qed.

Section Damaged.
Context (size : Z) (segs1 segs2 : list (list Message)) (before after cur : list Message).
Context (m : Message) (p' : bytes) (f : gmap bytes dir_entry).

Let ms := before ++ m :: after.
Let sealed := segs1 ++ ms :: segs2.
Let g := mkSeg (1 + zlen segs1) (end_of 0 (concat segs1)) ms.
Let later := layout (2 + zlen segs1) (end_of (end_of 0 (concat segs1)) ms) (segs2 ++ [cur]).

Hypothesis Hhist : hist_inv size sealed cur.
Hypothesis Hdir : dir_inv size (layout 1 0 (sealed ++ [cur])) f.
Hypothesis Hroom : end_of 0 (history sealed cur) + size <= u64_max.
Hypothesis Hburst : burst (payload m) p'.

Let f' := <[seg_name g := Regular (damaged_image size g before m p' after)]> f.

Lemma damaged_layout : layout 1 0 (sealed ++ [cur]) = layout 1 0 segs1 ++ g :: later.
Proof.
  unfold sealed. rewrite <- app_assoc, layout_app. cbn [app layout]. fold g.
  unfold later. do 2 f_equal. f_equal. lia.
Qed.

Lemma damaged_files :
  merge_sort id_le (segment_files (map_to_list f')) =
  (file_of <$> layout 1 0 segs1) ++ file_of g :: (file_of <$> later).
Proof.
  destruct Hhist as [_ Hcnt _ _ _]. destruct Hdir as [Him Hon].
  rewrite (sorted_segment_files _ (sealed ++ [cur])).
  - by rewrite damaged_layout, fmap_app.
  - rewrite length_app. cbn. lia.
  - intros g' Hg'. unfold f'. destruct (decide (seg_name g = seg_name g')) as [<-|Hne].
    + rewrite lookup_insert_eq. by eexists.
    + rewrite lookup_insert_ne by done. eexists. by apply Him.
  - intros id Hid Hs. rewrite <- (length_layout 1 0). unfold f' in Hs.
    destruct (decide (seg_name g = segment_path id)) as [He|Hne].
    + apply segment_path_inj in He as <-; [|cbn; unfold sealed in Hcnt; rewrite length_app in Hcnt; cbn in *; lia|done].
      rewrite damaged_layout, length_app, length_layout. cbn. lia.
    + rewrite lookup_insert_ne in Hs by done. by apply Hon.
Qed.

Lemma damaged_recover_loop s :
  reliable (os s) -> segment_size (log s) = size -> files (os s) = f' ->
  exists msg s', recover_loop 0 ((file_of <$> layout 1 0 segs1) ++ file_of g :: (file_of <$> later)) 0 s =
    (Throw (runtime_error msg), s') /\ opened (log s') = opened (log s) /\ os s' = os s.
Proof.
  intros Hr Hs Hf. destruct Hhist as [Hsz Hcnt Hfits Hch Hend]. destruct Hdir as [Him Hon].
  rewrite damaged_layout in Him. unfold sealed, history in Hch, Hroom, Hcnt.
  rewrite concat_app, <- app_assoc in Hch, Hroom. cbn [concat] in Hch, Hroom.
  rewrite <- app_assoc in Hch, Hroom.
  apply chained_app in Hch as [Hch1 [Hch2 _]%chained_app].
  rewrite !end_of_app, !end_of_encode in Hroom. rewrite length_app in Hcnt. cbn in Hcnt.
  unfold sealed in Hfits. rewrite <- app_assoc in Hfits.
  apply Forall_app in Hfits as [Hfits1 [Hfit2 _]%Forall_cons].
  change 1 with (Z.of_nat 0 + 1). rewrite recover_loop_sealed; rewrite ?Hs; try done; try lia.
  - change (Z.of_nat 0 + 1) with 1. set (s2 := scanned _ s). cbn [recover_loop file_of Nat.add].
    replace (seg_id g =? Z.of_nat (length segs1) + 1) with true by (cbn; lia). cbn [negb].
    rewrite bool_decide_eq_false_2.
    2:{ unfold later. intros He%(f_equal length). rewrite length_fmap, length_layout, length_app in He.
        cbn in He. lia. }
    change (end_of 0 (concat segs1)) with (seg_base g).
    destruct (scan_damaged g before m p' (encode after)
                (replicate (Z.to_nat size - 40 - length (encode ms)) x00) s2) as [msg Hscan];
      change (segment_size (log s2)) with (segment_size (log s)); rewrite ?Hs; try done.
    + cbn [os s2 scanned]. rewrite Hf. apply lookup_insert_eq.
    + cbn. lia.
    + cbn. rewrite end_of_encode. lia.
    + cbn [seg_base g]. rewrite end_of_encode. lia.
    + change (zlen (damaged_image size g before m p' after) <= size <= off_max). rewrite length_damaged_image; [lia| |done].
      symmetry. by apply burst_length.
    + unfold ms in Hch2. rewrite cons_middle, app_assoc in Hch2. by apply chained_app in Hch2 as [? _].
    + erewrite stm_bind_throw by exact Hscan. by eexists _, _.
  - intros g' Hg'. rewrite Hf. unfold f'. pose proof (layout_ids _ _ _ _ Hg') as Hids.
    rewrite lookup_insert_ne; [apply Him, elem_of_app; by left|].
    intros He. apply segment_path_inj in He; cbn in *; lia.
  - rewrite end_of_encode. lia.
Qed.
End Damaged.

(** An exception of the segment loop is the exception of [open], which leaves
    the log closed. *)
Lemma open_loop_throws size cap files' (e : bytes -> exn) s :
  open_args size cap -> opened (log s) = false -> reliable (os s) ->
  merge_sort id_le (segment_files (map_to_list (files (os s)))) = files' ->
  (forall s1, reliable (os s1) -> segment_size (log s1) = size -> files (os s1) = files (os s) ->
     exists msg s2, recover_loop 0 files' 0 s1 = (Throw (e msg), s2) /\
       opened (log s2) = opened (log s1) /\ os s2 = os s1) ->
  exists msg s', open size cap s = (Throw (e msg), s') /\ opened (log s') = false /\ os s' = os s.
Proof.
  intros Ha Hop Hr Hfiles Hloop.
  destruct (open_guards size cap s Ha Hop Hr) as (cache & _ & _ & ->). set (s0 := mkState _ _).
  set (s1 := mkState (set_segment_index [] (set_next_message_offset 0 (log s0))) (os s0)).
  destruct (Hloop s1) as (msg & s2 & He & Hop2 & Hos2); try done.
  exists msg, s2. split_and!; [|by rewrite Hop2|by rewrite Hos2].
  apply stm_bind_throw. unfold recover_or_create. run by (by apply lift_list_ok).
  change (files (os s0)) with (files (os s)). rewrite Hfiles.
  do 2 run by reflexivity. by apply stm_bind_throw.
Qed.

(** ** A newest segment without a header *)

(** What a crash inside [create_segment] can leave: no bytes, or no magic. *)
Definition headerless (c : bytes) : Prop := zlen c < 40 \/ take 8 c <> segment_magic.

Lemma scan_headerless name id latest base info c s :
  reliable (os s) -> files (os s) !! name = Some (Regular c) -> headerless c ->
  exists msg, scan_segment name id latest base info s = (Throw (runtime_error msg), s).
Proof.
  intros Hr Hf Hh. unfold scan_segment. run by (by eapply sys_open_ok).
  run by (by apply sys_fstat_ok). set (s1 := open_fd name s).
  assert (Hc : content_of name (os s1) = c) by (by apply content_of_regular). rewrite Hc.
  assert (Hthrow : forall A msg, close_throw (A := A) name msg s1 = (Throw (runtime_error (msg ++ name)), s)).
  { intros A msg. rewrite close_throw_ok by done. f_equal. apply close_open_fd. }
  unfold segment_header_size. destruct (Z.ltb_spec (zlen c) 40) as [H40|H40].
  { rewrite Hthrow. by eexists. }
  run by (by apply lift_pread_ok). rewrite Hc, drop_0, length_take_le by lia.
  rewrite bool_decide_eq_true_2 by done. cbn [negb orb Nat.eqb]. run by reflexivity.
  destruct Hh as [Hh|Hh]; [lia|].
  rewrite take_take, bool_decide_eq_false_2 by exact Hh. cbn [negb orb].
  rewrite Hthrow. by eexists.
Qed.

Lemma headerless_recover_loop size sealed c s :
  let g := current sealed [] in
  reliable (os s) -> segment_size (log s) = size -> hist_inv size sealed [] ->
  end_of 0 (concat sealed) + size <= u64_max ->
  (forall g', g' ∈ layout 1 0 sealed -> files (os s) !! seg_name g' = Some (Regular (seg_image size g'))) ->
  files (os s) !! seg_name g = Some (Regular c) -> headerless c ->
  exists msg s', recover_loop 0 ((file_of <$> layout 1 0 sealed) ++ [file_of g]) 0 s =
    (Throw (runtime_error msg), s') /\ opened (log s') = opened (log s) /\ os s' = os s.
Proof.
  intros g Hr Hs [Hsz Hcnt Hfits Hch Hend] Hov Him Hc Hh.
  unfold history in Hch. rewrite app_nil_r in Hch. apply Forall_app in Hfits as [Hfits _].
  change 1 with (Z.of_nat 0 + 1) at 1. rewrite recover_loop_sealed; rewrite ?Hs; try done; try lia.
  change (Z.of_nat 0 + 1) with 1. cbn [recover_loop file_of Nat.add].
  replace (seg_id g =? Z.of_nat (length sealed) + 1) with true by (cbn; lia). cbn [negb].
  destruct (scan_headerless (seg_name g) (seg_id g) (bool_decide (@nil (Z * bytes) = []))
    (end_of 0 (concat sealed)) (mkInfo (seg_id g) 0 0 0 (seg_name g)) c
    (scanned (layout 1 0 sealed) s)) as [msg Hscan]; try done.
  erewrite stm_bind_throw by exact Hscan. by eexists _, _.
Qed.
