(* ===== verification/LogTheorems.v ===== *)
(** * LogTheorems: the properties of the message log

    The refinement of the abstract log by [append], [get_recent] and
    [disk_usage_bytes], the round trips through [close] and [open], recovery
    after a power failure, and the damage that recovery reports. *)
From stdpp Require Import base gmap list numbers sorting strings.
From Stdlib Require Import Strings.Byte.
From S2P Require Import Prelude Codec Text CircularBuffer Os MmapLog LogFormat LogScan LogSpec LogRecover LogLife LogDamage.

Local Open Scope Z_scope.

(** ** A concrete log for the witnesses *)

Definition demo : state := snd (open 84 4 LogTests.start).
Definition demo_text : bytes := B "abcdefghijkl".
Definition demo_message : Message := mkMessage 0 5 12 demo_text.

Lemma demo_args : open_args 84 4.
Proof. split; [unfold off_max; lia|done]. Qed.

Lemma demo_ok :
  open 84 4 LogTests.start = (Ok tt, demo) /\ segment_size (log demo) = 84 /\
  log_inv [] demo [] [] /\ reliable (os demo) /\ holds [] demo [] [].
Proof.
  destruct (open_fresh 84 4 LogTests.start demo_args) as (s & He & Hi & Hos & Hs & _);
    [done|done|by intros; apply lookup_empty|].
  assert (demo = s) as -> by (unfold demo; by rewrite He).
  destruct (holds_fresh 84 4 LogTests.start s demo_args) as [_ Hh];
    [done|done|by intros; apply lookup_empty|done|].
  split_and!; try done. by rewrite Hos.
Qed.

(** ** Appending *)

(** C2: on an open log with the history [history sealed cur], [append] either
    throws exactly the exception the guards of the source select and changes
    nothing, or returns the next offset and extends the history by the new
    message, in the current segment when the record fits and in a fresh one
    otherwise; the invariant of the log, the directory, the index, the cache and
    the descriptors is preserved. *)
Theorem append_spec outer s sealed cur p now :
  let size := segment_size (log s) in
  let m := new_message (end_of 0 (history sealed cur)) now p in
  log_inv outer s sealed cur -> reliable (os s) ->
  match append_error size sealed cur p with
  | Some e => append p now s = (Throw e, s)
  | None =>
      exists s', append p now s = (Ok (offset m), s') /\
        (let (sealed', cur') := place size sealed cur m in
         log_inv outer s' sealed' cur' /\ history sealed' cur' = history sealed cur ++ [m]) /\
        reliable (os s') /\ segment_size (log s') = size /\
        capacity (recent_cache (log s')) = capacity (recent_cache (log s))
  end.
Proof.
  intros size m Hinv Hr. destruct (append_error size sealed cur p) as [e|] eqn:He.
  - by eapply append_rejected.
  - apply append_error_None in He. pose proof (appended_inv outer s sealed cur p now Hinv He) as Hi.
    destruct (appended_frame outer sealed cur m s Hr) as (Hr' & Hs' & Hc').
    exists (appended outer sealed cur m s). split; [by apply append_ok|].
    split; [|split_and!; try done; by rewrite Hc', push_capacity].
    pose proof (place_history size sealed cur m) as Hp. fold m in Hi. fold size in Hi.
    by destruct (place size sealed cur m).
Qed.

Lemma append_spec_witness :
  exists s', append demo_text 5 demo = (Ok 0, s') /\ log_inv [] s' [] [demo_message].
Proof.
  destruct demo_ok as (_ & Hs & Hi & Hr & _).
  pose proof (append_spec [] demo [] [] demo_text 5 Hi Hr) as H. rewrite Hs in H.
  destruct H as (s' & He & Hp & _). exists s'. split; [exact He|]. exact (proj1 Hp).
Defined.

(** ** Reading *)

(** [get_recent(count)] returns the newest messages of the history, oldest
    first: as many as asked for, at most the capacity of the cache. *)
Theorem log_get_recent_spec outer s sealed cur count :
  log_inv outer s sealed cur ->
  log_get_recent count s =
  (Ok (newest (count `min` capacity (recent_cache (log s))) (history sealed cur)), s).
Proof.
  intros Hinv. unfold log_get_recent, get_log, gets. do 2 f_equal.
  by apply get_recent_represents, (inv_cache _ _ _ _ Hinv).
Qed.

Lemma log_get_recent_witness : fst (log_get_recent 3 demo) = Ok [].
Proof.
  destruct demo_ok as (_ & _ & Hi & _). rewrite (log_get_recent_spec [] demo [] [] 3 Hi). reflexivity.
Defined.

(** The files of the index, summed. *)
Lemma sum_file_sizes_ok size segs total s :
  reliable (os s) -> (forall g, g ∈ segs -> exists c,
    files (os s) !! seg_name g = Some (Regular c) /\ zlen c = size) ->
  0 <= total -> 0 <= size -> total + zlen segs * size <= u64_max ->
  sum_file_sizes (seg_info <$> segs) total s = (Ok (total + zlen segs * size), s).
Proof.
  intros Hr. revert total. induction segs as [|g segs IH]; intros total Hf Ht Hs Hov.
  - cbn. rewrite Z.add_0_r. done.
  - rewrite fmap_cons. cbn [sum_file_sizes]. destruct (Hf g) as (c & Hc & Hl); [by left|].
    erewrite stm_bind_ok; [|apply (lift_os_ok _ _ _ (os s)); unfold fs_file_size;
      run by (by apply sys_next_ok); run by reflexivity; by rewrite (Hc : _ !! path (seg_info g) = _)].
    rewrite state_eta, Hl, u64_add_small by (cbn [length] in Hov; width).
    rewrite IH; [f_equal; f_equal; cbn [length]; lia|..|lia|lia|cbn [length] in Hov; lia].
    intros g' Hg'. apply Hf. by right.
Qed.

Lemma disk_usage_ok outer s sealed cur :
  let size := segment_size (log s) in
  log_inv outer s sealed cur -> reliable (os s) -> (1 + zlen sealed) * size <= u64_max ->
  disk_usage_bytes s = (Ok ((1 + zlen sealed) * size), s).
Proof.
  intros size Hinv Hr Hov. unfold disk_usage_bytes. run by reflexivity.
  rewrite (inv_index _ _ _ _ Hinv). pose proof (inv_hist _ _ _ _ Hinv) as [Hsz _ Hfits _ _].
  fold size in Hsz, Hfits.
  assert (Hl : zlen (layout 1 0 (sealed ++ [cur])) = 1 + zlen sealed)
    by (rewrite length_layout, length_app; cbn; lia).
  rewrite (sum_file_sizes_ok size); rewrite ?Hl; try done; try lia.
  intros g Hg. eexists. split; [by apply (dir_images _ _ _ (inv_dir _ _ _ _ Hinv))|].
  apply list_elem_of_lookup in Hg as [i Hg]. apply layout_lookup in Hg as (ms & Hms & ->).
  rewrite Forall_lookup in Hfits. unfold seg_image. fold size.
  rewrite length_segment_image; [lia|]. by apply (Hfits i).
Qed.

(** [disk_usage_bytes] is the number of segments times the segment size:
    every segment file is preallocated to its full size, also the newest. *)
Theorem disk_usage_spec outer s sealed cur :
  let size := segment_size (log s) in
  log_inv outer s sealed cur -> reliable (os s) -> (1 + zlen sealed) * size <= u64_max ->
  disk_usage_bytes s = (Ok ((1 + zlen sealed) * size), s).
Proof. apply disk_usage_ok. Qed.

Lemma disk_usage_witness : fst (disk_usage_bytes demo) = Ok 84.
Proof.
  destruct demo_ok as (_ & Hs & Hi & Hr & _).
  rewrite (disk_usage_spec [] demo [] [] Hi Hr); rewrite Hs; reflexivity || discriminate.
Defined.

(** ** Round trips *)

Lemma zero_tail_no_record ms rest n : replicate n x00 = encode ms ++ rest -> ms = [].
Proof.
  intros He. apply (encode_no_head ms rest (replicate n x00) He). by destruct n.
Qed.

(** C22: [close] releases the descriptor of the log and nothing else, and a later
    [open] of the same directory finds exactly the history that was there, with
    the cache filled to its own capacity. *)
Theorem close_open_roundtrip outer s sealed cur cap count :
  let size := segment_size (log s) in
  log_inv outer s sealed cur -> reliable (os s) -> cap <> 0%nat ->
  end_of 0 (history sealed cur) + size <= u64_max ->
  exists s1 s2, close s = (Ok tt, s1) /\ opened (log s1) = false /\ fds (os s1) = outer /\
    open size cap (mkState empty_log (os s1)) = (Ok tt, s2) /\ log_inv outer s2 sealed cur /\
    next_offset s2 = (Ok (end_of 0 (history sealed cur)), s2) /\
    log_get_recent count s2 = (Ok (newest (count `min` cap) (history sealed cur)), s2).
Proof.
  intros size Hinv Hr Hcap Hov. pose proof (inv_hist _ _ _ _ Hinv) as Hh. fold size in Hh.
  pose proof (dir_inv_left_behind size sealed cur (files (os s)) (hist_cur_fits _ _ _ Hh)
    (inv_dir _ _ _ _ Hinv)) as Hl.
  set (s1 := closed outer sealed cur s).
  destruct (open_left_behind size cap sealed cur
    (replicate (Z.to_nat size - 40 - length (encode cur)) x00) (mkState empty_log (os s1)))
    as (extra & rest & s2 & Ht & Hns & He & Hi & _ & _ & Hc); try done.
  { split; [apply Hh|done]. }
  apply zero_tail_no_record in Ht as ->. rewrite app_nil_r in Hi.
  exists s1, s2. split_and!; try done.
  - by apply close_ok.
  - unfold next_offset, get_log, gets. by rewrite (inv_next _ _ _ _ Hi).
  - unfold log_get_recent, get_log, gets.
    by rewrite (get_recent_represents _ _ _ (inv_cache _ _ _ _ Hi)), Hc.
Qed.

Lemma close_open_witness :
  exists s1 s2, close demo = (Ok tt, s1) /\
    open 84 7 (mkState empty_log (os s1)) = (Ok tt, s2) /\ log_inv [] s2 [] [].
Proof.
  destruct demo_ok as (_ & Hs & Hi & Hr & _).
  destruct (close_open_roundtrip [] demo [] [] 7 3 Hi Hr) as (s1 & s2 & H1 & _ & _ & H2 & H3 & _);
    [lia|rewrite Hs; unfold u64_max, u64_modulus; cbn; lia|].
  rewrite Hs in H2. exists s1, s2. auto.
Defined.

(** C3: opening a directory whose newest segment ends in arbitrary bytes keeps
    every record of the sealed segments and of [cur]; of the arbitrary tail it
    keeps exactly the longest run of records that are valid at their offsets,
    and cuts off the rest, so that the segment is padded with zeros again. *)
Theorem open_recovers_any_tail size cap sealed cur tail s :
  open_args size cap -> opened (log s) = false -> reliable (os s) ->
  left_behind size sealed cur tail (files (os s)) -> hist_inv size sealed cur ->
  end_of 0 (history sealed cur) + size <= u64_max ->
  exists extra rest s',
    tail = encode extra ++ rest /\
    ~ starts_record (end_of 0 (history sealed (cur ++ extra))) rest /\
    open size cap s = (Ok tt, s') /\ log_inv (fds (os s)) s' sealed (cur ++ extra) /\
    (head tail <> Some x52 -> extra = []).
Proof.
  intros Ha Hop Hr Hl Hh Hov.
  destruct (open_left_behind size cap sealed cur tail s Ha Hop Hr Hl Hh Hov)
    as (extra & rest & s' & Ht & Hns & He & Hi & _).
  exists extra, rest, s'. split_and!; try done. by apply encode_no_head with rest.
Qed.

(** A newest segment that ends in a few bytes of a record that was being written. *)
Definition torn_world : world :=
  mkWorld {[ segment_path 1 := Regular (segment_header 1 0 84 ++ encode [demo_message] ++ []) ]}
          ∅ ∅ [] [].

Lemma torn_world_left_behind : left_behind 84 [] [demo_message] [] (files torn_world).
Proof.
  split.
  - by intros g Hg%elem_of_nil.
  - cbv zeta. apply lookup_singleton_eq.
  - intros id Hid Hs. cbn. destruct (decide (id = 1)) as [->|Hne]; [lia|].
    exfalso. revert Hs. cbn [files torn_world]. rewrite lookup_singleton_ne; [by intros []|].
    intros He. apply segment_path_inj in He; unfold maximum_segment_id in *; lia.
  - vm_compute. discriminate.
Qed.

Lemma demo_hist : hist_inv 84 [] [demo_message].
Proof.
  split.
  - unfold off_max. lia.
  - unfold maximum_segment_id. cbn. lia.
  - cbn [app]. apply Forall_singleton. vm_compute. discriminate.
  - cbn [history concat app chained]. split; [done|]. split; [|done].
    split; unfold u64_modulus, u32_max, u32_modulus; cbn; lia.
  - vm_compute. discriminate.
Qed.

Lemma open_recovers_witness :
  exists s', open 84 4 (mkState empty_log torn_world) = (Ok tt, s') /\
    log_inv [] s' [] [demo_message].
Proof.
  destruct (open_recovers_any_tail 84 4 [] [demo_message] [] (mkState empty_log torn_world)
    demo_args eq_refl eq_refl torn_world_left_behind demo_hist)
    as (extra & rest & s' & _ & _ & He & Hi & Hx); [vm_compute; discriminate|].
  rewrite Hx in Hi by discriminate. exists s'. auto.
Defined.

(** ** Power failure *)

(** C4: start from a log that holds the messages [h] with [f] on stable storage,
    run any appends and flushes that succeed, and lose power so that every byte
    not yet synchronised is old or new.  The next [open] succeeds and the log
    holds every message that was appended before the last [flush] (or by an
    earlier run), as a prefix of its history, all of it on stable storage. *)
Theorem flushed_messages_survive outer s h f ops s1 w cap :
  let size := segment_size (log s) in
  let hf := foldl spec_op (h, f) ops in
  holds outer s h f -> run_ops ops s = (Ok tt, s1) -> crashed (os s1) w ->
  open_args size cap -> end_of 0 hf.1 + size <= u64_max ->
  exists s2 h2, open size cap (mkState empty_log w) = (Ok tt, s2) /\
    holds [] s2 h2 h2 /\ hf.2 `prefix_of` h2.
Proof.
  intros size hf Hh Hrun Hc Ha Hov.
  destruct (holds_ops outer ops s h f s1 Hh Hrun) as [Hs Hh1]. fold hf in Hh1.
  destruct (holds_crash outer s1 hf.1 hf.2 size cap w Hh1 Hs Ha Hc Hov) as (s2 & h2 & H1 & H2 & H3 & _).
  by exists s2, h2.
Qed.

(** A power failure after which all of the page cache happens to be on disk. *)
Definition settled (w : world) : world :=
  mkWorld (files w)
          (omap (fun e => match e with Regular c => Some c | Other => None end) (files w))
          (dom (files w)) [] [].

Lemma crashed_settled w : disk_names w = dom (files w) -> crashed w (settled w).
Proof.
  intros Hn. split; cbn; try done.
  - intros name. rewrite Hn. apply not_elem_of_dom.
  - intros name old new _ _ Hf. exists new. split; [by right|done].
  - intros name c Hf. by rewrite lookup_omap, Hf.
Qed.

Definition demo_ops : list log_op := [OpAppend demo_text 5; OpFlush; OpAppend demo_text 6].

Lemma flushed_survive_witness :
  exists w s2 h2, open 84 4 (mkState empty_log w) = (Ok tt, s2) /\
    holds [] s2 h2 h2 /\ [demo_message] `prefix_of` h2.
Proof.
  destruct demo_ok as (_ & Hs & _ & _ & Hh).
  destruct (run_ops demo_ops demo) as [r s1] eqn:Hrun.
  assert (Hr : fst (run_ops demo_ops demo) = Ok tt) by (vm_compute; reflexivity).
  assert (Hn : disk_names (os (snd (run_ops demo_ops demo))) = dom (files (os (snd (run_ops demo_ops demo)))))
    by (refine (bool_decide_unpack _ _); vm_compute; exact I).
  rewrite Hrun in Hr, Hn. cbn in Hr, Hn. subst r. exists (settled (os s1)).
  pose proof (flushed_messages_survive [] demo [] [] demo_ops s1 (settled (os s1)) 4 Hh Hrun
    (crashed_settled _ Hn)) as H. rewrite Hs in H. apply H; [exact demo_args|].
  vm_compute. discriminate.
Defined.

(** ** Damage *)


(** The directory of a log with one sealed segment and an empty current one. *)
Definition demo_files : gmap bytes dir_entry :=
  <[segment_path 2 := Regular (segment_image 84 2 44 [])]>
    (<[segment_path 1 := Regular (segment_image 84 1 0 [demo_message])]> ∅).

Lemma demo_dir : dir_inv 84 (layout 1 0 ([[demo_message]] ++ [[]])) demo_files.
Proof.
  destruct (dir_inv_extend 84 [] [demo_message]
    (<[segment_path 1 := Regular (segment_image 84 1 0 [demo_message])]> ∅)) as [_ H];
    [unfold maximum_segment_id; cbn; lia| |exact H].
  apply (dir_inv_newest 84 [] [demo_message] ∅); [unfold maximum_segment_id; cbn; lia|..].
  - by intros g Hg%elem_of_nil.
  - intros id _ [x Hx]. by rewrite lookup_empty in Hx.
Qed.

Lemma demo_sealed_hist : hist_inv 84 [[demo_message]] [].
Proof.
  destruct demo_hist as [H1 H2 H3 H4 H5]. split; try done.
  apply Forall_app_2; [exact H3|]. repeat constructor. cbn. lia.
Qed.


(** An intact log whose newest file has no complete header, as a power
    failure inside [create_segment] can leave it, cannot be opened again: the
    newest segment is treated like a damaged one, not like a torn tail. *)
Theorem headerless_newest_rejected size cap sealed c s :
  open_args size cap -> opened (log s) = false -> reliable (os s) ->
  hist_inv size sealed [] -> end_of 0 (concat sealed) + size <= u64_max ->
  (forall g, g ∈ layout 1 0 sealed -> files (os s) !! seg_name g = Some (Regular (seg_image size g))) ->
  files (os s) !! segment_path (1 + zlen sealed) = Some (Regular c) -> headerless c ->
  (forall id, 0 <= id <= maximum_segment_id -> is_Some (files (os s) !! segment_path id) ->
     1 <= id <= 1 + zlen sealed) ->
  exists msg s', open size cap s = (Throw (runtime_error msg), s') /\
    opened (log s') = false /\ os s' = os s.
Proof.
  intros Ha Hop Hr Hh Hov Him Hc Hhl Hon.
  eapply (open_loop_throws _ _ ((file_of <$> layout 1 0 sealed) ++ [file_of (current sealed [])]) runtime_error);
    [exact Ha|exact Hop|exact Hr| |]; cycle 1.
  - intros s1 Hr1 Hs1 Hf1. rewrite <- Hf1 in Him, Hc.
    by apply (headerless_recover_loop size sealed c s1).
  - rewrite (sorted_segment_files _ (sealed ++ [[]])).
    + by rewrite layout_snoc, fmap_app.
    + rewrite length_app. cbn. destruct Hh as [_ Hcnt _ _ _]. lia.
    + rewrite layout_snoc. intros g' [Hg'|Hg'%list_elem_of_singleton]%elem_of_app; [|subst]; eauto.
    + intros id Hid Hs. rewrite length_app. cbn. specialize (Hon id Hid Hs). lia.
Qed.

Lemma headerless_newest_witness :
  exists msg s', open 84 4 (mkState empty_log (mkWorld {[ segment_path 1 := Regular [] ]} ∅ ∅ [] [])) =
    (Throw (runtime_error msg), s') /\ opened (log s') = false.
Proof.
  destruct (headerless_newest_rejected 84 4 [] []
    (mkState empty_log (mkWorld {[ segment_path 1 := Regular [] ]} ∅ ∅ [] [])))
    as (msg & s' & H1 & H2 & _); try reflexivity.
  - exact demo_args.
  - apply hist_inv_prefix with [demo_message]. exact demo_hist.
  - vm_compute. discriminate.
  - by intros g Hg%elem_of_nil.
  - left. cbn. lia.
  - intros id Hid Hs. cbn. destruct (decide (id = 1)) as [->|Hne]; [lia|].
    exfalso. revert Hs. cbn [files os]. rewrite lookup_singleton_ne; [by intros []|].
    intros He. apply segment_path_inj in He; unfold maximum_segment_id in *; lia.
  - exists msg, s'. auto.
Defined.

(** ** Interrupted reads *)

(** An event that [pread_all] must see through. *)
Definition harmless (e : sys_event) : Prop :=
  match e with SysErr code => code = EINTR | _ => True end.

Lemma take_chunk limit n (d : bytes) :
  (limit <= n)%nat ->
  take limit d ++ take (n - length (take limit d)) (drop (length (take limit d)) d) = take n d.
Proof.
  intros Hl. destruct (decide (limit <= length d)%nat) as [Hd|Hd].
  - rewrite length_take_le, take_take_drop by lia. f_equal. lia.
  - rewrite (take_ge d limit), drop_all, take_nil, app_nil_r, take_ge by lia. done.
Qed.

Lemma pread_loop_harmless events content off n acc :
  Forall harmless events ->
  exists rest, pread_loop events content off n acc = (None, acc ++ take n (drop off content), rest) /\
    Forall harmless rest.
Proof.
  intros H. revert off n acc. induction H as [|e events He Hev IH]; intros off n acc; cbn [pread_loop].
  { exists []. by split. }
  destruct (Nat.eqb_spec n 0) as [->|Hn].
  { exists (e :: events). rewrite take_0, app_nil_r. split; [done|by constructor]. }
  assert (Hread : forall limit, (0 < limit <= n)%nat ->
    exists rest, match take limit (drop off content) with
      | [] => (None, acc, events)
      | _ => pread_loop events content (off + length (take limit (drop off content)))
               (n - length (take limit (drop off content))) (acc ++ take limit (drop off content))
      end = (None, acc ++ take n (drop off content), rest) /\ Forall harmless rest).
  { intros limit Hl. destruct (take limit (drop off content)) as [|b chunk] eqn:Hc.
    - destruct (drop off content) as [|x d] eqn:Hd; [|destruct limit; [lia|done]].
      exists events. by rewrite take_nil, app_nil_r.
    - assert (Hlen : length (b :: chunk) = (limit `min` length (drop off content))%nat)
        by (rewrite <- Hc, length_take; lia).
      destruct (IH (off + length (b :: chunk))%nat (n - length (b :: chunk))%nat (acc ++ b :: chunk))
        as (rest & -> & Hr). exists rest. split; [|done]. do 2 f_equal. rewrite <- app_assoc. f_equal.
      rewrite <- drop_drop, <- Hc. set (d := drop off content) in *.
      apply take_chunk; lia. }
  destruct e as [|k|code].
  - apply (Hread n). lia.
  - apply (Hread (S k `min` n)%nat). lia.
  - cbn in He. subst code. apply IH.
Qed.

(** [pread_all] gives the same bytes however the kernel splits the transfer
    into short reads and however often it is interrupted by signals, and it
    reads to the end of the file or of the request, whichever comes first. *)
Theorem pread_all_interrupted name n off w :
  Forall harmless (script w) ->
  exists w', pread_all name n off w =
    (Ok (None, take n (drop (Z.to_nat off) (content_of name w))), w') /\
    files w' = files w /\ Forall harmless (script w').
Proof.
  intros H. unfold pread_all.
  destruct (pread_loop_harmless (script w) (content_of name w) (Z.to_nat off) n [] H) as (rest & -> & Hr).
  by exists (set_script rest w).
Qed.

Lemma pread_all_witness :
  exists w', pread_all (B "f") 3 1
    (mkWorld {[ B "f" := Regular (B "abcdef") ]} ∅ ∅ [] [SysShort 0; SysErr EINTR; SysOk]) =
    (Ok (None, B "bcd"), w').
Proof.
  destruct (pread_all_interrupted (B "f") 3 1
    (mkWorld {[ B "f" := Regular (B "abcdef") ]} ∅ ∅ [] [SysShort 0; SysErr EINTR; SysOk]))
    as (w' & H & _).
  - repeat constructor.
  - exists w'. exact H.
Defined.

(** ** Termination of recovery *)

Lemma zero_tail_loop_fuel fuel fuel' name off len s :
  0 <= len <= u64_max -> len <= 4096 * Z.of_nat fuel -> len <= 4096 * Z.of_nat fuel' ->
  zero_tail_loop (S fuel) name off len s = zero_tail_loop (S fuel') name off len s.
Proof.
  revert fuel' off len s. induction fuel as [|fuel IH]; intros fuel' off len s Hl H1 H2.
  { assert (len = 0) as -> by lia. done. }
  cbn [zero_tail_loop]. destruct (Z.eqb_spec len 0) as [|Hne]; [done|].
  destruct fuel' as [|fuel']; [lia|].
  apply stm_bind_ext. intros [[code|] out] s' _; [done|].
  destruct (negb _); [done|]. destruct (negb _); [done|].
  rewrite u64_sub_small by width. apply IH; lia.
Qed.

Lemma resize_length n c : length (resize n c) = n.
Proof. unfold resize. sizes. Qed.

Lemma scan_loop_fuel fuel fuel' name latest ssize asize pos expected s :
  0 <= pos -> 0 <= asize <= off_max -> pos <= asize ->
  asize < pos + 32 * (Z.of_nat fuel + 1) -> asize < pos + 32 * (Z.of_nat fuel' + 1) ->
  scan_loop fuel name latest ssize asize pos expected s = scan_loop fuel' name latest ssize asize pos expected s.
Proof.
  revert fuel' pos expected s. induction fuel as [|fuel IH]; intros fuel' pos expected s Hp Ha Hpa H1 H2.
  { destruct fuel'; [done|]. cbn [scan_loop]. unfold record_header_size. rewrite u64_add_small by width.
    by replace (pos + 32 <=? asize) with false by lia. }
  destruct fuel' as [|fuel'].
  { cbn [scan_loop]. unfold record_header_size. rewrite u64_add_small by width.
    by replace (pos + 32 <=? asize) with false by lia. }
  cbn [scan_loop]. destruct (negb _); [done|].
  apply stm_bind_ext. intros [[code|] out] s1 _; [done|]. destruct (length out =? 0)%nat; [done|].
  destruct (get_u32 (resize 32 out) 0 =? 0); [done|]. cbv zeta.
  set (valid0 := _ && _ && _ && _). set (plen := if valid0 then _ else 0).
  assert (Hplen : 0 <= plen < 2 ^ 32).
  { unfold plen. destruct valid0; [|lia]. apply (get_le_range 4). rewrite resize_length. lia. }
  unfold record_header_size. rewrite (u64_add_small 32 plen) by width.
  apply stm_bind_ext. intros [valid payload] s2 Hv. destruct valid; cbn [negb]; [|done].
  destruct (_ <? _); [done|]. apply stm_bind_ext. intros [] s3 _.
  assert (Hfit : u64_add pos (32 + plen) <= asize).
  { destruct (valid0 && _ && _) eqn:E in Hv; [|done]. apply andb_true_iff in E as [_ E]. by apply Z.leb_le in E. }
  rewrite (u64_add_small pos) in * by width. apply IH; lia.
Qed.

(** C40: the loops of recovery end by themselves, whatever a segment contains and
    however the reads of it fail: with the fuel the model gives them they never
    run out of it, so more fuel gives the same result, the same state and the same
    exceptions.  Every record advances the position by at least 32 bytes, without
    wrapping around, and every chunk of a zero tail by 4096. *)
Theorem recovery_loops_end fuel name latest ssize asize expected off len s :
  segment_header_size <= asize <= off_max -> 0 <= len <= u64_max ->
  ((scan_fuel asize <= fuel)%nat ->
    scan_loop fuel name latest ssize asize segment_header_size expected s =
    scan_loop (scan_fuel asize) name latest ssize asize segment_header_size expected s) /\
  ((Z.to_nat (len / 4096) + 2 <= fuel)%nat ->
    zero_tail_loop fuel name off len s = zero_tail name off len s).
Proof.
  intros Ha Hl. unfold scan_fuel, zero_tail, segment_header_size in *. split; intros Hf.
  - pose proof (Z.div_mod asize 32 ltac:(lia)). pose proof (Z.mod_pos_bound asize 32 ltac:(lia)).
    apply scan_loop_fuel; lia.
  - pose proof (Z.div_mod len 4096 ltac:(lia)). pose proof (Z.mod_pos_bound len 4096 ltac:(lia)).
    pose proof (Z.div_pos len 4096 ltac:(lia) ltac:(lia)).
    destruct fuel as [|fuel]; [lia|]. replace (Z.to_nat (len / 4096) + 2)%nat with (S (Z.to_nat (len / 4096) + 1)) by lia.
    apply zero_tail_loop_fuel; lia.
Qed.

(** A file of 84 bytes without a record, and an unreadable one. *)
Lemma recovery_loops_witness :
  scan_loop 100 (B "log-00000001.seg") true 84 84 40 0 demo =
  scan_loop (scan_fuel 84) (B "log-00000001.seg") true 84 84 40 0 demo /\
  (let s := mkState (log demo) (set_script [SysErr 5] (os demo)) in
   scan_loop 100 (B "log-00000001.seg") true 84 84 40 0 s =
   scan_loop (scan_fuel 84) (B "log-00000001.seg") true 84 84 40 0 s).
Proof.
  split; apply (recovery_loops_end 100 (B "log-00000001.seg") true 84 84 0 0 0);
    (apply (bool_decide_unpack _); vm_compute; exact I) || (unfold segment_header_size, off_max; lia).
Defined.
