(* ===== verification/Store.v ===== *)
(** * Store: what the message log promises to the routes

    The interface [MessageStore] between the storage and the server: an abstract
    history of messages, an append that extends it or refuses, and the newest
    messages.  The log of MmapLog implements it; the clients of the log are proved
    against the interface. *)
From stdpp Require Import base gmap list numbers strings.
From Stdlib Require Import Strings.Byte.
From S2P Require Import Prelude Codec Text CircularBuffer Os MmapLog LogFormat LogScan LogSpec LogTheorems.

Local Open Scope Z_scope.

(** ** The interface *)

Class MessageStore (S : Type) := {
  store_append : bytes -> Z -> stm S Z;
  store_recent : nat -> stm S (list Message);
  (** The exception, if any, with which the state refuses a payload. *)
  store_refusal : S -> bytes -> option exn;
  (** The state keeps the given number of newest messages of a history. *)
  store_holds : S -> nat -> list Message -> Prop;
  store_append_ok s cap h p now :
    store_holds s cap h -> store_refusal s p = None ->
    exists s', store_append p now s = (Ok (end_of 0 h), s') /\
      store_holds s' cap (h ++ [new_message (end_of 0 h) now p]);
  store_append_refused s cap h p now e :
    store_holds s cap h -> store_refusal s p = Some e -> store_append p now s = (Throw e, s);
  store_recent_ok s cap h n :
    store_holds s cap h -> store_recent n s = (Ok (newest (n `min` cap) h), s);
  store_capacity s cap h : store_holds s cap h -> (0 < cap)%nat;
  store_chained s cap h : store_holds s cap h -> chained 0 h
}.

(** ** A client: a sequence of appends *)

Section Appends.
Context `{MessageStore T}.

Fixpoint append_all (ps : list (Z * bytes)) (s : T) : list (outcome Z) * T :=
  match ps with
  | [] => ([], s)
  | (now, p) :: ps =>
      let '(r, s) := store_append p now s in
      let '(rs, s) := append_all ps s in (r :: rs, s)
  end.

(** The messages that a sequence of appends added, and what it answered. *)
Inductive stored : list Message -> list (Z * bytes) -> list (outcome Z) -> list Message -> Prop :=
| stored_nil h : stored h [] [] []
| stored_ok h now p ps rs added :
    let m := new_message (end_of 0 h) now p in
    stored (h ++ [m]) ps rs added -> stored h ((now, p) :: ps) (Ok (offset m) :: rs) (m :: added)
| stored_refused h now p e ps rs added :
    stored h ps rs added -> stored h ((now, p) :: ps) (Throw e :: rs) added.

Lemma append_all_stored ps s cap h :
  store_holds s cap h ->
  exists added, stored h ps (append_all ps s).1 added /\ store_holds (append_all ps s).2 cap (h ++ added).
Proof.
  revert s h. induction ps as [|[now p] ps IH]; intros s h Hs; cbn [append_all].
  - exists []. rewrite app_nil_r. split; [constructor|done].
  - destruct (store_refusal s p) as [e|] eqn:He.
    + rewrite (store_append_refused s cap h p now e Hs He). destruct (IH s h Hs) as (added & H1 & H2).
      destruct (append_all ps s). exists added. split; [by constructor|done].
    + destruct (store_append_ok s cap h p now Hs He) as (s' & -> & Hs').
      destruct (IH s' _ Hs') as (added & H1 & H2). destruct (append_all ps s').
      exists (new_message (end_of 0 h) now p :: added). split; [by constructor|]. by rewrite <- app_assoc in H2.
Qed.
End Appends.

(** ** The log implements it *)

(** The refusal of [append] in terms of the members of the log. *)
Definition log_refusal (s : state) (p : bytes) : option exn :=
  let m := active (log s) in
  if u32_max <? zlen p
  then Some (length_error (B "payload exceeds the on-disk format limit"))
  else if segment_size (log s) <? 72 + zlen p
  then Some (length_error (B "record is too large to fit in an empty segment"))
  else if u64_max <? next_message_offset (log s) + 32 + zlen p
  then Some (overflow_error (B "message offset space is exhausted"))
  else if (segment_size (log s) <? write_position m + 32 + zlen p) && (maximum_segment_id <? 1 + map_segment_id m)
  then Some (overflow_error (B "segment id space is exhausted"))
  else None.

Lemma log_refusal_spec outer s sealed cur p :
  log_inv outer s sealed cur -> log_refusal s p = append_error (segment_size (log s)) sealed cur p.
Proof.
  intros Hinv. unfold log_refusal, append_error. rewrite (inv_next _ _ _ _ Hinv), (inv_active _ _ _ _ Hinv).
  cbn [write_position map_segment_id current seg_id]. by replace (1 + (1 + zlen sealed)) with (2 + zlen sealed) by lia.
Qed.

(** An open log on an operating system that does not fail. *)
Definition log_holds (s : state) (cap : nat) (h : list Message) : Prop :=
  exists outer sealed cur, log_inv outer s sealed cur /\ reliable (os s) /\
    capacity (recent_cache (log s)) = cap /\ h = history sealed cur.

#[export] Program Instance log_store : MessageStore state := {
  store_append := append;
  store_recent := log_get_recent;
  store_refusal := log_refusal;
  store_holds := log_holds
}.
Next Obligation.
  intros s cap h p now (outer & sealed & cur & Hinv & Hr & <- & ->) He.
  rewrite (log_refusal_spec outer s sealed cur p Hinv) in He. apply append_error_None in He.
  eexists. split; [by apply (append_ok outer)|].
  pose proof (appended_inv outer s sealed cur p now Hinv He) as Hi'. cbv zeta in Hi'.
  destruct (appended_frame outer sealed cur (new_message (end_of 0 (history sealed cur)) now p) s Hr) as (Hr' & _ & Hc).
  exists outer. do 2 eexists. split_and!; [exact Hi'|done|by rewrite Hc, push_capacity|by rewrite place_history].
Qed.
Next Obligation.
  intros s cap h p now e (outer & sealed & cur & Hinv & _) He.
  rewrite (log_refusal_spec outer s sealed cur p Hinv) in He. by apply (append_rejected outer s sealed cur).
Qed.
Next Obligation.
  intros s cap h n (outer & sealed & cur & Hinv & _ & <- & ->).
  unfold log_get_recent, get_log, gets. do 2 f_equal. by apply get_recent_represents, (inv_cache _ _ _ _ Hinv).
Qed.
Next Obligation.
  intros s cap h (outer & sealed & cur & Hinv & _ & <- & _). apply (rep_capacity _ _ (inv_cache _ _ _ _ Hinv)).
Qed.
Next Obligation.
  intros s cap h (outer & sealed & cur & Hinv & _ & _ & ->). apply (hist_chained _ _ _ (inv_hist _ _ _ _ Hinv)).
Qed.
