(* ===== verification/HttpParser.v ===== *)
(** * HttpParser: the incremental HTTP request parser

    Models src/src/http/http_parser.h and http_parser.cpp.  Sizes are [size_t]
    values with their wrap-around; [std::string::npos] is [None]; a header map
    is a finite map.  A member function takes and returns the members of
    [HTTPParser]. *)
From stdpp Require Import base gmap list numbers strings.
From Stdlib Require Import Strings.Byte.
From S2P Require Import Prelude Text.

Local Open Scope Z_scope.

(** ** Data *)

Record HttpRequest := mkRequest {
  method : bytes;
  target_path : bytes;
  query : bytes;
  headers : gmap bytes bytes;
  body : bytes
}.
Definition empty_request : HttpRequest := mkRequest [] [] [] ∅ [].

Inductive ParseStatus := Incomplete | Complete | Error.
#[export] Instance parse_status_eq_dec : EqDecision ParseStatus.
Proof. solve_decision. Defined.

Record HTTPParser := mkParser {
  max_header_bytes : Z;
  max_body_bytes : Z;
  buffer : bytes;
  parsed_request : HttpRequest;
  parse_error : bytes;
  content_length : Z;
  headers_parsed : bool;
  complete : bool
}.

Definition set_method x r := mkRequest x (target_path r) (query r) (headers r) (body r).
Definition set_path x r := mkRequest (method r) x (query r) (headers r) (body r).
Definition set_query x r := mkRequest (method r) (target_path r) x (headers r) (body r).
Definition set_headers x r := mkRequest (method r) (target_path r) (query r) x (body r).
Definition set_body x r := mkRequest (method r) (target_path r) (query r) (headers r) x.

Definition set_buffer x p :=
  mkParser (max_header_bytes p) (max_body_bytes p) x (parsed_request p) (parse_error p)
           (content_length p) (headers_parsed p) (complete p).
Definition set_request x p :=
  mkParser (max_header_bytes p) (max_body_bytes p) (buffer p) x (parse_error p)
           (content_length p) (headers_parsed p) (complete p).
Definition set_parse_error x p :=
  mkParser (max_header_bytes p) (max_body_bytes p) (buffer p) (parsed_request p) x
           (content_length p) (headers_parsed p) (complete p).
Definition set_content_length x p :=
  mkParser (max_header_bytes p) (max_body_bytes p) (buffer p) (parsed_request p) (parse_error p)
           x (headers_parsed p) (complete p).
Definition set_headers_parsed x p :=
  mkParser (max_header_bytes p) (max_body_bytes p) (buffer p) (parsed_request p) (parse_error p)
           (content_length p) x (complete p).
Definition set_complete x p :=
  mkParser (max_header_bytes p) (max_body_bytes p) (buffer p) (parsed_request p) (parse_error p)
           (content_length p) (headers_parsed p) x.

(** The constructor, with its default limits. *)
Definition new_parser (max_header max_body : Z) : HTTPParser :=
  mkParser max_header max_body [] empty_request [] 0 false false.
Definition default_max_header_bytes : Z := 16 * 1024.
Definition default_max_body_bytes : Z := 1 * 1024 * 1024.

(** ** Helpers *)

Definition CR : byte := x0d.
Definition LF : byte := x0a.
Definition crlf : bytes := [CR; LF].
Definition header_separator : bytes := [CR; LF; CR; LF].

Definition is_blank (c : byte) : bool := bool_decide (c = x20) || bool_decide (c = x09).

Definition trim (value : bytes) : bytes :=
  reverse (drop_while is_blank (reverse (drop_while is_blank value))).

(** [tolower] in the "C" locale. *)
Definition tolower (c : byte) : byte :=
  if (65 <=? byte_to_Z c) && (byte_to_Z c <=? 90) then byte_of_Z (byte_to_Z c + 32) else c.
Definition lowercase (value : bytes) : bytes := tolower <$> value.

Definition fail (message : bytes) (p : HTTPParser) : ParseStatus * HTTPParser :=
  (Error, set_parse_error message p).

Definition content_length_name : bytes := B "content-length".
Definition transfer_encoding_name : bytes := B "transfer-encoding".

(** ** [parse_headers] *)

(** [emplace], then the treatment of a repeated name: [None] for conflicting
    content lengths. *)
Definition add_header (name value : bytes) (m : gmap bytes bytes) : option (gmap bytes bytes) :=
  match m !! name with
  | None => Some (<[name := value]> m)
  | Some old =>
      if bool_decide (name = content_length_name) && negb (bool_decide (old = value)) then None
      else if negb (bool_decide (name = content_length_name))
      then Some (<[name := old ++ B "," ++ value]> m)
      else Some m
  end.

(** The header loop: the error message that ends it, if any, and the headers
    collected so far. *)
Fixpoint header_loop (fuel : nat) (buf : bytes) (header_end line_start : nat)
    (m : gmap bytes bytes) : option bytes * gmap bytes bytes :=
  match fuel with
  | O => (None, m)
  | S fuel =>
      if negb (line_start <? header_end)%nat then (None, m) else
      match find_from crlf buf line_start with
      | None => (Some (B "malformed header line"), m)
      | Some line_end =>
          if (header_end <? line_end)%nat then (Some (B "malformed header line"), m) else
          let line := substr buf line_start (line_end - line_start) in
          match find_char x3a line with
          | None | Some O => (Some (B "malformed header"), m)
          | Some colon =>
              let name := lowercase (substr line 0 colon) in
              let value := trim (substr_from line (colon + 1)) in
              if bool_decide (name = []) || contains_char CR value || contains_char LF value
              then (Some (B "malformed header value"), m)
              else
                match add_header name value m with
                | None => (Some (B "conflicting content-length headers"), m)
                | Some m' => header_loop fuel buf header_end (line_end + 2) m'
                end
          end
      end
  end.

(** The part of [parse_headers] after the loop. *)
Definition check_length (p : HTTPParser) : ParseStatus * HTTPParser :=
  let m := headers (parsed_request p) in
  match m !! transfer_encoding_name with
  | Some _ => fail (B "transfer-encoding is unsupported") p
  | None =>
      match m !! content_length_name with
      | None => (Incomplete, p)
      | Some value =>
          let result := from_chars value in
          match parsed result with
          | Some parsed_length =>
              if negb (ptr result =? length value)%nat
              then fail (B "invalid content-length") p
              else if max_body_bytes p <? parsed_length
              then fail (B "body exceeds configured size limit") p
              else (Incomplete, set_content_length parsed_length p)
          | None => fail (B "invalid content-length") p
          end
      end
  end.

(** The loop runs at most once per byte of the header block. *)
Definition parse_headers (header_end : nat) (p : HTTPParser) : ParseStatus * HTTPParser :=
  match find crlf (buffer p) with
  | None => fail (B "missing request line") p
  | Some request_line_end =>
      if (header_end <=? request_line_end)%nat then fail (B "missing request line") p else
      let request_line := take request_line_end (buffer p) in
      match find_char x20 request_line with
      | None => fail (B "malformed request line") p
      | Some method_end =>
          match find_char_from x20 request_line (method_end + 1) with
          | None => fail (B "malformed request line") p
          | Some path_end =>
              if (method_end =? 0)%nat || (path_end =? method_end + 1)%nat
              then fail (B "malformed request line") p else
              let version := substr_from request_line (path_end + 1) in
              if negb (bool_decide (version = B "HTTP/1.0")) &&
                 negb (bool_decide (version = B "HTTP/1.1"))
              then fail (B "unsupported HTTP version") p else
              let p := set_request (set_method (substr request_line 0 method_end)
                                               (parsed_request p)) p in
              let target := substr request_line (method_end + 1) (path_end - method_end - 1) in
              let query_start := find_char x3f target in
              let path := match query_start with Some i => substr target 0 i | None => target end in
              if bool_decide (path = []) then fail (B "request target path is empty") p else
              let p := set_request (set_path path (parsed_request p)) p in
              let p := match query_start with
                       | Some i => set_request (set_query (substr_from target (i + 1))
                                                          (parsed_request p)) p
                       | None => p
                       end in
              let '(err, m) := header_loop header_end (buffer p) header_end (request_line_end + 2)
                                           (headers (parsed_request p)) in
              let p := set_request (set_headers m (parsed_request p)) p in
              match err with
              | Some message => fail message p
              | None => check_length p
              end
          end
      end
  end.

(** ** [feed] *)

(** The part of [feed] after the headers: wait for the body or store it. *)
Definition take_body (p : HTTPParser) : ParseStatus * HTTPParser :=
  if zlen (buffer p) <? content_length p then (Incomplete, p)
  else
    let p := set_request (set_body (take (Z.to_nat (content_length p)) (buffer p))
                                   (parsed_request p)) p in
    (Complete, set_complete true p).

Definition feed (bytes : bytes) (p : HTTPParser) : ParseStatus * HTTPParser :=
  if complete p || negb (bool_decide (parse_error p = []))
  then (if complete p then Complete else Error, p) else
  let limit := u64_add (max_header_bytes p) (max_body_bytes p) in
  if (limit <? zlen (buffer p)) || (u64_sub limit (zlen (buffer p)) <? zlen bytes)
  then fail (B "request exceeds configured size limit") p else
  let p := set_buffer (buffer p ++ bytes) p in
  if negb (headers_parsed p) then
    match find header_separator (buffer p) with
    | None =>
        if max_header_bytes p <? zlen (buffer p)
        then fail (B "headers exceed configured size limit") p
        else (Incomplete, p)
    | Some separator =>
        if max_header_bytes p <? u64_add (Z.of_nat separator) 4
        then fail (B "headers exceed configured size limit") p
        else
          let '(status, p) := parse_headers separator p in
          match status with
          | Error => (status, p)
          | _ => take_body (set_buffer (drop (separator + 4) (buffer p)) (set_headers_parsed true p))
          end
    end
  else take_body p.

Definition request (p : HTTPParser) : HttpRequest := parsed_request p.
Definition error (p : HTTPParser) : bytes := parse_error p.

(** ** The scenarios of tests/http_parser_test.cpp *)

Module ParserTests.
Definition fresh : HTTPParser := new_parser default_max_header_bytes default_max_body_bytes.

Fixpoint feeds (chunks : list bytes) (p : HTTPParser) : list ParseStatus * HTTPParser :=
  match chunks with
  | [] => ([], p)
  | c :: chunks => let '(st, p) := feed c p in let '(l, p) := feeds chunks p in (st :: l, p)
  end.

Example fragmented :
  let '(l, p) := feeds [B "POST /telemetry HTTP/1.1" ++ crlf ++ B "Ho";
                        B "st: localhost" ++ crlf ++ B "Content-Length: 5" ++ header_separator ++ B "he";
                        B "llo"] fresh in
  l = [Incomplete; Incomplete; Complete] /\ method (request p) = B "POST" /\
  target_path (request p) = B "/telemetry" /\ headers (request p) !! B "host" = Some (B "localhost") /\
  body (request p) = B "hello".
Proof. vm_compute. auto. Qed.

Example query_split :
  let '(st, p) := feed (B "GET /recent?count=12 HTTP/1.1" ++ crlf ++ B "Host: localhost" ++ header_separator) fresh in
  st = Complete /\ target_path (request p) = B "/recent" /\ query (request p) = B "count=12".
Proof. vm_compute. auto. Qed.

Example rejections :
  (fst (feed (B "GET /health" ++ header_separator) fresh),
   error (snd (feed (B "POST / HTTP/1.1" ++ crlf ++ B "Content-Length: 2" ++ crlf ++
                     B "Content-Length: 3" ++ header_separator) fresh)),
   error (snd (feed (B "POST / HTTP/1.1" ++ crlf ++ B "Transfer-Encoding: chunked" ++
                     header_separator) fresh)),
   error (snd (feed (B "POST / HTTP/1.1" ++ crlf ++ B "Content-Length: 5" ++ header_separator)
                    (new_parser 64 4))))
  = (Error, B "conflicting content-length headers", B "transfer-encoding is unsupported",
     B "body exceeds configured size limit").
Proof. vm_compute. reflexivity. Qed.
End ParserTests.
