(* ===== verification/HttpChunks.v ===== *)
(** * HttpChunks: the parser does not depend on how the input arrives

    The bytes of a request reach [feed] in whatever pieces the socket delivers.
    Feeding the pieces one after the other gives the same status, request and
    error as feeding them at once. *)
From stdpp Require Import base gmap list numbers strings.
From Stdlib Require Import Strings.Byte.
From S2P Require Import Prelude Text HttpParser.

Local Open Scope Z_scope.

(** ** Searching in a buffer that grows *)

Lemma find_occurs pat s1 s2 : exists i, find pat (s1 ++ pat ++ s2) = Some i /\ (i <= length s1)%nat.
Proof.
  induction s1 as [|c s1 IH].
  - exists 0%nat. split; [|lia]. cbn [app].
    assert (Hs : starts_with pat (pat ++ s2) = true) by (apply starts_with_spec; by exists s2).
    destruct (pat ++ s2); cbn [find]; by rewrite Hs.
  - destruct IH as (i & Hi & Hl). cbn [app find length]. destruct (starts_with pat _).
    + exists 0%nat. split; [done|lia].
    + exists (S i). rewrite Hi. split; [done|lia].
Qed.

(** The line that [find_from crlf] finds inside a header block. *)
Lemma find_line h k ls :
  (ls <= length h)%nat ->
  exists le, (ls <= le <= length h)%nat /\ find_from crlf (h ++ crlf ++ k) ls = Some le /\
    forall k', find_from crlf ((h ++ crlf ++ k) ++ k') ls = Some le.
Proof.
  intros Hls. unfold find_from. rewrite drop_app_le by done.
  destruct (find_occurs crlf (drop ls h) k) as (i & Hi & Hl). rewrite length_drop in Hl.
  exists (ls + i)%nat. split; [lia|]. rewrite Hi. split; [done|]. intros k'.
  rewrite drop_app_le by (rewrite length_app; lia). rewrite drop_app_le by done.
  by rewrite (find_app_Some _ _ _ _ Hi).
Qed.

Lemma substr_app (a b : bytes) pos n : (pos + n <= length a)%nat -> substr (a ++ b) pos n = substr a pos n.
Proof. intros H. unfold substr. rewrite drop_app_le, take_app_le by (rewrite ?length_drop; lia). done. Qed.

Lemma header_loop_app fuel h k k' ls m :
  header_loop fuel ((h ++ crlf ++ k) ++ k') (length h) ls m =
  header_loop fuel (h ++ crlf ++ k) (length h) ls m.
Proof.
  revert ls m. induction fuel as [|fuel IH]; intros ls m; cbn [header_loop]; [done|].
  destruct (Nat.ltb_spec ls (length h)) as [Hls|]; [|done]. cbn [negb].
  destruct (find_line h k ls) as (le & Hle & Hf & Hf'); [lia|]. rewrite Hf, Hf'.
  destruct (length h <? le)%nat; [done|].
  rewrite substr_app by (rewrite length_app; lia).
  repeat case_match; auto.
Qed.

(** The loop has enough fuel: more makes no difference. *)
Lemma header_loop_fuel fuel fuel' h k ls m :
  (length h <= ls + fuel)%nat -> (length h <= ls + fuel')%nat ->
  header_loop fuel (h ++ crlf ++ k) (length h) ls m =
  header_loop fuel' (h ++ crlf ++ k) (length h) ls m.
Proof.
  assert (Hstop : forall f ls m, (length h <= ls)%nat ->
    header_loop f (h ++ crlf ++ k) (length h) ls m = (None, m)).
  { intros [|f] ls' m' Hls; [done|]. cbn [header_loop].
    by replace (ls' <? length h)%nat with false by (symmetry; apply Nat.ltb_ge; lia). }
  revert fuel' ls m. induction fuel as [|fuel IH]; intros [|fuel'] ls m Hf Hf';
    rewrite ?Hstop by lia; try done.
  cbn [header_loop]. destruct (Nat.ltb_spec ls (length h)) as [Hls|]; [|done]. cbn [negb].
  destruct (find_line h k ls) as (le & Hle & Hfind & _); [lia|]. rewrite Hfind.
  destruct (length h <? le)%nat; [done|]. repeat case_match; try done. apply IH; lia.
Qed.

(** The separator as a position and as a decomposition of the buffer. *)
Lemma separator_split b i :
  find header_separator b = Some i ->
  exists h k, b = h ++ crlf ++ crlf ++ k /\ length h = i.
Proof.
  intros (k & Hb & Hl)%find_Some. exists (take i b), k. split; [exact Hb|].
  rewrite length_take. lia.
Qed.

(** ** [parse_headers] reads only the header block *)

Lemma check_length_buffer x p :
  check_length (set_buffer x p) = let '(st, p') := check_length p in (st, set_buffer x p').
Proof. unfold check_length, fail. cbn. by repeat case_match. Qed.

Lemma parse_headers_buffer b k i p :
  find header_separator b = Some i ->
  parse_headers i (set_buffer (b ++ k) p) =
  let '(st, p') := parse_headers i (set_buffer b p) in (st, set_buffer (b ++ k) p').
Proof.
  intros Hi. destruct (separator_split b i Hi) as (h & k0 & -> & Hlen). clear Hi.
  unfold parse_headers. cbn [buffer set_buffer].
  destruct (find_occurs crlf h (crlf ++ k0)) as (j & Hj & Hjl).
  rewrite (find_app_Some _ _ _ _ Hj), Hj. rewrite Hlen in Hjl.
  destruct (Nat.leb_spec i j) as [|Hij]; [done|].
  rewrite take_app_le by (rewrite length_app; lia). set (line := take j _).
  destruct (find_char x20 line) as [me|]; [|done].
  destruct (find_char_from x20 line (me + 1)) as [pe|]; [|done].
  destruct (_ || _)%bool; [done|]. destruct (_ && _)%bool; [done|]. cbv zeta.
  destruct (bool_decide _); [done|].
  destruct (find_char x3f _) as [qs|]; cbn [buffer set_buffer set_request parsed_request headers set_path
    set_method set_query]; rewrite <- Hlen, header_loop_app;
    destruct (header_loop _ _ _ _ _) as [[err|] m]; try done;
    match goal with |- _ = match check_length ?q with _ => _ end => exact (check_length_buffer _ q) end.
Qed.

(** ** What [parse_headers] changes *)

Lemma header_loop_message fuel buf he ls m msg m' :
  header_loop fuel buf he ls m = (Some msg, m') -> msg <> [].
Proof.
  revert ls m. induction fuel as [|fuel IH]; intros ls m; cbn [header_loop]; [done|].
  repeat case_match; intros; simplify_eq; eauto; discriminate.
Qed.

(** The members [parse_headers] leaves alone, and how it reports errors. *)
Record headers_frame (p : HTTPParser) (st : ParseStatus) (p' : HTTPParser) : Prop := {
  hf_header : max_header_bytes p' = max_header_bytes p;
  hf_body : max_body_bytes p' = max_body_bytes p;
  hf_buffer : buffer p' = buffer p;
  hf_complete : complete p' = complete p;
  hf_parsed : headers_parsed p' = headers_parsed p;
  hf_error : st = Error -> parse_error p' <> [];
  hf_ok : st <> Error -> st = Incomplete /\ parse_error p' = parse_error p
}.

Lemma fail_frame p msg : msg <> [] -> let '(st, p') := fail msg p in headers_frame p st p'.
Proof. intros H. by split. Qed.

Lemma check_length_frame p : let '(st, p') := check_length p in headers_frame p st p'.
Proof.
  unfold check_length, fail. repeat case_match; simplify_eq; by split.
Qed.

Lemma frame_request r p st p' : headers_frame (set_request r p) st p' -> headers_frame p st p'.
Proof. intros [H1 H2 H3 H4 H5 H6 H7]. by split. Qed.

Lemma parse_headers_frame i p : let '(st, p') := parse_headers i p in headers_frame p st p'.
Proof.
  unfold parse_headers.
  destruct (find crlf (buffer p)) as [j|]; [|by apply fail_frame].
  destruct (i <=? j)%nat; [by apply fail_frame|]. cbv zeta.
  destruct (find_char x20 _) as [me|]; [|by apply fail_frame].
  destruct (find_char_from x20 _ _) as [pe|]; [|by apply fail_frame].
  destruct (_ || _)%bool; [by apply fail_frame|]. destruct (_ && _)%bool; [by apply fail_frame|].
  destruct (bool_decide _); [by split|].
  destruct (find_char x3f _) as [qs|];
    (destruct (header_loop _ _ _ _ _) as [[msg|] m] eqn:Hl;
     [apply header_loop_message in Hl; by split|]);
    match goal with |- match check_length ?q with _ => _ end =>
      pose proof (check_length_frame q) as H; destruct (check_length q) end;
    by repeat apply frame_request in H.
Qed.

(** ** Feeding in two pieces *)

Definition finished (p : HTTPParser) : bool := complete p || negb (bool_decide (parse_error p = [])).

(** Two parsers that answer alike: the members are equal, apart from the bytes
    left in the buffer of a parser that is finished. *)
Definition same_parser (p q : HTTPParser) : Prop :=
  set_buffer [] p = set_buffer [] q /\ (finished q = false -> p = q).

Lemma same_parser_refl p : same_parser p p.
Proof. by split. Qed.

Lemma same_parser_finished p q : same_parser p q -> finished p = finished q.
Proof. intros [H _]. destruct p, q. cbn in H. by simplify_eq. Qed.

Lemma feed_finished c p : finished p = true -> feed c p = (if complete p then Complete else Error, p).
Proof. intros H. unfold feed. fold (finished p). by rewrite H. Qed.

(** ** What [feed] returns *)

Lemma take_body_status p :
  let '(st, p') := take_body p in
  st <> Error /\ (st = Complete -> complete p' = true).
Proof. unfold take_body. by destruct (_ <? _). Qed.

(** The status tells what [feed] left in the parser. *)
Lemma feed_status d p :
  let '(st, p') := feed d p in
  (st = Complete -> complete p' = true) /\ (st = Error -> error p' <> []).
Proof.
  unfold feed. destruct (complete p) eqn:Hc; cbn [orb].
  { by split. }
  destruct (bool_decide_reflect (parse_error p = [])) as [He|He]; cbn [negb]; [|by split].
  destruct (_ || _)%bool; [by split|]. cbv zeta.
  destruct (negb _).
  - destruct (find _ _) as [i|]; [|by destruct (_ <? _)]. destruct (_ <? _); [by split|].
    pose proof (parse_headers_frame i (set_buffer (buffer p ++ d) p)) as Hf.
    destruct (parse_headers i _) as [st p1]. destruct Hf as [_ _ _ _ _ Herr Hok].
    destruct st; [|by destruct (Hok ltac:(done))|by split; [|intros _; apply Herr]].
    match goal with |- context [take_body ?q] =>
      pose proof (take_body_status q) as Hb; destruct (take_body q) as [st p2] end.
    destruct Hb as [H1 H2]. split; [exact H2|by intros ->].
  - match goal with |- context [take_body ?q] =>
      pose proof (take_body_status q) as Hb; destruct (take_body q) as [st p2] end.
    destruct Hb as [H1 H2]. split; [exact H2|by intros ->].
Qed.

(** What an unfinished parser is left with. *)
Lemma feed_open d p :
  finished p = false ->
  let '(st, p') := feed d p in
  (st = Incomplete -> finished p' = false) /\ (st = Error -> complete p' = false).
Proof.
  intros Hf. unfold feed. fold (finished p). rewrite Hf.
  unfold finished in Hf. apply orb_false_iff in Hf as [Hc Hb].
  destruct (_ || _)%bool; [by split|]. cbv zeta.
  assert (Htake : forall q, complete q = false -> parse_error q = parse_error p ->
    let '(st, p') := take_body q in (st = Incomplete -> finished p' = false) /\ (st = Error -> complete p' = false)).
  { intros q Hq Hqe. unfold take_body. destruct (_ <? _); [|by split]. split; [|done]. intros _.
    unfold finished. by rewrite Hq, Hqe. }
  destruct (negb (headers_parsed _)); [|by apply Htake].
  destruct (find _ _) as [i|].
  2:{ destruct (_ <? _); [by split|]. split; [|done]. intros _. unfold finished. cbn. by rewrite Hc. }
  destruct (_ <? _); [by split|].
  pose proof (parse_headers_frame i (set_buffer (buffer p ++ d) p)) as Hfr.
  destruct (parse_headers i _) as [st p1]. destruct Hfr as [_ _ _ F4 _ _ F7]. cbn in F4, F7.
  destruct (decide (st = Error)) as [->|Hst]; [split; [done|intros _; congruence]|].
  destruct (F7 Hst) as [-> F8]. apply Htake; cbn; congruence.
Qed.

Section Limits.
Context (mh mb : Z).
Hypothesis Hmh : 0 <= mh.
Hypothesis Hmb : 0 <= mb.
Hypothesis Hmax : mh + mb <= u64_max.

(** [feed] within the size limit, on a parser that is not finished. *)
Definition feed_body (p : HTTPParser) : ParseStatus * HTTPParser :=
  if negb (headers_parsed p) then
    match find header_separator (buffer p) with
    | None =>
        if mh <? zlen (buffer p) then fail (B "headers exceed configured size limit") p
        else (Incomplete, p)
    | Some separator =>
        if mh <? Z.of_nat separator + 4 then fail (B "headers exceed configured size limit") p
        else
          let '(status, p) := parse_headers separator p in
          match status with
          | Error => (status, p)
          | _ => take_body (set_buffer (drop (separator + 4) (buffer p)) (set_headers_parsed true p))
          end
    end
  else take_body p.

Lemma feed_within c p :
  max_header_bytes p = mh -> max_body_bytes p = mb -> finished p = false ->
  zlen (buffer p) + zlen c <= mh + mb ->
  feed c p = feed_body (set_buffer (buffer p ++ c) p).
Proof.
  intros Hh Hb Hf Hl. unfold feed. fold (finished p). rewrite Hf, Hh, Hb. cbv zeta.
  rewrite u64_add_small, u64_sub_small by width.
  replace (mh + mb <? zlen (buffer p)) with false by lia.
  replace (mh + mb - zlen (buffer p) <? zlen c) with false by lia. cbn [orb].
  unfold feed_body. cbn [headers_parsed set_buffer buffer max_header_bytes]. rewrite Hh.
  destruct (negb (headers_parsed p)); [|done].
  destruct (find header_separator _) as [i|] eqn:Hi; [|done].
  apply find_Some in Hi as (_ & _ & Hil). rewrite length_app in Hil. cbn [length header_separator] in Hil.
  by rewrite u64_add_small by width.
Qed.

Abbreviation fresh := (new_parser mh mb).

Lemma feed_fresh a : zlen a <= mh + mb -> feed a fresh = feed_body (set_buffer a fresh).
Proof. intros Ha. by rewrite feed_within. Qed.

Lemma drop_separator a c i :
  find header_separator a = Some i -> drop (i + 4) (a ++ c) = drop (i + 4) a ++ c.
Proof.
  intros (_ & _ & Hl)%find_Some. cbn [length header_separator] in Hl.
  by rewrite drop_app_le by lia.
Qed.

Lemma feed_body_fresh a :
  feed_body (set_buffer a fresh) =
  match find header_separator a with
  | None =>
      if mh <? zlen a then fail (B "headers exceed configured size limit") (set_buffer a fresh)
      else (Incomplete, set_buffer a fresh)
  | Some i =>
      if mh <? Z.of_nat i + 4
      then fail (B "headers exceed configured size limit") (set_buffer a fresh)
      else
        let '(status, p) := parse_headers i (set_buffer a fresh) in
        match status with
        | Error => (status, p)
        | _ => take_body (set_buffer (drop (i + 4) (buffer p)) (set_headers_parsed true p))
        end
  end.
Proof. done. Qed.

(** The next chunk while the end of the headers has not been received. *)
Lemma feed_again_headers a c :
  zlen a + zlen c <= mh + mb -> find header_separator a = None ->
  let '(st, p) := feed c (feed_body (set_buffer a fresh)).2 in
  let '(st', p') := feed_body (set_buffer (a ++ c) fresh) in
  st = st' /\ same_parser p p'.
Proof.
  intros Hl Hi. rewrite !feed_body_fresh.
  rewrite Hi. destruct (Z.ltb_spec mh (zlen a)) as [Hbig|Hbig]; cbn [snd].
  - rewrite feed_finished by done. cbn [complete].
    destruct (find header_separator (a ++ c)) as [i|] eqn:Hi'.
    + pose proof (find_app_None _ _ _ _ Hi Hi') as Hlen. cbn [length header_separator] in Hlen.
      replace (mh <? Z.of_nat i + 4) with true by lia. by split.
    + rewrite length_app. rewrite (proj2 (Z.ltb_lt _ _)) by lia. by split.
  - rewrite feed_within by done. cbn [buffer set_buffer].
    change (set_buffer (a ++ c) (set_buffer a fresh)) with (set_buffer (a ++ c) fresh).
    rewrite <- feed_body_fresh. destruct (feed_body (set_buffer (a ++ c) fresh)).
    split; [done|apply same_parser_refl].
Qed.

(** The second piece after a first one that left the parser unfinished or not. *)
Lemma feed_again a c :
  zlen a + zlen c <= mh + mb ->
  let '(st, p) := feed c (feed_body (set_buffer a fresh)).2 in
  let '(st', p') := feed_body (set_buffer (a ++ c) fresh) in
  st = st' /\ same_parser p p'.
Proof.
  intros Hl. destruct (find header_separator a) as [i|] eqn:Hi; [|by apply feed_again_headers].
  rewrite !feed_body_fresh, Hi.
  rewrite (find_app_Some _ _ _ _ Hi).
  destruct (Z.ltb_spec mh (Z.of_nat i + 4)) as [Hbig|Hbig].
  { rewrite feed_finished by done. by split. }
  rewrite (parse_headers_buffer a c i fresh Hi).
  pose proof (parse_headers_frame i (set_buffer a fresh)) as Hfr.
  destruct (parse_headers i (set_buffer a fresh)) as [st p]. destruct Hfr as [F1 F2 F3 F4 F5 F6 F7].
  cbn [snd]. destruct (decide (st = Error)) as [->|Hst].
  { assert (Hfin : finished p = true).
    { unfold finished. rewrite bool_decide_eq_false_2 by (by apply F6). apply orb_true_r. }
    rewrite feed_finished by exact Hfin. cbn [snd]. rewrite F4. split; [done|]. split; [done|].
    change (finished (set_buffer (a ++ c) p)) with (finished p). congruence. }
  destruct (F7 Hst) as [-> F8]. cbn [snd]. rewrite F3. cbn [buffer set_buffer].
  rewrite (drop_separator a c i Hi).
  set (d := drop (i + 4) a). assert (Hd : zlen d <= zlen a) by (unfold d; rewrite length_drop; lia).
  unfold take_body at 1. cbn [buffer set_buffer content_length set_headers_parsed].
  destruct (Z.ltb_spec (zlen d) (content_length p)) as [Hshort|Hlong]; cbn [snd].
  - rewrite feed_within.
    + cbn [buffer set_buffer]. unfold feed_body. cbn [headers_parsed set_headers_parsed set_buffer negb].
      change (set_buffer (d ++ c) (set_headers_parsed true (set_buffer (a ++ c) p))) with
        (set_buffer (d ++ c) (set_buffer d (set_headers_parsed true p))).
      destruct (take_body _). split; [done|apply same_parser_refl].
    + exact F1.
    + exact F2.
    + unfold finished. cbn. by rewrite F4, F8.
    + cbn [buffer set_buffer]. lia.
  - rewrite feed_finished by done. cbn [complete set_complete].
    unfold take_body. cbn [buffer set_buffer content_length set_headers_parsed].
    rewrite length_app. rewrite (proj2 (Z.ltb_ge _ _)) by lia. split; [done|]. split; [|done].
    cbn. rewrite take_app_le by lia. done.
Qed.

(** Feeding the pieces in order; the status of the last one. *)
Fixpoint feed_all (chunks : list bytes) (st : ParseStatus) (p : HTTPParser) : ParseStatus * HTTPParser :=
  match chunks with
  | [] => (st, p)
  | c :: chunks => let '(st, p) := feed c p in feed_all chunks st p
  end.

Lemma feed_same c p q :
  same_parser p q ->
  (feed c p).1 = (feed c q).1 /\ same_parser (feed c p).2 (feed c q).2.
Proof.
  intros Hs. destruct (finished q) eqn:Hq.
  - rewrite !feed_finished by (rewrite ?(same_parser_finished _ _ Hs); done). cbn [fst snd].
    split; [|done]. destruct Hs as [Hs _]. destruct p, q. cbn in Hs |- *. by simplify_eq.
  - destruct Hs as [_ Hs]. rewrite Hs by done. split; [done|apply same_parser_refl].
Qed.

Lemma feed_all_finished chunks st p : finished p = true -> (feed_all chunks st p).2 = p.
Proof.
  intros Hf. revert st. induction chunks as [|c chunks IH]; intros st; cbn [feed_all]; [done|].
  rewrite feed_finished by done. apply IH.
Qed.

Lemma feed_all_failed chunks p : finished p = true -> complete p = false -> feed_all chunks Error p = (Error, p).
Proof.
  intros Hf Hc. induction chunks as [|c chunks IH]; cbn [feed_all]; [done|]. by rewrite feed_finished, Hc.
Qed.

Lemma feed_all_snoc chunks c st p :
  feed_all (chunks ++ [c]) st p = feed c (feed_all chunks st p).2.
Proof.
  revert st p. induction chunks as [|c' chunks IH]; intros st p; cbn [app feed_all snd].
  - by destruct (feed c p).
  - destruct (feed c' p). apply IH.
Qed.

Lemma feed_all_concat chunks :
  zlen (concat chunks) <= mh + mb ->
  (feed_all chunks Incomplete fresh).1 = (feed (concat chunks) fresh).1 /\
  same_parser (feed_all chunks Incomplete fresh).2 (feed (concat chunks) fresh).2.
Proof.
  induction chunks as [|c chunks IH] using rev_ind; intros Hl.
  - rewrite feed_fresh, feed_body_fresh by (cbn; lia).
    change (find header_separator (concat [])) with (@None nat).
    change (zlen (concat [])) with 0. replace (mh <? 0) with false by lia. by split.
  - rewrite concat_app in *. cbn [concat] in *. rewrite app_nil_r in *. rewrite length_app in Hl.
    destruct (IH ltac:(lia)) as [_ Hs]. rewrite feed_all_snoc.
    destruct (feed_same c _ _ Hs) as [H1 H2].
    rewrite (feed_fresh (concat chunks)) in H1, H2 by lia.
    rewrite (feed_fresh (concat chunks ++ c)) by (rewrite length_app; lia).
    pose proof (feed_again (concat chunks) c ltac:(lia)) as Ha.
    destruct (feed c (feed_body _).2) as [st1 p1], (feed_body (set_buffer (concat chunks ++ c) fresh)) as [st2 p2].
    cbn [fst snd] in *. destruct Ha as [-> Ha]. split; [done|].
    pose proof (same_parser_finished _ _ Ha) as Hf. destruct H2 as [H2 H3], Ha as [H4 H5].
    split; [congruence|]. intros Hq. rewrite H3 by congruence. by apply H5.
Qed.
End Limits.
