(* ===== verification/HttpRender.v ===== *)
(** * HttpRender: requests as clients write them

    The text of a well-formed request, and what the searches and the header
    loop of the parser find in it. *)
From stdpp Require Import base gmap list numbers strings.
From Stdlib Require Import Strings.Byte.
From S2P Require Import Prelude Text HttpParser HttpChunks.

Local Open Scope Z_scope.

(** ** Lines *)

(** Lines, each with its line end. *)
Definition block (lines : list bytes) : bytes := concat ((fun l => l ++ crlf) <$> lines).

Lemma block_cons l ls : block (l :: ls) = l ++ crlf ++ block ls.
Proof. unfold block. cbn. by rewrite <- app_assoc. Qed.

Lemma find_skip c pat l k :
  c ∉ l -> find (c :: pat) (l ++ k) = Nat.add (length l) <$> find (c :: pat) k.
Proof.
  induction l as [|d l IH]; intros Hc; cbn [app length].
  - by destruct (find (c :: pat) k).
  - apply not_elem_of_cons in Hc as [Hd Hc]. cbn [find starts_with].
    rewrite bool_decide_eq_false_2 by done. cbn [andb]. rewrite IH by done.
    by destruct (find (c :: pat) k).
Qed.

Lemma find_here pat k : find pat (pat ++ k) = Some 0%nat.
Proof.
  assert (Hs : starts_with pat (pat ++ k) = true) by (apply starts_with_spec; by exists k).
  destruct (pat ++ k); cbn [find]; by rewrite Hs.
Qed.

Lemma find_line_end l k : CR ∉ l -> find crlf (l ++ crlf ++ k) = Some (length l).
Proof.
  intros H. unfold crlf. rewrite find_skip by done.
  change ([CR; LF] ++ k) with (crlf ++ k). fold crlf. rewrite find_here. cbn. f_equal. lia.
Qed.

(** A line that is not empty and has no carriage return. *)
Definition line_ok (l : bytes) : Prop := l <> [] /\ CR ∉ l.

Lemma find_separator_skip c k :
  c <> CR -> find header_separator (crlf ++ c :: k) = Nat.add 2 <$> find header_separator (c :: k).
Proof.
  intros Hc. change (crlf ++ c :: k) with (CR :: [LF] ++ c :: k).
  assert (Hs : starts_with header_separator (CR :: [LF] ++ c :: k) = false).
  { unfold header_separator. cbn [starts_with app]. rewrite (bool_decide_eq_false_2 (CR = c)) by congruence.
    cbn [andb]. by rewrite !andb_false_r. }
  transitivity (S <$> find header_separator ([LF] ++ c :: k)).
  { change (find header_separator (CR :: [LF] ++ c :: k)) with
      (if starts_with header_separator (CR :: [LF] ++ c :: k) then Some 0%nat
       else S <$> find header_separator ([LF] ++ c :: k)). by rewrite Hs. }
  unfold header_separator. rewrite find_skip by (by rewrite list_elem_of_singleton).
  fold header_separator. by destruct (find header_separator (c :: k)).
Qed.

Lemma find_block l ls k :
  Forall line_ok (l :: ls) ->
  find header_separator (block (l :: ls) ++ crlf ++ k) = Some (length (block (l :: ls)) - 2)%nat.
Proof.
  revert l. induction ls as [|l' ls IH]; intros l [[Hne Hcr] Hls]%Forall_cons.
  - rewrite block_cons, <- !app_assoc. unfold header_separator. rewrite find_skip by done.
    change ((crlf ++ block [] ++ crlf ++ k)) with (header_separator ++ k).
    fold header_separator. rewrite find_here, !length_app. cbn. f_equal. lia.
  - rewrite block_cons, <- !app_assoc. unfold header_separator. rewrite find_skip by done.
    specialize (IH l' Hls). apply Forall_cons in Hls as [[Hne' Hcr'] _].
    rewrite block_cons in IH |- *. destruct l' as [|c l']; [done|].
    apply not_elem_of_cons in Hcr' as [Hc _].
    set (rest := ((c :: l') ++ crlf ++ block ls)) in *.
    assert (Hskip : find [CR; LF; CR; LF] (crlf ++ rest ++ crlf ++ k) =
                    Nat.add 2 <$> find header_separator (rest ++ crlf ++ k)).
    { unfold rest. apply find_separator_skip. congruence. }
    rewrite Hskip, IH. cbn [fmap option_fmap option_map]. f_equal. unfold rest.
    rewrite !length_app. cbn [length crlf]. lia.
Qed.

(** ** Requests *)

Record http_text := mkText {
  t_method : bytes;
  t_path : bytes;
  t_query : bytes;
  t_headers : list (bytes * bytes);
  t_body : bytes
}.

Definition request_line (t : http_text) : bytes :=
  t_method t ++ B " " ++ t_path t ++ (if bool_decide (t_query t = []) then [] else B "?" ++ t_query t)
  ++ B " HTTP/1.1".

Definition header_line (nv : bytes * bytes) : bytes := nv.1 ++ B ": " ++ nv.2.

(** The headers of the text, with the length of the body. *)
Definition all_headers (t : http_text) : list (bytes * bytes) :=
  t_headers t ++ [(content_length_name, to_string (zlen (t_body t)))].

Definition render (t : http_text) : bytes :=
  block (request_line t :: (header_line <$> all_headers t)) ++ crlf ++ t_body t.

(** A header that survives [lowercase] and [trim] and has no line ends. *)
Record header_ok (nv : bytes * bytes) : Prop := {
  name_nonempty : nv.1 <> [];
  name_lower : lowercase nv.1 = nv.1;
  name_chars : (CR ∉ nv.1) /\ (x3a ∉ nv.1);
  value_chars : (CR ∉ nv.2) /\ (LF ∉ nv.2);
  value_trimmed : trim nv.2 = nv.2
}.

Record text_ok (t : http_text) : Prop := {
  ok_method : t_method t <> [] /\ (x20 ∉ t_method t) /\ (CR ∉ t_method t);
  ok_path : t_path t <> [] /\ (x20 ∉ t_path t) /\ (CR ∉ t_path t) /\ (x3f ∉ t_path t);
  ok_query : (x20 ∉ t_query t) /\ (CR ∉ t_query t);
  ok_headers : Forall header_ok (t_headers t);
  ok_names : NoDup ((t_headers t).*1);
  ok_reserved : (content_length_name ∉ (t_headers t).*1) /\ (transfer_encoding_name ∉ (t_headers t).*1)
}.

Lemma contains_char_false c l : c ∉ l -> contains_char c l = false.
Proof.
  intros H. unfold contains_char. rewrite find_char_None by done. by apply bool_decide_eq_false_2.
Qed.

Lemma header_line_ok nv : header_ok nv -> line_ok (header_line nv).
Proof.
  intros [Hne _ [Hcr _] [Hcr' _] _]. unfold header_line. split.
  - by destruct nv.1.
  - rewrite !not_elem_of_app. split_and!; [done|by apply (bool_decide_unpack _)|done].
Qed.

(** What the loop makes of one header line. *)
Lemma header_line_parse nv :
  header_ok nv ->
  find_char x3a (header_line nv) = Some (length nv.1) /\
  lowercase (substr (header_line nv) 0 (length nv.1)) = nv.1 /\
  trim (substr_from (header_line nv) (length nv.1 + 1)) = nv.2.
Proof.
  intros [Hne Hlow [Hcr Hcol] [Hcr' Hlf] Htr]. unfold header_line, substr, substr_from.
  split_and!.
  - by apply find_char_app.
  - by rewrite drop_0, take_app_length.
  - replace (length nv.1 + 1)%nat with (length (nv.1 ++ [x3a])) by (rewrite length_app; done).
    change (nv.1 ++ B ": " ++ nv.2) with (nv.1 ++ [x3a] ++ x20 :: nv.2).
    rewrite app_assoc, drop_app_length. exact Htr.
Qed.

Lemma header_loop_lines hs fuel pre k m :
  Forall header_ok hs -> NoDup hs.*1 -> (forall n, n ∈ hs.*1 -> m !! n = None) ->
  (length (block (header_line <$> hs)) <= fuel)%nat ->
  header_loop fuel (pre ++ block (header_line <$> hs) ++ crlf ++ k)
    (length (pre ++ block (header_line <$> hs)) - 2) (length pre) m =
  (None, foldl (fun m nv => <[nv.1 := nv.2]> m) m hs).
Proof.
  revert fuel pre m. induction hs as [|nv hs IH]; intros fuel pre m Hok Hnd Hm Hf.
  - cbn [fmap list_fmap]. change (block []) with ([] : bytes). rewrite app_nil_r.
    destruct fuel; [done|]. cbn [header_loop].
    by replace (length pre <? length pre - 2)%nat with false by (symmetry; apply Nat.ltb_ge; lia).
  - apply Forall_cons in Hok as [Hnv Hok]. rewrite fmap_cons in Hnd. apply NoDup_cons in Hnd as [Hnin Hnd].
    pose proof (header_line_ok nv Hnv) as [Hlne Hlcr].
    destruct (header_line_parse nv Hnv) as (Hcol & Hname & Hval).
    rewrite fmap_cons, block_cons in *. set (l := header_line nv) in *. set (ls := block _) in *.
    rewrite !length_app in Hf. cbn [length crlf] in Hf.
    destruct l as [|c0 l0] eqn:Hl0; [done|]. rewrite <- Hl0 in *. assert (Hl1 : (1 <= length l)%nat) by (rewrite Hl0; cbn; lia).
    destruct fuel as [|fuel]; [lia|]. cbn [header_loop].
    replace (length pre <? _)%nat with true
      by (symmetry; apply Nat.ltb_lt; rewrite !length_app; cbn [length crlf]; lia). cbn [negb].
    unfold find_from. rewrite drop_app_length, <- !app_assoc, (find_line_end l) by done. cbn [fmap option_fmap option_map].
    replace (_ <? length pre + length l)%nat with false
      by (symmetry; apply Nat.ltb_ge; rewrite !length_app; cbn [length crlf]; lia).
    replace (length pre + length l - length pre)%nat with (length l) by lia.
    replace (substr (pre ++ l ++ crlf ++ ls ++ crlf ++ k) (length pre) (length l)) with l
      by (unfold substr; by rewrite drop_app_length, take_app_length).
    rewrite Hcol. destruct (length nv.1) as [|n] eqn:Hn.
    { destruct Hnv as [Hne _ _ _ _]. by destruct nv.1. }
    rewrite Hname, Hval. destruct Hnv as [Hne _ _ [Hv1 Hv2] _].
    rewrite bool_decide_eq_false_2, !contains_char_false by done. cbn [orb].
    unfold add_header. rewrite (Hm nv.1) by left.
    replace (length pre + length l + 2)%nat with (length (pre ++ l ++ crlf))
      by (rewrite !length_app; cbn [length crlf]; lia).
    specialize (IH fuel (pre ++ l ++ crlf) (<[nv.1 := nv.2]> m) Hok Hnd).
    rewrite <- !app_assoc in IH. fold ls in IH. rewrite IH; [done| |lia].
    intros n' Hn'. rewrite lookup_insert_ne by (intros He; apply Hnin; by rewrite He). apply Hm. by right.
Qed.

Lemma foldl_insert (hs : list (bytes * bytes)) (m : gmap bytes bytes) :
  NoDup hs.*1 -> foldl (fun m nv => <[nv.1 := nv.2]> m) m hs = list_to_map hs ∪ m.
Proof.
  revert m. induction hs as [|[n v] hs IH]; intros m Hnd; cbn.
  - by rewrite (left_id_L ∅ (∪)).
  - cbn in Hnd. apply NoDup_cons in Hnd as [Hn Hnd]. rewrite IH by done.
    rewrite <- insert_union_r by (by apply not_elem_of_list_to_map_1).
    by rewrite insert_union_l.
Qed.

(** ** The request line *)

Definition request_target (t : http_text) : bytes :=
  t_path t ++ (if bool_decide (t_query t = []) then [] else B "?" ++ t_query t).

Lemma request_line_eq t :
  request_line t = t_method t ++ x20 :: request_target t ++ x20 :: B "HTTP/1.1".
Proof. unfold request_line, request_target. by rewrite <- app_assoc. Qed.

Lemma request_target_chars t : text_ok t -> (x20 ∉ request_target t) /\ (CR ∉ request_target t).
Proof.
  intros [_ (_ & Hp1 & Hp2 & _) [Hq1 Hq2] _ _ _]. unfold request_target.
  case_bool_decide; rewrite !not_elem_of_app; split; (split; [done|]);
    try apply not_elem_of_nil; split; try done; by apply (bool_decide_unpack _).
Qed.

Lemma request_line_ok t : text_ok t -> line_ok (request_line t).
Proof.
  intros Hok. destruct (request_target_chars t Hok) as [_ Ht].
  destruct (ok_method t Hok) as (Hne & _ & Hm). rewrite request_line_eq. split.
  - by destruct (t_method t).
  - rewrite not_elem_of_app, not_elem_of_cons, not_elem_of_app, not_elem_of_cons.
    split_and!; try done. by apply (bool_decide_unpack _).
Qed.

(** The two spaces, the target and the version. *)
Lemma request_line_parse t :
  text_ok t ->
  let rl := request_line t in
  let me := length (t_method t) in
  let pe := (me + 1 + length (request_target t))%nat in
  find_char x20 rl = Some me /\ find_char_from x20 rl (me + 1) = Some pe /\
  me <> 0%nat /\ pe <> (me + 1)%nat /\ substr_from rl (pe + 1) = B "HTTP/1.1" /\
  substr rl 0 me = t_method t /\ substr rl (me + 1) (pe - me - 1) = request_target t.
Proof.
  intros Hok rl me pe. destruct (request_target_chars t Hok) as [Hsp _].
  destruct (ok_method t Hok) as (Hne & Hm & _). destruct (ok_path t Hok) as (Hpne & _).
  unfold rl. rewrite request_line_eq.
  assert (Hd : forall (a b : bytes) c, drop (length a + 1) (a ++ c :: b) = b).
  { intros a b c. rewrite cons_middle, app_assoc.
    replace (length a + 1)%nat with (length (a ++ [c])) by (rewrite length_app; done).
    apply drop_app_length. }
  split_and!.
  - by apply find_char_app.
  - unfold find_char_from, find_from, pe, me. rewrite Hd.
    change (find [x20]) with (find_char x20). rewrite find_char_app by done. done.
  - unfold me. by destruct (t_method t).
  - unfold pe, request_target. rewrite length_app. destruct (t_path t); [done|]. cbn. lia.
  - unfold substr_from. replace (pe + 1)%nat with
      (length (t_method t ++ x20 :: request_target t) + 1)%nat
      by (rewrite length_app; cbn [length]; unfold pe, me; lia).
    replace (t_method t ++ x20 :: request_target t ++ x20 :: B "HTTP/1.1") with
      ((t_method t ++ x20 :: request_target t) ++ x20 :: B "HTTP/1.1") by (by rewrite <- app_assoc).
    apply Hd.
  - unfold substr, me. by rewrite drop_0, take_app_length.
  - unfold substr, me. rewrite Hd. replace (pe - _ - 1)%nat with (length (request_target t)) by (unfold pe, me; lia).
    apply take_app_length.
Qed.

Lemma request_target_parse t :
  text_ok t ->
  match find_char x3f (request_target t) with
  | Some i => substr (request_target t) 0 i = t_path t /\ substr_from (request_target t) (i + 1) = t_query t
  | None => request_target t = t_path t /\ t_query t = []
  end.
Proof.
  intros Hok. destruct (ok_path t Hok) as (_ & _ & _ & Hq). unfold request_target.
  case_bool_decide as Hempty.
  - rewrite app_nil_r, find_char_None by done. done.
  - change (B "?" ++ t_query t) with (x3f :: t_query t). rewrite find_char_app by done.
    unfold substr, substr_from. rewrite drop_0, take_app_length. split; [done|].
    rewrite cons_middle, app_assoc.
    replace (length (t_path t) + 1)%nat with (length (t_path t ++ [x3f])) by (rewrite length_app; done).
    apply drop_app_length.
Qed.

(** ** Parsing the text *)

Lemma all_headers_ok t : text_ok t -> Forall header_ok (all_headers t).
Proof.
  intros Hok. apply Forall_app_2; [apply Hok|]. apply Forall_singleton.
  rewrite to_string_decimal by lia. destruct (decimal_spec (zlen (t_body t))) as (_ & Hd & _ & _); [lia|].
  assert (Hdigit : forall c, c ∈ decimal (zlen (t_body t)) -> is_digit c = true) by (by apply Forall_forall).
  split; cbn [fst snd].
  - done.
  - by vm_compute.
  - split; by apply (bool_decide_unpack _).
  - split; intros Hin%Hdigit; by vm_compute in Hin.
  - assert (Hnb : Forall (fun c => is_blank c = false) (decimal (zlen (t_body t)))).
    { eapply Forall_impl; [exact Hd|]. intros c Hc. unfold is_blank.
      rewrite !bool_decide_eq_false_2; [done|intros ->; by vm_compute in Hc..]. }
    assert (Hdw : forall l, Forall (fun c => is_blank c = false) l -> drop_while is_blank l = l).
    { intros l [|c l' Hc _]; cbn; [done|]. by rewrite Hc. }
    unfold trim. rewrite (Hdw _ Hnb), Hdw; [apply reverse_involutive|]. by apply Forall_reverse.
Qed.

Lemma all_headers_names t : text_ok t -> NoDup (all_headers t).*1.
Proof.
  intros Hok. unfold all_headers. rewrite fmap_app. apply NoDup_app. split_and!; [apply Hok| |].
  - intros n Hn Hc%list_elem_of_singleton. subst n. by apply (proj1 (ok_reserved t Hok)).
  - apply NoDup_singleton.
Qed.

(** The request [parse_headers] leaves when it reads a rendered text. *)
Definition text_request (t : http_text) (b : bytes) : HttpRequest :=
  mkRequest (t_method t) (t_path t) (t_query t) (list_to_map (all_headers t)) b.

Lemma text_headers_lookup t :
  text_ok t ->
  (list_to_map (all_headers t) : gmap bytes bytes) !! transfer_encoding_name = None /\
  (list_to_map (all_headers t) : gmap bytes bytes) !! content_length_name =
  Some (to_string (zlen (t_body t))).
Proof.
  intros Hok. destruct (ok_reserved t Hok) as [Hcl Hte]. split.
  - apply not_elem_of_list_to_map_1. unfold all_headers. rewrite fmap_app, not_elem_of_app.
    split; [done|]. by apply (bool_decide_unpack _).
  - apply elem_of_list_to_map_1; [by apply all_headers_names|].
    apply elem_of_app. right. by left.
Qed.

Lemma parse_headers_render mh mb t :
  text_ok t -> zlen (t_body t) <= mb -> zlen (t_body t) <= u64_max ->
  let block_length := length (block (request_line t :: (header_line <$> all_headers t))) in
  parse_headers (block_length - 2) (set_buffer (render t) (new_parser mh mb)) =
  (Incomplete, set_content_length (zlen (t_body t))
     (set_request (text_request t []) (set_buffer (render t) (new_parser mh mb)))).
Proof.
  intros Hok Hmb Hmax bl. set (rl := request_line t). set (hb := block (header_line <$> all_headers t)).
  assert (Hbl : bl = (length rl + 2 + length hb)%nat).
  { unfold bl. rewrite block_cons, !length_app. fold rl hb. cbn [length crlf]. lia. }
  assert (Hrender : render t = rl ++ crlf ++ hb ++ crlf ++ t_body t).
  { unfold render. rewrite block_cons, <- !app_assoc. done. }
  assert (Hhb : (2 < length hb)%nat).
  { unfold hb, all_headers. rewrite fmap_app. unfold block. rewrite fmap_app, concat_app, length_app.
    cbn [fmap list_fmap concat]. rewrite !length_app. cbn. lia. }
  destruct (request_line_ok t Hok) as [_ Hcr].
  destruct (request_line_parse t Hok) as (Hme & Hpe & Hme0 & Hpe0 & Hver & Hmeth & Htgt).
  pose proof (request_target_parse t Hok) as Hq. destruct (ok_path t Hok) as (Hpne & _).
  fold rl in Hme, Hpe, Hver, Hmeth, Htgt, Hcr.
  unfold parse_headers. cbn [buffer set_buffer]. rewrite Hrender.
  rewrite find_line_end by done.
  replace (bl - 2 <=? length rl)%nat with false by (symmetry; apply Nat.leb_gt; lia).
  rewrite take_app_length, Hme, Hpe.
  rewrite (proj2 (Nat.eqb_neq _ _) Hme0), (proj2 (Nat.eqb_neq _ _) Hpe0). cbn [orb].
  rewrite Hver, Hmeth, Htgt. cbn [negb andb]. rewrite (bool_decide_eq_true_2 (B "HTTP/1.1" = B "HTTP/1.1")) by done.
  rewrite andb_false_r.
  assert (Hloop : header_loop (bl - 2) (rl ++ crlf ++ hb ++ crlf ++ t_body t) (bl - 2) (length rl + 2) ∅ =
                  (None, list_to_map (all_headers t))).
  { pose proof (header_loop_lines (all_headers t) (bl - 2) (rl ++ crlf) (t_body t) ∅
      (all_headers_ok t Hok) (all_headers_names t Hok)) as H. fold hb in H.
    rewrite foldl_insert, (right_id_L ∅ (∪)) in H by (by apply all_headers_names).
    rewrite <- !app_assoc in H. rewrite !length_app in H. cbn [length crlf] in H.
    replace (length rl + (2 + length hb) - 2)%nat with (bl - 2)%nat in H by lia.
    apply H; [|lia]. intros n _. apply lookup_empty. }
  destruct (text_headers_lookup t Hok) as [Hte Hcl].
  assert (Hcheck : forall p, max_body_bytes p = mb -> headers (parsed_request p) = list_to_map (all_headers t) ->
            check_length p = (Incomplete, set_content_length (zlen (t_body t)) p)).
  { intros p Hp Hh. unfold check_length. rewrite Hh, Hte, Hcl, from_chars_to_string by lia. cbn [parsed ptr].
    rewrite Nat.eqb_refl, Hp. by replace (mb <? zlen (t_body t)) with false by lia. }
  destruct (find_char x3f (request_target t)) as [i|]; destruct Hq as [Hq1 Hq2];
    rewrite Hq1; rewrite bool_decide_eq_false_2 by done;
    cbn [buffer set_buffer set_request parsed_request headers set_path set_method set_query empty_request new_parser];
    rewrite Hloop, Hcheck by done; rewrite ?Hq2; unfold text_request; rewrite ?Hq2; done.
Qed.

(** ** Feeding the text in pieces *)

Lemma render_parsed mh mb t chunks :
  text_ok t -> 0 <= mb -> mh + mb <= u64_max -> zlen (t_body t) <= mb ->
  zlen (render t) - zlen (t_body t) <= mh -> concat chunks = render t ->
  let '(st, p) := feed_all chunks Incomplete (new_parser mh mb) in
  st = Complete /\ request p = text_request t (t_body t) /\ error p = [].
Proof.
  intros Hok Hmb Hmax Hbody Hhead Hc.
  assert (Hlen : zlen (render t) = zlen (block (request_line t :: (header_line <$> all_headers t))) + 2 + zlen (t_body t)).
  { unfold render. rewrite !length_app. cbn [length crlf]. lia. }
  destruct (feed_all_concat mh mb ltac:(lia) Hmb Hmax chunks) as [H1 [H2 _]]; [rewrite Hc; lia|].
  rewrite Hc, (feed_fresh mh mb ltac:(lia) Hmb Hmax) in H1, H2 by lia.
  rewrite feed_body_fresh in H1, H2.
  assert (Hfind : find header_separator (render t) =
    Some (length (block (request_line t :: (header_line <$> all_headers t))) - 2)%nat).
  { apply find_block. apply Forall_cons. split; [by apply request_line_ok|].
    apply Forall_fmap. eapply Forall_impl; [by apply all_headers_ok|]. by apply header_line_ok. }
  assert (Hbl : (2 <= length (block (request_line t :: (header_line <$> all_headers t))))%nat).
  { rewrite block_cons, !length_app. cbn [length crlf]. lia. }
  pose proof (parse_headers_render mh mb t Hok Hbody ltac:(lia)) as Hph. cbv zeta in Hph.
  rewrite Hfind in H1, H2. set (bl := length (block _)) in *.
  assert (Hsep : (mh <? Z.of_nat (bl - 2) + 4) = false) by (clear -Hhead Hlen Hbl; clearbody bl; apply Z.ltb_ge; lia).
  rewrite Hsep, Hph in H1, H2.
  unfold take_body in H1, H2. cbn [buffer set_buffer set_headers_parsed content_length set_content_length
    set_request] in H1, H2.
  assert (Hd : drop (bl - 2 + 4) (render t) = t_body t).
  { replace (bl - 2 + 4)%nat with (length (block (request_line t :: (header_line <$> all_headers t)) ++ crlf))
      by (rewrite length_app; cbn [length crlf]; lia).
    unfold render. rewrite app_assoc. apply drop_app_length. }
  rewrite Hd, Z.ltb_irrefl, Nat2Z.id, take_ge in H1, H2 by lia.
  destruct (feed_all _ _ _) as [st p]. cbn in H1, H2. destruct p. cbn in *. by simplify_eq.
Qed.

(** The same with bytes after the text, which a finished parser ignores. *)
Lemma render_then_more mh mb t extra chunks :
  text_ok t -> 0 <= mb -> zlen (t_body t) <= mb -> zlen (render t) - zlen (t_body t) <= mh ->
  zlen (render t ++ extra) <= mh + mb -> mh + mb <= u64_max -> concat chunks = render t ++ extra ->
  let p := (feed_all chunks Incomplete (new_parser mh mb)).2 in
  complete p = true /\ request p = text_request t (t_body t) /\ error p = [].
Proof.
  intros Hok Hmb Hbody Hhead Hlen Hmax Hc.
  assert (Hr : zlen (render t ++ extra) = zlen (render t) + zlen extra) by (rewrite length_app; lia).
  assert (Hbr : zlen (t_body t) <= zlen (render t)).
  { unfold render. rewrite !length_app. lia. }
  assert (Hmh : 0 <= mh) by lia.
  destruct (feed_all_concat mh mb Hmh Hmb Hmax chunks) as [_ [H1 _]]; [rewrite Hc; lia|].
  destruct (feed_all_concat mh mb Hmh Hmb Hmax [render t; extra]) as [_ [H2 _]];
    [cbn [concat]; rewrite app_nil_r; lia|].
  pose proof (render_parsed mh mb t [render t] Hok Hmb Hmax Hbody Hhead ltac:(cbn; by rewrite app_nil_r)) as H3.
  cbn [feed_all concat] in H2, H3. rewrite app_nil_r in H2. rewrite Hc in H1. rewrite <- H1 in H2.
  pose proof (feed_status (render t) (new_parser mh mb)) as H4.
  destruct (feed (render t) (new_parser mh mb)) as [st q]. destruct H3 as (-> & Hreq & Herr).
  destruct H4 as [H4 _]. specialize (H4 eq_refl).
  rewrite feed_finished in H2 by (unfold finished; by rewrite H4). cbn [snd] in H2. clear H1 Hc.
  destruct (feed_all chunks _ _) as [st' p], p, q. cbn in *. by simplify_eq.
Qed.
