(* ===== verification/HttpTheorems.v ===== *)
(** * HttpTheorems: the properties of the request parser

    Chunk independence, the round trip from the text of a request, the framing
    and size invariant, and the treatment of a request without header lines. *)
From stdpp Require Import base gmap list numbers strings.
From Stdlib Require Import Strings.Byte.
From S2P Require Import Prelude Text HttpParser HttpChunks HttpRender.

Local Open Scope Z_scope.


Definition demo_chunks : list bytes := [B "GET / HT"; B "TP/1.1" ++ crlf; B "a: b" ++ header_separator].


(** C23: a well-formed request, written as a client writes it and delivered in any
    pieces, is parsed completely and to exactly its method, path, query, headers
    and body, provided it respects the two size limits. *)
Theorem render_parse_roundtrip mh mb t chunks :
  text_ok t -> 0 <= mb -> mh + mb <= u64_max -> zlen (t_body t) <= mb ->
  zlen (render t) - zlen (t_body t) <= mh -> concat chunks = render t ->
  let '(st, p) := feed_all chunks Incomplete (new_parser mh mb) in
  st = Complete /\ request p = text_request t (t_body t) /\ error p = [].
Proof. intros. by apply render_parsed. Qed.

(** ** A concrete request *)

Definition demo_request : http_text :=
  mkText (B "POST") (B "/publish") (B "source=van7") [(B "host", B "localhost")] (B "hello").

Lemma demo_request_ok : text_ok demo_request.
Proof.
  split; cbn [t_method t_path t_query t_headers demo_request].
  - split_and!; [done|by apply (bool_decide_unpack _)..].
  - split_and!; [done|by apply (bool_decide_unpack _)..].
  - split_and!; by apply (bool_decide_unpack _).
  - apply Forall_singleton. split; cbn [fst snd].
    + done.
    + by vm_compute.
    + split; by apply (bool_decide_unpack _).
    + split; by apply (bool_decide_unpack _).
    + by vm_compute.
  - apply NoDup_singleton.
  - split; by apply (bool_decide_unpack _).
Qed.

Lemma render_parse_witness :
  request (snd (feed_all [take 30 (render demo_request); drop 30 (render demo_request)] Incomplete
             (new_parser 16384 1048576))) = text_request demo_request (B "hello").
Proof.
  pose proof (render_parse_roundtrip 16384 1048576 demo_request
    [take 30 (render demo_request); drop 30 (render demo_request)] demo_request_ok) as H.
  destruct (feed_all _ _ _) as [st p]. cbn [snd]. apply H.
  - lia.
  - unfold u64_max, u64_modulus. lia.
  - vm_compute. discriminate.
  - vm_compute. discriminate.
  - cbn [concat]. rewrite app_nil_r. apply take_drop.
Defined.

(** ** Framing and sizes *)

(** The header map and the expected body length agree. *)
Definition framed (p : HTTPParser) : Prop :=
  headers (parsed_request p) !! transfer_encoding_name = None /\
  match headers (parsed_request p) !! content_length_name with
  | None => content_length p = 0
  | Some v => from_chars v = {| ec := errc_ok; ptr := length v; parsed := Some (content_length p) |}
  end.

Record parser_inv (p : HTTPParser) : Prop := {
  pi_buffer : zlen (buffer p) <= max_header_bytes p + max_body_bytes p;
  pi_length : 0 <= content_length p <= max_body_bytes p;
  pi_start : finished p = false -> headers_parsed p = false ->
             headers (parsed_request p) = ∅ /\ content_length p = 0;
  pi_headers : finished p = false -> headers_parsed p = true -> framed p;
  pi_complete : complete p = true ->
                framed p /\ zlen (body (parsed_request p)) = content_length p
}.

(** [check_length] accepts a header map only with an agreed length. *)
Lemma check_length_framed p :
  content_length p = 0 -> 0 <= max_body_bytes p ->
  let '(st, p') := check_length p in
  0 <= content_length p' <= max_body_bytes p' /\ (st <> Error -> framed p').
Proof.
  intros Hc Hm. unfold check_length, fail.
  destruct (headers (parsed_request p) !! transfer_encoding_name) eqn:Hte; [cbn; split; [lia|done]|].
  destruct (headers (parsed_request p) !! content_length_name) as [v|] eqn:Hcl.
  2:{ split; [lia|]. intros _. unfold framed. by rewrite Hte, Hcl. }
  destruct (parsed (from_chars v)) as [n|] eqn:Hp; [|cbn; split; [lia|done]].
  destruct (Nat.eqb_spec (ptr (from_chars v)) (length v)) as [Hl|]; cbn [negb]; [|cbn; split; [lia|done]].
  assert (Hn : 0 <= n).
  { unfold from_chars in Hp. destruct (take_while is_digit v) eqn:Hd; [done|].
    destruct (_ <? _); [done|]. injection Hp as <-.
    pose proof (take_while_Forall is_digit v) as Hall. rewrite Hd in Hall. by apply decimal_value_range in Hall as [? _]. }
  destruct (Z.ltb_spec (max_body_bytes p) n); [cbn; split; [lia|done]|].
  cbn. split; [lia|]. intros _. unfold framed. cbn [parsed_request set_content_length content_length]. rewrite Hte, Hcl. split; [done|].
  unfold from_chars in *. destruct (take_while is_digit v); [done|]. destruct (_ <? _); [done|].
  cbn in *. congruence.
Qed.

Lemma parse_headers_framed i p :
  content_length p = 0 -> 0 <= max_body_bytes p ->
  let '(st, p') := parse_headers i p in
  0 <= content_length p' <= max_body_bytes p' /\ (st <> Error -> framed p').
Proof.
  intros Hc Hm.
  assert (Hfail : forall q msg, content_length q = 0 -> 0 <= max_body_bytes q ->
    let '(st, p') := fail msg q in
    0 <= content_length p' <= max_body_bytes p' /\ (st <> Error -> framed p')).
  { intros q msg Hq1 Hq2. cbn. split; [lia|done]. }
  unfold parse_headers.
  destruct (find crlf (buffer p)) as [j|]; [|by apply Hfail].
  destruct (i <=? j)%nat; [by apply Hfail|]. cbv zeta.
  destruct (find_char x20 _) as [me|]; [|by apply Hfail].
  destruct (find_char_from x20 _ _) as [pe|]; [|by apply Hfail].
  destruct (_ || _)%bool; [by apply Hfail|]. destruct (_ && _)%bool; [by apply Hfail|].
  destruct (bool_decide _); [by apply Hfail|].
  destruct (find_char x3f _) as [qs|]; destruct (header_loop _ _ _ _ _) as [[msg|] m];
    (by apply Hfail) || (by apply check_length_framed).
Qed.

Lemma take_body_inv p :
  zlen (buffer p) <= max_header_bytes p + max_body_bytes p ->
  0 <= content_length p <= max_body_bytes p -> headers_parsed p = true -> framed p ->
  finished p = false -> parser_inv (take_body p).2.
Proof.
  intros Hb Hl Hp Hf Hfin. apply orb_false_iff in Hfin as [Hcomp _]. unfold take_body.
  destruct (Z.ltb_spec (zlen (buffer p)) (content_length p)) as [Hs|Hs]; cbn [snd].
  - split; try done; congruence.
  - split; try done. intros _. split; [exact Hf|]. cbn. rewrite length_take. lia.
Qed.

Lemma failed_inv p :
  zlen (buffer p) <= max_header_bytes p + max_body_bytes p ->
  0 <= content_length p <= max_body_bytes p -> complete p = false -> parse_error p <> [] ->
  parser_inv p.
Proof.
  intros Hb Hl Hc He. assert (finished p = true).
  { unfold finished. by rewrite Hc, bool_decide_eq_false_2. }
  split; congruence.
Qed.

(** The part of [feed] after the size check. *)
Lemma feed_body_inv p :
  let mh := max_header_bytes p in
  0 <= mh -> 0 <= max_body_bytes p -> finished p = false ->
  zlen (buffer p) <= mh + max_body_bytes p -> 0 <= content_length p <= max_body_bytes p ->
  (headers_parsed p = false -> content_length p = 0 /\ headers (parsed_request p) = ∅) ->
  (headers_parsed p = true -> framed p) ->
  let '(st, p') := feed_body mh p in
  parser_inv p' /\ max_header_bytes p' = mh /\ max_body_bytes p' = max_body_bytes p /\
  (st = Complete <-> complete p' = true) /\ (st = Error -> error p' <> []).
Proof.
  intros mh Hh Hb Hfin Hbuf Hcl Hstart Hframed. pose proof Hfin as [Hcomp Herr]%orb_false_iff.
  assert (Hfail : forall msg, msg <> [] -> let '(st, p') := fail msg p in
    parser_inv p' /\ max_header_bytes p' = mh /\ max_body_bytes p' = max_body_bytes p /\
    (st = Complete <-> complete p' = true) /\ (st = Error -> error p' <> [])).
  { intros msg Hmsg. cbn. split_and!; try done; [by apply failed_inv|by rewrite Hcomp]. }
  assert (Hbody : forall q, max_header_bytes q = mh -> max_body_bytes q = max_body_bytes p ->
    zlen (buffer q) <= zlen (buffer p) -> 0 <= content_length q <= max_body_bytes p ->
    headers_parsed q = true -> framed q -> finished q = false ->
    let '(st, p') := take_body q in
    parser_inv p' /\ max_header_bytes p' = mh /\ max_body_bytes p' = max_body_bytes p /\
    (st = Complete <-> complete p' = true) /\ (st = Error -> error p' <> [])).
  { intros q Q1 Q2 Q3 Q4 Q5 Q6 Q7. pose proof (take_body_inv q ltac:(lia) ltac:(lia) Q5 Q6 Q7) as Hi.
    apply orb_false_iff in Q7 as [Q7 _].
    unfold take_body in *. destruct (_ <? _); cbn [snd] in Hi; split_and!; try done. by rewrite Q7. }
  unfold feed_body. destruct (headers_parsed p) eqn:Hp; cbn [negb]; [by apply Hbody; auto|].
  destruct (find header_separator (buffer p)) as [i|].
  2:{ destruct (_ <? _); [by apply Hfail|]. split_and!; try done; [|by rewrite Hcomp].
      destruct (Hstart eq_refl). split; try done; congruence. }
  destruct (_ <? _); [by apply Hfail|]. destruct (Hstart eq_refl) as [Hc0 _].
  pose proof (parse_headers_frame i p) as Hfr. pose proof (parse_headers_framed i p Hc0 Hb) as Hfd.
  destruct (parse_headers i p) as [st p1]. destruct Hfr as [F1 F2 F3 F4 F5 F6 F7], Hfd as [G1 G2].
  destruct (decide (st = Error)) as [->|Hst].
  - split_and!; try done; [|by rewrite F4, Hcomp].
    apply failed_inv; rewrite ?F1, ?F2, ?F3, ?F4; auto. lia.
  - destruct (F7 Hst) as [-> F8]. apply Hbody; auto.
    + cbn [buffer set_buffer]. rewrite F3, length_drop. lia.
    + cbn [content_length set_buffer set_headers_parsed]. lia.
    + unfold finished. cbn. by rewrite F4, F8, Hcomp.
Qed.

(** C33: whatever bytes arrive, in whatever pieces, the parser never holds more
    than the two limits together, never expects more body than the body limit,
    and a request it completes has no [Transfer-Encoding], a [Content-Length]
    that is a complete decimal number when present, and a body of exactly that
    length (none without the header). *)
Theorem feed_keeps_parser_inv c p :
  0 <= max_header_bytes p -> 0 <= max_body_bytes p ->
  max_header_bytes p + max_body_bytes p <= u64_max -> parser_inv p ->
  let '(st, p') := feed c p in
  parser_inv p' /\ max_header_bytes p' = max_header_bytes p /\ max_body_bytes p' = max_body_bytes p /\
  (st = Complete <-> complete p' = true) /\ (st = Error -> error p' <> []).
Proof.
  intros Hh Hb Hmax Hinv. destruct (finished p) eqn:Hfin.
  - rewrite feed_finished by done. split_and!; try done; destruct (complete p) eqn:Hc; try done.
    intros _. unfold finished in Hfin. rewrite Hc in Hfin. cbn in Hfin.
    by apply negb_true_iff, bool_decide_eq_false in Hfin.
  - pose proof Hinv as [Hbuf Hlen Hstart Hhdr _]. pose proof Hfin as [Hcomp _]%orb_false_iff.
    set (mh := max_header_bytes p) in *. set (mb := max_body_bytes p) in *.
    destruct (Z.leb_spec (zlen (buffer p) + zlen c) (mh + mb)) as [Hfit|Hbig].
    + rewrite (feed_within mh mb) by done.
      apply (feed_body_inv (set_buffer (buffer p ++ c) p)); try done.
      * cbn [buffer set_buffer max_body_bytes max_header_bytes]. rewrite length_app. fold mh mb. lia.
      * intros Hp. by destruct (Hstart Hfin Hp).
      * intros Hp. by apply Hhdr.
    + unfold feed. fold (finished p). rewrite Hfin. fold mh mb. cbv zeta.
      rewrite u64_add_small, u64_sub_small by width.
      replace (mh + mb - zlen (buffer p) <? zlen c) with true by lia. rewrite orb_true_r.
      split_and!; try done; [|cbn; by rewrite Hcomp]. by apply failed_inv.
Qed.

Lemma parser_inv_new mh mb : 0 <= mh -> 0 <= mb -> parser_inv (new_parser mh mb).
Proof. intros. split; cbn; try done; lia. Qed.

Lemma feed_inv_witness : parser_inv (snd (feed (B "POST / HTTP/1.1") (new_parser 64 16))).
Proof.
  pose proof (feed_keeps_parser_inv (B "POST / HTTP/1.1") (new_parser 64 16)) as H.
  destruct (feed _ _) as [st p]. cbn [snd].
  apply H; [cbn; lia|cbn; lia|unfold u64_max, u64_modulus; cbn; lia|apply parser_inv_new; lia].
Defined.

(** A request line that is complete but followed by no header line at all is
    rejected as a missing request line: the end of the request line and the end
    of the header block are then the same position. *)
Theorem request_without_headers_rejected mh mb line :
  CR ∉ line -> zlen line + 4 <= mh -> 0 <= mb -> mh + mb <= u64_max ->
  let '(st, p) := feed (line ++ header_separator) (new_parser mh mb) in
  st = Error /\ error p = B "missing request line".
Proof.
  intros Hcr Hh Hb Hmax. assert (Hlen : zlen (line ++ header_separator) = zlen line + 4).
  { rewrite length_app. cbn [length header_separator]. lia. }
  rewrite (feed_fresh mh mb ltac:(lia) Hb Hmax) by lia. rewrite feed_body_fresh.
  assert (Hsep : find header_separator (line ++ header_separator) = Some (length line)).
  { unfold header_separator at 1. rewrite find_skip by done. fold header_separator.
    rewrite <- (app_nil_r header_separator) at 2. rewrite find_here. cbn. f_equal. lia. }
  rewrite Hsep. replace (mh <? Z.of_nat (length line) + 4) with false by lia.
  unfold parse_headers. cbn [buffer set_buffer].
  change header_separator with (crlf ++ crlf). rewrite find_line_end by done.
  rewrite Nat.leb_refl. done.
Qed.

Lemma request_without_headers_witness :
  error (snd (feed (B "GET / HTTP/1.0" ++ header_separator) (new_parser 64 16))) = B "missing request line".
Proof.
  pose proof (request_without_headers_rejected 64 16 (B "GET / HTTP/1.0")) as H.
  destruct (feed _ _) as [st p]. cbn [snd].
  apply H; [by apply (bool_decide_unpack _)|cbn; lia|lia|unfold u64_max, u64_modulus; lia].
Defined.
