(* ===== verification/Double.v ===== *)
(** * Double: IEEE-754 binary64 arithmetic as the rate limiter uses it

    Every finite [double] is an integer multiple of 2^-1074, the smallest
    positive one; [Fin z] is the number [z * 2^-1074].  An operation computes
    the exact result as a fraction of integers and rounds it to nearest, ties to
    even.  The sign of a zero is not represented: the sources never divide by a
    computed value and never print a [double] of this kind. *)
From stdpp Require Import base numbers.
From S2P Require Import Prelude.

Local Open Scope Z_scope.

Inductive double := Fin (z : Z) | Inf (negative : bool) | NaN.
#[export] Instance double_eq_dec : EqDecision double.
Proof. solve_decision. Defined.

Definition unit_bits : Z := 1074.
(** 1.0 and the first power of two that is not finite. *)
Definition one : Z := 2 ^ unit_bits.
Definition overflow_threshold : Z := 2 ^ (1024 + unit_bits).

(** ** Rounding *)

(** The integer nearest to [n / d], the even one of two. *)
Definition nearest_even (n d : Z) : Z :=
  let q := n / d in
  let r := n mod d in
  if 2 * r <? d then q else if d <? 2 * r then q + 1 else if Z.even q then q else q + 1.

(** The exponent of the last of the 53 bits kept for [n / d >= 0], in units. *)
Definition ulp_exponent (n d : Z) : Z := Z.max 0 (Z.log2 (n / d) - 52).

Definition round_nonneg (n d : Z) : Z :=
  let e := ulp_exponent n d in nearest_even n (d * 2 ^ e) * 2 ^ e.

Definition round (n d : Z) : Z := if n <? 0 then - round_nonneg (- n) d else round_nonneg n d.

Definition rounded (n d : Z) : double :=
  let z := round n d in
  if overflow_threshold <=? Z.abs z then Inf (z <? 0) else Fin z.

(** ** Operations *)

(** Conversion from an integer type. *)
Definition double_of_Z (n : Z) : double := rounded (n * one) 1.

Definition dneg (a : double) : double :=
  match a with Fin z => Fin (- z) | Inf s => Inf (negb s) | NaN => NaN end.

Definition dadd (a b : double) : double :=
  match a, b with
  | NaN, _ | _, NaN => NaN
  | Inf s, Inf s' => if Bool.eqb s s' then Inf s else NaN
  | Inf s, _ | _, Inf s => Inf s
  | Fin x, Fin y => rounded (x + y) 1
  end.

Definition dsub (a b : double) : double := dadd a (dneg b).

Definition is_negative (a : double) : bool :=
  match a with Fin z => z <? 0 | Inf s => s | NaN => false end.

Definition dmul (a b : double) : double :=
  match a, b with
  | NaN, _ | _, NaN => NaN
  | Fin x, Fin y => rounded (x * y) one
  | Fin x, Inf _ | Inf _, Fin x =>
      if x =? 0 then NaN else Inf (xorb (is_negative a) (is_negative b))
  | Inf s, Inf s' => Inf (xorb s s')
  end.

(** Division by a finite divisor that is not zero. *)
Definition ddiv (a : double) (y : Z) : double :=
  match a with
  | NaN => NaN
  | Inf s => Inf (xorb s (y <? 0))
  | Fin x => if y <? 0 then rounded (- x * one) (- y) else rounded (x * one) y
  end.

(** [a < b]: false when one of them is not a number. *)
Definition dlt (a b : double) : bool :=
  match a, b with
  | NaN, _ | _, NaN => false
  | Fin x, Fin y => x <? y
  | Fin _, Inf s => negb s
  | Inf s, Fin _ => s
  | Inf s, Inf s' => s && negb s'
  end.

(** [std::min(a, b)]: [b < a ? b : a]. *)
Definition dmin (a b : double) : double := if dlt b a then b else a.

Example one_is_one : double_of_Z 1 = Fin one.
Proof. vm_compute. reflexivity. Qed.

(** 0.1 + 0.2 is not 0.3. *)
Example decimal_fractions :
  let tenth := ddiv (double_of_Z 1) (10 * one) in
  let fifth := ddiv (double_of_Z 2) (10 * one) in
  let three_tenths := ddiv (double_of_Z 3) (10 * one) in
  dlt three_tenths (dadd tenth fifth) = true.
Proof. vm_compute. reflexivity. Qed.

(** ** Rounding to an integer *)

Lemma nearest_even_exact n d : 0 < d -> n mod d = 0 -> nearest_even n d = n / d.
Proof. intros Hd Hr. unfold nearest_even. rewrite Hr. by replace (2 * 0 <? d) with true by lia. Qed.

Lemma nearest_even_near n d : 0 < d -> n / d <= nearest_even n d <= n / d + 1.
Proof. intros Hd. unfold nearest_even. repeat case_match; lia. Qed.

(** Rounding cannot cross an integer. *)
Lemma nearest_even_le n d k : 0 < d -> n <= k * d -> nearest_even n d <= k.
Proof.
  intros Hd Hk. pose proof (Z.div_mod n d ltac:(lia)) as Hdm.
  pose proof (Z.mod_pos_bound n d Hd) as Hm. pose proof (nearest_even_near n d Hd).
  destruct (decide (n / d + 1 <= k)); [lia|].
  assert (n / d <= k) by (apply Z.div_le_upper_bound; lia). assert (n / d = k) by lia.
  assert (n mod d = 0) by nia. rewrite nearest_even_exact by done. lia.
Qed.

Lemma nearest_even_ge n d k : 0 < d -> k * d <= n -> k <= nearest_even n d.
Proof.
  intros Hd Hk. pose proof (nearest_even_near n d Hd).
  assert (k <= n / d) by (apply Z.div_le_lower_bound; lia). lia.
Qed.

Lemma nearest_even_mono n n' d : 0 < d -> n <= n' -> nearest_even n d <= nearest_even n' d.
Proof.
  intros Hd Hn. pose proof (Z.div_mod n d ltac:(lia)) as H1. pose proof (Z.div_mod n' d ltac:(lia)) as H2.
  pose proof (Z.mod_pos_bound n d Hd). pose proof (Z.mod_pos_bound n' d Hd).
  assert (Hq : n / d <= n' / d) by (apply Z.div_le_mono; lia).
  pose proof (nearest_even_near n d Hd). pose proof (nearest_even_near n' d Hd).
  destruct (decide (n / d = n' / d)) as [E|E]; [|lia].
  unfold nearest_even. rewrite E in *. destruct (Z.even (n' / d)); repeat case_match; nia || lia.
Qed.

(** ** Rounding to 53 bits *)

Lemma pow2_pos e : 0 <= e -> 0 < 2 ^ e.
Proof. intros. apply Z.pow_pos_nonneg; lia. Qed.

Lemma ulp_exponent_nonneg n d : 0 <= ulp_exponent n d.
Proof. unfold ulp_exponent. lia. Qed.

Lemma ulp_exponent_mono n n' d : 0 < d -> 0 <= n <= n' -> ulp_exponent n d <= ulp_exponent n' d.
Proof.
  intros Hd Hn. unfold ulp_exponent. assert (n / d <= n' / d) by (apply Z.div_le_mono; lia).
  assert (Z.log2 (n / d) <= Z.log2 (n' / d)) by (by apply Z.log2_le_mono). lia.
Qed.

Lemma round_nonneg_nonneg n d : 0 < d -> 0 <= n -> 0 <= round_nonneg n d.
Proof.
  intros Hd Hn. unfold round_nonneg. pose proof (ulp_exponent_nonneg n d) as He.
  pose proof (pow2_pos _ He). apply Z.mul_nonneg_nonneg; [|lia]. apply nearest_even_ge; nia.
Qed.

(** The size of the significand: at most 2^53, at least 2^52 unless subnormal. *)
Lemma significand_bounds n d :
  0 < d -> 0 <= n ->
  let e := ulp_exponent n d in
  n < d * 2 ^ (e + 53) /\ (0 < e -> d * 2 ^ (e + 52) <= n).
Proof.
  intros Hd Hn e. unfold e, ulp_exponent. set (q := n / d).
  assert (Hq : 0 <= q) by (apply Z.div_pos; lia).
  pose proof (Z.div_mod n d ltac:(lia)) as Hdm. fold q in Hdm. pose proof (Z.mod_pos_bound n d Hd).
  split.
  - assert (Hlt : q < 2 ^ (Z.max 0 (Z.log2 q - 52) + 53)).
    { destruct (decide (q = 0)) as [->|]; [apply pow2_pos; lia|].
      pose proof (Z.log2_spec q ltac:(lia)) as [_ Hs]. eapply Z.lt_le_trans; [exact Hs|].
      apply Z.pow_le_mono_r; lia. }
    nia.
  - intros He. replace (Z.max 0 (Z.log2 q - 52) + 52) with (Z.log2 q) by lia.
    assert (0 < q) by (destruct (decide (q = 0)) as [E|]; [rewrite E in He; cbn in He; lia|lia]).
    pose proof (Z.log2_spec q ltac:(lia)) as [Hs _]. nia.
Qed.

Lemma round_nonneg_upper n d :
  0 < d -> 0 <= n -> round_nonneg n d <= 2 ^ (ulp_exponent n d + 53).
Proof.
  intros Hd Hn. destruct (significand_bounds n d Hd Hn) as [Hb _]. unfold round_nonneg.
  pose proof (ulp_exponent_nonneg n d) as He. set (e := ulp_exponent n d) in *.
  pose proof (pow2_pos e He). rewrite Z.pow_add_r in * by lia. rewrite (Z.mul_comm (2 ^ e)).
  apply Z.mul_le_mono_nonneg_r; [lia|]. apply nearest_even_le; nia.
Qed.

Lemma round_nonneg_lower n d :
  0 < d -> 0 <= n -> 0 < ulp_exponent n d -> 2 ^ (ulp_exponent n d + 52) <= round_nonneg n d.
Proof.
  intros Hd Hn He. destruct (significand_bounds n d Hd Hn) as [_ Hb]. specialize (Hb He).
  unfold round_nonneg. set (e := ulp_exponent n d) in *. pose proof (pow2_pos e ltac:(lia)).
  rewrite Z.pow_add_r in * by lia. rewrite (Z.mul_comm (2 ^ e)).
  apply Z.mul_le_mono_nonneg_r; [lia|]. apply nearest_even_ge; nia.
Qed.

(** Rounding is monotone. *)
Lemma round_nonneg_mono n n' d :
  0 < d -> 0 <= n <= n' -> round_nonneg n d <= round_nonneg n' d.
Proof.
  intros Hd Hn. pose proof (ulp_exponent_mono n n' d Hd Hn) as Hmono.
  pose proof (ulp_exponent_nonneg n d) as He.
  destruct (decide (ulp_exponent n d = ulp_exponent n' d)) as [E|E].
  - unfold round_nonneg. rewrite <- E. pose proof (pow2_pos _ He).
    apply Z.mul_le_mono_nonneg_r; [lia|]. apply nearest_even_mono; nia.
  - pose proof (round_nonneg_upper n d Hd ltac:(lia)) as H1.
    pose proof (round_nonneg_lower n' d Hd ltac:(lia) ltac:(lia)) as H2.
    assert (2 ^ (ulp_exponent n d + 53) <= 2 ^ (ulp_exponent n' d + 52)) by (apply Z.pow_le_mono_r; lia).
    lia.
Qed.

(** ** Representable numbers *)

(** [z >= 0] units need no rounding: at most 53 significant bits. *)
Definition representable (z : Z) : Prop := (2 ^ ulp_exponent z 1 | z).

Lemma round_representable z : 0 <= z -> representable z -> round_nonneg z 1 = z.
Proof.
  intros Hz [k Hk]. unfold round_nonneg. pose proof (ulp_exponent_nonneg z 1) as He.
  set (e := ulp_exponent z 1) in *. pose proof (pow2_pos e He).
  assert (Hmod : z mod (1 * 2 ^ e) = 0) by (rewrite Hk, Z.mul_1_l; apply Z.mod_mul; lia).
  rewrite nearest_even_exact by lia. rewrite Z.mul_1_l in *.
  pose proof (Z.div_mod z (2 ^ e) ltac:(lia)). lia.
Qed.

Lemma ulp_exponent_scaled m e :
  0 <= e -> 0 <= m < 2 ^ 53 -> ulp_exponent (m * 2 ^ e) 1 <= e.
Proof.
  intros He Hm. unfold ulp_exponent. rewrite Z.div_1_r.
  destruct (decide (m = 0)) as [->|Hm0]; [rewrite Z.mul_0_l; change (Z.log2 0) with 0; lia|].
  rewrite Z.log2_mul_pow2 by lia. assert (Z.log2 m < 53) by (apply Z.log2_lt_pow2; lia). lia.
Qed.

(** A number with 53 significant bits is representable, and so is every result
    of a rounding. *)
Lemma scaled_representable m e : 0 <= e -> 0 <= m <= 2 ^ 53 -> representable (m * 2 ^ e).
Proof.
  intros He Hm. unfold representable. destruct (decide (m = 2 ^ 53)) as [->|Hne].
  - rewrite <- Z.pow_add_r by lia. unfold ulp_exponent. rewrite Z.div_1_r, Z.log2_pow2 by lia.
    exists (2 ^ (53 + e - Z.max 0 (53 + e - 52))). rewrite <- Z.pow_add_r by lia. f_equal. lia.
  - pose proof (ulp_exponent_scaled m e He ltac:(lia)) as Hu.
    pose proof (ulp_exponent_nonneg (m * 2 ^ e) 1). set (u := ulp_exponent (m * 2 ^ e) 1) in *.
    exists (m * 2 ^ (e - u)). rewrite <- Z.mul_assoc, <- Z.pow_add_r by lia. f_equal. f_equal. lia.
Qed.

Lemma round_is_representable n d : 0 < d -> 0 <= n -> representable (round_nonneg n d).
Proof.
  intros Hd Hn. destruct (significand_bounds n d Hd Hn) as [Hb _]. unfold round_nonneg.
  pose proof (ulp_exponent_nonneg n d) as He. set (e := ulp_exponent n d) in *.
  pose proof (pow2_pos e He). rewrite Z.pow_add_r in Hb by lia. apply scaled_representable; [done|]. split.
  - apply nearest_even_ge; nia.
  - apply nearest_even_le; nia.
Qed.

(** Subtracting 1.0 from a number between 1.0 and 2^53 is exact. *)
Lemma sub_one_representable z :
  one <= z < 2 ^ 53 * one -> representable z -> representable (z - one).
Proof.
  intros Hz [k Hk]. unfold representable. set (e := ulp_exponent z 1) in *.
  pose proof (ulp_exponent_nonneg z 1) as He. fold e in He.
  pose proof (pow2_pos unit_bits ltac:(unfold unit_bits; lia)) as Hone. fold one in Hone.
  assert (He' : e <= unit_bits).
  { unfold e, ulp_exponent. rewrite Z.div_1_r. assert (Z.log2 z < 53 + unit_bits).
    { apply Z.log2_lt_pow2; [lia|]. rewrite Z.pow_add_r by (unfold unit_bits; lia). fold one. lia. }
    unfold unit_bits in *. lia. }
  assert (Hle : ulp_exponent (z - one) 1 <= e) by (apply ulp_exponent_mono; lia).
  pose proof (ulp_exponent_nonneg (z - one) 1). set (e1 := ulp_exponent (z - one) 1) in *.
  exists ((k - 2 ^ (unit_bits - e)) * 2 ^ (e - e1)).
  rewrite <- Z.mul_assoc, <- Z.pow_add_r by lia. replace (e - e1 + e1) with e by lia.
  rewrite Z.mul_sub_distr_r, <- Hk, <- Z.pow_add_r by lia.
  by replace (unit_bits - e + e) with unit_bits by lia.
Qed.

(** ** Well-formed numbers and the operations on them *)

(** A finite number that is not negative. *)
Definition finite_nonneg (a : double) : Prop :=
  exists z, a = Fin z /\ 0 <= z < overflow_threshold /\ representable z.

Lemma one_pos : 0 < one.
Proof. apply pow2_pos. unfold unit_bits. lia. Qed.

Lemma rounded_nonneg n d :
  0 < d -> 0 <= n -> rounded n d = Inf false \/ finite_nonneg (rounded n d).
Proof.
  intros Hd Hn. pose proof (round_nonneg_nonneg n d Hd Hn) as Hr.
  unfold rounded, round. replace (n <? 0) with false by lia.
  destruct (Z.leb_spec overflow_threshold (Z.abs (round_nonneg n d))).
  - left. f_equal. lia.
  - right. eexists. split; [done|]. split; [lia|by apply round_is_representable].
Qed.

Lemma rounded_exact z :
  0 <= z < overflow_threshold -> representable z -> rounded z 1 = Fin z.
Proof.
  intros Hz Hr. unfold rounded, round. replace (z <? 0) with false by lia.
  rewrite round_representable by (done || lia).
  by replace (overflow_threshold <=? Z.abs z) with false by lia.
Qed.

(** A quotient far below the overflow threshold stays finite. *)
Lemma rounded_finite n d k :
  0 < d -> 0 <= n -> n <= d * 2 ^ k -> 53 <= k < 2000 ->
  exists z, rounded n d = Fin z /\ 0 <= z < overflow_threshold /\ representable z.
Proof.
  intros Hd Hn Hk Hr. pose proof (round_nonneg_upper n d Hd Hn) as Hu.
  pose proof (round_nonneg_nonneg n d Hd Hn) as Hnn.
  assert (He : ulp_exponent n d <= k).
  { unfold ulp_exponent. assert (n / d <= 2 ^ k) by (apply Z.div_le_upper_bound; lia).
    assert (Z.log2 (n / d) <= Z.log2 (2 ^ k)) by (by apply Z.log2_le_mono).
    rewrite Z.log2_pow2 in * by lia. lia. }
  assert (Hlt : 2 ^ (ulp_exponent n d + 53) < overflow_threshold).
  { apply Z.pow_lt_mono_r; unfold unit_bits; pose proof (ulp_exponent_nonneg n d); lia. }
  exists (round_nonneg n d). unfold rounded, round. replace (n <? 0) with false by lia.
  replace (overflow_threshold <=? Z.abs (round_nonneg n d)) with false by lia.
  split; [done|]. split; [lia|by apply round_is_representable].
Qed.

Lemma rounded_zero d : 0 < d -> rounded 0 d = Fin 0.
Proof.
  intros Hd. unfold rounded, round, round_nonneg, ulp_exponent. cbn [Z.ltb Z.compare].
  rewrite Z.div_0_l by lia. change (Z.max 0 (Z.log2 0 - 52)) with 0. change (2 ^ 0) with 1.
  rewrite !Z.mul_1_r, nearest_even_exact by (lia || (apply Z.mod_0_l; lia)). rewrite Z.div_0_l by lia.
  pose proof (pow2_pos (1024 + unit_bits) ltac:(unfold unit_bits; lia)) as Hp. fold overflow_threshold in Hp.
  by replace (overflow_threshold <=? Z.abs 0) with false by lia.
Qed.
