(* ===== verification/RateLimiter.v ===== *)
(** * RateLimiter: one token bucket per client address

    Models src/src/security/rate_limiter.h and rate_limiter.cpp.  A clock
    reading is a number of nanoseconds.  [check] is modelled twice: as one
    sequential computation, and as the three critical sections it really has
    (the shared lookup, the exclusive insertion, the consumption under the mutex
    of the bucket), which interleave with those of other threads. *)
From stdpp Require Import base gmap list numbers strings.
From Stdlib Require Import Strings.Byte.
From S2P Require Import Prelude Double.

Local Open Scope Z_scope.

(** ** Token bucket *)

Record TokenBucket := mkBucket {
  tb_capacity : double;
  tb_tokens : double;
  tb_refill_rate : double;
  tb_last_refill_time : Z
}.

Definition new_bucket (capacity refill_rate : double) (now : Z) : TokenBucket :=
  mkBucket capacity capacity refill_rate now.

(** [std::chrono::duration<double>] of a difference in nanoseconds. *)
Definition seconds (nanoseconds : Z) : double := ddiv (double_of_Z nanoseconds) (1000000000 * one).

Definition refill (now : Z) (b : TokenBucket) : TokenBucket :=
  let elapsed := seconds (now - tb_last_refill_time b) in
  let tokens := dmin (tb_capacity b) (dadd (tb_tokens b) (dmul elapsed (tb_refill_rate b))) in
  mkBucket (tb_capacity b) tokens (tb_refill_rate b) now.

Definition consume (now : Z) (b : TokenBucket) : bool * TokenBucket :=
  let b := refill now b in
  if dlt (tb_tokens b) (Fin one) then (false, b)
  else (true, mkBucket (tb_capacity b) (dsub (tb_tokens b) (Fin one)) (tb_refill_rate b)
                       (tb_last_refill_time b)).

(** ** Rate limiter *)

(** The map holds pointers to the entries, so an entry is a position in the
    list of all entries created. *)
Record RateLimiter := mkLimiter {
  rl_capacity : double;
  rl_refill_rate : double;
  rl_buckets : gmap bytes nat;
  rl_entries : list TokenBucket
}.

Definition new_limiter (capacity refill_rate : double) : RateLimiter :=
  mkLimiter capacity refill_rate ∅ [].

(** The critical section under the shared lock. *)
Definition find_entry (ip : bytes) (l : RateLimiter) : option nat := rl_buckets l !! ip.

(** The critical section under the exclusive lock: look again, then emplace. *)
Definition insert_entry (ip : bytes) (now : Z) (l : RateLimiter) : nat * RateLimiter :=
  match rl_buckets l !! ip with
  | Some entry => (entry, l)
  | None =>
      let entry := length (rl_entries l) in
      (entry, mkLimiter (rl_capacity l) (rl_refill_rate l) (<[ip := entry]> (rl_buckets l))
                (rl_entries l ++ [new_bucket (rl_capacity l) (rl_refill_rate l) now]))
  end.

(** The critical section under the mutex of the entry. *)
Definition consume_entry (entry : nat) (now : Z) (l : RateLimiter) : option (bool * RateLimiter) :=
  match rl_entries l !! entry with
  | None => None
  | Some b =>
      let '(allowed, b') := consume now b in
      Some (allowed, mkLimiter (rl_capacity l) (rl_refill_rate l) (rl_buckets l)
                       (<[entry := b']> (rl_entries l)))
  end.

(** [check(ip)] of a single thread, with the clock readings of the constructor
    of the bucket and of [consume]. *)
Definition check (ip : bytes) (created now : Z) (l : RateLimiter) : option (bool * RateLimiter) :=
  let '(entry, l) :=
    match find_entry ip l with
    | Some entry => (entry, l)
    | None => insert_entry ip created l
    end in
  consume_entry entry now l.

(** ** Concurrent calls *)

(** Where a call of [check] is. *)
Inductive call :=
| CFind (ip : bytes)
| CInsert (ip : bytes)
| CConsume (ip : bytes) (entry : nat)
| CDone (ip : bytes) (allowed : bool).

Record limiter_state := mkLS {
  ls_limiter : RateLimiter;
  ls_calls : list call;
  ls_now : Z;
  (** The decisions taken so far, in the order they were taken. *)
  ls_decisions : list (bytes * bool)
}.

Definition ls_init (capacity refill_rate : double) (now : Z) : limiter_state :=
  mkLS (new_limiter capacity refill_rate) [] now [].

(** The steady clock counts nanoseconds in 63 bits. *)
Definition clock_max : Z := 2 ^ 63 - 1.

Inductive limiter_step : limiter_state -> limiter_state -> Prop :=
| step_tick s now :
    ls_now s <= now <= clock_max ->
    limiter_step s (mkLS (ls_limiter s) (ls_calls s) now (ls_decisions s))
| step_call s ip :
    limiter_step s (mkLS (ls_limiter s) (ls_calls s ++ [CFind ip]) (ls_now s) (ls_decisions s))
| step_find s i ip :
    ls_calls s !! i = Some (CFind ip) ->
    limiter_step s
      (mkLS (ls_limiter s)
         (<[i := match find_entry ip (ls_limiter s) with
                 | Some entry => CConsume ip entry
                 | None => CInsert ip
                 end]> (ls_calls s))
         (ls_now s) (ls_decisions s))
| step_insert s i ip :
    ls_calls s !! i = Some (CInsert ip) ->
    limiter_step s
      (let '(entry, l) := insert_entry ip (ls_now s) (ls_limiter s) in
       mkLS l (<[i := CConsume ip entry]> (ls_calls s)) (ls_now s) (ls_decisions s))
| step_consume s i ip entry allowed l :
    ls_calls s !! i = Some (CConsume ip entry) ->
    consume_entry entry (ls_now s) (ls_limiter s) = Some (allowed, l) ->
    limiter_step s
      (mkLS l (<[i := CDone ip allowed]> (ls_calls s)) (ls_now s) (ls_decisions s ++ [(ip, allowed)])).

(** ** The scenarios of tests/rate_limiter_test.cpp *)

Module LimiterTests.
Fixpoint consume_at (times : list Z) (b : TokenBucket) : list bool :=
  match times with
  | [] => []
  | t :: times => let '(ok, b) := consume t b in ok :: consume_at times b
  end.

Example burst_and_refill :
  consume_at [0; 0; 0; 100000000; 100000000] (new_bucket (double_of_Z 2) (double_of_Z 10) 0)
  = [true; true; false; true; false].
Proof. vm_compute. reflexivity. Qed.

Example caps_at_capacity :
  consume_at [0; 10000000000; 10000000000; 10000000000]
    (new_bucket (double_of_Z 2) (double_of_Z 10) 0) = [true; true; true; false].
Proof. vm_compute. reflexivity. Qed.

Example no_refill :
  consume_at [0; 3600000000000] (new_bucket (double_of_Z 1) (double_of_Z 0) 0) = [true; false].
Proof. vm_compute. reflexivity. Qed.
End LimiterTests.
