(* ===== verification/RateTheorems.v ===== *)
(** * RateTheorems: the properties of the rate limiter

    The token bucket stays within its capacity under binary64 rounding, admits
    exactly its capacity in a burst, and concurrent calls of [check] act like a
    sequence of consumptions of one bucket per address. *)
From stdpp Require Import base gmap list numbers sorting strings.
From Stdlib Require Import Strings.Byte.
From S2P Require Import Prelude Double RateLimiter.

Local Open Scope Z_scope.

(** ** The bucket *)

Record bucket_inv (b : TokenBucket) : Prop := {
  bi_capacity : finite_nonneg (tb_capacity b);
  bi_rate : finite_nonneg (tb_refill_rate b);
  bi_tokens : finite_nonneg (tb_tokens b);
  bi_bound : dlt (tb_capacity b) (tb_tokens b) = false
}.

Lemma finite_nonneg_of_Z n : 0 <= n <= clock_max -> finite_nonneg (double_of_Z n).
Proof.
  intros Hn. pose proof one_pos. unfold double_of_Z.
  assert (Hone : n * one <= 1 * 2 ^ (63 + unit_bits)).
  { rewrite Z.pow_add_r by (unfold unit_bits; lia). fold one. unfold clock_max in Hn. nia. }
  destruct (rounded_finite (n * one) 1 (63 + unit_bits)) as (z & Hz); [lia|lia|done|unfold unit_bits; lia|].
  by exists z.
Qed.

Lemma seconds_finite n : 0 <= n <= clock_max -> finite_nonneg (seconds n).
Proof.
  intros Hn. pose proof one_pos. unfold seconds.
  assert (Hz : exists z, double_of_Z n = Fin z /\ 0 <= z <= 2 ^ (70 + unit_bits)).
  { pose proof (finite_nonneg_of_Z n Hn) as (z & Hz & [H0 _] & _). exists z. split; [done|]. split; [done|].
    unfold double_of_Z, rounded, round in Hz. replace (n * one <? 0) with false in Hz by lia.
    destruct (overflow_threshold <=? _); [done|]. injection Hz as <-.
    assert (Hle : round_nonneg (n * one) 1 <= round_nonneg (2 ^ 63 * one) 1).
    { apply round_nonneg_mono; [lia|]. unfold clock_max in Hn. nia. }
    rewrite (round_representable (2 ^ 63 * one)) in Hle; [|lia|].
    - etransitivity; [exact Hle|]. rewrite (Z.pow_add_r 2 70) by (unfold unit_bits; lia). fold one. lia.
    - unfold one. rewrite <- Z.pow_add_r, <- (Z.mul_1_l (2 ^ (63 + unit_bits))) by (unfold unit_bits; lia).
      apply scaled_representable; unfold unit_bits; lia. }
  destruct Hz as (z & -> & Hz). cbn [ddiv]. replace (1000000000 * one <? 0) with false by lia.
  destruct (rounded_finite (z * one) (1000000000 * one) (70 + unit_bits)) as (q & Hq); [lia|nia| |unfold unit_bits; lia|by exists q].
  pose proof (pow2_pos (70 + unit_bits) ltac:(unfold unit_bits; lia)). nia.
Qed.

Lemma refill_inv now b :
  bucket_inv b -> 0 <= now - tb_last_refill_time b <= clock_max -> bucket_inv (refill now b).
Proof.
  intros [(c & Hc & Hc0 & Hcr) (r & Hr & Hr0 & Hrr) (t & Ht & Ht0 & Htr) Hb] Hn.
  destruct (seconds_finite _ Hn) as (e & He & He0 & Her). pose proof one_pos.
  unfold refill. rewrite Hc, Hr, Ht, He. cbn [dmul].
  assert (Hfull : bucket_inv (mkBucket (Fin c) (Fin c) (Fin r) now)).
  { split; cbn; [by exists c|by exists r|by exists c|lia]. }
  destruct (rounded_nonneg (e * r) one) as [->|(i & -> & Hi0 & Hir)]; [lia|nia|exact Hfull|].
  cbn [dadd]. destruct (rounded_nonneg (t + i) 1) as [->|(x & -> & Hx0 & Hxr)]; [lia|lia|exact Hfull|].
  unfold dmin. cbn [dlt]. destruct (Z.ltb_spec x c); [|exact Hfull].
  split; cbn; [by exists c|by exists r|by exists x|lia].
Qed.

(** C34: with a capacity and a refill rate that are finite and not negative and a
    clock that does not run backwards, the number of tokens stays between zero
    and the capacity through every rounding of [consume]; a request is admitted
    exactly when the refilled bucket holds a whole token. *)
Theorem consume_keeps_bucket now b :
  bucket_inv b -> 0 <= now - tb_last_refill_time b <= clock_max ->
  let '(allowed, b') := consume now b in
  bucket_inv b' /\ tb_capacity b' = tb_capacity b /\ tb_last_refill_time b' = now /\
  (allowed = true <-> dlt (tb_tokens (refill now b)) (Fin one) = false).
Proof.
  intros Hb Hn. pose proof (refill_inv now b Hb Hn) as Hr.
  assert (Hcap : tb_capacity (refill now b) = tb_capacity b) by done.
  assert (Hlast : tb_last_refill_time (refill now b) = now) by done.
  unfold consume. set (b1 := refill now b) in *. clearbody b1.
  destruct (dlt (tb_tokens b1) (Fin one)) eqn:Hlt; [by split_and!|].
  cbn [tb_capacity tb_last_refill_time tb_tokens]. split_and!; try done.
  destruct Hr as [Hc Hr (t & Ht & Ht0 & Htr) Hbd]. pose proof one_pos.
  rewrite Ht in Hlt, Hbd |- *. cbn [dlt] in Hlt. cbn [dsub dneg dadd].
  assert (Hle : round_nonneg (t - one) 1 <= t).
  { transitivity (round_nonneg t 1); [apply round_nonneg_mono; lia|].
    rewrite round_representable by (done || lia). lia. }
  pose proof (round_nonneg_nonneg (t - one) 1 ltac:(lia) ltac:(lia)) as Hnn.
  assert (Hrd : rounded (t + - one) 1 = Fin (round_nonneg (t - one) 1)).
  { change (t + - one) with (t - one). unfold rounded, round. replace (t - one <? 0) with false by lia.
    by replace (overflow_threshold <=? Z.abs (round_nonneg (t - one) 1)) with false by lia. }
  rewrite Hrd. split; cbn [tb_capacity tb_refill_rate tb_tokens]; try done.
  - eexists. split; [done|]. split; [lia|]. apply round_is_representable; lia.
  - destruct Hc as (c & Hc & _). rewrite Hc in Hbd |- *. cbn [dlt] in *. lia.
Qed.

(** ** Sequences of consumptions *)

Fixpoint consume_run (times : list Z) (b : TokenBucket) : list bool * TokenBucket :=
  match times with
  | [] => ([], b)
  | t :: times =>
      let '(allowed, b) := consume t b in
      let '(rest, b) := consume_run times b in (allowed :: rest, b)
  end.

Lemma consume_run_snoc times t b :
  consume_run (times ++ [t]) b =
  let '(rest, b1) := consume_run times b in
  let '(allowed, b2) := consume t b1 in (rest ++ [allowed], b2).
Proof.
  revert b. induction times as [|t' times IH]; intros b; cbn.
  - by destruct (consume t b).
  - destruct (consume t' b) as [a b1]. rewrite IH.
    destruct (consume_run times b1) as [l b2]. by destruct (consume t b2).
Qed.

(** A bucket that is not refilled: the rate is zero or no time passes. *)
Lemma refill_idle now b t c :
  tb_capacity b = Fin c -> tb_tokens b = Fin t -> 0 <= t <= c -> c < overflow_threshold ->
  representable t -> dmul (seconds (now - tb_last_refill_time b)) (tb_refill_rate b) = Fin 0 ->
  refill now b = mkBucket (Fin c) (Fin t) (tb_refill_rate b) now.
Proof.
  intros Hc Ht Hb Ho Hr Hz. unfold refill. rewrite Hc, Ht, Hz. cbn [dadd].
  rewrite Z.add_0_r, rounded_exact by (done || lia). unfold dmin. cbn [dlt].
  destruct (Z.ltb_spec t c); [done|]. by replace t with c by lia.
Qed.

(** The decisions of [n] requests on [t] units of tokens. *)
Definition burst_decisions (n : nat) (t : Z) : list bool :=
  let k := (Z.to_nat (t / one) `min` n)%nat in replicate k true ++ replicate (n - k) false.

Lemma burst_decisions_admit n t :
  one <= t -> burst_decisions (S n) t = true :: burst_decisions n (t - one).
Proof.
  intros Ht. pose proof one_pos. unfold burst_decisions.
  assert (Hq : (t - one) / one = t / one - 1).
  { replace (t - one) with (t + (-1) * one) by lia. rewrite Z.div_add by lia. lia. }
  assert (1 <= t / one) by (apply Z.div_le_lower_bound; lia). rewrite Hq.
  replace (Z.to_nat (t / one) `min` S n)%nat with (S (Z.to_nat (t / one - 1) `min` n)) by lia.
  done.
Qed.

Lemma burst_decisions_reject n t :
  0 <= t < one -> burst_decisions (S n) t = false :: burst_decisions n t.
Proof. intros Ht. unfold burst_decisions. rewrite !Z.div_small by lia. change (Z.to_nat 0) with 0%nat. by rewrite !Nat.min_0_l, !Nat.sub_0_r. Qed.

Lemma consume_run_idle (idle : Z -> Z -> Prop) r c times t t0 :
  (forall last now, idle last now -> dmul (seconds (now - last)) r = Fin 0) ->
  0 <= t <= c -> c < 2 ^ 53 * one -> representable t ->
  (forall i last now, (t0 :: times) !! i = Some last -> (t0 :: times) !! S i = Some now -> idle last now) ->
  fst (consume_run times (mkBucket (Fin c) (Fin t) r t0)) = burst_decisions (length times) t.
Proof.
  intros Hidle Hb Hc. assert (Ho : c < overflow_threshold).
  { eapply Z.lt_trans; [exact Hc|]. unfold one. rewrite <- Z.pow_add_r by (unfold unit_bits; lia).
    apply Z.pow_lt_mono_r; unfold unit_bits; lia. }
  revert t t0 Hb. induction times as [|now times IH]; intros t t0 Hb Hr Hseq; cbn [consume_run length].
  { cbn. unfold burst_decisions. by rewrite Nat.min_0_r. }
  assert (Hstep : idle t0 now) by (by apply (Hseq 0%nat)).
  assert (Hseq' : forall i last now', (now :: times) !! i = Some last ->
    (now :: times) !! S i = Some now' -> idle last now') by (intros i; apply (Hseq (S i))).
  unfold consume. rewrite (refill_idle _ _ t c) by (done || by apply Hidle). cbn [tb_tokens tb_capacity
    tb_refill_rate tb_last_refill_time dlt].
  destruct (Z.ltb_spec t one) as [Hlt|Hge].
  - rewrite burst_decisions_reject by lia. specialize (IH t now Hb Hr Hseq').
    destruct (consume_run _ _). cbn in *. by rewrite IH.
  - rewrite burst_decisions_admit by done. cbn [dsub dneg dadd]. change (t + - one) with (t - one).
    pose proof one_pos. assert (Hr' : representable (t - one)) by (apply sub_one_representable; [lia|done]).
    rewrite rounded_exact by (done || lia).
    specialize (IH (t - one) now ltac:(lia) Hr' Hseq').
    destruct (consume_run _ _). cbn in *. by rewrite IH.
Qed.

Lemma seconds_zero : seconds 0 = Fin 0.
Proof.
  pose proof one_pos. unfold seconds, double_of_Z. rewrite Z.mul_0_l, rounded_zero by lia.
  cbn [ddiv]. replace (1000000000 * one <? 0) with false by lia.
  rewrite Z.mul_0_l. apply rounded_zero. lia.
Qed.

(** On a full bucket of finite capacity below 2^53, a burst of [n] requests
    at one instant is answered with the integer part of the capacity in
    admissions, then with rejections, whatever the refill rate. *)
Theorem burst_admits_capacity c r n now :
  0 <= c < 2 ^ 53 * one -> representable c ->
  fst (consume_run (replicate n now) (new_bucket (Fin c) (Fin r) now)) = burst_decisions n c.
Proof.
  intros Hc Hr. pose proof (consume_run_idle eq (Fin r) c (replicate n now) c now) as H.
  rewrite length_replicate in H. apply H; try done; try lia.
  - intros last ? <-. rewrite Z.sub_diag, seconds_zero. cbn [dmul].
    rewrite Z.mul_0_l. apply rounded_zero, one_pos.
  - change (now :: replicate n now) with (replicate (S n) now).
    intros i a b Ha Hb. apply lookup_replicate in Ha as [-> _], Hb as [-> _]. done.
Qed.

(** Two and a half tokens. *)
Definition demo_capacity : Z := 5 * 2 ^ 1073.

Lemma demo_capacity_ok : 0 <= demo_capacity < 2 ^ 53 * one /\ representable demo_capacity.
Proof.
  split; [vm_compute; split; [discriminate|reflexivity]|].
  apply scaled_representable; [lia|]. split; [lia|]. vm_compute. discriminate.
Qed.

Lemma burst_witness :
  fst (consume_run (replicate 4 7) (new_bucket (Fin demo_capacity) (Fin one) 7)) =
  [true; true; false; false].
Proof.
  rewrite (burst_admits_capacity demo_capacity one 4 7 (proj1 demo_capacity_ok) (proj2 demo_capacity_ok)).
  vm_compute. reflexivity.
Defined.

Lemma consume_keeps_witness : bucket_inv (snd (consume 9 (new_bucket (Fin demo_capacity) (Fin one) 7))).
Proof.
  assert (Hc : finite_nonneg (Fin demo_capacity)).
  { exists demo_capacity. split; [reflexivity|]. split; [|exact (proj2 demo_capacity_ok)].
    vm_compute. split; [discriminate|reflexivity]. }
  assert (Ho : finite_nonneg (Fin one)).
  { exists one. split; [reflexivity|]. split; [vm_compute; split; [discriminate|reflexivity]|].
    change one with (1 * 2 ^ 1074). apply scaled_representable; [lia|]. lia. }
  pose proof (consume_keeps_bucket 9 (new_bucket (Fin demo_capacity) (Fin one) 7)) as H.
  destruct (consume 9 _) as [allowed b]. cbn [snd]. apply H.
  - split; cbn; [exact Hc|exact Ho|exact Hc|apply Z.ltb_irrefl].
  - cbn. unfold clock_max. lia.
Defined.

(** ** Concurrent calls *)

(** The decisions for one address, in order. *)
Definition decisions_of (ip : bytes) (ds : list (bytes * bool)) : list bool :=
  omap (fun d => if decide (d.1 = ip) then Some d.2 else None) ds.

#[local] Arguments decisions_of : simpl never.

Lemma decisions_of_snoc ip ds ip' a :
  decisions_of ip (ds ++ [(ip', a)]) = decisions_of ip ds ++ (if decide (ip' = ip) then [a] else []).
Proof. unfold decisions_of. rewrite omap_app. cbn. by case_decide. Qed.

(** Every address has its own bucket, which the calls that got it share, and
    which has served exactly the decisions taken for the address. *)
Record shared_inv (cap rate : double) (start : Z) (s : limiter_state) : Prop := {
  si_now : start <= ls_now s;
  si_cap : rl_capacity (ls_limiter s) = cap;
  si_rate : rl_refill_rate (ls_limiter s) = rate;
  si_own : forall ip ip' e, rl_buckets (ls_limiter s) !! ip = Some e ->
           rl_buckets (ls_limiter s) !! ip' = Some e -> ip = ip';
  si_calls : forall i ip e, ls_calls s !! i = Some (CConsume ip e) ->
             rl_buckets (ls_limiter s) !! ip = Some e;
  si_none : forall ip, rl_buckets (ls_limiter s) !! ip = None -> decisions_of ip (ls_decisions s) = [];
  si_some : forall ip e, rl_buckets (ls_limiter s) !! ip = Some e ->
    exists t0 times b, rl_entries (ls_limiter s) !! e = Some b /\
      consume_run times (new_bucket cap rate t0) = (decisions_of ip (ls_decisions s), b) /\
      Sorted Z.le (t0 :: times) /\ Forall (fun t => start <= t <= ls_now s) (t0 :: times)
}.

Lemma shared_inv_init cap rate start : shared_inv cap rate start (ls_init cap rate start).
Proof. split; cbn; try done. Qed.

(** Changing only the calls. *)
Lemma shared_inv_calls cap rate start s i c :
  shared_inv cap rate start s ->
  (forall ip e, c = CConsume ip e -> rl_buckets (ls_limiter s) !! ip = Some e) ->
  shared_inv cap rate start (mkLS (ls_limiter s) (<[i := c]> (ls_calls s)) (ls_now s) (ls_decisions s)).
Proof.
  intros [H0 H1 H2 H3 H4 H5 H6] Hc. split; try done. cbn.
  intros j ip e Hj. destruct (decide (i = j)) as [<-|Hne].
  - destruct (decide (i < length (ls_calls s))%nat) as [Hl|Hl].
    + rewrite list_lookup_insert_eq in Hj by done. injection Hj as ->. by apply Hc.
    + rewrite list_insert_ge in Hj by lia. by eapply H4.
  - rewrite list_lookup_insert_ne in Hj by done. by eapply H4.
Qed.

Lemma Sorted_le_snoc (l : list Z) (a n : Z) :
  Sorted Z.le l -> Forall (fun t => a <= t <= n) l -> Sorted Z.le (l ++ [n]).
Proof.
  intros Hs Hf. induction Hs as [|x l Hs IH Hhd]; cbn; [by repeat constructor|].
  apply Forall_cons in Hf as [Ha Hf]. constructor; [by apply IH|].
  destruct Hhd; cbn; constructor; [lia|done].
Qed.

Lemma shared_inv_insert cap rate start s i ip :
  shared_inv cap rate start s -> ls_calls s !! i = Some (CInsert ip) ->
  shared_inv cap rate start
    (let '(entry, l) := insert_entry ip (ls_now s) (ls_limiter s) in
     mkLS l (<[i := CConsume ip entry]> (ls_calls s)) (ls_now s) (ls_decisions s)).
Proof.
  intros Hinv Hi. unfold insert_entry. destruct (rl_buckets (ls_limiter s) !! ip) as [e|] eqn:He.
  { apply shared_inv_calls; [done|]. by intros ? ? [= <- <-]. }
  set (l' := mkLimiter _ _ _ _).
  assert (Hnew : shared_inv cap rate start (mkLS l' (ls_calls s) (ls_now s) (ls_decisions s))).
  { destruct Hinv as [H0 H1 H2 H3 H4 H5 H6].
    assert (Hfresh : forall ip' e, rl_buckets (ls_limiter s) !! ip' = Some e ->
              (e < length (rl_entries (ls_limiter s)))%nat).
    { intros ip' e (t0 & times & b & Hb & _)%H6. by eapply lookup_lt_Some. }
    split; cbn; try done.
    - intros ip1 ip2 e [[<- <-]|[N1 Ha]]%lookup_insert_Some [[<- He']|[N2 Hb]]%lookup_insert_Some; try done.
      + apply Hfresh in Hb. lia.
      + apply Hfresh in Ha. lia.
      + by eapply H3.
    - intros j ip' e Hj. apply H4 in Hj. rewrite lookup_insert_ne; [done|]. intros <-. congruence.
    - intros ip' Hn. destruct (decide (ip = ip')) as [<-|Hne]; [by rewrite lookup_insert_eq in Hn|].
      rewrite lookup_insert_ne in Hn by done. by apply H5.
    - intros ip' e Hs. destruct (decide (ip = ip')) as [<-|Hne].
      + rewrite lookup_insert_eq in Hs. injection Hs as <-.
        exists (ls_now s), [], (new_bucket cap rate (ls_now s)). rewrite H1, H2, (H5 ip He).
        rewrite lookup_app_r, Nat.sub_diag by lia. split_and!; try done; by repeat constructor.
      + rewrite lookup_insert_ne in Hs by done.
        destruct (H6 _ _ Hs) as (t0 & times & b & Hb & Hrest). exists t0, times, b.
        rewrite lookup_app_l by (by eapply lookup_lt_Some). done. }
  apply (shared_inv_calls cap rate start _ i) with (c := CConsume ip (length (rl_entries (ls_limiter s)))) in Hnew; [done|].
  intros ? ? [= <- <-]. cbn. apply lookup_insert_eq.
Qed.

Lemma shared_inv_consume cap rate start s i ip e a l :
  shared_inv cap rate start s -> ls_calls s !! i = Some (CConsume ip e) ->
  consume_entry e (ls_now s) (ls_limiter s) = Some (a, l) ->
  shared_inv cap rate start
    (mkLS l (<[i := CDone ip a]> (ls_calls s)) (ls_now s) (ls_decisions s ++ [(ip, a)])).
Proof.
  intros Hinv Hi Hc. apply (shared_inv_calls cap rate start (mkLS l (ls_calls s) (ls_now s) (ls_decisions s ++ [(ip, a)]))); [|done].
  destruct Hinv as [H0 H1 H2 H3 H4 H5 H6]. pose proof (H4 _ _ _ Hi) as Hbkt.
  unfold consume_entry in Hc. destruct (H6 _ _ Hbkt) as (t0 & times & b & Hb & Hrun & Hsort & Hle).
  rewrite Hb in Hc. destruct (consume (ls_now s) b) as [a' b'] eqn:Hcons. injection Hc as -> <-.
  split; cbn; try done.
  - intros ip' Hn. rewrite decisions_of_snoc, decide_False, app_nil_r by congruence. by apply H5.
  - intros ip' e' Hs. rewrite decisions_of_snoc. destruct (decide (ip = ip')) as [<-|Hne].
    + rewrite Hbkt in Hs. injection Hs as <-. exists t0, (times ++ [ls_now s]), b'.
      rewrite list_lookup_insert_eq by (by eapply lookup_lt_Some).
      rewrite consume_run_snoc, Hrun, Hcons. split_and!; try done.
      * by apply (Sorted_le_snoc (t0 :: times) start).
      * apply Forall_app_2 with (l1 := t0 :: times); [done|]. repeat constructor; lia.
    + rewrite app_nil_r. destruct (H6 _ _ Hs) as (t0' & times' & b0 & Hb0 & Hrest).
      exists t0', times', b0. rewrite list_lookup_insert_ne; [done|]. intros <-.
      by apply Hne, (H3 _ _ e).
Qed.

Lemma shared_inv_step cap rate start s s' :
  shared_inv cap rate start s -> limiter_step s s' -> shared_inv cap rate start s'.
Proof.
  intros Hinv Hstep. destruct Hstep as [s now Hnow|s ip|s i ip Hi|s i ip Hi|s i ip e a l Hi Hc].
  - destruct Hinv as [H0 H1 H2 H3 H4 H5 H6]. split; try done; cbn; [lia|]. intros ip e He.
    destruct (H6 _ _ He) as (t0 & times & b & Hb & Hrun & Hs & Hf). exists t0, times, b.
    split_and!; try done. eapply Forall_impl; [exact Hf|]. cbn. lia.
  - destruct Hinv as [H0 H1 H2 H3 H4 H5 H6]. split; try done. cbn. intros i ip' e Hi.
    apply lookup_app_Some in Hi as [Hi|[_ Hi]]; [by eapply H4|].
    destruct (i - length (ls_calls s))%nat as [|[]]; discriminate Hi.
  - apply shared_inv_calls; [done|]. intros ip' e He. unfold find_entry in He.
    destruct (rl_buckets (ls_limiter s) !! ip) eqn:Hb; congruence.
  - by apply shared_inv_insert.
  - by eapply shared_inv_consume.
Qed.

Lemma shared_inv_reachable cap rate start s :
  rtc limiter_step (ls_init cap rate start) s -> shared_inv cap rate start s.
Proof.
  intros H. assert (Hi : shared_inv cap rate start (ls_init cap rate start)) by apply shared_inv_init.
  induction H as [|s1 s2 s3 Hstep _ IH]; [done|]. apply IH. by eapply shared_inv_step.
Qed.

(** C10: in every interleaving of concurrent calls of [check], the decisions for
    an address are those of one fresh bucket that serves the requests one after
    the other, at the moments they were decided: no bucket is created twice and
    no consumption is lost, and other addresses have no influence. *)
Theorem check_linearizable cap rate now s ip :
  rtc limiter_step (ls_init cap rate now) s ->
  exists t0 times,
    decisions_of ip (ls_decisions s) = fst (consume_run times (new_bucket cap rate t0)) /\
    Sorted Z.le (t0 :: times).
Proof.
  intros H%shared_inv_reachable. destruct (rl_buckets (ls_limiter s) !! ip) as [e|] eqn:He.
  - destruct (si_some _ _ _ _ H _ _ He) as (t0 & times & b & _ & Hrun & Hs & _).
    exists t0, times. by rewrite Hrun.
  - exists 0, []. rewrite (si_none _ _ _ _ H _ He). split; [done|]. by repeat constructor.
Qed.

(** The steps of one call after another. *)
Definition demo_calls (cap rate : double) : limiter_state :=
  mkLS (mkLimiter cap rate {[ B "10.0.0.1" := 0%nat ]} [snd (consume 5 (new_bucket cap rate 5))])
       [CDone (B "10.0.0.1") (fst (consume 5 (new_bucket cap rate 5)))] 5
       [(B "10.0.0.1", fst (consume 5 (new_bucket cap rate 5)))].

Lemma consume_entry_at e now l b a b' :
  rl_entries l !! e = Some b -> consume now b = (a, b') ->
  consume_entry e now l =
  Some (a, mkLimiter (rl_capacity l) (rl_refill_rate l) (rl_buckets l) (<[e := b']> (rl_entries l))).
Proof. intros He Hc. unfold consume_entry. by rewrite He, Hc. Qed.

Lemma demo_calls_reachable cap rate : rtc limiter_step (ls_init cap rate 5) (demo_calls cap rate).
Proof.
  eapply rtc_l; [apply (step_call _ (B "10.0.0.1"))|].
  eapply rtc_l; [by apply (step_find _ 0%nat (B "10.0.0.1"))|].
  eapply rtc_l; [by apply (step_insert _ 0%nat (B "10.0.0.1"))|].
  unfold demo_calls. destruct (consume 5 (new_bucket cap rate 5)) as [a b] eqn:Hc.
  eapply rtc_l; [eapply (step_consume _ 0%nat (B "10.0.0.1") 0%nat a); [done|]|].
  { eapply consume_entry_at; [reflexivity|exact Hc]. }
  apply rtc_refl.
Qed.

Lemma check_linearizable_witness :
  exists t0 times, [true] =
    fst (consume_run times (new_bucket (Fin demo_capacity) (Fin 0) t0)).
Proof.
  destruct (check_linearizable (Fin demo_capacity) (Fin 0) 5 _ (B "10.0.0.1")
    (demo_calls_reachable (Fin demo_capacity) (Fin 0))) as (t0 & times & H & _).
  exists t0, times. rewrite <- H. vm_compute. reflexivity.
Defined.

Lemma seconds_no_rate n : 0 <= n <= clock_max -> dmul (seconds n) (Fin 0) = Fin 0.
Proof.
  intros Hn. destruct (seconds_finite n Hn) as (z & -> & _). cbn [dmul].
  rewrite Z.mul_0_r. apply rounded_zero, one_pos.
Qed.

Lemma Sorted_le_adjacent (l : list Z) i a b :
  Sorted Z.le l -> l !! i = Some a -> l !! S i = Some b -> a <= b.
Proof.
  intros Hs. revert i. induction Hs as [|x l Hs IH Hhd]; intros [|i] Ha Hb; try done.
  - injection Ha as ->. destruct Hhd as [|y l Hy]; [done|]. by injection Hb as ->.
  - by apply (IH i).
Qed.

(** C25: without refilling, however many threads call [check] and however their
    critical sections interleave, every address gets exactly the integer part of
    the capacity in admissions before its first rejection and none after it. *)
Theorem concurrent_admissions_exact c now s ip :
  0 <= c < 2 ^ 53 * one -> representable c -> 0 <= now ->
  rtc limiter_step (ls_init (Fin c) (Fin 0) now) s -> ls_now s <= clock_max ->
  decisions_of ip (ls_decisions s) =
  burst_decisions (length (decisions_of ip (ls_decisions s))) c.
Proof.
  intros Hc Hr Hnow H Hmax. pose proof (shared_inv_reachable _ _ _ _ H) as Hi.
  destruct (rl_buckets (ls_limiter s) !! ip) as [e|] eqn:He.
  2:{ rewrite (si_none _ _ _ _ Hi _ He). unfold burst_decisions. cbn [length]. by rewrite Nat.min_0_r. }
  destruct (si_some _ _ _ _ Hi _ _ He) as (t0 & times & b & _ & Hrun & Hs & Hf).
  set (idle := fun last now : Z => 0 <= now - last <= clock_max).
  assert (Hl : decisions_of ip (ls_decisions s) = burst_decisions (length times) c).
  { change (decisions_of ip (ls_decisions s)) with (decisions_of ip (ls_decisions s), b).1. rewrite <- Hrun.
    apply (consume_run_idle idle); try done; [|lia|lia|].
    - intros last t Hidle. by apply seconds_no_rate.
    - intros i last t Ha Hb. pose proof (Sorted_le_adjacent _ _ _ _ Hs Ha Hb).
      rewrite Forall_lookup in Hf. specialize (Hf _ _ Ha) as Hfa. specialize (Hf _ _ Hb) as Hfb.
      unfold idle. lia. }
  rewrite Hl. f_equal. unfold burst_decisions. rewrite length_app, !length_replicate. lia.
Qed.

Lemma concurrent_admissions_witness :
  decisions_of (B "10.0.0.1") (ls_decisions (demo_calls (Fin demo_capacity) (Fin 0))) =
  burst_decisions 1 demo_capacity.
Proof.
  exact (concurrent_admissions_exact demo_capacity 5 _ (B "10.0.0.1") (proj1 demo_capacity_ok)
    (proj2 demo_capacity_ok) ltac:(lia) (demo_calls_reachable (Fin demo_capacity) (Fin 0))
    ltac:(vm_compute; discriminate)).
Defined.
