(* ===== verification/Router.v ===== *)
(** * Router: responses and the dispatch of requests

    Models src/src/http/http_response.h and http_response.cpp, and
    src/src/http/router.h and router.cpp.  The headers of a response are listed
    in the order the [unordered_map] iterates over them, which no theorem fixes.
    A handler is a computation over a world [W] of its own. *)
From stdpp Require Import base gmap list numbers strings.
From Stdlib Require Import Strings.Byte.
From S2P Require Import Prelude Text Double RateLimiter HttpParser HttpChunks HttpRender RateTheorems.

Local Open Scope Z_scope.

(** ** Responses *)

Record HttpResponse := mkResponse {
  status_code : Z;
  reason : bytes;
  resp_headers : list (bytes * bytes);
  resp_body : bytes
}.

Definition is_length_name (name : bytes) : bool :=
  bool_decide (name = B "Content-Length") || bool_decide (name = B "content-length").

(** The header loop of [to_string]: the serialised lines and [has_length]. *)
Fixpoint response_headers (hs : list (bytes * bytes)) (serialized : bytes) (has_length : bool) :
    bytes * bool :=
  match hs with
  | [] => (serialized, has_length)
  | (name, value) :: hs =>
      response_headers hs (serialized ++ name ++ B ": " ++ value ++ crlf)
                       (has_length || is_length_name name)
  end.

Definition response_to_string (r : HttpResponse) : bytes :=
  let serialized := B "HTTP/1.1 " ++ to_string (status_code r) ++ B " " ++ reason r ++ crlf in
  let '(serialized, has_length) := response_headers (resp_headers r) serialized false in
  let serialized :=
    if negb has_length
    then serialized ++ B "Content-Length: " ++ to_string (zlen (resp_body r)) ++ crlf
    else serialized in
  let serialized := serialized ++ B "Connection: close" ++ crlf ++ crlf in
  serialized ++ resp_body r.

(** ** Routes *)

Abbreviation RouteKey := (bytes * bytes)%type.

Section Router.
Context {W : Type}.

Abbreviation Handler := (HttpRequest -> stm W HttpResponse).

Record Router := mkRouter {
  routes : gmap RouteKey Handler;
  rate_limiter : RateLimiter
}.

Definition new_router (rate_limit_capacity rate_limit_refill_rate : double) : Router :=
  mkRouter ∅ (new_limiter rate_limit_capacity rate_limit_refill_rate).

Definition add_route (m path : bytes) (h : Handler) (rt : Router) : Router :=
  mkRouter (<[(m, path) := h]> (routes rt)) (rate_limiter rt).

Definition too_many_requests : HttpResponse :=
  mkResponse 429 (B "Too Many Requests") [] (B "Too Many Requests").
Definition not_found : HttpResponse := mkResponse 404 (B "Not Found") [] (B "Not Found").

(** The lookup and the call of the handler. *)
Definition dispatch (req : HttpRequest) (rt : Router) (w : W) : outcome HttpResponse * Router * W :=
  match routes rt !! (method req, target_path req) with
  | None => (Ok not_found, rt, w)
  | Some handler => let '(r, w) := handler req w in (r, rt, w)
  end.

(** [route(request, client_ip)] with the two clock readings of the limiter. *)
Definition route (req : HttpRequest) (client_ip : bytes) (created now : Z) (rt : Router) (w : W) :
    outcome HttpResponse * Router * W :=
  match check client_ip created now (rate_limiter rt) with
  | None => (Throw out_of_bounds, rt, w)
  | Some (allowed, limiter) =>
      let rt := mkRouter (routes rt) limiter in
      if negb allowed then (Ok too_many_requests, rt, w)
      else dispatch req rt w
  end.

(** [RouteKeyHash]; [string_hash] is [std::hash<std::string>]. *)
Definition route_key_hash (string_hash : bytes -> Z) (key : RouteKey) : Z :=
  let method_hash := string_hash key.1 in
  let path_hash := string_hash key.2 in
  Z.lxor method_hash
    (u64_add (u64_add (u64_add path_hash 0x9e3779b9) (Z.shiftl method_hash 6 mod u64_modulus))
             (Z.shiftr method_hash 2)).

(** ** What an address may dispatch *)

Lemma check_known ip created now l e b :
  rl_buckets l !! ip = Some e -> rl_entries l !! e = Some b ->
  check ip created now l =
  Some ((consume now b).1,
        mkLimiter (rl_capacity l) (rl_refill_rate l) (rl_buckets l)
                  (<[e := (consume now b).2]> (rl_entries l))).
Proof.
  intros Hb He. unfold check, find_entry. rewrite Hb. unfold consume_entry. rewrite He.
  by destruct (consume now b).
Qed.

Lemma check_new ip created now l :
  rl_buckets l !! ip = None ->
  check ip created now l =
  Some ((consume now (new_bucket (rl_capacity l) (rl_refill_rate l) created)).1,
        mkLimiter (rl_capacity l) (rl_refill_rate l) (<[ip := length (rl_entries l)]> (rl_buckets l))
          (rl_entries l ++ [(consume now (new_bucket (rl_capacity l) (rl_refill_rate l) created)).2])).
Proof.
  intros Hb. unfold check, find_entry, insert_entry. rewrite Hb. unfold consume_entry. cbn [rl_entries].
  rewrite lookup_app_r, Nat.sub_diag by lia. cbn [lookup list_lookup].
  destruct (consume now _). cbn [fst snd rl_capacity rl_refill_rate rl_buckets].
  by rewrite insert_app_r_alt, Nat.sub_diag by lia.
Qed.

(** The same request, again and again, from one address. *)
Fixpoint route_all (req : HttpRequest) (ip : bytes) (times : list Z) (rt : Router) (w : W) :
    list (outcome HttpResponse) * Router * W :=
  match times with
  | [] => ([], rt, w)
  | t :: times =>
      let '(r, rt, w) := route req ip t t rt w in
      let '(rs, rt, w) := route_all req ip times rt w in (r :: rs, rt, w)
  end.

(** Answering by the limiter's decisions: the handler runs for an admission only. *)
Fixpoint answers (h : Handler) (req : HttpRequest) (decisions : list bool) (w : W) :
    list (outcome HttpResponse) * W :=
  match decisions with
  | [] => ([], w)
  | true :: ds => let '(r, w) := h req w in let '(rs, w) := answers h req ds w in (r :: rs, w)
  | false :: ds => let '(rs, w) := answers h req ds w in (Ok too_many_requests :: rs, w)
  end.

Lemma dispatch_found req h rt w :
  routes rt !! (method req, target_path req) = Some h ->
  dispatch req rt w = let '(r, w) := h req w in (r, rt, w).
Proof. unfold dispatch, stm. intros Hh. by rewrite Hh. Qed.

Lemma dispatch_missing req rt w :
  routes rt !! (method req, target_path req) = None -> dispatch req rt w = (Ok not_found, rt, w).
Proof. unfold dispatch, stm. intros Hh. by rewrite Hh. Qed.

Lemma route_all_known req ip times h rt w e b :
  routes rt !! (method req, target_path req) = Some h ->
  rl_buckets (rate_limiter rt) !! ip = Some e -> rl_entries (rate_limiter rt) !! e = Some b ->
  let '(rs, _, w') := route_all req ip times rt w in
  (rs, w') = answers h req (consume_run times b).1 w.
Proof.
  revert rt w b. induction times as [|t times IH]; intros rt w b Hh Hb He; cbn [route_all consume_run]; [done|].
  unfold route at 1. rewrite (check_known ip t t _ e b Hb He).
  destruct (consume t b) as [a b1] eqn:Hc. cbn [fst snd]. set (l' := mkLimiter _ _ _ _).
  assert (He' : rl_entries l' !! e = Some b1)
    by (cbn; by rewrite list_lookup_insert_eq by (by eapply lookup_lt_Some)).
  destruct (consume_run times b1) as [ds b2] eqn:Hrun. cbv zeta. destruct a; cbn [negb fst snd answers].
  - rewrite (dispatch_found req h) by exact Hh. destruct (h req w) as [r w1].
    specialize (IH (mkRouter (routes rt) l') w1 b1 Hh Hb He'). rewrite Hrun in IH. cbn [fst] in IH.
    destruct (route_all req ip times _ w1) as [[rs rt2] w2]. by rewrite <- IH.
  - specialize (IH (mkRouter (routes rt) l') w b1 Hh Hb He'). rewrite Hrun in IH. cbn [fst] in IH.
    destruct (route_all req ip times _ w) as [[rs rt2] w2]. by rewrite <- IH.
Qed.
End Router.
Arguments Router : clear implicits.
