(* ===== verification/RouterTheorems.v ===== *)
(** * RouterTheorems: the properties of responses and of the dispatch *)
From stdpp Require Import base gmap list numbers strings.
From Stdlib Require Import Strings.Byte.
From S2P Require Import Prelude Text Double RateLimiter HttpParser HttpChunks HttpRender RateTheorems Router.

Local Open Scope Z_scope.

(** ** Responses *)

Definition status_line (r : HttpResponse) : bytes :=
  B "HTTP/1.1 " ++ to_string (status_code r) ++ B " " ++ reason r.

(** The lines of the head of a response. *)
Definition response_lines (r : HttpResponse) : list bytes :=
  status_line r :: (header_line <$> resp_headers r) ++
  (if existsb is_length_name (resp_headers r).*1 then []
   else [header_line (B "Content-Length", to_string (zlen (resp_body r)))]) ++
  [B "Connection: close"].

Lemma block_app l1 l2 : block (l1 ++ l2) = block l1 ++ block l2.
Proof. unfold block. by rewrite fmap_app, concat_app. Qed.

Lemma response_headers_spec hs s b :
  response_headers hs s b = (s ++ block (header_line <$> hs), b || existsb is_length_name hs.*1).
Proof.
  revert s b. induction hs as [|[name value] hs IH]; intros s b; cbn [response_headers].
  - cbn. by rewrite app_nil_r, orb_false_r.
  - rewrite IH, !fmap_cons, block_cons. cbn [existsb fst snd]. rewrite orb_assoc. f_equal.
    unfold header_line. cbn [fst snd]. by rewrite <- !app_assoc.
Qed.

Lemma response_to_string_block r :
  response_to_string r = block (response_lines r) ++ crlf ++ resp_body r.
Proof.
  unfold response_to_string, response_lines. rewrite response_headers_spec. cbn [orb].
  rewrite block_cons, !block_app. unfold status_line, header_line. cbn [fst snd].
  destruct (existsb is_length_name _); cbn [negb];
    rewrite ?block_cons, <- !app_assoc; reflexivity.
Qed.

(** What makes a response well formed: no line end inside its lines. *)
Record response_ok (r : HttpResponse) : Prop := {
  ro_status : 0 <= status_code r;
  ro_reason : CR ∉ reason r;
  ro_headers : Forall (fun nv => (CR ∉ nv.1) /\ (CR ∉ nv.2)) (resp_headers r)
}.

Lemma digits_no_cr n : 0 <= n -> CR ∉ to_string n.
Proof.
  intros Hn Hin. rewrite to_string_decimal in Hin by done.
  destruct (decimal_spec n Hn) as (_ & Hd & _). rewrite Forall_forall in Hd.
  specialize (Hd _ Hin). by vm_compute in Hd.
Qed.

Lemma literal_no_cr (l : bytes) : bool_decide (CR ∉ l) = true -> CR ∉ l.
Proof. apply bool_decide_eq_true_1. Qed.

Lemma response_lines_ok r : response_ok r -> Forall line_ok (response_lines r).
Proof.
  intros [Hs Hr Hh]. unfold response_lines.
  assert (Hline : forall nv : bytes * bytes, (CR ∉ nv.1) /\ (CR ∉ nv.2) -> line_ok (header_line nv)).
  { intros nv [H1 H2]. unfold header_line. split; [by destruct nv.1|].
    rewrite !not_elem_of_app. split_and!; [done|by apply literal_no_cr|done]. }
  constructor.
  { unfold status_line. split; [done|]. rewrite !not_elem_of_app.
    split_and!; [by apply literal_no_cr|by apply digits_no_cr|by apply literal_no_cr|done]. }
  apply Forall_app_2; [apply Forall_fmap; by eapply Forall_impl|]. apply Forall_app_2.
  - destruct (existsb _ _); [constructor|]. apply Forall_singleton, Hline.
    split; [by apply literal_no_cr|]. apply digits_no_cr. lia.
  - apply Forall_singleton. split; [done|by apply literal_no_cr].
Qed.

(** C35: a serialised response is its lines, an empty line and its body; a client
    that looks for the first empty line finds the end of the head there and the
    body behind it, whatever the body contains, and a response whose handler gave
    no length declares exactly the length of that body. *)
Theorem response_framing r :
  response_ok r ->
  let head := block (response_lines r) in
  response_to_string r = head ++ crlf ++ resp_body r /\
  find header_separator (response_to_string r) = Some (length head - 2)%nat /\
  substr_from (response_to_string r) (length head + 2) = resp_body r /\
  (existsb is_length_name (resp_headers r).*1 = false ->
   header_line (B "Content-Length", to_string (zlen (resp_body r))) ∈ response_lines r).
Proof.
  intros Hok head. pose proof (response_to_string_block r) as Heq. fold head in Heq.
  rewrite Heq. split_and!; [done| | |].
  - apply find_block. by apply response_lines_ok.
  - unfold substr_from. rewrite app_assoc. apply drop_app_length'. rewrite length_app. done.
  - intros Hl. unfold response_lines. rewrite Hl. apply list_elem_of_further, elem_of_app. right. by left.
Qed.

Lemma response_framing_witness :
  find header_separator (response_to_string (mkResponse 404 (B "Not Found") [] (B "Not Found"))) =
  Some 60%nat.
Proof.
  destruct (response_framing (mkResponse 404 (B "Not Found") [] (B "Not Found"))) as (_ & H & _).
  - split; [cbn; lia|by apply literal_no_cr|constructor].
  - rewrite H. vm_compute. reflexivity.
Defined.

(** ** Dispatch *)

Section Dispatch.
Context {W : Type}.
Implicit Types (rt : Router W) (w : W).

Lemma route_all_new req ip t times h rt w :
  let l := rate_limiter rt in
  routes rt !! (method req, target_path req) = Some h -> rl_buckets l !! ip = None ->
  let '(rs, _, w') := route_all req ip (t :: times) rt w in
  (rs, w') = answers h req
    (consume_run (t :: times) (new_bucket (rl_capacity l) (rl_refill_rate l) t)).1 w.
Proof.
  intros l Hh Hb. cbn [route_all consume_run]. unfold route at 1. fold l. rewrite check_new by done.
  destruct (consume t _) as [a b1] eqn:Hc. cbn [fst snd]. set (l' := mkLimiter _ _ _ _). cbv zeta.
  assert (Hb' : rl_buckets l' !! ip = Some (length (rl_entries l))) by apply lookup_insert_eq.
  assert (He' : rl_entries l' !! length (rl_entries l) = Some b1).
  { cbn. by rewrite lookup_app_r, Nat.sub_diag by lia. }
  destruct (consume_run times b1) as [ds b2] eqn:Hrun. destruct a; cbn [negb fst snd answers].
  - rewrite (dispatch_found req h) by exact Hh. destruct (h req w) as [r w1].
    pose proof (route_all_known req ip times h (mkRouter (routes rt) l') w1 _ b1 Hh Hb' He') as H.
    rewrite Hrun in H. cbn [fst] in H. destruct (route_all req ip times _ w1) as [[rs rt2] w2]. by rewrite <- H.
  - pose proof (route_all_known req ip times h (mkRouter (routes rt) l') w _ b1 Hh Hb' He') as H.
    rewrite Hrun in H. cbn [fst] in H. destruct (route_all req ip times _ w) as [[rs rt2] w2]. by rewrite <- H.
Qed.


(** [route] calls the handler that was registered last for exactly the
    method and the path of the request; any other registration leaves the
    choice alone, and a request without a route is answered 404. *)
Theorem route_uses_last_registration req ip created now m path h rt w :
  let key := (method req, target_path req) in
  let '(r, _, w') := route req ip created now (add_route m path h rt) w in
  match check ip created now (rate_limiter rt) with
  | Some (true, _) =>
      if decide ((m, path) = key) then (r, w') = h req w
      else match routes rt !! key with
           | Some h' => (r, w') = h' req w
           | None => (r, w') = (Ok not_found, w)
           end
  | Some (false, _) => (r, w') = (Ok too_many_requests, w)
  | None => r = Throw out_of_bounds
  end.
Proof.
  intros key. unfold route. cbn [rate_limiter add_route].
  destruct (check ip created now (rate_limiter rt)) as [[[] l]|]; cbn [negb]; [|done|done].
  cbv zeta. set (rt' := mkRouter _ l).
  assert (Hkey : routes rt' !! key = if decide ((m, path) = key) then Some h else routes rt !! key).
  { cbn. destruct (decide _) as [<-|Hne]; [apply lookup_insert_eq|by rewrite lookup_insert_ne]. }
  destruct (decide ((m, path) = key)); [|destruct (routes rt !! key) as [h'|]].
  - rewrite (dispatch_found req h) by exact Hkey. by destruct (h req w).
  - rewrite (dispatch_found req h') by exact Hkey. by destruct (h' req w).
  - by rewrite dispatch_missing by exact Hkey.
Qed.
End Dispatch.

(** A handler that counts its calls. *)
Definition counting_handler : HttpRequest -> stm nat HttpResponse :=
  fun _ n => (Ok (mkResponse 200 (B "OK") [] []), S n).

