(* ===== verification/ThreadPool.v ===== *)
(** * ThreadPool: the bounded task queue and its workers

    Models src/src/network/thread_pool.h.  The critical sections under the mutex
    are atomic functions on the members; between them a thread is at one of a few
    places.  The condition variable is modelled as it is specified: waiting
    releases the mutex atomically, [notify_one] and [notify_all] act only on the
    threads that wait at that moment and run after the mutex was released, and a
    waiting thread may wake up for no reason. *)
From stdpp Require Import base list numbers relations.
From S2P Require Import Prelude.

Local Open Scope Z_scope.

Section ThreadPool.
Context {T : Type}.

(** ** Members and threads *)

(** Where a worker thread is in [worker_loop]. *)
Inductive worker :=
| WEnter              (** about to lock the mutex, or woken up in [wait] *)
| WWaiting            (** blocked in [condition.wait] *)
| WRunning (task : T) (** executing a task *)
| WReturned           (** the task returned or threw *)
| WExited.            (** returned from [worker_loop] *)

Record ThreadPool := mkPool {
  queue_capacity : nat;
  tasks : list T;
  queue_high_water : nat;
  busy_threads : Z;
  stopping : bool
}.

Record Stats := mkStats {
  worker_count : nat;
  stats_busy_threads : Z;
  queue_length : nat;
  stats_queue_high_water : nat
}.

Definition new_pool (capacity : nat) : ThreadPool := mkPool capacity [] 0 0 false.

(** ** Critical sections *)

Definition submit (task : T) (p : ThreadPool) : bool * ThreadPool :=
  if stopping p || (queue_capacity p <=? length (tasks p))%nat then (false, p)
  else
    let tasks' := tasks p ++ [task] in
    (true, mkPool (queue_capacity p) tasks' (queue_high_water p `max` length tasks')
                  (busy_threads p) (stopping p)).

Definition begin_shutdown (p : ThreadPool) : ThreadPool :=
  mkPool (queue_capacity p) (tasks p) (queue_high_water p) (busy_threads p) true.

(** The section of [worker_loop]: wait, leave the loop, or take a task. *)
Definition worker_section (p : ThreadPool) : worker * ThreadPool :=
  match tasks p with
  | [] => if negb (stopping p) then (WWaiting, p) else (WExited, p)
  | task :: rest =>
      (WRunning task, mkPool (queue_capacity p) rest (queue_high_water p)
                             (u64_add (busy_threads p) 1) (stopping p))
  end.

Definition task_returned (p : ThreadPool) : ThreadPool :=
  mkPool (queue_capacity p) (tasks p) (queue_high_water p) (u64_sub (busy_threads p) 1) (stopping p).

Definition stats (workers : list worker) (p : ThreadPool) : Stats :=
  mkStats (length workers) (busy_threads p) (length (tasks p)) (queue_high_water p).

(** ** The pool in use *)

Record pool_state := mkPS {
  ps_pool : ThreadPool;
  ps_workers : list worker;
  (** Threads that left [submit]'s or [begin_shutdown]'s section and have not
      called [notify_one] or [notify_all] yet. *)
  ps_notify_one : nat;
  ps_notify_all : nat;
  (** The tasks accepted by [submit], taken by a worker, and executed. *)
  ps_accepted : list T;
  ps_taken : list T;
  ps_executed : list T
}.

Definition ps_init (workers capacity : nat) : pool_state :=
  mkPS (new_pool capacity) (replicate workers WEnter) 0 0 [] [] [].

Definition wake (w : worker) : worker := match w with WWaiting => WEnter | _ => w end.

Definition with_workers (ws : list worker) (s : pool_state) : pool_state :=
  mkPS (ps_pool s) ws (ps_notify_one s) (ps_notify_all s) (ps_accepted s) (ps_taken s) (ps_executed s).

(** The steps other threads cause. *)
Inductive client_step : pool_state -> pool_state -> Prop :=
| cs_submit s task ok p :
    submit task (ps_pool s) = (ok, p) ->
    client_step s
      (mkPS p (ps_workers s) (if ok : bool then S (ps_notify_one s) else ps_notify_one s)
            (ps_notify_all s) (if ok then ps_accepted s ++ [task] else ps_accepted s)
            (ps_taken s) (ps_executed s))
| cs_shutdown s :
    client_step s
      (mkPS (begin_shutdown (ps_pool s)) (ps_workers s) (ps_notify_one s) (S (ps_notify_all s))
            (ps_accepted s) (ps_taken s) (ps_executed s)).

(** The steps the pool takes by itself. *)
Inductive internal_step : pool_state -> pool_state -> Prop :=
| is_notify_one s n i :
    ps_notify_one s = S n -> ps_workers s !! i = Some WWaiting ->
    internal_step s
      (mkPS (ps_pool s) (<[i := WEnter]> (ps_workers s)) n (ps_notify_all s)
            (ps_accepted s) (ps_taken s) (ps_executed s))
| is_notify_none s n :
    ps_notify_one s = S n -> WWaiting ∉ ps_workers s ->
    internal_step s
      (mkPS (ps_pool s) (ps_workers s) n (ps_notify_all s)
            (ps_accepted s) (ps_taken s) (ps_executed s))
| is_notify_all s n :
    ps_notify_all s = S n ->
    internal_step s
      (mkPS (ps_pool s) (wake <$> ps_workers s) (ps_notify_one s) n
            (ps_accepted s) (ps_taken s) (ps_executed s))
| is_enter s i w p :
    ps_workers s !! i = Some WEnter -> worker_section (ps_pool s) = (w, p) ->
    internal_step s
      (mkPS p (<[i := w]> (ps_workers s)) (ps_notify_one s) (ps_notify_all s) (ps_accepted s)
            (match w with WRunning task => ps_taken s ++ [task] | _ => ps_taken s end)
            (ps_executed s))
| is_execute s i task :
    ps_workers s !! i = Some (WRunning task) ->
    internal_step s
      (mkPS (ps_pool s) (<[i := WReturned]> (ps_workers s)) (ps_notify_one s) (ps_notify_all s)
            (ps_accepted s) (ps_taken s) (ps_executed s ++ [task]))
| is_returned s i :
    ps_workers s !! i = Some WReturned ->
    internal_step s
      (mkPS (task_returned (ps_pool s)) (<[i := WEnter]> (ps_workers s)) (ps_notify_one s)
            (ps_notify_all s) (ps_accepted s) (ps_taken s) (ps_executed s)).

(** A wakeup without a reason. *)
Inductive spurious_step : pool_state -> pool_state -> Prop :=
| ss_wake s i :
    ps_workers s !! i = Some WWaiting ->
    spurious_step s (with_workers (<[i := WEnter]> (ps_workers s)) s).

Definition pool_step (s s' : pool_state) : Prop :=
  client_step s s' \/ internal_step s s' \/ spurious_step s s'.
End ThreadPool.
Arguments worker : clear implicits.
Arguments ThreadPool : clear implicits.
Arguments pool_state : clear implicits.

Module PoolTests.
Example bounded :
  let '(a, p) := submit 1%nat (new_pool 1) in
  let '(b, p) := submit 2%nat p in
  (a, b, fst (submit 3%nat (begin_shutdown p)), stats [WEnter] p)
  = (true, false, false, mkStats 1 0 1 1).
Proof. reflexivity. Qed.
End PoolTests.
