(* ===== verification/PoolTheorems.v ===== *)
(** * PoolTheorems: the properties of the thread pool

    The invariant of the pool over all interleavings: the bound of the queue,
    first-in first-out hand-over with exactly-once execution, the absence of lost
    wakeups, and the termination of the shutdown. *)
From stdpp Require Import base list numbers relations.
From S2P Require Import Prelude ThreadPool.

Local Open Scope Z_scope.

(** ** Counting workers *)

Section Counting.
Context {T : Type}.
Implicit Types (ws : list (worker T)) (w : worker T).

Definition weight (f : worker T -> nat) ws : nat := sum_list_with f ws.

Definition enters w : nat := match w with WEnter => 1 | _ => 0 end.
Definition waits w : nat := match w with WWaiting => 1 | _ => 0 end.
Definition busies w : nat := match w with WRunning _ | WReturned => 1 | _ => 0 end.
Definition exits w : nat := match w with WExited => 1 | _ => 0 end.

Definition running ws : list T :=
  omap (fun w => match w with WRunning t => Some t | _ => None end) ws.

(** Replacing one worker. *)
Lemma insert_worker ws i w :
  ws !! i = Some w -> exists rest, ws ≡ₚ w :: rest /\ forall w', <[i := w']> ws ≡ₚ w' :: rest.
Proof.
  intros Hi. exists (delete i ws). split; [by apply delete_Permutation|]. intros w'.
  rewrite insert_take_drop by (by eapply lookup_lt_Some). rewrite delete_take_drop.
  by rewrite Permutation_middle.
Qed.

#[export] Instance weight_proper f : Proper ((≡ₚ) ==> eq) (weight f).
Proof. intros l1 l2 H. unfold weight. by rewrite H. Qed.

#[export] Instance running_proper : Proper ((≡ₚ) ==> (≡ₚ)) running.
Proof. intros l1 l2 H. unfold running. by rewrite H. Qed.

Lemma weight_cons f w ws : weight f (w :: ws) = (f w + weight f ws)%nat.
Proof. done. Qed.

Lemma weight_lookup f ws i w : ws !! i = Some w -> (f w <= weight f ws)%nat.
Proof. intros (rest & Hp & _)%insert_worker. rewrite Hp, weight_cons. lia. Qed.

Lemma weight_zero f ws : weight f ws = 0%nat -> forall w, w ∈ ws -> f w = 0%nat.
Proof.
  intros H w (i & Hi)%list_elem_of_lookup. pose proof (weight_lookup f ws i w Hi). lia.
Qed.

Lemma weight_pos f ws : (0 < weight f ws)%nat -> exists i w, ws !! i = Some w /\ (0 < f w)%nat.
Proof.
  induction ws as [|w ws IH]; cbn; [lia|]. intros H. destruct (decide (0 < f w)%nat) as [Hf|Hf].
  - by exists 0%nat, w.
  - destruct IH as (i & w' & Hi & Hw); [unfold weight; lia|]. by exists (S i), w'.
Qed.

Lemma wake_waits ws : weight waits (wake <$> ws) = 0%nat.
Proof. induction ws as [|w ws IH]; [done|]. rewrite fmap_cons, weight_cons, IH. by destruct w. Qed.

Lemma wake_weight f ws :
  (forall w, w <> WWaiting -> w <> WEnter -> True) -> f WEnter = f WWaiting ->
  weight f (wake <$> ws) = weight f ws.
Proof.
  intros _ Hf. induction ws as [|w ws IH]; [done|]. rewrite fmap_cons, !weight_cons, IH.
  by destruct w; cbn; rewrite ?Hf.
Qed.

Lemma wake_running ws : running (wake <$> ws) = running ws.
Proof. induction ws as [|w ws IH]; [done|]. unfold running in *. by destruct w; cbn; rewrite IH. Qed.
End Counting.
#[global] Arguments weight {T} f ws : simpl never.
#[global] Arguments running {T} ws : simpl never.

(** ** The invariant *)

Record pool_inv {T} (s : pool_state T) : Prop := {
  (** The queue is bounded and the high-water mark is right. *)
  pv_bound : (length (tasks (ps_pool s)) <= queue_high_water (ps_pool s) <= queue_capacity (ps_pool s))%nat;
  (** Accepted tasks are taken in order; what is not taken is in the queue. *)
  pv_fifo : ps_accepted s = ps_taken s ++ tasks (ps_pool s);
  (** A task that was taken is executed once or is being executed. *)
  pv_once : ps_taken s ≡ₚ ps_executed s ++ running (ps_workers s);
  pv_busy : busy_threads (ps_pool s) = Z.of_nat (weight busies (ps_workers s));
  (** If a worker sleeps, enough wakeups are on their way for the queued tasks. *)
  pv_wakeup : weight waits (ps_workers s) = 0%nat \/
    (length (tasks (ps_pool s)) <= ps_notify_one s + weight enters (ps_workers s))%nat;
  pv_stop : stopping (ps_pool s) = true -> (0 < ps_notify_all s)%nat \/ weight waits (ps_workers s) = 0%nat;
  (** A worker leaves only when nothing is left to do. *)
  pv_exit : (0 < weight exits (ps_workers s))%nat -> stopping (ps_pool s) = true /\ tasks (ps_pool s) = [];
  pv_workers : Z.of_nat (length (ps_workers s)) < u64_modulus
}.

Section Invariant.
Context {T : Type}.
Implicit Types (s : pool_state T).

Lemma weight_replicate f n (w : worker T) : weight f (replicate n w) = (n * f w)%nat.
Proof. induction n as [|n IH]; [done|]. cbn [replicate]. rewrite weight_cons, IH. lia. Qed.

Lemma busies_length (ws : list (worker T)) : (weight busies ws <= length ws)%nat.
Proof. induction ws as [|w ws IH]; [done|]. rewrite weight_cons. destruct w; cbn; lia. Qed.

Lemma pool_inv_init n capacity :
  Z.of_nat n < u64_modulus -> pool_inv (ps_init n capacity : pool_state T).
Proof.
  intros Hn. split; cbn; rewrite ?weight_replicate, ?length_replicate; cbn; try done; try lia.
  induction n as [|n IH]; [done|]. apply IH. lia.
Qed.

Lemma pool_inv_submit s task ok p :
  pool_inv s -> submit task (ps_pool s) = (ok, p) ->
  pool_inv (mkPS p (ps_workers s) (if ok then S (ps_notify_one s) else ps_notify_one s)
              (ps_notify_all s) (if ok then ps_accepted s ++ [task] else ps_accepted s)
              (ps_taken s) (ps_executed s)).
Proof.
  intros Hinv He. unfold submit in He.
  destruct (stopping (ps_pool s) || _) eqn:Hg; injection He as <- <-; [by destruct Hinv|].
  apply orb_false_iff in Hg as [Hs Hc%Nat.leb_gt].
  destruct Hinv as [H1 H2 H3 H4 H5 H6 H7 H8]. split; cbn; rewrite ?length_app; cbn; try done.
  - lia.
  - by rewrite H2, app_assoc.
  - destruct H5 as [H5|H5]; [by left|right; lia].
  - intros Hx. apply H7 in Hx as [Hx _]. congruence.
Qed.

Lemma pool_inv_enter s i w p :
  pool_inv s -> ps_workers s !! i = Some WEnter -> worker_section (ps_pool s) = (w, p) ->
  pool_inv (mkPS p (<[i := w]> (ps_workers s)) (ps_notify_one s) (ps_notify_all s) (ps_accepted s)
              (match w with WRunning task => ps_taken s ++ [task] | _ => ps_taken s end)
              (ps_executed s)).
Proof.
  intros [H1 H2 H3 H4 H5 H6 H7 H8] Hi He.
  destruct (insert_worker _ _ _ Hi) as (rest & Hp & Hp'). pose proof (busies_length rest) as Hbl.
  rewrite Hp in H3, H4, H5, H6, H7, H8. unfold worker_section in He.
  destruct (tasks (ps_pool s)) as [|task ts] eqn:Ht.
  - destruct (stopping (ps_pool s)) eqn:Hst; injection He as <- <-;
      (split; cbn [ps_pool ps_workers ps_notify_one ps_notify_all ps_accepted ps_taken ps_executed];
       rewrite ?Hp', ?weight_cons, ?length_insert, ?Ht, ?Hst in *; cbn in *; try done; try lia).
  - injection He as <- <-.
    split; cbn [ps_pool ps_workers ps_notify_one ps_notify_all ps_accepted ps_taken ps_executed
                tasks queue_high_water queue_capacity busy_threads stopping];
      rewrite ?Hp', ?weight_cons, ?length_insert in *; cbn in *; try done; try lia.
    + rewrite H2. by rewrite <- app_assoc.
    + rewrite H3. by rewrite <- app_assoc, (Permutation_app_comm (running rest)).
    + rewrite H4, u64_add_small by lia. lia.
    + intros Hx. by destruct (H7 Hx).
Qed.

(** Waking a worker. *)
Lemma pool_inv_wake s i n :
  pool_inv s -> ps_workers s !! i = Some WWaiting ->
  (n = ps_notify_one s \/ ps_notify_one s = S n) ->
  pool_inv (mkPS (ps_pool s) (<[i := WEnter]> (ps_workers s)) n (ps_notify_all s)
              (ps_accepted s) (ps_taken s) (ps_executed s)).
Proof.
  intros [H1 H2 H3 H4 H5 H6 H7 H8] Hi Hn.
  destruct (insert_worker _ _ _ Hi) as (rest & Hp & Hp'). rewrite Hp in H3, H4, H5, H6, H7, H8.
  split; cbn [ps_pool ps_workers ps_notify_one ps_notify_all ps_accepted ps_taken ps_executed];
    rewrite ?Hp', ?weight_cons in *; cbn in *; try done; [lia|].
  intros Hst. specialize (H6 Hst). lia.
Qed.

Lemma pool_inv_internal s s' : pool_inv s -> internal_step s s' -> pool_inv s'.
Proof.
  intros Hinv Hstep. destruct Hstep as [s n i Hn Hi|s n Hn Hno|s n Hn|s i w p Hi He|s i task Hi|s i Hi].
  - apply pool_inv_wake; auto.
  - assert (Hz : weight waits (ps_workers s) = 0%nat).
    { destruct (weight waits (ps_workers s)) eqn:Hw; [done|]. exfalso. apply Hno.
      destruct (weight_pos waits (ps_workers s) ltac:(lia)) as (i & w & Hi & Hf).
      destruct w; cbn in Hf; try lia. by eapply list_elem_of_lookup_2. }
    destruct Hinv as [H1 H2 H3 H4 H5 H6 H7 H8]. split; cbn; auto.
  - destruct Hinv as [H1 H2 H3 H4 H5 H6 H7 H8].
    split; cbn [ps_pool ps_workers ps_notify_one ps_notify_all ps_accepted ps_taken ps_executed];
      rewrite ?wake_running, ?length_fmap, ?wake_waits in *; auto.
    + by rewrite wake_weight.
    + by rewrite wake_weight.
  - by eapply pool_inv_enter.
  - destruct Hinv as [H1 H2 H3 H4 H5 H6 H7 H8].
    destruct (insert_worker _ _ _ Hi) as (rest & Hp & Hp'). rewrite Hp in H3, H4, H5, H6, H7, H8.
    split; cbn [ps_pool ps_workers ps_notify_one ps_notify_all ps_accepted ps_taken ps_executed];
      rewrite ?Hp', ?weight_cons in *; cbn in *; try done.
    rewrite H3, <- app_assoc. done.
  - destruct Hinv as [H1 H2 H3 H4 H5 H6 H7 H8].
    destruct (insert_worker _ _ _ Hi) as (rest & Hp & Hp'). pose proof (busies_length rest) as Hbl.
    rewrite Hp in H3, H4, H5, H6, H7, H8.
    split; cbn [ps_pool ps_workers ps_notify_one ps_notify_all ps_accepted ps_taken ps_executed
                task_returned tasks queue_high_water queue_capacity busy_threads stopping];
      rewrite ?Hp', ?weight_cons in *; cbn in *; try done; try lia.
    rewrite H4, u64_sub_small by lia. lia.
Qed.

Lemma pool_inv_step s s' : pool_inv s -> pool_step s s' -> pool_inv s'.
Proof.
  intros Hinv [Hc|[Hi|Hs]].
  - destruct Hc as [s task ok p He|s]; [by apply pool_inv_submit|].
    destruct Hinv as [H1 H2 H3 H4 H5 H6 H7 H8]. split; cbn; auto; [left; lia|].
    intros Hx. by destruct (H7 Hx).
  - by eapply pool_inv_internal.
  - destruct Hs as [s i Hi]. apply pool_inv_wake; auto.
Qed.

Lemma pool_inv_reachable n capacity s :
  Z.of_nat n < u64_modulus -> rtc pool_step (ps_init n capacity) s -> pool_inv s.
Proof.
  intros Hn H. pose proof (pool_inv_init n capacity Hn) as Hi.
  induction H as [|s1 s2 s3 Hstep _ IH]; [done|]. apply IH. by eapply pool_inv_step.
Qed.
End Invariant.

(** ** Progress *)

Section Progress.
Context {T : Type}.
Implicit Types (s : pool_state T).

Definition all_exited s : Prop := Forall (fun w => w = WExited) (ps_workers s).

(** A worker that is not asleep and has not left can step. *)
Lemma awake_steps s i w :
  ps_workers s !! i = Some w -> w <> WWaiting -> w <> WExited -> exists s', internal_step s s'.
Proof.
  intros Hi Hw Hx. destruct w as [| |task| |]; try done.
  - destruct (worker_section (ps_pool s)) as [w p] eqn:He. eexists. by eapply is_enter.
  - eexists. by eapply is_execute.
  - eexists. by eapply is_returned.
Qed.

Lemma notify_steps s : (0 < ps_notify_one s)%nat -> exists s', internal_step s s'.
Proof.
  intros Hn. destruct (ps_notify_one s) as [|n] eqn:Hno; [lia|].
  destruct (weight waits (ps_workers s)) eqn:Hw.
  - eexists. eapply is_notify_none; [done|]. intros Hin.
    by pose proof (weight_zero waits _ Hw _ Hin).
  - destruct (weight_pos waits (ps_workers s) ltac:(lia)) as (i & w & Hi & Hf).
    destruct w; cbn in Hf; try lia. eexists. by eapply is_notify_one.
Qed.

Lemma enters_steps s : (0 < weight enters (ps_workers s))%nat -> exists s', internal_step s s'.
Proof.
  intros (i & w & Hi & Hf)%weight_pos. destruct w; cbn in Hf; try lia. by eapply awake_steps.
Qed.

Lemma not_exited_steps s :
  pool_inv s -> ~ all_exited s -> (tasks (ps_pool s) <> [] \/ stopping (ps_pool s) = true) ->
  exists s', internal_step s s'.
Proof.
  intros Hinv Hne Hwork.
  destruct (decide (weight waits (ps_workers s) = 0%nat)) as [Hz|Hz].
  - (* nobody sleeps: some worker is awake *)
    apply not_Forall_Exists in Hne; [|intros w; destruct w; by (left; congruence) || (right; congruence)].
    apply Exists_exists in Hne as (w & Hin & Hx). pose proof (weight_zero waits _ Hz _ Hin) as Hw.
    apply list_elem_of_lookup in Hin as (i & Hi). eapply awake_steps; [exact Hi| |done].
    by intros ->.
  - destruct Hinv as [_ _ _ _ Hwake Hstop _ _]. destruct Hwork as [Ht|Hst].
    + destruct Hwake as [Hwake|Hwake]; [done|]. destruct (tasks (ps_pool s)) as [|task ts]; [done|].
      cbn in Hwake. destruct (decide (0 < ps_notify_one s)%nat); [by apply notify_steps|].
      apply enters_steps. lia.
    + destruct (Hstop Hst) as [Hn|Hn]; [|done].
      destruct (ps_notify_all s) as [|n] eqn:Hna; [lia|]. eexists. by eapply is_notify_all.
Qed.

(** ** Shutdown terminates *)

Definition worker_cost (w : worker T) : nat :=
  match w with WRunning _ => 4 | WReturned => 3 | WEnter => 2 | WWaiting => 2 | WExited => 0 end.

(** What the pool can still do once it is stopping. *)
Definition pool_cost s : nat :=
  3 * length (tasks (ps_pool s)) + weight worker_cost (ps_workers s) +
  ps_notify_one s + ps_notify_all s.

Lemma internal_stopping s s' :
  internal_step s s' -> stopping (ps_pool s) = true ->
  stopping (ps_pool s') = true /\ (pool_cost s' < pool_cost s)%nat.
Proof.
  intros Hstep Hst. unfold pool_cost.
  destruct Hstep as [s n i Hn Hi|s n Hn Hno|s n Hn|s i w p Hi He|s i task Hi|s i Hi];
    cbn [ps_pool ps_workers ps_notify_one ps_notify_all]; try (split; [done|]).
  - destruct (insert_worker _ _ _ Hi) as (rest & Hp & Hp'). rewrite Hp', Hp, !weight_cons, Hn. cbn. lia.
  - lia.
  - rewrite wake_weight by done. lia.
  - destruct (insert_worker _ _ _ Hi) as (rest & Hp & Hp'). rewrite Hp', Hp, !weight_cons.
    unfold worker_section in He. destruct (tasks (ps_pool s)) as [|task ts] eqn:Ht.
    + rewrite Hst in He. injection He as <- <-. rewrite Ht. cbn. split; [done|lia].
    + injection He as <- <-. cbn. split; [done|lia].
  - destruct (insert_worker _ _ _ Hi) as (rest & Hp & Hp'). rewrite Hp', Hp, !weight_cons. cbn. lia.
  - destruct (insert_worker _ _ _ Hi) as (rest & Hp & Hp'). rewrite Hp', Hp, !weight_cons. cbn. lia.
Qed.

(** Runs of internal steps. *)
Lemma stopping_terminates s :
  pool_inv s -> stopping (ps_pool s) = true ->
  exists s', rtc internal_step s s' /\ all_exited s' /\ pool_inv s' /\ stopping (ps_pool s') = true.
Proof.
  remember (pool_cost s) as c eqn:Hc. revert s Hc. induction c as [c IH] using lt_wf_ind.
  intros s -> Hinv Hst.
  assert (Hdec : Decision (all_exited s)).
  { apply Forall_dec. intros w. destruct w; by (left; congruence) || (right; congruence). }
  destruct (decide (all_exited s)) as [Hx|Hx]; [by exists s|].
  destruct (not_exited_steps s Hinv Hx (or_intror Hst)) as [s1 Hs1].
  destruct (internal_stopping _ _ Hs1 Hst) as [Hst1 Hlt].
  destruct (IH _ Hlt s1 eq_refl (pool_inv_internal _ _ Hinv Hs1) Hst1) as (s' & Hr & Hrest).
  exists s'. split; [by eapply rtc_l|done].
Qed.
End Progress.

(** The workers never change their number. *)
Lemma pool_workers_length {T} (s s' : pool_state T) :
  rtc pool_step s s' -> length (ps_workers s') = length (ps_workers s).
Proof.
  induction 1 as [|s1 s2 s3 Hstep _ IH]; [done|]. rewrite IH.
  destruct Hstep as [[]|[[]|[]]]; cbn; by rewrite ?length_insert, ?length_fmap.
Qed.

Lemma internal_pool_run {T} (s s' : pool_state T) : rtc internal_step s s' -> rtc pool_step s s'.
Proof.
  induction 1 as [|s1 s2 s3 Hstep _ IH]; [done|]. eapply rtc_l; [|exact IH]. right. by left.
Qed.

Lemma internal_run {T} (s s' : pool_state T) :
  pool_inv s -> stopping (ps_pool s) = true -> rtc internal_step s s' ->
  pool_inv s' /\ stopping (ps_pool s') = true.
Proof.
  intros Hi Hst H. induction H as [|s1 s2 s3 Hstep _ IH]; [done|].
  apply IH; [by eapply pool_inv_internal|by eapply internal_stopping].
Qed.

(** When all workers have left, everything accepted was executed. *)
Lemma all_exited_done {T} (s : pool_state T) :
  pool_inv s -> all_exited s -> (0 < length (ps_workers s))%nat -> ps_executed s ≡ₚ ps_accepted s.
Proof.
  intros Hi Hx Hlen. unfold all_exited in Hx.
  assert (Hrun : running (ps_workers s) = []).
  { clear -Hx. induction Hx as [|w ws -> _ IH]; [done|]. exact IH. }
  assert (Hex : (0 < weight exits (ps_workers s))%nat).
  { destruct (ps_workers s) as [|w ws] eqn:E; [cbn in Hlen; lia|].
    apply Forall_cons in Hx as [-> _]. rewrite weight_cons. cbn. lia. }
  destruct (pv_exit _ Hi Hex) as [_ Ht].
  by rewrite (pv_fifo _ Hi), Ht, app_nil_r, (pv_once _ Hi), Hrun, app_nil_r.
Qed.

#[export] Instance all_exited_dec {T} (s : pool_state T) : Decision (all_exited s).
Proof. apply Forall_dec. intros w. destruct w; by (left; congruence) || (right; congruence). Defined.

(** ** The properties *)

Section Properties.
Context {T : Type}.
Implicit Types (s : pool_state T).

(** C24: in every interleaving of submitters, shutdown, notifications, spurious
    wakeups and workers, the queue never holds more than its capacity, tasks are
    handed to workers in the order they were accepted, each accepted task is in
    the queue, being executed by exactly one worker or executed exactly once,
    and the counter of busy threads is the number of workers with a task. *)
Theorem pool_fifo_exactly_once n capacity s :
  Z.of_nat n < u64_modulus -> rtc pool_step (ps_init n capacity) s ->
  (length (tasks (ps_pool s)) <= queue_high_water (ps_pool s) <= queue_capacity (ps_pool s))%nat /\
  ps_accepted s = ps_taken s ++ tasks (ps_pool s) /\
  ps_taken s ≡ₚ ps_executed s ++ running (ps_workers s) /\
  busy_threads (ps_pool s) = Z.of_nat (weight busies (ps_workers s)).
Proof. intros Hn H. by destruct (pool_inv_reachable n capacity s Hn H). Qed.

(** C32: no wakeup is lost: in every reachable state in which a task is queued
    or the pool is stopping, and not all workers have left, the pool can take a
    step of its own without waiting for a spurious wakeup or another call. *)
Theorem pool_never_stuck n capacity s :
  Z.of_nat n < u64_modulus -> rtc pool_step (ps_init n capacity) s -> ~ all_exited s ->
  (tasks (ps_pool s) <> [] \/ stopping (ps_pool s) = true) -> exists s', internal_step s s'.
Proof. intros Hn H. apply not_exited_steps. by eapply pool_inv_reachable. Qed.

(** C9: after [begin_shutdown], [join] returns.  Every step the pool takes by
    itself makes the remaining work smaller, so its runs are finite; a run that
    can go no further has all workers out of their loop and every accepted task
    executed exactly once; and there is such a run. *)
Theorem shutdown_drains n capacity s :
  (0 < n)%nat -> Z.of_nat n < u64_modulus -> rtc pool_step (ps_init n capacity) s ->
  stopping (ps_pool s) = true ->
  (forall s1 s2, rtc internal_step s s1 -> internal_step s1 s2 -> (pool_cost s2 < pool_cost s1)%nat) /\
  (forall s1, rtc internal_step s s1 -> ~ (exists s2, internal_step s1 s2) ->
     all_exited s1 /\ ps_executed s1 ≡ₚ ps_accepted s1) /\
  (exists s1, rtc internal_step s s1 /\ all_exited s1).
Proof.
  intros Hn0 Hn H Hst. pose proof (pool_inv_reachable n capacity s Hn H) as Hinv.
  assert (Hlen : length (ps_workers s) = n).
  { rewrite (pool_workers_length _ _ H). apply length_replicate. }
  split_and!.
  - intros s1 s2 Hr Hs. destruct (internal_run s s1 Hinv Hst Hr) as [_ Hst1].
    by eapply internal_stopping.
  - intros s1 Hr Hstuck. destruct (internal_run s s1 Hinv Hst Hr) as [Hi1 Hst1].
    assert (Hx : all_exited s1).
    { destruct (decide (all_exited s1)) as [|Hx]; [done|].
      destruct Hstuck. by apply not_exited_steps; [| |right]. }
    split; [done|]. apply all_exited_done; [done..|].
    rewrite (pool_workers_length s s1), Hlen; [lia|]. by apply internal_pool_run.
  - destruct (stopping_terminates s Hinv Hst) as (s1 & Hr & Hx & _). by exists s1.
Qed.
End Properties.

(** One worker, one submitted task, and a shutdown, before any notification. *)
Definition demo_pool : pool_state nat :=
  mkPS (mkPool 1 [7%nat] 1 0 true) [WEnter] 1 1 [7%nat] [] [].

Lemma demo_pool_reachable : rtc pool_step (ps_init 1 1) demo_pool.
Proof.
  eapply rtc_l; [left; apply (cs_submit _ 7%nat true); reflexivity|].
  eapply rtc_l; [left; apply cs_shutdown|]. apply rtc_refl.
Qed.

Lemma pool_fifo_witness : ps_accepted demo_pool = ps_taken demo_pool ++ tasks (ps_pool demo_pool).
Proof.
  destruct (pool_fifo_exactly_once 1 1 demo_pool) as (_ & H & _);
    [unfold u64_modulus; lia|exact demo_pool_reachable|exact H].
Defined.

Lemma pool_never_stuck_witness : exists s', internal_step demo_pool s'.
Proof.
  apply (pool_never_stuck 1 1 demo_pool).
  - unfold u64_modulus. lia.
  - exact demo_pool_reachable.
  - intros H. apply Forall_inv in H. discriminate H.
  - left. discriminate.
Defined.

Lemma shutdown_drains_witness : exists s', rtc internal_step demo_pool s' /\ all_exited s'.
Proof.
  destruct (shutdown_drains 1 1 demo_pool) as (_ & _ & H); [lia|unfold u64_modulus; lia| |reflexivity|exact H].
  exact demo_pool_reachable.
Defined.
