(* ===== verification/Config.v ===== *)
(** * Config: settings from a file and from the command line

    Models src/src/core/config.h and config.cpp.  The file system is a function
    from paths to contents.  [istringstream >> number] follows the C++ standard:
    leading white space is skipped, the longest numeral is read, a value that
    does not fit makes the stream fail, and a minus sign in front of an unsigned
    numeral negates it modulo the width. *)
From stdpp Require Import base gmap list numbers strings.
From Stdlib Require Import Strings.Byte.
From S2P Require Import Prelude Text Double.

Local Open Scope Z_scope.

(** ** Data *)

Record Config := mkConfig {
  port : Z;
  backlog : Z;
  epoll_worker_count : Z;
  thread_pool_size : Z;
  task_queue_capacity : Z;
  log_path : bytes;
  rate_limit_capacity : double;
  rate_limit_refill_rate : double;
  storage_directory : bytes;
  storage_segment_size : Z;
  recent_message_capacity : Z
}.

Definition default_config : Config :=
  mkConfig 8080 128 0 4 1024 [] (double_of_Z 10) (double_of_Z 5) (B "data/log") (64 * 1024 * 1024) 1024.

(** ** Text *)

Definition is_space (c : byte) : bool :=
  bool_decide (c = x20) || bool_decide (c = x09) || bool_decide (c = x0d) || bool_decide (c = x0a).

(** White space of [std::isspace] in the "C" locale. *)
Definition is_stream_space (c : byte) : bool :=
  is_space c || bool_decide (c = x0b) || bool_decide (c = x0c).

Definition config_trim (value : bytes) : bytes :=
  reverse (drop_while is_space (reverse (drop_while is_space value))).

(** ** Numbers *)

(** An optional sign. *)
Definition read_sign (s : bytes) : bool * bytes :=
  match s with
  | c :: s' => if bool_decide (c = x2d) then (true, s') else if bool_decide (c = x2b) then (false, s') else (false, s)
  | [] => (false, [])
  end.

(** What is left must be white space: [input >> extra] fails. *)
Definition no_extra (rest : bytes) : bool := forallb is_stream_space rest.

(** [input >> parsed] for [int]. *)
Definition parse_int (value : bytes) : option Z :=
  let s := drop_while is_stream_space value in
  let '(negative, s) := read_sign s in
  let digits := take_while is_digit s in
  let rest := drop_while is_digit s in
  if bool_decide (digits = []) || negb (no_extra rest) then None
  else
    let n := if negative then - decimal_value digits else decimal_value digits in
    if (n <? - 2 ^ 31) || (2 ^ 31 - 1 <? n) then None else Some n.

(** [input >> parsed] for an unsigned type with the given modulus. *)
Definition parse_unsigned (modulus : Z) (value : bytes) : option Z :=
  let s := drop_while is_stream_space value in
  let '(negative, s) := read_sign s in
  let digits := take_while is_digit s in
  let rest := drop_while is_digit s in
  if bool_decide (digits = []) || negb (no_extra rest) then None
  else if modulus <=? decimal_value digits then None
  else Some (if negative then (- decimal_value digits) mod modulus else decimal_value digits).

(** The numeral [input >> parsed] collects for [double]: digits with at most one
    point, then possibly an exponent. *)
Definition read_exponent (s : bytes) : option (Z * bytes) :=
  match s with
  | c :: s' =>
      if bool_decide (c = x65) || bool_decide (c = x45) then
        let '(negative, s'') := read_sign s' in
        let digits := take_while is_digit s'' in
        if bool_decide (digits = []) then None
        else Some (if negative then - decimal_value digits else decimal_value digits,
                   drop_while is_digit s'')
      else Some (0, s)
  | [] => Some (0, [])
  end.

(** The [double] nearest to [mantissa * 10 ^ e]; too large a number fails. *)
Definition decimal_double (negative : bool) (mantissa e : Z) : option double :=
  match rounded (mantissa * 10 ^ Z.max 0 e * one) (10 ^ Z.max 0 (- e)) with
  | Fin z => Some (Fin (if negative then - z else z))
  | _ => None
  end.

Definition parse_double (value : bytes) : option double :=
  let s := drop_while is_stream_space value in
  let '(negative, s) := read_sign s in
  let whole := take_while is_digit s in
  let s := drop_while is_digit s in
  let '(fraction, s) :=
    match s with
    | c :: s' => if bool_decide (c = x2e) then (take_while is_digit s', drop_while is_digit s') else ([], s)
    | [] => ([], [])
    end in
  if bool_decide (whole ++ fraction = []) then None else
  match read_exponent s with
  | None => None
  | Some (e, rest) =>
      if negb (no_extra rest) then None else
      decimal_double negative (decimal_value (whole ++ fraction)) (e - zlen fraction)
  end.

(** [parse_number<T>(value, key)] *)
Definition invalid_value (key value : bytes) : exn :=
  runtime_error (B "Invalid value for " ++ key ++ B ": " ++ value).
Definition parse_number {T} (parse : bytes -> option T) (value key : bytes) : outcome T :=
  match parse value with Some n => Ok n | None => Throw (invalid_value key value) end.

(** ** Settings *)

Inductive field :=
| FPort | FBacklog | FEpollWorkers | FPoolSize | FQueueCapacity | FLogPath | FRateCapacity
| FRateRefill | FStorageDirectory | FSegmentSize | FRecentCapacity.

(** The key names [apply] compares with, in its order. *)
Definition field_names : list (bytes * field) :=
  [(B "port", FPort); (B "backlog", FBacklog); (B "epoll_worker_count", FEpollWorkers);
   (B "thread_pool_size", FPoolSize); (B "task_queue_capacity", FQueueCapacity);
   (B "log_path", FLogPath); (B "rate_limit_capacity", FRateCapacity);
   (B "rate_limit_refill_rate", FRateRefill); (B "storage_directory", FStorageDirectory);
   (B "storage_segment_size", FSegmentSize); (B "recent_message_capacity", FRecentCapacity)].

Fixpoint assoc {A} (key : bytes) (l : list (bytes * A)) : option A :=
  match l with
  | [] => None
  | (k, a) :: l => if bool_decide (k = key) then Some a else assoc key l
  end.

Definition set_field (f : field) (key value : bytes) (c : Config) : outcome Config :=
  let 'mkConfig p b ew ps qc lp rc rr sd ss rm := c in
  match f with
  | FPort => n ← parse_number parse_int value key; mret (mkConfig n b ew ps qc lp rc rr sd ss rm)
  | FBacklog => n ← parse_number parse_int value key; mret (mkConfig p n ew ps qc lp rc rr sd ss rm)
  | FEpollWorkers =>
      n ← parse_number (parse_unsigned u32_modulus) value key; mret (mkConfig p b n ps qc lp rc rr sd ss rm)
  | FPoolSize =>
      n ← parse_number (parse_unsigned u32_modulus) value key; mret (mkConfig p b ew n qc lp rc rr sd ss rm)
  | FQueueCapacity =>
      n ← parse_number (parse_unsigned u64_modulus) value key; mret (mkConfig p b ew ps n lp rc rr sd ss rm)
  | FLogPath => mret (mkConfig p b ew ps qc value rc rr sd ss rm)
  | FRateCapacity =>
      n ← parse_number parse_double value key; mret (mkConfig p b ew ps qc lp n rr sd ss rm)
  | FRateRefill =>
      n ← parse_number parse_double value key; mret (mkConfig p b ew ps qc lp rc n sd ss rm)
  | FStorageDirectory => mret (mkConfig p b ew ps qc lp rc rr value ss rm)
  | FSegmentSize =>
      n ← parse_number (parse_unsigned u64_modulus) value key; mret (mkConfig p b ew ps qc lp rc rr sd n rm)
  | FRecentCapacity =>
      n ← parse_number (parse_unsigned u64_modulus) value key; mret (mkConfig p b ew ps qc lp rc rr sd ss n)
  end.

Definition apply_setting (key value : bytes) (c : Config) : outcome Config :=
  match assoc key field_names with
  | Some f => set_field f key value c
  | None => Throw (runtime_error (B "Unknown configuration key: " ++ key))
  end.

Definition options : list (bytes * bytes) :=
  [(B "--port", B "port"); (B "--backlog", B "backlog"); (B "--epoll-workers", B "epoll_worker_count");
   (B "--pool-threads", B "thread_pool_size"); (B "--queue-capacity", B "task_queue_capacity");
   (B "--log-path", B "log_path"); (B "--rate-limit-capacity", B "rate_limit_capacity");
   (B "--rate-limit-refill-rate", B "rate_limit_refill_rate");
   (B "--storage-directory", B "storage_directory"); (B "--storage-segment-size", B "storage_segment_size");
   (B "--recent-capacity", B "recent_message_capacity")].

(** ** Validation *)

Definition is_finite (a : double) : bool := match a with Fin _ => true | _ => false end.

(** The tests of [validate], in order, with their messages. *)
Definition validate_checks (c : Config) : list (bool * bytes) :=
  [((port c <? 1) || (65535 <? port c), B "port must be between 1 and 65535");
   (backlog c <? 1, B "backlog must be positive");
   (256 <? epoll_worker_count c, B "epoll_worker_count must be at most 256");
   ((thread_pool_size c <? 1) || (256 <? thread_pool_size c),
    B "thread_pool_size must be between 1 and 256");
   ((task_queue_capacity c <? 1) || (Z.shiftl 1 20 <? task_queue_capacity c),
    B "task_queue_capacity must be between 1 and 1048576");
   (negb (is_finite (rate_limit_capacity c)) || dlt (rate_limit_capacity c) (Fin one),
    B "rate_limit_capacity must be finite and at least 1");
   (negb (is_finite (rate_limit_refill_rate c)) || dlt (rate_limit_refill_rate c) (Fin 0),
    B "rate_limit_refill_rate must be finite and non-negative");
   (bool_decide (storage_directory c = []), B "storage_directory must not be empty");
   ((storage_segment_size c <? 73) || (1024 * 1024 * 1024 <? storage_segment_size c),
    B "storage_segment_size must be between 73 bytes and 1 GiB");
   ((recent_message_capacity c =? 0) || (Z.shiftl 1 20 <? recent_message_capacity c),
    B "recent_message_capacity must be between 1 and 1048576")].

Fixpoint first_failure (checks : list (bool * bytes)) : outcome unit :=
  match checks with
  | [] => Ok tt
  | (bad, message) :: checks => if bad then Throw (runtime_error message) else first_failure checks
  end.

Definition validate (c : Config) : outcome unit := first_failure (validate_checks c).

(** ** Files *)

(** The lines [std::getline] delivers. *)
Fixpoint getlines (current : bytes) (content : bytes) : list bytes :=
  match content with
  | [] => match current with [] => [] | _ => [current] end
  | c :: content =>
      if bool_decide (c = x0a) then current :: getlines [] content else getlines (current ++ [c]) content
  end.

Definition load_line (path : bytes) (line_number : Z) (line : bytes) (c : Config) : outcome Config :=
  let line := match find_char x23 line with Some comment => take comment line | None => line end in
  let line := config_trim line in
  if bool_decide (line = []) then Ok c else
  match find_char x3d line with
  | None =>
      Throw (runtime_error (B "Expected key=value at " ++ path ++ B ":" ++ to_string line_number))
  | Some separator =>
      let key := config_trim (substr line 0 separator) in
      let value := config_trim (substr_from line (separator + 1)) in
      if bool_decide (key = []) || bool_decide (value = [])
      then Throw (runtime_error (B "Empty key or value at " ++ path ++ B ":" ++ to_string line_number))
      else apply_setting key value c
  end.

Fixpoint load_lines (path : bytes) (line_number : Z) (lines : list bytes) (c : Config) : outcome Config :=
  match lines with
  | [] => Ok c
  | line :: lines => c ← load_line path (line_number + 1) line c; load_lines path (line_number + 1) lines c
  end.

Section Files.
(** The contents of the files that can be opened. *)
Context (read_file : bytes -> option bytes).

Definition load_file (path : bytes) : outcome Config :=
  match read_file path with
  | None => Throw (runtime_error (B "Unable to open config file: " ++ path))
  | Some content =>
      c ← load_lines path 0 (getlines [] content) default_config;
      validate c ≫= fun _ => mret c
  end.

(** The first pass over the arguments: the last [--config]. *)
Fixpoint config_path_of (args : list bytes) (path : bytes) : outcome bytes :=
  match args with
  | [] => Ok path
  | option :: args =>
      if bool_decide (option = B "--config") then
        match args with
        | [] => Throw (runtime_error (B "--config requires a path"))
        | path :: args => config_path_of args path
        end
      else config_path_of args path
  end.

(** The second pass: the settings, in order. *)
Fixpoint apply_args (args : list bytes) (c : Config) : outcome Config :=
  match args with
  | [] => Ok c
  | option :: args =>
      if bool_decide (option = B "--config") then
        match args with [] => Ok c | _ :: args => apply_args args c end
      else
        match assoc option options with
        | None => Throw (runtime_error (B "Unknown argument: " ++ option))
        | Some key =>
            match args with
            | [] => Throw (runtime_error (option ++ B " requires a value"))
            | value :: args => c ← apply_setting key value c; apply_args args c
            end
        end
  end.

(** [from_args], the program name left out. *)
Definition from_args (args : list bytes) : outcome Config :=
  path ← config_path_of args [];
  c ← (if bool_decide (path = []) then Ok default_config else load_file path);
  c ← apply_args args c;
  validate c ≫= fun _ => mret c.
End Files.

(** ** The scenarios of tests/config_test.cpp *)

Module ConfigTests.
Definition line (s : string) : bytes := B s ++ [x0a].
Definition file : bytes :=
  line "port=9001" ++ line "thread_pool_size=3" ++ line "rate_limit_capacity=8" ++
  line "storage_directory=temporary-log" ++ line "storage_segment_size=4096".

Example file_and_overrides :
  match from_args (fun path => if bool_decide (path = B "f") then Some file else None)
          [B "--config"; B "f"; B "--port"; B "9002"; B "--pool-threads"; B "5"] with
  | Ok c => (port c, thread_pool_size c, rate_limit_capacity c, storage_directory c, storage_segment_size c)
  | Throw _ => (0, 0, NaN, [], 0)
  end = (9002, 5, double_of_Z 8, B "temporary-log", 4096).
Proof. vm_compute. reflexivity. Qed.

Example unknown_key :
  load_file (fun _ => Some (line "unknown_setting=1")) (B "f")
  = Throw (runtime_error (B "Unknown configuration key: unknown_setting")).
Proof. vm_compute. reflexivity. Qed.

Example decimal_rate :
  parse_double (B "2.5e-1") = Some (Fin (2 ^ 1072)) /\ parse_double (B "1e") = None /\
  parse_double (B "1e400") = None /\ parse_double (B "abc") = None.
Proof. vm_compute. auto. Qed.
End ConfigTests.
