(* ===== verification/ConfigTheorems.v ===== *)
(** * ConfigTheorems: the properties of the configuration

    A configuration that is returned satisfies what the components require of
    their parameters; a configuration file written from a configuration is read
    back to it; the command line overrides the file. *)
From stdpp Require Import base gmap list numbers strings.
From Stdlib Require Import Strings.Byte.
From S2P Require Import Prelude Text Double RateLimiter RateTheorems CircularBuffer Os MmapLog LogFormat LogScan LogSpec LogRecover LogLife Config.

Local Open Scope Z_scope.

(** ** Validation *)

(** The ranges [validate] enforces. *)
Record valid_config (c : Config) : Prop := {
  vc_port : 1 <= port c <= 65535;
  vc_backlog : 1 <= backlog c;
  vc_epoll : epoll_worker_count c <= 256;
  vc_pool : 1 <= thread_pool_size c <= 256;
  vc_queue : 1 <= task_queue_capacity c <= 1048576;
  vc_capacity : exists z, rate_limit_capacity c = Fin z /\ one <= z;
  vc_refill : exists z, rate_limit_refill_rate c = Fin z /\ 0 <= z;
  vc_directory : storage_directory c <> [];
  vc_segment : 73 <= storage_segment_size c <= 1073741824;
  vc_recent : recent_message_capacity c <> 0 /\ recent_message_capacity c <= 1048576
}.

Lemma first_failure_ok checks :
  first_failure checks = Ok tt <-> Forall (fun ch => ch.1 = false) checks.
Proof.
  induction checks as [|[bad msg] checks IH]; cbn [first_failure]; [by split|].
  rewrite Forall_cons, <- IH. cbn. destruct bad; split; [done|by intros [??]|done|by intros [_ ?]].
Qed.

Lemma validate_ok c : validate c = Ok tt <-> valid_config c.
Proof.
  unfold validate. rewrite first_failure_ok. unfold validate_checks. rewrite !Forall_cons, Forall_nil. cbn [fst].
  change (Z.shiftl 1 20) with 1048576. split.
  - intros (H1 & H2 & H3 & H4 & H5 & H6 & H7 & H8 & H9 & H10 & _).
    apply orb_false_iff in H6 as [H6 H6'], H7 as [H7 H7'].
    apply bool_decide_eq_false in H8. split; try done; try lia.
    + destruct (rate_limit_capacity c) as [z| |]; try done. exists z. cbn [dlt] in H6'. split; [done|lia].
    + destruct (rate_limit_refill_rate c) as [z| |]; try done. exists z. cbn [dlt] in H7'. split; [done|lia].
  - intros [H1 H2 H3 H4 H5 (z & H6 & Hz) (z' & H7 & Hz') H8 H9 H10]. rewrite H6, H7. cbn [is_finite negb orb dlt].
    rewrite (bool_decide_eq_false_2 (storage_directory c = [])) by done. split_and!; try done; lia.
Qed.

(** ** The numbers a configuration can hold *)

Definition well_formed (a : double) : Prop :=
  match a with Fin z => Z.abs z < overflow_threshold /\ representable (Z.abs z) | _ => True end.

Lemma decimal_double_well_formed negative m e a :
  0 <= m -> decimal_double negative m e = Some a -> well_formed a.
Proof.
  intros Hm. unfold decimal_double. pose proof one_pos.
  assert (Hp : forall k, 0 < 10 ^ Z.max 0 k) by (intros k; apply Z.pow_pos_nonneg; lia).
  pose proof (Hp e). pose proof (Hp (- e)).
  destruct (rounded_nonneg (m * 10 ^ Z.max 0 e * one) (10 ^ Z.max 0 (- e))) as [->|(z & -> & Hz & Hr)];
    [done|nia|done|].
  intros [= <-]. cbn [well_formed]. destruct negative; rewrite ?Z.abs_opp, Z.abs_eq by lia; split; done || lia.
Qed.

Lemma decimal_value_nonneg l1 l2 :
  0 <= decimal_value (take_while is_digit l1 ++ take_while is_digit l2).
Proof. apply decimal_value_range, Forall_app_2; apply take_while_Forall. Qed.

Lemma parse_double_well_formed s a : parse_double s = Some a -> well_formed a.
Proof.
  unfold parse_double. destruct (read_sign _) as [negative s1].
  set (fr := match drop_while is_digit s1 with c :: s' => _ | [] => _ end).
  assert (Hfr : exists l, fr.1 = take_while is_digit l).
  { unfold fr. destruct (drop_while is_digit s1) as [|c s2]; [by exists []|].
    destruct (bool_decide (c = x2e)); [by exists s2|by exists []]. }
  destruct fr as [fraction s3]. destruct Hfr as [l Hfr]. cbn in Hfr. subst fraction. case_bool_decide; [done|].
  destruct (read_exponent s3) as [[e rest]|]; [|done]. destruct (negb _); [done|].
  apply decimal_double_well_formed, decimal_value_nonneg.
Qed.

Definition config_numbers (c : Config) : Prop :=
  well_formed (rate_limit_capacity c) /\ well_formed (rate_limit_refill_rate c) /\
  0 <= recent_message_capacity c /\ 0 <= epoll_worker_count c.

Lemma parse_unsigned_nonneg modulus s n : 0 < modulus -> parse_unsigned modulus s = Some n -> 0 <= n.
Proof.
  intros Hm. unfold parse_unsigned. destruct (read_sign _) as [negative s1]. destruct (_ || _); [done|].
  destruct (_ <=? _); [done|]. intros [= <-]. destruct negative; [by apply Z.mod_pos_bound|].
  apply decimal_value_range, take_while_Forall.
Qed.

Lemma double_of_Z_exact n : 0 <= n < 2 ^ 53 -> double_of_Z n = Fin (n * one) /\
  n * one < overflow_threshold /\ representable (n * one).
Proof.
  intros Hn. pose proof one_pos.
  assert (Hr : representable (n * one)).
  { apply scaled_representable; [unfold unit_bits; lia|lia]. }
  assert (Ht : n * one < overflow_threshold).
  { unfold overflow_threshold. rewrite Z.pow_add_r by (unfold unit_bits; lia). fold one.
    apply Z.mul_lt_mono_pos_r; [done|]. eapply Z.lt_trans; [apply Hn|]. apply Z.pow_lt_mono_r; lia. }
  split; [|done]. apply rounded_exact; [|done]. nia.
Qed.

Lemma well_formed_of_Z n : 0 <= n < 2 ^ 53 -> well_formed (double_of_Z n).
Proof.
  intros Hn. destruct (double_of_Z_exact n Hn) as (-> & Ht & Hr). pose proof one_pos.
  cbn. rewrite Z.abs_eq by nia. done.
Qed.

Lemma outcome_bind_inv {A B} (m : outcome A) (f : A -> outcome B) b :
  (m ≫= f) = Ok b -> exists a, m = Ok a /\ f a = Ok b.
Proof. destruct m as [a|e]; intros H; [by exists a|done]. Qed.

Lemma set_field_numbers f key value c c' :
  config_numbers c -> set_field f key value c = Ok c' -> config_numbers c'.
Proof.
  intros (H1 & H2 & H3 & H4) He. destruct c. unfold set_field in He.
  destruct f;
    first [injection He as <-
          |apply outcome_bind_inv in He as (n & Hp & [= <-]); unfold parse_number in Hp;
           case_match; simplify_eq];
    split_and!; cbn; try done;
    first [by eapply parse_double_well_formed | by eapply (parse_unsigned_nonneg u64_modulus)
          | by eapply (parse_unsigned_nonneg u32_modulus)].
Qed.

Lemma apply_setting_numbers key value c c' :
  config_numbers c -> apply_setting key value c = Ok c' -> config_numbers c'.
Proof.
  intros Hc. unfold apply_setting. destruct (assoc key field_names); [|done]. by apply set_field_numbers.
Qed.

Lemma load_lines_numbers path n lines c c' :
  config_numbers c -> load_lines path n lines c = Ok c' -> config_numbers c'.
Proof.
  revert n c. induction lines as [|l lines IH]; intros n c Hc He; cbn [load_lines] in He; [by simplify_eq|].
  apply outcome_bind_inv in He as (c1 & Hl & He). apply (IH (n + 1) c1); [|done].
  unfold load_line in Hl. repeat case_match; simplify_eq; try done; by eapply apply_setting_numbers.
Qed.

Lemma default_numbers : config_numbers default_config.
Proof. split_and!; [apply well_formed_of_Z; lia..|cbn; lia|cbn; lia]. Qed.

Section Loading.
Context (read_file : bytes -> option bytes).

Lemma load_file_ok path c : load_file read_file path = Ok c -> valid_config c /\ config_numbers c.
Proof.
  unfold load_file. destruct (read_file path) as [content|]; [|done].
  intros (c1 & Hl & ([] & Hv & [= ->])%outcome_bind_inv)%outcome_bind_inv. split.
  - by apply validate_ok.
  - eapply load_lines_numbers; [apply default_numbers|exact Hl].
Qed.

Lemma apply_args_numbers args c c' :
  config_numbers c -> apply_args args c = Ok c' -> config_numbers c'.
Proof.
  remember (length args) as n eqn:Hn. revert args c Hn.
  induction n as [n IH] using lt_wf_ind. intros args c -> Hc He.
  destruct args as [|opt args]; cbn [apply_args] in He; [by simplify_eq|].
  case_bool_decide.
  - destruct args as [|v args]; [by simplify_eq|]. eapply (IH (length args)); [cbn; lia|done..].
  - destruct (assoc opt options); [|done]. destruct args as [|v args]; [done|].
    apply outcome_bind_inv in He as (c1 & H1 & H2). eapply (IH (length args)); [cbn; lia|done| |exact H2].
    by eapply apply_setting_numbers.
Qed.

Lemma from_args_ok args c : from_args read_file args = Ok c -> valid_config c /\ config_numbers c.
Proof.
  unfold from_args.
  intros (path & _ & (c0 & H0 & (c1 & H1 & ([] & Hv & [= ->])%outcome_bind_inv)%outcome_bind_inv)%outcome_bind_inv)%outcome_bind_inv.
  split; [by apply validate_ok|]. eapply apply_args_numbers; [|exact H1].
  case_bool_decide; [simplify_eq; apply default_numbers|by eapply load_file_ok].
Qed.
End Loading.

(** What the components need of the settings they are built from. *)
Record usable (c : Config) : Prop := {
  use_log : open_args (storage_segment_size c) (Z.to_nat (recent_message_capacity c));
  use_limiter : forall now, bucket_inv (new_bucket (rate_limit_capacity c) (rate_limit_refill_rate c) now);
  use_admits : dlt (rate_limit_capacity c) (Fin one) = false;
  use_pool : (0 < Z.to_nat (thread_pool_size c))%nat /\ (0 < Z.to_nat (task_queue_capacity c))%nat;
  use_metrics : epoll_worker_count c <= 256
}.

Lemma valid_usable c : valid_config c -> config_numbers c -> usable c.
Proof.
  intros [V1 V2 V3 V4 V5 (z & V6 & Hz) (z' & V7 & Hz') V8 V9 V10] (N1 & N2 & Hrm & _). rewrite V6 in N1. rewrite V7 in N2.
  cbn in N1, N2. pose proof one_pos. rewrite Z.abs_eq in N1, N2 by lia.
  destruct N1 as [N1 N1'], N2 as [N2 N2'].
  assert (Hc : finite_nonneg (Fin z)) by (exists z; split_and!; done || lia).
  assert (Hr : finite_nonneg (Fin z')) by (exists z'; split_and!; done || lia).
  split; rewrite ?V6, ?V7; cbn [dlt]; try lia.
  - split; [unfold off_max; lia|lia].
  - intros now. split; cbn; try done. lia.
Qed.

(** C26: whatever the file and the arguments contain, a configuration that
    [from_args] returns is within the documented ranges, and its values are what
    the other components need: a segment size and a cache capacity that [open]
    accepts, finite rate-limit numbers that make a good token bucket able to
    admit a request, at least one pool thread and queue slot. *)
Theorem from_args_usable read_file args c :
  from_args read_file args = Ok c -> valid_config c /\ usable c.
Proof. intros [Hv Hn]%from_args_ok. split; [done|by apply valid_usable]. Qed.

Lemma from_args_usable_witness : usable default_config.
Proof.
  apply (from_args_usable (fun _ => None) [] default_config). vm_compute. reflexivity.
Defined.

(** ** Reading back a written file *)

Lemma getlines_app l cur rest :
  x0a ∉ l -> getlines cur (l ++ x0a :: rest) = (cur ++ l) :: getlines [] rest.
Proof.
  revert cur. induction l as [|c l IH]; intros cur Hl; cbn [app getlines].
  - by rewrite bool_decide_eq_true_2, app_nil_r by done.
  - apply not_elem_of_cons in Hl as [Hc Hl]. rewrite bool_decide_eq_false_2 by (by apply not_eq_sym).
    rewrite IH by done. by rewrite <- app_assoc.
Qed.

Lemma getlines_block lines :
  Forall (fun l => x0a ∉ l) lines -> getlines [] (concat ((fun l => l ++ [x0a]) <$> lines)) = lines.
Proof.
  induction 1 as [|l lines Hl _ IH]; [done|]. rewrite fmap_cons. cbn [concat].
  rewrite <- app_assoc. cbn [app]. by rewrite getlines_app, IH.
Qed.

(** A value as it is written: no comment sign, no line end, no blank at its ends. *)
Record value_ok (v : bytes) : Prop := {
  vo_nonempty : v <> [];
  vo_comment : x23 ∉ v;
  vo_line : x0a ∉ v;
  vo_trim : config_trim v = v
}.

Lemma config_trim_ends (s : bytes) a b :
  is_space a = false -> is_space b = false -> config_trim (a :: s ++ [b]) = a :: s ++ [b].
Proof.
  intros Ha Hb. unfold config_trim. cbn [drop_while]. rewrite Ha.
  change (a :: s ++ [b]) with ((a :: s) ++ [b]). rewrite reverse_snoc. cbn [drop_while]. rewrite Hb.
  rewrite <- reverse_snoc, reverse_involutive. done.
Qed.

(** Trimmed text starts and ends with something else than a blank. *)
Lemma drop_while_head P (s : bytes) :
  match drop_while P s with c :: _ => P c = false | [] => True end.
Proof. induction s as [|c s IH]; cbn; [done|]. by destruct (P c) eqn:E. Qed.

Lemma trimmed_ends v :
  v <> [] -> config_trim v = v ->
  (exists a s, v = a :: s /\ is_space a = false) /\ (exists s b, v = s ++ [b] /\ is_space b = false).
Proof.
  intros Hne Ht. unfold config_trim in Ht. set (d := drop_while is_space v) in *.
  pose proof (drop_while_head is_space (reverse d)) as Hlast.
  destruct (drop_while is_space (reverse d)) as [|b r] eqn:Hr; [by rewrite <- Ht in Hne|].
  split.
  - pose proof (drop_while_head is_space v) as Hhead. fold d in Hhead.
    destruct v as [|a s]; [done|]. exists a, s. split; [done|].
    destruct (is_space a) eqn:Ha; [|done]. exfalso.
    assert (Hlen : (length d < length (a :: s))%nat).
    { unfold d. cbn [drop_while]. rewrite Ha. clear. cbn. induction s as [|c s IH]; cbn; [lia|].
      destruct (is_space c); cbn; lia. }
    assert (Hlen' : (length (drop_while is_space (reverse d)) <= length (reverse d))%nat).
    { clear. induction (reverse d) as [|c l IH]; cbn; [lia|]. destruct (is_space c); cbn; lia. }
    rewrite Hr in Hlen'. rewrite <- Ht in Hlen. rewrite length_reverse in Hlen, Hlen'. lia.
  - exists (reverse r), b. by rewrite <- Ht, reverse_cons.
Qed.

Lemma load_line_setting path n key v c :
  value_ok v -> key <> [] -> Forall (fun ch => is_space ch = false) key -> (x23 ∉ key) -> (x3d ∉ key) ->
  load_line path n (key ++ x3d :: v) c = apply_setting key v c.
Proof.
  intros [Hv Hc Hl Ht] Hk Hks Hkc Hke. unfold load_line.
  rewrite find_char_None by (rewrite not_elem_of_app, not_elem_of_cons; by split_and!).
  destruct (trimmed_ends v Hv Ht) as [_ (s & b & Hvs & Hb)].
  destruct key as [|a key']; [done|]. apply Forall_cons in Hks as [Ha Hks].
  assert (Hline : config_trim ((a :: key') ++ x3d :: v) = (a :: key') ++ x3d :: v).
  { rewrite Hvs. change ((a :: key') ++ x3d :: s ++ [b]) with (a :: key' ++ (x3d :: s) ++ [b]).
    rewrite app_assoc. by apply config_trim_ends. }
  rewrite Hline. rewrite bool_decide_eq_false_2 by done. rewrite find_char_app by done.
  unfold substr, substr_from. rewrite drop_0, take_app_length.
  replace (drop (length (a :: key') + 1) ((a :: key') ++ x3d :: v)) with v.
  2:{ rewrite cons_middle, app_assoc. symmetry. apply drop_app_length'. rewrite length_app. done. }
  assert (Hkey : config_trim (a :: key') = a :: key').
  { destruct (exists_last (l := a :: key') ltac:(done)) as (l & z & Hlz).
    destruct l as [|a' l].
    - injection Hlz as -> ->. unfold config_trim. cbn. rewrite Ha. cbn. rewrite Ha. done.
    - injection Hlz as -> ->. apply config_trim_ends; [done|].
      apply Forall_app in Hks as [_ Hz]. by apply Forall_inv in Hz. }
  rewrite Ht, Hkey. by rewrite !bool_decide_eq_false_2 by done.
Qed.

(** ** Numerals *)

Lemma digits_ok n :
  0 <= n ->
  value_ok (decimal n) /\ drop_while is_stream_space (decimal n) = decimal n /\
  read_sign (decimal n) = (false, decimal n) /\ take_while is_digit (decimal n) = decimal n /\
  drop_while is_digit (decimal n) = [] /\ decimal n <> [].
Proof.
  intros Hn. destruct (decimal_spec n Hn) as (_ & Hd & Hl & _).
  assert (Hne : decimal n <> []) by (intros E; rewrite E in Hl; cbn in Hl; lia).
  assert (Hno : forall P : byte -> bool, (forall c, is_digit c = true -> P c = false) ->
    Forall (fun c => P c = false) (decimal n)).
  { intros P HP. eapply Forall_impl; [exact Hd|]. auto. }
  assert (Hnot : forall c, is_digit c = false -> c ∉ decimal n).
  { intros c Hc Hin. rewrite Forall_forall in Hd. rewrite (Hd c Hin) in Hc. done. }
  assert (Hdw : forall P : byte -> bool, (forall c, is_digit c = true -> P c = false) ->
    forall l, Forall (fun c => is_digit c = true) l -> drop_while P l = l).
  { intros P HP l Hl0. apply drop_while_none. destruct Hl0 as [|c l Hc _]; [done|]. by apply HP. }
  assert (Hspace : forall c, is_digit c = true -> is_stream_space c = false).
  { intros c Hc. unfold is_stream_space, is_space. by rewrite !bool_decide_eq_false_2 by (intros ->; by vm_compute in Hc). }
  assert (Hspace' : forall c, is_digit c = true -> is_space c = false).
  { intros c Hc. unfold is_space. by rewrite !bool_decide_eq_false_2 by (intros ->; by vm_compute in Hc). }
  split_and!; try done.
  - split; [done|by apply Hnot|by apply Hnot|]. unfold config_trim.
    rewrite (Hdw is_space Hspace' (decimal n)) by done.
    rewrite (Hdw is_space Hspace' (reverse _)) by (by apply Forall_reverse). apply reverse_involutive.
  - by apply Hdw.
  - destruct (decimal n) as [|c l]; [done|]. apply Forall_cons in Hd as [Hc _]. cbn [read_sign].
    by rewrite !bool_decide_eq_false_2 by (intros ->; by vm_compute in Hc).
  - by apply take_while_all.
  - rewrite <- (app_nil_r (decimal n)). by apply drop_while_app.
Qed.

Lemma parse_int_decimal n : 0 <= n < 2 ^ 31 -> parse_int (decimal n) = Some n.
Proof.
  intros Hn. destruct (digits_ok n) as (_ & H1 & H2 & H3 & H4 & H5); [lia|].
  unfold parse_int. rewrite H1, H2, H3, H4, bool_decide_eq_false_2 by done. cbn [orb negb no_extra forallb].
  destruct (decimal_spec n) as (Hv & _); [lia|]. rewrite Hv.
  by replace ((n <? - 2 ^ 31) || (2 ^ 31 - 1 <? n)) with false by lia.
Qed.

Lemma parse_unsigned_decimal modulus n : 0 <= n < modulus -> parse_unsigned modulus (decimal n) = Some n.
Proof.
  intros Hn. destruct (digits_ok n) as (_ & H1 & H2 & H3 & H4 & H5); [lia|].
  unfold parse_unsigned. rewrite H1, H2, H3, H4, bool_decide_eq_false_2 by done. cbn [orb negb no_extra forallb].
  destruct (decimal_spec n) as (Hv & _); [lia|]. rewrite Hv.
  by replace (modulus <=? n) with false by lia.
Qed.

Lemma parse_double_decimal n : 0 <= n < 2 ^ 53 -> parse_double (decimal n) = Some (double_of_Z n).
Proof.
  intros Hn. destruct (digits_ok n) as (_ & H1 & H2 & H3 & H4 & H5); [lia|].
  unfold parse_double. rewrite H1, H2, H3, H4. rewrite app_nil_r, bool_decide_eq_false_2 by done.
  cbn [read_exponent no_extra forallb negb length]. unfold decimal_double.
  destruct (decimal_spec n) as (Hv & _); [lia|]. rewrite Hv.
  change (Z.max 0 (0 - Z.of_nat 0)) with 0. change (Z.max 0 (- (0 - Z.of_nat 0))) with 0.
  change (10 ^ 0) with 1. rewrite Z.mul_1_r. fold (double_of_Z n).
  by destruct (double_of_Z_exact n Hn) as (-> & _).
Qed.

(** ** Writing a configuration *)

(** The settings of a configuration whose rate-limit numbers are the integers
    [rc] and [rr], as text. *)
Definition settings (c : Config) (rc rr : Z) : list (bytes * bytes) :=
  [(B "port", decimal (port c)); (B "backlog", decimal (backlog c));
   (B "epoll_worker_count", decimal (epoll_worker_count c));
   (B "thread_pool_size", decimal (thread_pool_size c));
   (B "task_queue_capacity", decimal (task_queue_capacity c));
   (B "log_path", log_path c);
   (B "rate_limit_capacity", decimal rc); (B "rate_limit_refill_rate", decimal rr);
   (B "storage_directory", storage_directory c);
   (B "storage_segment_size", decimal (storage_segment_size c));
   (B "recent_message_capacity", decimal (recent_message_capacity c))].

Definition setting_line (kv : bytes * bytes) : bytes := kv.1 ++ x3d :: kv.2.

Definition config_file (c : Config) (rc rr : Z) : bytes :=
  concat ((fun l => l ++ [x0a]) <$> (setting_line <$> settings c rc rr)).

Record writable (c : Config) (rc rr : Z) : Prop := {
  wr_valid : valid_config c;
  wr_backlog : backlog c < 2 ^ 31;
  wr_counts : 0 <= epoll_worker_count c /\ 0 <= recent_message_capacity c;
  wr_rates : rate_limit_capacity c = double_of_Z rc /\ rate_limit_refill_rate c = double_of_Z rr /\
             0 <= rc < 2 ^ 53 /\ 0 <= rr < 2 ^ 53;
  wr_paths : value_ok (log_path c) /\ value_ok (storage_directory c)
}.

(** A key of [apply] as it appears in a file. *)
Definition key_ok (key : bytes) : bool :=
  negb (bool_decide (key = [])) && forallb (fun c => negb (is_space c)) key &&
  bool_decide (x23 ∉ key) && bool_decide (x3d ∉ key) && bool_decide (x0a ∉ key).

Lemma load_setting path n kv c :
  key_ok kv.1 = true -> value_ok kv.2 ->
  load_line path n (setting_line kv) c = apply_setting kv.1 kv.2 c.
Proof.
  unfold key_ok. rewrite !andb_true_iff. intros [[[[H1 H2] H3] H4] H5] Hv.
  apply negb_true_iff, bool_decide_eq_false in H1. apply bool_decide_eq_true in H3, H4.
  apply load_line_setting; try done. apply Forall_forall. intros ch Hin.
  rewrite forallb_forall in H2. apply list_elem_of_In in Hin. by apply negb_true_iff, H2.
Qed.

Lemma load_settings path n kvs c :
  Forall (fun kv => key_ok kv.1 = true /\ value_ok kv.2) kvs ->
  load_lines path n (setting_line <$> kvs) c =
  foldl (fun r kv => c ← r; apply_setting kv.1 kv.2 c) (Ok c) kvs.
Proof.
  intros H. revert n c. induction H as [|kv kvs [Hk Hv] Hkvs IH]; intros n c; [done|].
  rewrite fmap_cons. cbn [load_lines foldl]. rewrite load_setting by done.
  cbn [mbind outcome_bind]. destruct (apply_setting kv.1 kv.2 c) as [c1|e]; [apply IH|].
  clear. induction kvs as [|kv' kvs IH]; [done|]. exact IH.
Qed.

Lemma apply_setting_key key f value c :
  assoc key field_names = Some f -> apply_setting key value c = set_field f key value c.
Proof. intros H. unfold apply_setting. by rewrite H. Qed.

(** One setting after another, each numeral read back. *)
Ltac apply_next key f :=
  rewrite (apply_setting_key key f) by reflexivity; cbn [set_field]; unfold parse_number;
  rewrite ?parse_int_decimal, ?parse_unsigned_decimal, ?parse_double_decimal
    by (unfold u32_modulus, u64_modulus; lia);
  cbn [mbind outcome_bind mret outcome_ret].

Lemma apply_settings c rc rr :
  writable c rc rr ->
  foldl (fun r kv => c ← r; apply_setting kv.1 kv.2 c) (Ok default_config) (settings c rc rr) = Ok c.
Proof.
  intros [[V1 V2 V3 V4 V5 V6 V7 V8 V9 V10] Hb [He Hr] (Hrc & Hrr & Hrc' & Hrr') _].
  destruct c as [p b ew ps qc lp cap ref sd ss rm].
  cbn [port backlog epoll_worker_count thread_pool_size task_queue_capacity log_path rate_limit_capacity
    rate_limit_refill_rate storage_directory storage_segment_size recent_message_capacity] in *.
  unfold settings, default_config.
  cbn [foldl fst snd port backlog epoll_worker_count thread_pool_size task_queue_capacity log_path
    storage_directory storage_segment_size recent_message_capacity].
  change (Ok ?x ≫= ?f) with (f x). cbv beta.
  apply_next (B "port") FPort. apply_next (B "backlog") FBacklog.
  apply_next (B "epoll_worker_count") FEpollWorkers. apply_next (B "thread_pool_size") FPoolSize.
  apply_next (B "task_queue_capacity") FQueueCapacity. apply_next (B "log_path") FLogPath.
  apply_next (B "rate_limit_capacity") FRateCapacity. apply_next (B "rate_limit_refill_rate") FRateRefill.
  apply_next (B "storage_directory") FStorageDirectory. apply_next (B "storage_segment_size") FSegmentSize.
  apply_next (B "recent_message_capacity") FRecentCapacity. by rewrite Hrc, Hrr.
Qed.


Module Deployed.
Definition configuration : Config :=
  mkConfig 9001 64 2 3 512 (B "server.log") (double_of_Z 8) (double_of_Z 0) (B "data/fleet") 4096 16.
End Deployed.


(** ** Overrides *)

(** Options of the command line, each with its value. *)
Definition command_line (opts : list (bytes * bytes)) : list bytes :=
  concat ((fun ov => [ov.1; ov.2]) <$> opts).

(** One option: its value goes to the setting it stands for. *)
Definition override (c : Config) (ov : bytes * bytes) : outcome Config :=
  match assoc ov.1 options with
  | Some key => apply_setting key ov.2 c
  | None => Throw (runtime_error (B "Unknown argument: " ++ ov.1))
  end.

Lemma config_path_of_options opts path :
  Forall (fun ov => ov.1 <> B "--config" /\ ov.2 <> B "--config") opts ->
  config_path_of (command_line opts) path = Ok path.
Proof.
  induction 1 as [|[o v] opts [Ho Hv] _ IH]; [done|]. unfold command_line. rewrite fmap_cons.
  cbn [concat app fst snd config_path_of] in *. by rewrite !bool_decide_eq_false_2.
Qed.

Lemma apply_args_options opts c :
  Forall (fun ov => ov.1 <> B "--config" /\ ov.2 <> B "--config") opts ->
  apply_args (command_line opts) c = foldl (fun r ov => c ← r; override c ov) (Ok c) opts.
Proof.
  intros H. revert c. induction H as [|[o v] opts [Ho Hv] _ IH]; intros c; [done|].
  unfold command_line. rewrite fmap_cons. cbn [concat app fst snd apply_args foldl] in *.
  rewrite bool_decide_eq_false_2 by done. change (Ok ?x ≫= ?f) with (f x). cbv beta.
  assert (Hthrow : forall e (l : list (bytes * bytes)),
    foldl (fun r ov => c ← r; override c ov) (Throw e) l = Throw e).
  { intros e l. induction l; [done|]. assumption. }
  unfold override at 2. cbn [fst snd]. destruct (assoc o options) as [key|]; [|by rewrite Hthrow].
  destruct (apply_setting key v c) as [c1|e]; [exact (IH c1)|by rewrite Hthrow].
Qed.

(** On [--config path] followed by options, the result is the file's
    configuration with the options applied on top of it from left to right, and
    then validated; an error of the file, an unknown option or a bad value is the
    error that is thrown. *)
Theorem command_line_overrides_file read_file path opts :
  path <> [] -> Forall (fun ov => ov.1 <> B "--config" /\ ov.2 <> B "--config") opts ->
  from_args read_file (B "--config" :: path :: command_line opts) =
  c ← load_file read_file path;
  c ← foldl (fun r ov => c ← r; override c ov) (Ok c) opts;
  validate c ≫= fun _ => mret c.
Proof.
  intros Hp Ho. unfold from_args. cbn [config_path_of apply_args].
  rewrite !bool_decide_eq_true_2 by done. rewrite config_path_of_options by done.
  change (Ok ?x ≫= ?f) with (f x). cbv beta. rewrite bool_decide_eq_false_2 by done.
  destruct (load_file read_file path) as [c|e]; [|done].
  change (Ok ?x ≫= ?f) with (f x). cbv beta. by rewrite apply_args_options.
Qed.

Lemma command_line_overrides_witness :
  from_args (fun _ => Some ConfigTests.file) [B "--config"; B "f"; B "--port"; B "0"]
  = Throw (runtime_error (B "port must be between 1 and 65535")).
Proof.
  change [B "--config"; B "f"; B "--port"; B "0"]
    with (B "--config" :: B "f" :: command_line [(B "--port", B "0")]).
  rewrite (command_line_overrides_file (fun _ => Some ConfigTests.file) (B "f") [(B "--port", B "0")]).
  - vm_compute. reflexivity.
  - discriminate.
  - repeat constructor; discriminate.
Defined.

(** A negative number for an unsigned setting is not an error: it is taken
    modulo the width of the type, so [-(2^64 - n)] sets [n]. *)
Theorem negative_unsigned_wraps modulus n :
  0 < n < modulus -> parse_unsigned modulus (x2d :: decimal (modulus - n)) = Some n.
Proof.
  intros Hn. destruct (digits_ok (modulus - n)) as (_ & H1 & H2 & H3 & H4 & H5); [lia|].
  unfold parse_unsigned. cbn [drop_while]. change (is_stream_space x2d) with false. cbn [read_sign].
  rewrite bool_decide_eq_true_2 by done. rewrite H3, H4, bool_decide_eq_false_2 by done.
  cbn [orb negb no_extra forallb]. destruct (decimal_spec (modulus - n)) as (Hv & _); [lia|]. rewrite Hv.
  replace (modulus <=? modulus - n) with false by lia. f_equal.
  replace (- (modulus - n)) with (n + -1 * modulus) by lia. rewrite Z.mod_add by lia. by apply Z.mod_small; lia.
Qed.

Lemma negative_unsigned_witness : parse_unsigned u32_modulus (B "-4294967292") = Some 4.
Proof.
  change (B "-4294967292") with (x2d :: decimal (u32_modulus - 4)).
  apply (negative_unsigned_wraps u32_modulus 4). unfold u32_modulus. lia.
Defined.
