(* ===== verification/Metrics.v ===== *)
(** * Metrics: counters, histogram and the exposition text

    Models src/src/monitoring/metrics.h and metrics.cpp.  A method is the
    sequence of its accesses to the atomic members, the update of the duration
    members under their mutex being one access; the accesses of concurrent calls
    interleave.  [compare_exchange_weak] may fail for no reason, as the standard
    allows.  The exposition prints doubles as an [ostream] with precision 9 does
    ([%.9g]). *)
From stdpp Require Import base gmap list numbers strings.
From Stdlib Require Import Strings.Byte.
From S2P Require Import Prelude Text Double RateLimiter.

Local Open Scope Z_scope.

(** ** Data *)

Record EpollWorkerMetrics := mkWorker {
  wm_accepted_connections : Z;
  wm_requests : Z;
  wm_completed_requests : Z;
  wm_completion_queue_depth : Z;
  wm_completion_queue_high_water : Z
}.

Record Metrics := mkMetrics {
  process_start : Z;
  accepted_connections : Z;
  open_connections : Z;
  requests : Z;
  blocked_requests : Z;
  parse_errors : Z;
  response_status_classes : list Z;
  epoll_workers : list EpollWorkerMetrics;
  epoll_worker_count_cell : Z;
  duration_bucket_counts : list Z;
  duration_observations : Z;
  duration_sum : double
}.

(** The bounds of the histogram: the doubles nearest to [n / 1000]. *)
Definition duration_buckets : list double :=
  (fun n => rounded (n * one) 1000) <$> [5; 10; 25; 50; 100; 250; 500; 1000; 2500; 5000; 10000].

Definition max_workers : nat := 256.
Definition empty_worker : EpollWorkerMetrics := mkWorker 0 0 0 0 0.

Definition new_metrics (now : Z) : Metrics :=
  mkMetrics now 0 0 0 0 0 (replicate 5 0) (replicate max_workers empty_worker) 0 (replicate 11 0) 0 (Fin 0).

(** ** The atomic members *)

Inductive cell :=
| Accepted | OpenNow | Requests | Blocked | ParseErrors | StatusClass (i : nat)
| WorkerAccepted (w : nat) | WorkerRequests (w : nat) | WorkerCompleted (w : nat)
| QueueDepth (w : nat) | QueueHighWater (w : nat) | WorkerCount.
#[export] Instance cell_eq_dec : EqDecision cell.
Proof. solve_decision. Defined.

Definition worker_at (w : nat) (m : Metrics) : EpollWorkerMetrics :=
  default empty_worker (epoll_workers m !! w).

Definition load (c : cell) (m : Metrics) : Z :=
  match c with
  | Accepted => accepted_connections m
  | OpenNow => open_connections m
  | Requests => requests m
  | Blocked => blocked_requests m
  | ParseErrors => parse_errors m
  | StatusClass i => default 0 (response_status_classes m !! i)
  | WorkerAccepted w => wm_accepted_connections (worker_at w m)
  | WorkerRequests w => wm_requests (worker_at w m)
  | WorkerCompleted w => wm_completed_requests (worker_at w m)
  | QueueDepth w => wm_completion_queue_depth (worker_at w m)
  | QueueHighWater w => wm_completion_queue_high_water (worker_at w m)
  | WorkerCount => epoll_worker_count_cell m
  end.

Definition set_worker (w : nat) (f : EpollWorkerMetrics -> EpollWorkerMetrics)
    (ws : list EpollWorkerMetrics) : list EpollWorkerMetrics := alter f w ws.

Definition store_cell (c : cell) (v : Z) (m : Metrics) : Metrics :=
  let 'mkMetrics ps ac op rq bl pe sc ws wc dc dn ds := m in
  match c with
  | Accepted => mkMetrics ps v op rq bl pe sc ws wc dc dn ds
  | OpenNow => mkMetrics ps ac v rq bl pe sc ws wc dc dn ds
  | Requests => mkMetrics ps ac op v bl pe sc ws wc dc dn ds
  | Blocked => mkMetrics ps ac op rq v pe sc ws wc dc dn ds
  | ParseErrors => mkMetrics ps ac op rq bl v sc ws wc dc dn ds
  | StatusClass i => mkMetrics ps ac op rq bl pe (<[i := v]> sc) ws wc dc dn ds
  | WorkerAccepted w =>
      mkMetrics ps ac op rq bl pe sc
        (set_worker w (fun x => mkWorker v (wm_requests x) (wm_completed_requests x)
           (wm_completion_queue_depth x) (wm_completion_queue_high_water x)) ws) wc dc dn ds
  | WorkerRequests w =>
      mkMetrics ps ac op rq bl pe sc
        (set_worker w (fun x => mkWorker (wm_accepted_connections x) v (wm_completed_requests x)
           (wm_completion_queue_depth x) (wm_completion_queue_high_water x)) ws) wc dc dn ds
  | WorkerCompleted w =>
      mkMetrics ps ac op rq bl pe sc
        (set_worker w (fun x => mkWorker (wm_accepted_connections x) (wm_requests x) v
           (wm_completion_queue_depth x) (wm_completion_queue_high_water x)) ws) wc dc dn ds
  | QueueDepth w =>
      mkMetrics ps ac op rq bl pe sc
        (set_worker w (fun x => mkWorker (wm_accepted_connections x) (wm_requests x)
           (wm_completed_requests x) v (wm_completion_queue_high_water x)) ws) wc dc dn ds
  | QueueHighWater w =>
      mkMetrics ps ac op rq bl pe sc
        (set_worker w (fun x => mkWorker (wm_accepted_connections x) (wm_requests x)
           (wm_completed_requests x) (wm_completion_queue_depth x) v) ws) wc dc dn ds
  | WorkerCount => mkMetrics ps ac op rq bl pe sc ws v dc dn ds
  end.

(** ** The duration members *)

Definition dle (a b : double) : bool :=
  match a, b with NaN, _ | _, NaN => false | _, _ => negb (dlt b a) end.

(** The critical section of [request_completed]. *)
Definition observe (seconds : double) (m : Metrics) : Metrics :=
  mkMetrics (process_start m) (accepted_connections m) (open_connections m) (requests m)
    (blocked_requests m) (parse_errors m) (response_status_classes m) (epoll_workers m)
    (epoll_worker_count_cell m)
    (zip_with (fun bound n => if dle seconds bound then u64_add n 1 else n)
       duration_buckets (duration_bucket_counts m))
    (u64_add (duration_observations m) 1)
    (dadd (duration_sum m) seconds).

(** ** Methods *)

(** An access to the shared members.  [LoadMax] and [CasMax] are the two parts of
    the loop that raises a high-water mark. *)
Inductive access :=
| Add (c : cell) (d : Z)
| Store (c : cell) (v : Z)
| LoadMax (w : nat) (size : Z)
| CasMax (w : nat) (size maximum : Z)
| Observe (seconds : double).

Definition for_worker (worker_id : nat) (accesses : list access) : list access :=
  if (worker_id <? max_workers)%nat then accesses else [].

Definition set_epoll_worker_count (n : nat) : list access :=
  [Store WorkerCount (Z.of_nat (n `min` max_workers))].

Definition connection_opened (worker_id : nat) : list access :=
  [Add Accepted 1; Add OpenNow 1] ++ for_worker worker_id [Add (WorkerAccepted worker_id) 1].

Definition connection_closed : list access := [Add OpenNow (-1)].

Definition request_started (worker_id : nat) : list access :=
  [Add Requests 1] ++ for_worker worker_id [Add (WorkerRequests worker_id) 1].

Definition request_completed (status : Z) (elapsed : double) (worker_id : nat) : list access :=
  (if (100 <=? status) && (status <? 600)
   then [Add (StatusClass (Z.to_nat (status / 100 - 1))) 1] else []) ++
  (if status =? 429 then [Add Blocked 1] else []) ++
  for_worker worker_id [Add (WorkerCompleted worker_id) 1] ++
  [Observe elapsed].

Definition completion_queue_size (worker_id size : nat) : list access :=
  for_worker worker_id [Store (QueueDepth worker_id) (Z.of_nat size); LoadMax worker_id (Z.of_nat size)].

Definition parse_error_seen : list access := [Add ParseErrors 1].

Definition active_connections (m : Metrics) : Z := load OpenNow m.

(** One access by a thread that is not disturbed. *)
Definition perform (a : access) (m : Metrics) : Metrics :=
  match a with
  | Add c d => store_cell c ((load c m + d) mod u64_modulus) m
  | Store c v => store_cell c v m
  | LoadMax w size | CasMax w size _ =>
      if load (QueueHighWater w) m <? size then store_cell (QueueHighWater w) size m else m
  | Observe seconds => observe seconds m
  end.
Definition run_accesses (l : list access) (m : Metrics) : Metrics := foldl (flip perform) m l.

(** ** Concurrent calls *)

Inductive metrics_call :=
| COpened (worker_id : nat)
| CClosed
| CStarted (worker_id : nat)
| CCompleted (status : Z) (elapsed : double) (worker_id : nat)
| CQueueSize (worker_id size : nat)
| CParseError
| CWorkerCount (n : nat).

Definition accesses (c : metrics_call) : list access :=
  match c with
  | COpened w => connection_opened w
  | CClosed => connection_closed
  | CStarted w => request_started w
  | CCompleted status elapsed w => request_completed status elapsed w
  | CQueueSize w size => completion_queue_size w size
  | CParseError => parse_error_seen
  | CWorkerCount n => set_epoll_worker_count n
  end.

(** The next access of a thread. *)
Inductive access_step : list access -> Metrics -> list access -> Metrics -> Prop :=
| as_add c d k m : access_step (Add c d :: k) m k (perform (Add c d) m)
| as_store c v k m : access_step (Store c v :: k) m k (perform (Store c v) m)
| as_observe x k m : access_step (Observe x :: k) m k (perform (Observe x) m)
| as_load w size k m :
    access_step (LoadMax w size :: k) m (CasMax w size (load (QueueHighWater w) m) :: k) m
| as_enough w size maximum k m :
    size <= maximum -> access_step (CasMax w size maximum :: k) m k m
| as_exchange w size maximum k m :
    maximum < size -> load (QueueHighWater w) m = maximum ->
    access_step (CasMax w size maximum :: k) m k (store_cell (QueueHighWater w) size m)
| as_failed w size maximum k m :
    maximum < size ->
    access_step (CasMax w size maximum :: k) m (CasMax w size (load (QueueHighWater w) m) :: k) m.

Record metrics_state := mkMS {
  ms_metrics : Metrics;
  ms_threads : list (list access);
  (** All calls made so far, and the durations observed so far, in their order. *)
  ms_calls : list metrics_call;
  ms_observed : list double
}.

Definition ms_init (now : Z) : metrics_state := mkMS (new_metrics now) [] [] [].

(** The duration a step adds to the histogram, if it adds one. *)
Definition observed_by (t : list access) : list double :=
  match t with Observe x :: _ => [x] | _ => [] end.

Inductive metrics_step : metrics_state -> metrics_state -> Prop :=
| ms_call s c :
    metrics_step s (mkMS (ms_metrics s) (ms_threads s ++ [accesses c]) (ms_calls s ++ [c]) (ms_observed s))
| ms_access s i t t' m' :
    ms_threads s !! i = Some t -> access_step t (ms_metrics s) t' m' ->
    metrics_step s (mkMS m' (<[i := t']> (ms_threads s)) (ms_calls s) (ms_observed s ++ observed_by t)).

(** Every call has returned. *)
Definition quiescent (s : metrics_state) : Prop := Forall (fun t => t = []) (ms_threads s).

(** ** Printing doubles *)

(** [floor (log10 (n / d))] of a positive fraction. *)
Definition decimal_exponent (n d : Z) : Z :=
  if d <=? n then zlen (decimal (n / d)) - 1 else - zlen (decimal ((d - 1) / n)).

(** The nine significant digits and the exponent of a positive fraction. *)
Definition nine_digits (n d : Z) : Z * Z :=
  let e := decimal_exponent n d in
  let digits := nearest_even (n * 10 ^ Z.max 0 (8 - e)) (d * 10 ^ Z.max 0 (e - 8)) in
  if digits =? 10 ^ 9 then (10 ^ 8, e + 1) else (digits, e).

Definition strip_zeros (s : bytes) : bytes :=
  reverse (drop_while (fun c => bool_decide (c = x30)) (reverse s)).

(** [whole] and a fraction without its trailing zeros. *)
Definition with_point (whole fraction : bytes) : bytes :=
  match strip_zeros fraction with [] => whole | f => whole ++ B "." ++ f end.

Definition format_nonneg (n d : Z) : bytes :=
  if n =? 0 then B "0" else
  let '(digits, e) := nine_digits n d in
  let text := decimal digits in
  if (e <? -4) || (9 <=? e) then
    with_point (take 1 text) (drop 1 text) ++ B "e" ++ (if e <? 0 then B "-" else B "+") ++
    pad_zero 2 (decimal (Z.abs e))
  else if e <? 0 then with_point (B "0") (replicate (Z.to_nat (- e - 1)) x30 ++ text)
  else with_point (take (Z.to_nat (e + 1)) text) (drop (Z.to_nat (e + 1)) text).

(** [output << x] after [setprecision(9)] *)
Definition format_double (x : double) : bytes :=
  match x with
  | NaN => B "nan"
  | Inf negative => if negative then B "-inf" else B "inf"
  | Fin z => if z <? 0 then B "-" ++ format_nonneg (- z) one else format_nonneg z one
  end.

(** ** The exposition *)

(** [name{label="value"}] *)
Definition labelled (name label value : bytes) : bytes :=
  name ++ B "{" ++ label ++ B "=" ++ [x22] ++ value ++ [x22] ++ B "}".

Definition sample (name : bytes) (value : bytes) : bytes := name ++ B " " ++ value.

Definition header (name kind help : string) : list bytes :=
  [B "# HELP " ++ B name ++ B " " ++ B help; B "# TYPE " ++ B name ++ B " " ++ B kind].

(** A series with one sample. *)
Definition series (name kind help : string) (value : bytes) : list bytes :=
  header name kind help ++ [sample (B name) value].

Definition responses_name : bytes := B "gateway_http_responses_total".
Definition bucket_name : bytes := B "gateway_http_request_duration_seconds_bucket".

Definition status_class_lines (m : Metrics) : list bytes :=
  imap (fun index n =>
          sample (labelled responses_name (B "status_class") (decimal (Z.of_nat index + 1) ++ B "xx"))
                 (decimal n))
       (response_status_classes m).

Definition duration_lines (m : Metrics) : list bytes :=
  zip_with (fun bound n => sample (labelled bucket_name (B "le") (format_double bound)) (decimal n))
    duration_buckets (duration_bucket_counts m) ++
  [sample (labelled bucket_name (B "le") (B "+Inf")) (decimal (duration_observations m));
   sample (B "gateway_http_request_duration_seconds_sum") (format_double (duration_sum m));
   sample (B "gateway_http_request_duration_seconds_count") (decimal (duration_observations m))].

Definition worker_lines (m : Metrics) (worker_id : nat) : list bytes :=
  let id := decimal (Z.of_nat worker_id) in
  let line name c := sample (labelled (B name) (B "worker") id) (decimal (load c m)) in
  [line "gateway_epoll_worker_connections_accepted_total" (WorkerAccepted worker_id);
   line "gateway_epoll_worker_requests_total" (WorkerRequests worker_id);
   line "gateway_epoll_worker_requests_completed_total" (WorkerCompleted worker_id);
   line "gateway_epoll_worker_completion_queue_depth" (QueueDepth worker_id);
   line "gateway_epoll_worker_completion_queue_high_water" (QueueHighWater worker_id)].

(** The lines of [prometheus_text], each ended by a line feed in the text. *)
Definition exposition (pool_workers busy_threads queue_length log_disk_bytes queue_high_water now : Z)
    (m : Metrics) : list bytes :=
  series "gateway_connections_active" "gauge" "Current open client connections."
    (decimal (active_connections m)) ++
  series "gateway_connections_accepted_total" "counter" "Client connections accepted since startup."
    (decimal (load Accepted m)) ++
  series "gateway_http_requests_total" "counter" "Parsed HTTP requests sent to the router."
    (decimal (load Requests m)) ++
  series "gateway_http_requests_blocked_total" "counter" "Requests rejected by rate limiting."
    (decimal (load Blocked m)) ++
  series "gateway_http_parse_errors_total" "counter" "Malformed HTTP requests rejected by the parser."
    (decimal (load ParseErrors m)) ++
  header "gateway_http_responses_total" "counter" "Responses grouped by status class." ++
  status_class_lines m ++
  header "gateway_http_request_duration_seconds" "histogram" "Request handling duration in seconds." ++
  duration_lines m ++
  series "process_uptime_seconds" "gauge" "Seconds since the gateway process started."
    (format_double (seconds (now - process_start m))) ++
  series "gateway_thread_pool_workers" "gauge" "Configured request worker threads."
    (decimal pool_workers) ++
  series "gateway_thread_pool_busy_threads" "gauge" "Request worker threads currently executing tasks."
    (decimal busy_threads) ++
  series "gateway_thread_pool_queue_length" "gauge" "Queued request tasks." (decimal queue_length) ++
  series "gateway_thread_pool_queue_high_water" "gauge"
    "Maximum shared request-pool queue depth since startup." (decimal queue_high_water) ++
  series "gateway_log_disk_bytes" "gauge"
    "Provisioned bytes across pre-sized log segment files." (decimal log_disk_bytes) ++
  concat (worker_lines m <$> seq 0 (Z.to_nat (load WorkerCount m))).

Definition prometheus_text (pool_workers busy_threads queue_length log_disk_bytes queue_high_water now : Z)
    (m : Metrics) : bytes :=
  concat ((fun line => line ++ [x0a]) <$>
    exposition pool_workers busy_threads queue_length log_disk_bytes queue_high_water now m).

(** ** The scenarios of tests/metrics_test.cpp *)

Module MetricsTests.
Definition text (l : list access) : bytes := prometheus_text 4 1 2 4096 0 7000000000 (run_accesses l (new_metrics 0)).
Definition has_lines (lines : list bytes) (l : list access) : bool :=
  let t := text l in
  forallb (fun line => bool_decide (is_Some (find (x0a :: line ++ [x0a]) t))) lines.
Definition two_requests : list access :=
  request_started 0 ++ request_completed 200 (rounded (2 * one) 100) 0 ++
  request_started 0 ++ request_completed 429 (rounded one 2) 0.

Example connections :
  has_lines [B "gateway_connections_active 1"] (connection_opened 0) &&
  has_lines [B "gateway_connections_active 0"; B "gateway_connections_accepted_total 1"]
    (connection_opened 0 ++ connection_closed) = true.
Proof. vm_compute. reflexivity. Qed.

Example requests_and_durations :
  has_lines
    [B "gateway_http_requests_total 2"; B "gateway_http_requests_blocked_total 1";
     sample (labelled responses_name (B "status_class") (B "2xx")) (B "1");
     sample (labelled responses_name (B "status_class") (B "4xx")) (B "1");
     sample (labelled bucket_name (B "le") (B "0.025")) (B "1");
     sample (labelled bucket_name (B "le") (B "+Inf")) (B "2");
     B "gateway_http_request_duration_seconds_count 2";
     B "gateway_http_request_duration_seconds_sum 0.52"] two_requests = true.
Proof. vm_compute. reflexivity. Qed.

Example errors_uptime_and_log :
  has_lines
    [B "gateway_http_parse_errors_total 1"; B "process_uptime_seconds 7"; B "gateway_log_disk_bytes 4096";
     B "# HELP gateway_log_disk_bytes Provisioned bytes across pre-sized log segment files."] parse_error_seen = true.
Proof. vm_compute. reflexivity. Qed.

(** [%.9g] of a few numbers. *)
Example formats :
  format_double <$> [Fin 0; double_of_Z 1; rounded one 3; rounded one 100000; double_of_Z 1234567890;
                     dneg (rounded (5 * one) 2); Inf true; rounded (9999999996 * one) 10]
  = [B "0"; B "1"; B "0.333333333"; B "1e-05"; B "1.23456789e+09"; B "-2.5"; B "-inf"; B "1e+09"].
Proof. vm_compute. reflexivity. Qed.
End MetricsTests.
