(* ===== verification/MetricsTheorems.v ===== *)
(** * MetricsTheorems: the properties of the metrics

    Under any interleaving of the accesses of concurrent calls: the counters
    count the calls, the high-water mark is the maximum that was reported, the
    histogram is cumulative; and a reader of the exposition finds the values. *)
From stdpp Require Import base gmap list numbers strings relations.
From Stdlib Require Import Strings.Byte.
From S2P Require Import Prelude Text Double RateLimiter Config ConfigTheorems Metrics.

Local Open Scope Z_scope.

(** ** Cells *)

Record metrics_wf (m : Metrics) : Prop := {
  wf_classes : length (response_status_classes m) = 5%nat;
  wf_workers : length (epoll_workers m) = max_workers;
  wf_buckets : length (duration_bucket_counts m) = 11%nat
}.

(** The cells of the arrays that exist. *)
Definition cell_ok (c : cell) : Prop :=
  match c with
  | StatusClass i => (i < 5)%nat
  | WorkerAccepted w | WorkerRequests w | WorkerCompleted w | QueueDepth w | QueueHighWater w =>
      (w < max_workers)%nat
  | _ => True
  end.

Lemma load_store_eq c v m : metrics_wf m -> cell_ok c -> load c (store_cell c v m) = v.
Proof.
  intros [Hc Hw _] Hok. destruct m as [ps ac op rq bl pe sc ws wc dc dn ds], c; cbn in *; try done.
  1: by rewrite list_lookup_insert_eq by lia.
  all: unfold worker_at; cbn; unfold set_worker; rewrite list_lookup_alter_eq.
  all: destruct (lookup_lt_is_Some_2 ws w) as [x Hx]; [lia|]; by rewrite Hx.
Qed.

Lemma load_store_ne c c' v m : c <> c' -> load c (store_cell c' v m) = load c m.
Proof.
  intros Hne. destruct m, c, c'; cbn; try done; unfold worker_at; cbn; unfold set_worker;
    try (rewrite list_lookup_insert_ne by congruence; done);
    match goal with |- context [alter _ ?w ?l !! ?v] =>
      destruct (decide (w = v)) as [->|];
        [rewrite list_lookup_alter_eq; by destruct (l !! v) | by rewrite list_lookup_alter_ne]
    end.
Qed.

Lemma load_observe c x m : load c (observe x m) = load c m.
Proof. by destruct c. Qed.

Lemma store_wf c v m : metrics_wf m -> metrics_wf (store_cell c v m).
Proof.
  intros [Hc Hw Hb]. destruct m, c; split; cbn in *;
    rewrite ?length_insert; unfold set_worker; rewrite ?length_alter; done.
Qed.

Lemma observe_wf x m : metrics_wf m -> metrics_wf (observe x m).
Proof.
  intros [Hc Hw Hb]. split; cbn [observe response_status_classes epoll_workers duration_bucket_counts]; [done..|].
  by rewrite length_zip_with, Hb.
Qed.

Lemma store_durations c v m :
  duration_bucket_counts (store_cell c v m) = duration_bucket_counts m /\
  duration_observations (store_cell c v m) = duration_observations m /\
  duration_sum (store_cell c v m) = duration_sum m.
Proof. by destruct m, c. Qed.

Lemma access_step_wf t m t' m' : metrics_wf m -> access_step t m t' m' -> metrics_wf m'.
Proof. intros Hm. destruct 1; cbn [perform]; auto using store_wf, observe_wf. Qed.

(** ** Counters *)

(** The counters: all cells that are only added to. *)
Definition counter (c : cell) : bool :=
  match c with QueueDepth _ | QueueHighWater _ | WorkerCount => false | _ => true end.

(** What an access adds to a cell. *)
Definition added (c : cell) (a : access) : Z :=
  match a with Add c' d => if decide (c' = c) then d else 0 | _ => 0 end.

Definition sum (l : list Z) : Z := foldr Z.add 0 l.
Definition added_by (c : cell) (t : list access) : Z := sum (added c <$> t).

Lemma added_by_cons c a t : added_by c (a :: t) = added c a + added_by c t.
Proof. done. Qed.

Lemma sum_app l1 l2 : sum (l1 ++ l2) = sum l1 + sum l2.
Proof. unfold sum. induction l1 as [|x l1 IH]; cbn [app foldr]; lia. Qed.

Lemma sum_insert (l : list (list access)) f i t t' :
  l !! i = Some t -> sum (f <$> <[i := t']> l) = sum (f <$> l) - f t + f t'.
Proof.
  unfold sum. revert i. induction l as [|x l IH]; intros [|i] Hi; try done.
  - cbn in Hi. simplify_eq. change (<[0%nat := t']> (t :: l)) with (t' :: l). rewrite !fmap_cons. cbn [foldr]. lia.
  - change (<[S i := t']> (x :: l)) with (x :: <[i := t']> l). rewrite !fmap_cons. cbn [foldr].
    rewrite (IH i Hi). lia.
Qed.

(** Accesses touch existing cells, counters only by additions, and high-water
    marks only by the loop that raises them. *)
Definition access_ok (a : access) : Prop :=
  match a with
  | Add c _ => cell_ok c /\ counter c = true
  | Store c _ => counter c = false /\ (forall w, c <> QueueHighWater w)
  | LoadMax w _ | CasMax w _ _ => (w < max_workers)%nat
  | Observe _ => True
  end.

Lemma accesses_ok c : Forall access_ok (accesses c).
Proof.
  destruct c; unfold accesses, connection_opened, connection_closed, request_started, request_completed,
    completion_queue_size, parse_error_seen, set_epoll_worker_count, for_worker;
    repeat apply Forall_app_2; repeat case_match; rewrite ?Forall_cons, ?Forall_nil;
    cbn [access_ok cell_ok counter]; split_and?; try done; try (by apply Nat.ltb_lt).
  all: assert (status / 100 < 6) by (apply Z.div_lt_upper_bound; lia);
    assert (1 <= status / 100) by (apply Z.div_le_lower_bound; lia); lia.
Qed.

Lemma access_step_ok t m t' m' : Forall access_ok t -> access_step t m t' m' -> Forall access_ok t'.
Proof. intros Ht. destruct 1; inversion Ht; subst; try done; by constructor. Qed.

Lemma access_step_counter c t m t' m' X :
  metrics_wf m -> counter c = true -> Forall access_ok t -> access_step t m t' m' ->
  load c m = X mod u64_modulus ->
  load c m' = (X + added_by c t - added_by c t') mod u64_modulus.
Proof.
  intros Hm Hc Hok Hstep HX.
  destruct Hstep; rewrite ?added_by_cons; cbn [perform added]; rewrite ?load_observe, ?HX; try (f_equal; lia).
  - apply Forall_inv in Hok as [Hok _]. case_decide as Heq.
    + subst. rewrite load_store_eq by done. rewrite HX, Zplus_mod_idemp_l. f_equal. lia.
    + rewrite load_store_ne, HX by done. f_equal. lia.
  - apply Forall_inv in Hok as [Hst _]. rewrite load_store_ne, HX by (intros ->; congruence). f_equal. lia.
  - rewrite load_store_ne, HX by (intros ->; done). f_equal. lia.
Qed.

(** ** The invariant of concurrent calls *)

Definition calls_added (c : cell) (calls : list metrics_call) : Z :=
  sum ((fun call => added_by c (accesses call)) <$> calls).
Definition pending_added (c : cell) (threads : list (list access)) : Z := sum (added_by c <$> threads).

Record counters_inv (s : metrics_state) : Prop := {
  ci_wf : metrics_wf (ms_metrics s);
  ci_threads : Forall (Forall access_ok) (ms_threads s);
  ci_counter c : counter c = true ->
    load c (ms_metrics s) = (calls_added c (ms_calls s) - pending_added c (ms_threads s)) mod u64_modulus
}.

Lemma counters_inv_step s s' : counters_inv s -> metrics_step s s' -> counters_inv s'.
Proof.
  intros [Hwf Ht Hc] Hstep. destruct Hstep as [s call|s i t t' m' Hi Hst]; split; cbn [ms_metrics ms_threads ms_calls].
  - done.
  - apply Forall_app_2; [done|]. repeat constructor. apply accesses_ok.
  - intros c Hcnt. rewrite (Hc c Hcnt). unfold calls_added, pending_added. rewrite !fmap_app, !sum_app.
    cbn [fmap list_fmap]. f_equal. lia.
  - by eapply access_step_wf.
  - apply Forall_insert; [done|]. eapply access_step_ok; [|done]. exact (Forall_lookup_1 _ _ _ _ Ht Hi).
  - intros c Hcnt. rewrite (access_step_counter c t _ t' m' _ Hwf Hcnt (Forall_lookup_1 _ _ _ _ Ht Hi) Hst (Hc c Hcnt)).
    unfold pending_added. erewrite sum_insert by done. f_equal. lia.
Qed.

Lemma counters_inv_init now : counters_inv (ms_init now).
Proof.
  split; [by repeat split|constructor|]. intros c _. cbn [ms_metrics ms_init ms_calls ms_threads].
  destruct c; try done; cbn -[max_workers replicate]; unfold worker_at; cbn -[max_workers replicate];
    (destruct (replicate _ _ !! _) as [x|] eqn:E; [apply lookup_replicate in E as [-> _]|]; done).
Qed.

Lemma counters_inv_reachable now s : rtc metrics_step (ms_init now) s -> counters_inv s.
Proof.
  intros H. pose proof (counters_inv_init now) as Hi.
  induction H as [|s1 s2 s3 Hstep _ IH]; [done|]. apply IH. by eapply counters_inv_step.
Qed.

(** ** What the counters count *)

Definition count_calls (P : metrics_call -> bool) (calls : list metrics_call) : Z :=
  zlen (filter (fun c => P c = true) calls).

Definition in_class (i : nat) (call : metrics_call) : bool :=
  match call with
  | CCompleted status _ _ => (100 * (Z.of_nat i + 1) <=? status) && (status <? 100 * (Z.of_nat i + 2))
  | _ => false
  end.

Definition expected (c : cell) (calls : list metrics_call) : Z :=
  match c with
  | Accepted => count_calls (fun call => match call with COpened _ => true | _ => false end) calls
  | OpenNow => count_calls (fun call => match call with COpened _ => true | _ => false end) calls -
               count_calls (fun call => match call with CClosed => true | _ => false end) calls
  | Requests => count_calls (fun call => match call with CStarted _ => true | _ => false end) calls
  | Blocked => count_calls (fun call => match call with CCompleted status _ _ => status =? 429 | _ => false end) calls
  | ParseErrors => count_calls (fun call => match call with CParseError => true | _ => false end) calls
  | StatusClass i => count_calls (in_class i) calls
  | WorkerAccepted w => count_calls (fun call => match call with COpened v => (v =? w)%nat | _ => false end) calls
  | WorkerRequests w => count_calls (fun call => match call with CStarted v => (v =? w)%nat | _ => false end) calls
  | WorkerCompleted w =>
      count_calls (fun call => match call with CCompleted _ _ v => (v =? w)%nat | _ => false end) calls
  | _ => 0
  end.

Lemma count_calls_cons P call calls :
  count_calls P (call :: calls) = (if P call then 1 else 0) + count_calls P calls.
Proof. unfold count_calls. rewrite filter_cons. case_decide as H; destruct (P call); cbn [length]; done || lia. Qed.

Lemma added_by_app c t1 t2 : added_by c (t1 ++ t2) = added_by c t1 + added_by c t2.
Proof. unfold added_by. by rewrite fmap_app, sum_app. Qed.

Lemma added_by_one c a : added_by c [a] = added c a.
Proof. unfold added_by. cbn. lia. Qed.

Lemma added_by_worker c w t :
  added_by c (for_worker w t) = if (w <? max_workers)%nat then added_by c t else 0.
Proof. unfold for_worker. by case_match. Qed.

Lemma added_ne c c' d : c' <> c -> added c (Add c' d) = 0.
Proof. intros H. cbn. by rewrite decide_False. Qed.

Lemma class_index (status : Z) (i : nat) :
  100 <= status < 600 ->
  Z.to_nat (status / 100 - 1) = i <-> 100 * (Z.of_nat i + 1) <= status < 100 * (Z.of_nat i + 2).
Proof.
  intros Hs. pose proof (Z.div_mod status 100 ltac:(lia)). pose proof (Z.mod_pos_bound status 100 ltac:(lia)).
  split; intros; lia.
Qed.

Lemma added_class i status elapsed w :
  (i < 5)%nat ->
  added_by (StatusClass i) (request_completed status elapsed w) =
  if in_class i (CCompleted status elapsed w) then 1 else 0.
Proof.
  intros Hi. unfold request_completed, in_class. rewrite !added_by_app, added_by_worker, !added_by_one.
  rewrite (added_ne _ (WorkerCompleted w)) by done.
  replace (added_by (StatusClass i) (if status =? 429 then _ else _)) with 0 by (by destruct (status =? 429)).
  replace (if (w <? max_workers)%nat then 0 else 0) with 0 by (by case_match). rewrite !Z.add_0_r.
  destruct ((100 <=? status) && (status <? 600)) eqn:Hs.
  - rewrite added_by_one. cbn [added]. pose proof (class_index status i ltac:(lia)) as Hci.
    case_decide as Hd.
    + injection Hd as Hd%Hci. by replace ((100 * (Z.of_nat i + 1) <=? status) && _) with true by lia.
    + assert (Hn : ~ (100 * (Z.of_nat i + 1) <= status < 100 * (Z.of_nat i + 2)))
        by (intros ?%Hci; congruence).
      by replace ((100 * (Z.of_nat i + 1) <=? status) && _) with false by lia.
  - by replace ((100 * (Z.of_nat i + 1) <=? status) && _) with false by lia.
Qed.

Lemma added_worker (f : nat -> cell) (v w : nat) :
  (forall a b, f a = f b -> a = b) -> (w < max_workers)%nat ->
  added_by (f w) (for_worker v [Add (f v) 1]) = if (v =? w)%nat then 1 else 0.
Proof.
  intros Hf Hw. rewrite added_by_worker, added_by_one. cbn [added].
  destruct (Nat.eqb_spec v w) as [->|Hne].
  - rewrite decide_True by done. by replace (w <? max_workers)%nat with true by (symmetry; by apply Nat.ltb_lt).
  - rewrite decide_False by (intros ?%Hf; done). by case_match.
Qed.

(** The contribution of one call, in closed form. *)
Lemma added_call c call :
  counter c = true -> cell_ok c -> added_by c (accesses call) = expected c [call].
Proof.
  intros Hc Hok. destruct c; try done; cbn [expected cell_ok] in *; rewrite !count_calls_cons;
    change (count_calls _ []) with 0; rewrite ?Z.add_0_r;
    destruct call; cbn [accesses]; try (by apply added_class);
    unfold connection_opened, connection_closed, request_started, request_completed,
      completion_queue_size, parse_error_seen, set_epoll_worker_count;
    rewrite ?added_by_app;
    try (rewrite (added_worker WorkerAccepted) by (done || by intros ?? [=]));
    try (rewrite (added_worker WorkerRequests) by (done || by intros ?? [=]));
    try (rewrite (added_worker WorkerCompleted) by (done || by intros ?? [=]));
    rewrite ?added_by_worker; repeat case_match; done.
Qed.

Lemma calls_added_expected c calls :
  counter c = true -> cell_ok c -> calls_added c calls = expected c calls.
Proof.
  intros Hc Hok. induction calls as [|call calls IH]; [by destruct c|].
  change (calls_added c (call :: calls)) with (added_by c (accesses call) + calls_added c calls).
  rewrite IH, added_call by done. destruct c; try done; cbn [expected]; rewrite !count_calls_cons;
    change (count_calls _ []) with 0; lia.
Qed.

Lemma pending_none c s : quiescent s -> pending_added c (ms_threads s) = 0.
Proof. unfold quiescent, pending_added. induction 1 as [|t ts -> _ IH]; [done|]. cbn. exact IH. Qed.

(** C37: however the calls of the worker and pool threads interleave, once they
    have returned every counter is the number of calls it counts, modulo 2^64:
    accepted connections, open connections (opened less closed), requests,
    blocked requests, parse errors, responses per status class, and the counters
    of each worker. *)
Theorem counters_exact now s c :
  rtc metrics_step (ms_init now) s -> quiescent s -> counter c = true -> cell_ok c ->
  load c (ms_metrics s) = expected c (ms_calls s) mod u64_modulus.
Proof.
  intros Hr Hq Hc Hok. destruct (counters_inv_reachable now s Hr) as [_ _ Hinv].
  by rewrite (Hinv c Hc), calls_added_expected, pending_none, Z.sub_0_r.
Qed.

(** ** The histogram *)

Definition at_most (bound : double) (l : list double) : Z := zlen (filter (fun x => dle x bound = true) l).

(** The durations of the calls of [request_completed]. *)
Definition durations (calls : list metrics_call) : list double :=
  omap (fun call => match call with CCompleted _ elapsed _ => Some elapsed | _ => None end) calls.

Definition observing (t : list access) : list double :=
  omap (fun a => match a with Observe x => Some x | _ => None end) t.

Record histogram_inv (s : metrics_state) : Prop := {
  hi_observations : duration_observations (ms_metrics s) = zlen (ms_observed s) mod u64_modulus;
  hi_buckets : duration_bucket_counts (ms_metrics s) =
    (fun bound => at_most bound (ms_observed s) mod u64_modulus) <$> duration_buckets;
  hi_sum : duration_sum (ms_metrics s) = foldl dadd (Fin 0) (ms_observed s);
  hi_durations : ms_observed s ++ concat (observing <$> ms_threads s) ≡ₚ durations (ms_calls s)
}.

Lemma accesses_observing call : observing (accesses call) = durations [call].
Proof.
  destruct call; cbn [accesses]; unfold connection_opened, connection_closed, request_started,
    request_completed, completion_queue_size, parse_error_seen, set_epoll_worker_count, for_worker;
    repeat case_match; reflexivity.
Qed.

Lemma observing_step t m t' m' :
  access_step t m t' m' -> observing t = observed_by t ++ observing t'.
Proof. by destruct 1. Qed.

Lemma concat_insert (ts : list (list access)) i t t' l :
  ts !! i = Some t -> observing t = l ++ observing t' ->
  concat (observing <$> ts) ≡ₚ l ++ concat (observing <$> <[i := t']> ts).
Proof.
  revert i. induction ts as [|x ts IH]; intros [|i] Hi Ho; try done.
  - cbn in Hi. simplify_eq. change (<[0%nat := t']> (t :: ts)) with (t' :: ts).
    rewrite !fmap_cons. cbn [concat]. by rewrite Ho, app_assoc.
  - change (<[S i := t']> (x :: ts)) with (x :: <[i := t']> ts). rewrite !fmap_cons. cbn [concat].
    rewrite (IH i Hi Ho). solve_Permutation.
Qed.

Lemma at_most_snoc bound l x :
  at_most bound (l ++ [x]) = at_most bound l + if dle x bound then 1 else 0.
Proof.
  unfold at_most. rewrite filter_app, length_app, filter_cons, filter_nil.
  case_decide as H; destruct (dle x bound); cbn [length]; done || lia.
Qed.

Lemma observe_buckets x l (bounds : list double) :
  zip_with (fun bound n => if dle x bound then u64_add n 1 else n) bounds
    ((fun bound => at_most bound l mod u64_modulus) <$> bounds) =
  (fun bound => at_most bound (l ++ [x]) mod u64_modulus) <$> bounds.
Proof.
  induction bounds as [|b bounds IH]; [done|]. rewrite !fmap_cons. cbn [zip_with]. f_equal; [|exact IH].
  rewrite at_most_snoc. destruct (dle x b); [|f_equal; lia]. unfold u64_add. by rewrite Zplus_mod_idemp_l.
Qed.

Lemma histogram_access s t t' m' :
  histogram_inv s -> access_step t (ms_metrics s) t' m' ->
  let l := ms_observed s ++ observed_by t in
  duration_observations m' = zlen l mod u64_modulus /\
  duration_bucket_counts m' = (fun bound => at_most bound l mod u64_modulus) <$> duration_buckets /\
  duration_sum m' = foldl dadd (Fin 0) l.
Proof.
  intros [H1 H2 H3 _] Hstep. cbv zeta.
  destruct Hstep; cbn [observed_by perform]; rewrite ?app_nil_r;
    try (split_and!; [done..]);
    try match goal with |- context [store_cell ?c ?v ?m] => destruct (store_durations c v m) as (-> & -> & ->) end;
    try (split_and!; [done..]).
  unfold observe. cbn [duration_observations duration_bucket_counts duration_sum].
  rewrite H1, H2, H3, observe_buckets, foldl_app, length_app. split_and!; [|done..].
  unfold u64_add. rewrite Zplus_mod_idemp_l. f_equal. cbn. lia.
Qed.

Lemma histogram_inv_step s s' : histogram_inv s -> metrics_step s s' -> histogram_inv s'.
Proof.
  intros Hinv Hstep. destruct Hstep as [s call|s i t t' m' Hi Hst].
  - destruct Hinv as [H1 H2 H3 H4].
    split; cbn [ms_metrics ms_threads ms_calls ms_observed]; try done.
    unfold durations. rewrite omap_app. fold (durations (ms_calls s)). fold (durations [call]).
    rewrite <- H4, fmap_app, concat_app. cbn [fmap list_fmap concat].
    by rewrite accesses_observing, app_nil_r, app_assoc.
  - destruct (histogram_access s t t' m' Hinv Hst) as (H1 & H2 & H3).
    split; cbn [ms_metrics ms_threads ms_calls ms_observed]; try done.
    rewrite <- (hi_durations s Hinv), <- app_assoc. f_equiv. symmetry.
    apply (concat_insert _ _ t); [done|]. by eapply observing_step.
Qed.

Lemma histogram_inv_reachable now s : rtc metrics_step (ms_init now) s -> histogram_inv s.
Proof.
  intros H. assert (Hi : histogram_inv (ms_init now)) by (split; vm_compute; reflexivity).
  induction H as [|s1 s2 s3 Hstep _ IH]; [done|]. apply IH. by eapply histogram_inv_step.
Qed.

Lemma dle_trans a b c : dle a b = true -> dle b c = true -> dle a c = true.
Proof.
  destruct a as [x|[]|], b as [y|[]|], c as [z|[]|]; cbn; try done.
  rewrite !negb_true_iff, !Z.ltb_ge. lia.
Qed.

Lemma at_most_mono b b' l : dle b b' = true -> at_most b l <= at_most b' l.
Proof.
  intros Hb. unfold at_most. induction l as [|x l IH]; [done|]. rewrite !filter_cons.
  destruct (decide (dle x b = true)) as [H|H].
  - rewrite decide_True by (by eapply dle_trans). cbn [length]. lia.
  - case_decide; cbn [length]; lia.
Qed.

Lemma at_most_length b l : at_most b l <= zlen l.
Proof. unfold at_most. pose proof (length_filter (fun x => dle x b = true) l). lia. Qed.

(** The bounds increase. *)
Lemma buckets_increase i j a b :
  (i <= j)%nat -> duration_buckets !! i = Some a -> duration_buckets !! j = Some b -> dle a b = true.
Proof.
  intros Hij Ha Hb.
  assert (Hall : forallb (fun i => forallb (fun j =>
    match duration_buckets !! i, duration_buckets !! j with
    | Some a, Some b => (j <? i)%nat || dle a b
    | _, _ => false
    end) (seq 0 11)) (seq 0 11) = true) by (vm_compute; reflexivity).
  assert (Hlen : length duration_buckets = 11%nat) by reflexivity.
  pose proof (lookup_lt_Some _ _ _ Ha). pose proof (lookup_lt_Some _ _ _ Hb).
  rewrite forallb_forall in Hall. specialize (Hall i ltac:(apply in_seq; lia)).
  rewrite forallb_forall in Hall. specialize (Hall j ltac:(apply in_seq; lia)).
  rewrite Ha, Hb in Hall. apply orb_true_iff in Hall as [Hlt%Nat.ltb_lt|Hd]; [lia|done].
Qed.

Lemma observed_length now s :
  rtc metrics_step (ms_init now) s -> (length (ms_observed s) <= length (ms_calls s))%nat.
Proof.
  intros Hr. pose proof (Permutation_length (hi_durations s (histogram_inv_reachable now s Hr))) as Hl.
  rewrite length_app in Hl. assert (length (durations (ms_calls s)) <= length (ms_calls s))%nat; [|lia].
  unfold durations. clear. induction (ms_calls s) as [|c l IH]; cbn; [lia|]. repeat case_match; cbn; lia.
Qed.

(** At every moment (the members are read under the mutex) the histogram is
    consistent: the count is the number of observations, bucket [i] counts those
    of at most the bound, so the buckets are cumulative and at most the count, and
    the sum is their sum in the order of observation; once all calls returned the
    observations are the durations that were reported.  Fewer than 2^64 calls are
    assumed. *)
Theorem histogram_cumulative now s :
  rtc metrics_step (ms_init now) s -> zlen (ms_calls s) < u64_modulus ->
  let m := ms_metrics s in
  duration_observations m = zlen (ms_observed s) /\
  duration_sum m = foldl dadd (Fin 0) (ms_observed s) /\
  (forall i bound, duration_buckets !! i = Some bound ->
     duration_bucket_counts m !! i = Some (at_most bound (ms_observed s))) /\
  (forall i j a b, (i <= j)%nat -> duration_bucket_counts m !! i = Some a ->
     duration_bucket_counts m !! j = Some b -> a <= b <= duration_observations m) /\
  (quiescent s -> ms_observed s ≡ₚ durations (ms_calls s)).
Proof.
  intros Hr Hlt. destruct (histogram_inv_reachable now s Hr) as [H1 H2 H3 H4].
  pose proof (observed_length now s Hr) as Hlen. cbv zeta. rewrite H1, H2.
  rewrite (Z.mod_small (zlen (ms_observed s))) by lia.
  assert (Hsmall : forall b, at_most b (ms_observed s) mod u64_modulus = at_most b (ms_observed s)).
  { intros b. apply Z.mod_small. pose proof (at_most_length b (ms_observed s)). unfold at_most in *. lia. }
  split_and!; [done|done| | |].
  - intros i bound Hi. by rewrite list_lookup_fmap, Hi, <- Hsmall.
  - intros i j a b Hij Ha Hb. rewrite list_lookup_fmap in Ha, Hb.
    destruct (duration_buckets !! i) as [ba|] eqn:Ei; [|done].
    destruct (duration_buckets !! j) as [bb|] eqn:Ej; [|done].
    injection Ha as <-. injection Hb as <-. rewrite !Hsmall.
    pose proof (at_most_mono ba bb (ms_observed s) (buckets_increase i j ba bb Hij Ei Ej)).
    pose proof (at_most_length bb (ms_observed s)). lia.
  - intros Hq. rewrite <- H4. unfold quiescent in Hq. clear -Hq.
    replace (concat (observing <$> ms_threads s)) with (@nil double); [by rewrite app_nil_r|].
    induction Hq as [|t ts -> _ IH]; [done|]. cbn. exact IH.
Qed.

(** ** High-water marks *)

Definition sizes (w : nat) (calls : list metrics_call) : list Z :=
  omap (fun call => match call with
    | CQueueSize v size => if (v =? w)%nat then Some (Z.of_nat size) else None
    | _ => None end) calls.

Lemma sizes_app w l1 l2 : sizes w (l1 ++ l2) = sizes w l1 ++ sizes w l2.
Proof. apply omap_app. Qed.

(** The sizes a thread is still to raise the mark of [w] to. *)
Definition raising (w : nat) (t : list access) : list Z :=
  omap (fun a => match a with
    | LoadMax v size | CasMax v size _ => if (v =? w)%nat then Some size else None
    | _ => None end) t.

(** The maxima a thread has read are not above the mark. *)
Definition loaded (w : nat) (high : Z) (t : list access) : Prop :=
  Forall (fun a => match a with CasMax v _ maximum => v = w -> maximum <= high | _ => True end) t.

Lemma loaded_mono w high high' t : high <= high' -> loaded w high t -> loaded w high' t.
Proof.
  intros Hle Hl. eapply Forall_impl; [exact Hl|]. intros []; try done. intros H ->. specialize (H eq_refl). lia.
Qed.

Record high_water_inv (w : nat) (s : metrics_state) : Prop := {
  hw_reported : load (QueueHighWater w) (ms_metrics s) = 0 \/
    load (QueueHighWater w) (ms_metrics s) ∈ sizes w (ms_calls s);
  hw_nonneg : 0 <= load (QueueHighWater w) (ms_metrics s);
  hw_loaded t : t ∈ ms_threads s -> loaded w (load (QueueHighWater w) (ms_metrics s)) t;
  hw_pending t : t ∈ ms_threads s -> raising w t ⊆ sizes w (ms_calls s);
  hw_covered size : size ∈ sizes w (ms_calls s) ->
    size <= load (QueueHighWater w) (ms_metrics s) \/
    exists t, t ∈ ms_threads s /\ size ∈ raising w t
}.

Lemma accesses_raising w call : (w < max_workers)%nat -> raising w (accesses call) = sizes w [call].
Proof.
  intros Hw. destruct call; cbn [accesses]; unfold connection_opened, connection_closed, request_started,
    request_completed, completion_queue_size, parse_error_seen, set_epoll_worker_count, for_worker;
    repeat case_match; try reflexivity.
  unfold sizes, raising. cbn. destruct (Nat.eqb_spec worker_id w) as [->|]; [|done].
  apply Nat.ltb_ge in H. lia.
Qed.

Lemma accesses_loaded w high call : loaded w high (accesses call).
Proof.
  unfold loaded. destruct call; cbn [accesses]; unfold connection_opened, connection_closed, request_started,
    request_completed, completion_queue_size, parse_error_seen, set_epoll_worker_count, for_worker;
    repeat apply Forall_app_2; repeat case_match; rewrite ?Forall_cons, ?Forall_nil; done.
Qed.

Lemma raising_cas w v size maximum k :
  raising w (CasMax v size maximum :: k) = (if (v =? w)%nat then [size] else []) ++ raising w k.
Proof. unfold raising. cbn. by destruct (v =? w)%nat. Qed.

(** An access leaves the mark alone or raises it to a size of its thread, and
    drops a size only when the mark has reached it. *)
Lemma raising_step w t m t' m' :
  metrics_wf m -> (w < max_workers)%nat -> Forall access_ok t -> loaded w (load (QueueHighWater w) m) t ->
  access_step t m t' m' ->
  let high := load (QueueHighWater w) in
  (high m' = high m \/ high m < high m' /\ high m' ∈ raising w t) /\
  loaded w (high m') t' /\
  raising w t' ⊆ raising w t /\
  forall size, size ∈ raising w t -> size <= high m' \/ size ∈ raising w t'.
Proof.
  intros Hm Hw Hok Hl Hstep. cbv zeta.
  destruct Hstep as [c d k m|c v k m|x k m|v size k m|v size maximum k m Hle|v size maximum k m Hlt Hmax
                    |v size maximum k m Hlt]; cbn [perform]; apply Forall_cons in Hl as [Ha Hl].
  - apply Forall_inv in Hok as [_ Hc]. rewrite load_store_ne by (intros <-; done).
    split_and!; [by left|done|done|by right].
  - apply Forall_inv in Hok as [_ Hc]. rewrite load_store_ne by (apply not_eq_sym, Hc).
    split_and!; [by left|done|done|by right].
  - rewrite load_observe. split_and!; [by left|done|done|by right].
  - split_and!; [by left| |done|by right]. apply Forall_cons. split; [by intros ->|done].
  - rewrite raising_cas. split_and!; [by left|done|set_solver|]. intros size'.
    destruct (Nat.eqb_spec v w) as [->|]; [|by right]. specialize (Ha eq_refl).
    intros [->%list_elem_of_singleton|]%elem_of_app; [left; lia|by right].
  - rewrite raising_cas. apply Forall_inv in Hok as Hv. destruct (Nat.eqb_spec v w) as [->|Hne].
    + rewrite load_store_eq by done. split_and!; [right; split; [lia|set_solver]| |set_solver|].
      * eapply loaded_mono; [|done]. lia.
      * intros size' [->%list_elem_of_singleton|]%elem_of_app; [left; lia|by right].
    + rewrite load_store_ne by congruence. split_and!; [by left|done|done|by right].
  - rewrite !raising_cas. split_and!; [by left| |done|by right]. apply Forall_cons. split; [by intros ->|done].
Qed.

Lemma high_water_inv_step w s s' :
  (w < max_workers)%nat -> counters_inv s -> high_water_inv w s -> metrics_step s s' -> high_water_inv w s'.
Proof.
  intros Hw [Hwf Hok _] [H1 H2 H3 H4 H5] Hstep. destruct Hstep as [s call|s i t t' m' Hi Hst].
  - split; cbn [ms_metrics ms_threads ms_calls]; rewrite ?sizes_app.
    + destruct H1; [by left|right; apply elem_of_app; by left].
    + done.
    + intros t [Ht| ->%list_elem_of_singleton]%elem_of_app; [by apply H3|apply accesses_loaded].
    + intros t [Ht| ->%list_elem_of_singleton]%elem_of_app; [specialize (H4 t Ht); set_solver|].
      rewrite accesses_raising by done. set_solver.
    + intros size [Hs|Hs]%elem_of_app.
      * destruct (H5 size Hs) as [|(t & Ht & ?)]; [by left|right; exists t; set_solver].
      * right. exists (accesses call). rewrite accesses_raising by done. set_solver.
  - pose proof (list_elem_of_lookup_2 _ _ _ Hi) as Ht.
    destruct (raising_step w t _ t' m' Hwf Hw (Forall_lookup_1 _ _ _ _ Hok Hi) (H3 t Ht) Hst)
      as (Hhigh & Hl & Hsub & Hcov). specialize (H4 t Ht) as H4t.
    assert (Hle : load (QueueHighWater w) (ms_metrics s) <= load (QueueHighWater w) m')
      by (destruct Hhigh as [->|[]]; lia).
    split; cbn [ms_metrics ms_threads ms_calls].
    + destruct Hhigh as [->|[_ ?]]; [done|right; set_solver].
    + lia.
    + intros u [->|Hu]%elem_of_insert_inv; [done|]. eapply loaded_mono; [exact Hle|]. by apply H3.
    + intros u [->|Hu]%elem_of_insert_inv; [set_solver|by apply H4].
    + intros size Hs. destruct (H5 size Hs) as [|(u & Hu & Hin)]; [left; lia|].
      destruct (elem_of_insert_old _ i t t' u Hi Hu) as [->|Hu']; [|right; by exists u].
      destruct (Hcov size Hin) as [|Hin']; [by left|right; exists t'].
      split; [by eapply elem_of_insert_new|done].
Qed.

Lemma high_water_inv_reachable w now s :
  (w < max_workers)%nat -> rtc metrics_step (ms_init now) s -> high_water_inv w s.
Proof.
  intros Hw H. pose proof (counters_inv_init now) as Hc.
  assert (Hi : high_water_inv w (ms_init now)).
  { assert (H0 : load (QueueHighWater w) (ms_metrics (ms_init now)) = 0).
    { cbn -[max_workers replicate]. unfold worker_at. cbn -[max_workers replicate].
      by rewrite lookup_replicate_2. }
    split; rewrite ?H0; cbn [ms_threads ms_calls ms_init]; set_solver by lia. }
  induction H as [|s1 s2 s3 Hstep _ IH]; [done|].
  apply IH; [by eapply counters_inv_step|by eapply high_water_inv_step].
Qed.

(** C38: the high-water mark of a worker never misses a report: at every moment it
    is one of the sizes reported for the worker (or zero), and once all calls have
    returned it is at least every size that was reported; so it is their maximum,
    although the reports race with each other and the exchange may fail. *)
Theorem high_water_is_maximum now s w :
  rtc metrics_step (ms_init now) s -> (w < max_workers)%nat ->
  let high := load (QueueHighWater w) (ms_metrics s) in
  (high = 0 \/ high ∈ sizes w (ms_calls s)) /\
  (quiescent s -> high = foldr Z.max 0 (sizes w (ms_calls s))).
Proof.
  intros Hr Hw. destruct (high_water_inv_reachable w now s Hw Hr) as [H1 H2 _ _ H5]. cbv zeta.
  split; [done|]. intros Hq.
  assert (Hall : forall size, size ∈ sizes w (ms_calls s) -> size <= load (QueueHighWater w) (ms_metrics s)).
  { intros size Hs. destruct (H5 size Hs) as [|(t & Ht & Hin)]; [done|].
    unfold quiescent in Hq. rewrite Forall_forall in Hq. rewrite (Hq t Ht) in Hin. by apply not_elem_of_nil in Hin. }
  clear -H1 H2 Hall. set (high := load _ _) in *. clearbody high.
  assert (Hup : forall l, (forall x, x ∈ l -> x <= high) -> foldr Z.max 0 l <= high).
  { intros l Hl. induction l as [|x l IH]; cbn; [lia|]. specialize (IH ltac:(set_solver)).
    pose proof (Hl x ltac:(set_solver)). lia. }
  assert (Hlow : high ∈ sizes w (ms_calls s) -> high <= foldr Z.max 0 (sizes w (ms_calls s))).
  { clear. induction (sizes w (ms_calls s)) as [|x l IH]; cbn; [by intros ?%not_elem_of_nil|].
    intros [->|Hin]%elem_of_cons; [lia|]. specialize (IH Hin). lia. }
  assert (Hpos : 0 <= foldr Z.max 0 (sizes w (ms_calls s))) by (clear; induction (sizes w (ms_calls s)); cbn; lia).
  specialize (Hup _ Hall). destruct H1 as [->|Hin]; [lia|]. specialize (Hlow Hin). lia.
Qed.

(** ** Undisturbed calls *)

Definition not_cas (a : access) : Prop := match a with CasMax _ _ _ => False | _ => True end.

Lemma accesses_not_cas call : Forall not_cas (accesses call).
Proof.
  destruct call; cbn [accesses]; unfold connection_opened, connection_closed, request_started, request_completed,
    completion_queue_size, parse_error_seen, set_epoll_worker_count, for_worker;
    repeat apply Forall_app_2; repeat case_match; rewrite ?Forall_cons, ?Forall_nil; done.
Qed.

Lemma access_runs a k m :
  not_cas a ->
  exists ts, rtc (fun x y => access_step x.1 x.2 y.1 y.2 /\ observed_by x.1 = []) (a :: k, m) ts /\
    access_step ts.1 ts.2 k (perform a m) /\ observed_by ts.1 = observed_by (a :: k).
Proof.
  intros Ha. destruct a as [c d|c v|w size|w size maximum|x]; try done;
    try (eexists (_, _); split_and!; [apply rtc_refl|constructor|done]).
  exists (CasMax w size (load (QueueHighWater w) m) :: k, m). split_and!; [| |done].
  - apply rtc_once. split; [constructor|done].
  - cbn [fst snd perform]. destruct (Z.ltb_spec (load (QueueHighWater w) m) size); [by apply as_exchange|by apply as_enough].
Qed.

Lemma thread_moves s i ts t :
  ms_threads s !! i = Some t ->
  rtc (fun x y => access_step x.1 x.2 y.1 y.2 /\ observed_by x.1 = []) (t, ms_metrics s) ts ->
  rtc metrics_step s (mkMS ts.2 (<[i := ts.1]> (ms_threads s)) (ms_calls s) (ms_observed s)).
Proof.
  intros Hi H. remember (t, ms_metrics s) as x eqn:Hx. revert s t Hi Hx.
  induction H as [x|x y z [Hst Hob] _ IH]; intros s t Hi ->; cbn [fst snd] in *.
  - rewrite list_insert_id by done. by destruct s.
  - eapply rtc_l; [by eapply ms_access|]. rewrite Hob, app_nil_r.
    pose proof (lookup_lt_Some _ _ _ Hi) as Hlt.
    specialize (IH (mkMS y.2 (<[i := y.1]> (ms_threads s)) (ms_calls s) (ms_observed s)) y.1).
    cbn [ms_threads ms_metrics ms_calls ms_observed] in IH. rewrite list_insert_insert_eq in IH.
    apply IH; [by apply list_lookup_insert_eq|by destruct y].
Qed.

Lemma thread_runs s i t :
  ms_threads s !! i = Some t -> Forall not_cas t ->
  rtc metrics_step s
    (mkMS (run_accesses t (ms_metrics s)) (<[i := []]> (ms_threads s)) (ms_calls s)
          (ms_observed s ++ observing t)).
Proof.
  revert s. induction t as [|a t IH]; intros s Hi Hn.
  - cbn. rewrite list_insert_id, app_nil_r by done. by destruct s.
  - apply Forall_cons in Hn as [Ha Hn]. pose proof (lookup_lt_Some _ _ _ Hi) as Hlt.
    destruct (access_runs a t (ms_metrics s) Ha) as ([u m] & Hr & Hst & Hob). cbn [fst snd] in *.
    etrans; [by eapply thread_moves|]. cbn [fst snd].
    eapply rtc_l; [eapply (ms_access _ i u t); [by apply list_lookup_insert_eq|exact Hst]|].
    cbn [ms_threads ms_calls ms_observed]. rewrite list_insert_insert_eq, Hob.
    specialize (IH (mkMS (perform a (ms_metrics s)) (<[i := t]> (ms_threads s)) (ms_calls s)
      (ms_observed s ++ observed_by (a :: t)))).
    cbn [ms_threads ms_metrics ms_calls ms_observed] in IH. rewrite list_insert_insert_eq, <- app_assoc in IH.
    replace (observing (a :: t)) with (observed_by (a :: t) ++ observing t) by (by destruct a).
    apply IH; [by apply list_lookup_insert_eq|done].
Qed.

(** The state after calls that do not overlap. *)
Definition call_alone (s : metrics_state) (c : metrics_call) : metrics_state :=
  mkMS (run_accesses (accesses c) (ms_metrics s)) (ms_threads s ++ [[]]) (ms_calls s ++ [c])
       (ms_observed s ++ observing (accesses c)).

Lemma calls_alone_reachable calls s : rtc metrics_step s (foldl call_alone s calls).
Proof.
  revert s. induction calls as [|c calls IH]; intros s; [apply rtc_refl|]. cbn [foldl].
  etrans; [|apply IH]. eapply rtc_l; [apply (ms_call s c)|].
  pose proof (thread_runs (mkMS (ms_metrics s) (ms_threads s ++ [accesses c]) (ms_calls s ++ [c]) (ms_observed s))
    (length (ms_threads s)) (accesses c)) as H. cbn [ms_threads ms_metrics ms_calls ms_observed] in H.
  rewrite insert_app_r_alt, Nat.sub_diag in H by lia. apply H; [|apply accesses_not_cas].
  by rewrite lookup_app_r, Nat.sub_diag by lia.
Qed.

Definition demo_calls : list metrics_call :=
  [CWorkerCount 2; COpened 0; CStarted 0; CQueueSize 0 3; CQueueSize 0 1; CCompleted 429 (Fin one) 0; COpened 1;
   CClosed].
Definition demo_metrics : metrics_state := foldl call_alone (ms_init 0) demo_calls.

Lemma counters_exact_witness :
  load OpenNow (ms_metrics demo_metrics) = 1 /\ load (StatusClass 3) (ms_metrics demo_metrics) = 1.
Proof.
  split.
  - rewrite (counters_exact 0 demo_metrics OpenNow (calls_alone_reachable _ _));
      [reflexivity|apply (bool_decide_unpack _); by vm_compute|done|done].
  - rewrite (counters_exact 0 demo_metrics (StatusClass 3) (calls_alone_reachable _ _));
      [reflexivity|apply (bool_decide_unpack _); by vm_compute|done|cbn; lia].
Defined.

Lemma histogram_witness :
  let m := ms_metrics demo_metrics in
  duration_bucket_counts m !! 7%nat = Some 1 /\ 0 <= 1 <= duration_observations m.
Proof.
  destruct (histogram_cumulative 0 demo_metrics (calls_alone_reachable _ _)) as (_ & _ & Hb & Hc & _);
    [vm_compute; reflexivity|].
  split; [rewrite (Hb 7%nat (Fin one)) by reflexivity; reflexivity|].
  apply (Hc 6%nat 7%nat); [lia|vm_compute; reflexivity..].
Defined.

Lemma high_water_witness : load (QueueHighWater 0) (ms_metrics demo_metrics) = 3.
Proof.
  apply (high_water_is_maximum 0 demo_metrics 0 (calls_alone_reachable _ _)).
  - unfold max_workers. lia.
  - apply (bool_decide_unpack _). by vm_compute.
Defined.
