(* ===== verification/MetricsText.v ===== *)
(** * MetricsText: reading the exposition back

    A reader that splits the text of [prometheus_text] into lines and looks for
    the line of a series finds the value of the counter behind it. *)
From stdpp Require Import base gmap list numbers strings.
From Stdlib Require Import Strings.Byte.
From S2P Require Import Prelude Text Double RateLimiter Config ConfigTheorems Metrics MetricsTheorems.

Local Open Scope Z_scope.

(** ** The reader *)

(** The text after the first line that starts with [name] and a space. *)
Fixpoint sample_of (name : bytes) (lines : list bytes) : option bytes :=
  match lines with
  | [] => None
  | line :: lines =>
      if starts_with (name ++ B " ") line then Some (drop (length (name ++ B " ")) line)
      else sample_of name lines
  end.

(** The integer value of a series. *)
Definition scrape (name text : bytes) : option Z :=
  value ← sample_of name (getlines [] text);
  let r := from_chars value in
  if bool_decide (ptr r = length value) then parsed r else None.

(** ** Lines *)

Definition no_lf (s : bytes) : Prop := x0a ∉ s.

Lemma no_lf_app s t : no_lf s -> no_lf t -> no_lf (s ++ t).
Proof. unfold no_lf. rewrite not_elem_of_app. done. Qed.

Lemma no_lf_literal s : bool_decide (x0a ∉ s) = true -> no_lf s.
Proof. apply bool_decide_eq_true_1. Qed.

Lemma no_lf_sub s t : (forall c, c ∈ s -> c ∈ t) -> no_lf t -> no_lf s.
Proof. unfold no_lf. auto. Qed.

Lemma no_lf_decimal n : 0 <= n -> no_lf (decimal n).
Proof.
  intros Hn Hin. destruct (decimal_spec n Hn) as (_ & Hd & _). rewrite Forall_forall in Hd.
  specialize (Hd _ Hin). by vm_compute in Hd.
Qed.

Lemma no_lf_take n s : no_lf s -> no_lf (take n s).
Proof. apply no_lf_sub. intros c. rewrite <- (take_drop n s) at 2. set_solver. Qed.

Lemma no_lf_drop n s : no_lf s -> no_lf (drop n s).
Proof. apply no_lf_sub. intros c. rewrite <- (take_drop n s) at 2. set_solver. Qed.

Lemma no_lf_zeros n : no_lf (replicate n x30).
Proof. intros [? _]%elem_of_replicate. done. Qed.

Lemma no_lf_strip s : no_lf s -> no_lf (strip_zeros s).
Proof.
  apply no_lf_sub. intros c. unfold strip_zeros. rewrite elem_of_reverse.
  assert (Hd : forall P l, c ∈ drop_while P l -> c ∈ l).
  { intros P l. induction l as [|x l IH]; [done|]. cbn. destruct (P x); [|done]. rewrite elem_of_cons. auto. }
  intros Hc%Hd. by rewrite elem_of_reverse in Hc.
Qed.

Lemma no_lf_point whole fraction : no_lf whole -> no_lf fraction -> no_lf (with_point whole fraction).
Proof.
  intros Hw Hf%no_lf_strip. unfold with_point. destruct (strip_zeros fraction); [done|].
  apply no_lf_app; [done|]. apply no_lf_app; [by apply no_lf_literal|done].
Qed.

Lemma nine_digits_nonneg n d : 0 <= n -> 0 < d -> 0 <= (nine_digits n d).1.
Proof.
  intros Hn Hd. unfold nine_digits. destruct (_ =? _); cbn [fst]; [lia|].
  assert (forall k, 0 < 10 ^ Z.max 0 k) as Hp by (intros; apply Z.pow_pos_nonneg; lia).
  apply nearest_even_ge; [specialize (Hp (decimal_exponent n d - 8))|specialize (Hp (8 - decimal_exponent n d))]; nia.
Qed.

Lemma no_lf_format_nonneg n d : 0 <= n -> 0 < d -> no_lf (format_nonneg n d).
Proof.
  intros Hn Hd. unfold format_nonneg. destruct (n =? 0); [by apply no_lf_literal|].
  pose proof (nine_digits_nonneg n d Hn Hd) as Hp. destruct (nine_digits n d) as [digits e].
  pose proof (no_lf_decimal digits Hp) as Hdig. destruct (_ || _); [|destruct (e <? 0)].
  - apply no_lf_app; [by apply no_lf_point; [apply no_lf_take|apply no_lf_drop]|].
    apply no_lf_app; [by apply no_lf_literal|]. apply no_lf_app; [by case_match; apply no_lf_literal|].
    unfold pad_zero. apply no_lf_app; [apply no_lf_zeros|]. apply no_lf_decimal. lia.
  - apply no_lf_point; [by apply no_lf_literal|]. apply no_lf_app; [apply no_lf_zeros|done].
  - by apply no_lf_point; [apply no_lf_take|apply no_lf_drop].
Qed.

Lemma no_lf_double x : no_lf (format_double x).
Proof.
  pose proof one_pos. destruct x as [z|[]|]; try by apply no_lf_literal. cbn [format_double].
  destruct (Z.ltb_spec z 0); [apply no_lf_app; [by apply no_lf_literal|]|]; apply no_lf_format_nonneg; lia.
Qed.

Create HintDb lines.
#[local] Hint Resolve no_lf_app no_lf_decimal no_lf_double : lines.
#[local] Hint Extern 2 (no_lf (B _)) => (apply no_lf_literal; reflexivity) : lines.
#[local] Hint Extern 2 (no_lf [_]) => (apply no_lf_literal; reflexivity) : lines.

(** The members hold 64-bit unsigned integers. *)
Record metrics_range (m : Metrics) : Prop := {
  mr_wf : metrics_wf m;
  mr_cells c : cell_ok c -> 0 <= load c m <= u64_max;
  mr_count : load WorkerCount m <= Z.of_nat max_workers;
  mr_buckets : Forall (fun n => 0 <= n <= u64_max) (duration_bucket_counts m);
  mr_observations : 0 <= duration_observations m <= u64_max
}.

Lemma no_lf_sample name value : no_lf name -> no_lf value -> no_lf (sample name value).
Proof. unfold sample. eauto 10 with lines. Qed.

Lemma no_lf_labelled name label value : no_lf name -> no_lf label -> no_lf value -> no_lf (labelled name label value).
Proof. unfold labelled. eauto 20 with lines. Qed.
#[local] Hint Resolve no_lf_sample no_lf_labelled : lines.

Lemma no_lf_series name kind help value :
  bool_decide (x0a ∉ B name ++ B kind ++ B help) = true -> no_lf value -> Forall no_lf (series name kind help value).
Proof.
  intros H Hv. apply bool_decide_eq_true_1 in H. rewrite !not_elem_of_app in H. destruct H as (H1 & H2 & H3).
  unfold series, header. rewrite !Forall_app, !Forall_cons, !Forall_nil. split_and!; eauto 20 with lines.
Qed.

Lemma no_lf_header name kind help :
  bool_decide (x0a ∉ B name ++ B kind ++ B help) = true -> Forall no_lf (header name kind help).
Proof.
  intros H. apply bool_decide_eq_true_1 in H. rewrite !not_elem_of_app in H. destruct H as (H1 & H2 & H3).
  unfold header. rewrite !Forall_cons, !Forall_nil. split_and!; eauto 20 with lines.
Qed.

Lemma no_lf_status_classes m : metrics_range m -> Forall no_lf (status_class_lines m).
Proof.
  intros Hm. unfold status_class_lines. apply Forall_lookup_2. intros i line.
  rewrite list_lookup_imap_Some. intros (n & Hn & ->). pose proof (lookup_lt_Some _ _ _ Hn) as Hlt.
  destruct Hm as [[Hlen _ _] Hc _ _ _]. rewrite Hlen in Hlt. specialize (Hc (StatusClass i) Hlt). cbn in Hc.
  rewrite Hn in Hc. cbn in Hc. unfold responses_name. eauto 20 with lines lia.
Qed.

Lemma no_lf_durations m : metrics_range m -> Forall no_lf (duration_lines m).
Proof.
  intros [_ _ _ Hb Ho]. unfold duration_lines. apply Forall_app_2.
  - apply Forall_lookup_2. intros i line. rewrite lookup_zip_with_Some.
    intros (b & n & -> & _ & Hn). pose proof (Forall_lookup_1 _ _ _ _ Hb Hn) as Hr. cbn in Hr.
    unfold bucket_name. eauto 20 with lines lia.
  - rewrite !Forall_cons, Forall_nil. unfold bucket_name. split_and!; eauto 20 with lines lia.
Qed.

Lemma no_lf_worker m w : (w < max_workers)%nat -> metrics_range m -> Forall no_lf (worker_lines m w).
Proof.
  intros Hw [_ Hc _ _ _]. unfold worker_lines. cbv zeta. rewrite !Forall_cons, Forall_nil.
  split_and!; try done; (apply no_lf_sample; [|apply no_lf_decimal, Hc; done]);
    apply no_lf_labelled; eauto with lines; apply no_lf_decimal; lia.
Qed.

(** The text is its lines. *)
Lemma exposition_lines pw bt ql ld qh now m :
  metrics_range m -> Forall (fun n => 0 <= n <= u64_max) [pw; bt; ql; ld; qh] ->
  getlines [] (prometheus_text pw bt ql ld qh now m) = exposition pw bt ql ld qh now m.
Proof.
  intros Hm Hargs. unfold prometheus_text. apply getlines_block. change (Forall no_lf (exposition pw bt ql ld qh now m)).
  rewrite !Forall_cons in Hargs. destruct Hargs as (H1 & H2 & H3 & H4 & H5 & _).
  pose proof Hm as [_ Hc Hcount _ _]. unfold exposition.
  rewrite !Forall_app. split_and!;
    try (apply no_lf_series; [vm_compute; reflexivity|first [apply no_lf_double|apply no_lf_decimal]; try lia; by apply Hc]);
    try (apply no_lf_header; vm_compute; reflexivity);
    try (by apply no_lf_status_classes); try (by apply no_lf_durations).
  apply Forall_concat, Forall_fmap, Forall_seq. intros w Hw. apply no_lf_worker; [|done].
  specialize (Hc WorkerCount I). lia.
Qed.

(** ** The published series *)

Definition published (pw bt ql ld qh : Z) (m : Metrics) : list (bytes * Z) :=
  [(B "gateway_connections_active", load OpenNow m);
   (B "gateway_connections_accepted_total", load Accepted m);
   (B "gateway_http_requests_total", load Requests m);
   (B "gateway_http_requests_blocked_total", load Blocked m);
   (B "gateway_http_parse_errors_total", load ParseErrors m)] ++
  imap (fun i n => (labelled responses_name (B "status_class") (decimal (Z.of_nat i + 1) ++ B "xx"), n))
    (response_status_classes m) ++
  zip_with (fun bound n => (labelled bucket_name (B "le") (format_double bound), n))
    duration_buckets (duration_bucket_counts m) ++
  [(labelled bucket_name (B "le") (B "+Inf"), duration_observations m);
   (B "gateway_http_request_duration_seconds_count", duration_observations m);
   (B "gateway_thread_pool_workers", pw); (B "gateway_thread_pool_busy_threads", bt);
   (B "gateway_thread_pool_queue_length", ql); (B "gateway_thread_pool_queue_high_water", qh);
   (B "gateway_log_disk_bytes", ld)].

(** Two texts that differ at a position both have. *)
Fixpoint mismatch (s t : bytes) : bool :=
  match s, t with
  | c :: s, d :: t => negb (bool_decide (c = d)) || mismatch s t
  | _, _ => false
  end.

Lemma mismatch_starts_with s t v : mismatch s t = true -> starts_with s (t ++ v) = false.
Proof.
  revert t. induction s as [|c s IH]; intros [|d t]; try done. cbn [mismatch app starts_with].
  case_bool_decide; [|done]. intros H1. cbn in H1. by rewrite IH.
Qed.

(** Line [k] is found when all lines before it differ from the name. *)
Lemma sample_of_at P V rest k name value :
  P !! k = Some (name ++ B " ") -> V !! k = Some value ->
  forallb (mismatch (name ++ B " ")) (take k P) = true ->
  sample_of name (zip_with app P V ++ rest) = Some value.
Proof.
  revert V k. induction P as [|p P IH]; intros [|v V] [|k] HP HV Hm; try done.
  - cbn in HP, HV. simplify_eq. cbn [zip_with app sample_of].
    rewrite (proj2 (starts_with_spec _ _)) by (by eexists). by rewrite drop_app_length.
  - cbn [take forallb] in Hm. apply andb_true_iff in Hm as [Hp Hm].
    cbn [zip_with app sample_of]. rewrite mismatch_starts_with by done. by apply (IH V k).
Qed.

(** The bounds as they are printed. *)
Definition bound_texts : list bytes :=
  [B "0.005"; B "0.01"; B "0.025"; B "0.05"; B "0.1"; B "0.25"; B "0.5"; B "1"; B "2.5"; B "5"; B "10"].

Lemma bucket_texts {C} (f : bytes -> Z -> C) ns :
  zip_with (fun bound n => f (format_double bound) n) duration_buckets ns = zip_with f bound_texts ns.
Proof.
  assert (H : bound_texts = format_double <$> duration_buckets) by (vm_compute; reflexivity).
  by rewrite H, zip_with_fmap_l.
Qed.


(** The lines up to the worker series, without their values. *)
Definition prefixes : list bytes :=
  series "gateway_connections_active" "gauge" "Current open client connections." [] ++
  series "gateway_connections_accepted_total" "counter" "Client connections accepted since startup." [] ++
  series "gateway_http_requests_total" "counter" "Parsed HTTP requests sent to the router." [] ++
  series "gateway_http_requests_blocked_total" "counter" "Requests rejected by rate limiting." [] ++
  series "gateway_http_parse_errors_total" "counter" "Malformed HTTP requests rejected by the parser." [] ++
  header "gateway_http_responses_total" "counter" "Responses grouped by status class." ++
  ((fun i => sample (labelled responses_name (B "status_class") (decimal (Z.of_nat i + 1) ++ B "xx")) []) <$> seq 0 5) ++
  header "gateway_http_request_duration_seconds" "histogram" "Request handling duration in seconds." ++
  ((fun t => sample (labelled bucket_name (B "le") t) []) <$> bound_texts) ++
  [sample (labelled bucket_name (B "le") (B "+Inf")) [];
   sample (B "gateway_http_request_duration_seconds_sum") [];
   sample (B "gateway_http_request_duration_seconds_count") []] ++
  series "process_uptime_seconds" "gauge" "Seconds since the gateway process started." [] ++
  series "gateway_thread_pool_workers" "gauge" "Configured request worker threads." [] ++
  series "gateway_thread_pool_busy_threads" "gauge" "Request worker threads currently executing tasks." [] ++
  series "gateway_thread_pool_queue_length" "gauge" "Queued request tasks." [] ++
  series "gateway_thread_pool_queue_high_water" "gauge" "Maximum shared request-pool queue depth since startup." [] ++
  series "gateway_log_disk_bytes" "gauge" "Provisioned bytes across pre-sized log segment files." [].

Definition one_value (v : bytes) : list bytes := [[]; []; v].

Lemma exposition_zip pw bt ql ld qh now m :
  length (response_status_classes m) = 5%nat -> length (duration_bucket_counts m) = 11%nat ->
  exists rest,
  exposition pw bt ql ld qh now m =
  zip_with app prefixes
    (one_value (decimal (load OpenNow m)) ++ one_value (decimal (load Accepted m)) ++
     one_value (decimal (load Requests m)) ++ one_value (decimal (load Blocked m)) ++
     one_value (decimal (load ParseErrors m)) ++ [[]; []] ++ (decimal <$> response_status_classes m) ++ [[]; []] ++
     (decimal <$> duration_bucket_counts m) ++
     [decimal (duration_observations m); format_double (duration_sum m); decimal (duration_observations m)] ++
     one_value (format_double (seconds (now - process_start m))) ++ one_value (decimal pw) ++
     one_value (decimal bt) ++ one_value (decimal ql) ++ one_value (decimal qh) ++ one_value (decimal ld)) ++ rest.
Proof.
  intros Hc Hb. exists (concat (worker_lines m <$> seq 0 (Z.to_nat (load WorkerCount m)))).
  unfold exposition, duration_lines, status_class_lines, active_connections.
  rewrite (bucket_texts (fun t n => sample (labelled bucket_name (B "le") t) (decimal n))).
  set (rest := concat _). clearbody rest.
  destruct (response_status_classes m) as [|c1 [|c2 [|c3 [|c4 [|c5 [|]]]]]]; try done.
  destruct (duration_bucket_counts m) as [|b1 [|b2 [|b3 [|b4 [|b5 [|b6 [|b7 [|b8 [|b9 [|b10 [|b11 [|]]]]]]]]]]]]; try done.
Qed.

Definition found_at (k : nat) (name : bytes) : bool :=
  bool_decide (prefixes !! k = Some (name ++ B " ")) && forallb (mismatch (name ++ B " ")) (take k prefixes).

Lemma sample_of_found k name V value rest :
  found_at k name = true -> V !! k = Some value -> sample_of name (zip_with app prefixes V ++ rest) = Some value.
Proof.
  unfold found_at. rewrite andb_true_iff. intros [H1%bool_decide_eq_true H2] HV. by eapply sample_of_at.
Qed.

Lemma published_range pw bt ql ld qh m :
  metrics_range m -> Forall (fun n => 0 <= n <= u64_max) [pw; bt; ql; ld; qh] ->
  Forall (fun nv => 0 <= nv.2 <= u64_max) (published pw bt ql ld qh m).
Proof.
  intros [[Hlen _ _] Hc _ Hb Ho] Hargs. rewrite !Forall_cons in Hargs.
  destruct Hargs as (H1 & H2 & H3 & H4 & H5 & _). unfold published. rewrite !Forall_app. split_and!.
  - repeat (apply Forall_cons; split; [by apply Hc|]). by apply Forall_nil.
  - apply Forall_lookup_2. intros i [n v]. rewrite list_lookup_imap_Some. intros (x & Hx & [= _ ->]).
    pose proof (lookup_lt_Some _ _ _ Hx) as Hlt. rewrite Hlen in Hlt. specialize (Hc (StatusClass i) Hlt).
    cbn [load] in Hc. by rewrite Hx in Hc.
  - apply Forall_lookup_2. intros i [n v]. rewrite lookup_zip_with_Some. intros (b & x & [= _ ->] & _ & Hx).
    by apply (Forall_lookup_1 _ _ _ _ Hb Hx).
  - repeat (apply Forall_cons; split; [done|]). by apply Forall_nil.
Qed.

Ltac line_at k := apply (sample_of_found k); [vm_compute; reflexivity|reflexivity].

Lemma published_sampled pw bt ql ld qh now m :
  metrics_wf m ->
  Forall (fun nv => sample_of nv.1 (exposition pw bt ql ld qh now m) = Some (decimal nv.2))
    (published pw bt ql ld qh m).
Proof.
  intros [Hc _ Hb]. destruct (exposition_zip pw bt ql ld qh now m Hc Hb) as (rest & ->).
  unfold published. rewrite (bucket_texts (fun t n => (labelled bucket_name (B "le") t, n))).
  destruct (response_status_classes m) as [|c1 [|c2 [|c3 [|c4 [|c5 [|]]]]]]; try discriminate Hc.
  destruct (duration_bucket_counts m) as [|b1 [|b2 [|b3 [|b4 [|b5 [|b6 [|b7 [|b8 [|b9 [|b10 [|b11 [|]]]]]]]]]]]];
    try discriminate Hb.
  unfold bound_texts. cbn [imap zip_with app].
  repeat (apply Forall_cons; split; [|]); [..|apply Forall_nil, I]; cbn [fst snd].
  all: [> line_at 2%nat | line_at 5%nat | line_at 8%nat | line_at 11%nat | line_at 14%nat | line_at
    17%nat | line_at 18%nat | line_at 19%nat | line_at 20%nat | line_at 21%nat | line_at 24%nat |
    line_at 25%nat | line_at 26%nat | line_at 27%nat | line_at 28%nat | line_at 29%nat | line_at
    30%nat | line_at 31%nat | line_at 32%nat | line_at 33%nat | line_at 34%nat | line_at 35%nat |
    line_at 37%nat | line_at 43%nat | line_at 46%nat | line_at 49%nat | line_at 52%nat | line_at
    55%nat].
Qed.


(** The range as a test on the members. *)
Definition in_range (n : Z) : bool := (0 <=? n) && (n <=? u64_max).
Definition worker_in_range (x : EpollWorkerMetrics) : bool :=
  forallb in_range [wm_accepted_connections x; wm_requests x; wm_completed_requests x;
                    wm_completion_queue_depth x; wm_completion_queue_high_water x].
Definition metrics_in_range (m : Metrics) : bool :=
  (length (response_status_classes m) =? 5)%nat && (length (epoll_workers m) =? max_workers)%nat &&
  (length (duration_bucket_counts m) =? 11)%nat && (load WorkerCount m <=? Z.of_nat max_workers) &&
  forallb in_range ([accepted_connections m; open_connections m; requests m; blocked_requests m; parse_errors m;
                     epoll_worker_count_cell m; duration_observations m] ++
                    response_status_classes m ++ duration_bucket_counts m) &&
  forallb worker_in_range (epoll_workers m).

Lemma in_range_spec n : in_range n = true <-> 0 <= n <= u64_max.
Proof. unfold in_range. rewrite andb_true_iff, !Z.leb_le. done. Qed.

Lemma worker_range w m :
  forallb worker_in_range (epoll_workers m) = true -> worker_in_range (worker_at w m) = true.
Proof.
  intros H. unfold worker_at. destruct (epoll_workers m !! w) as [x|] eqn:Hx; [|done]. cbn.
  rewrite forallb_forall in H. apply H. by apply list_elem_of_In, (list_elem_of_lookup_2 _ w).
Qed.

Lemma metrics_in_range_ok m : metrics_in_range m = true -> metrics_range m.
Proof.
  unfold metrics_in_range. rewrite !andb_true_iff, !Nat.eqb_eq, Z.leb_le.
  intros [[[[[H1 H2] H3] H4] H5] H6]. rewrite forallb_forall in H5.
  assert (Hin : forall n, n ∈ [accepted_connections m; open_connections m; requests m; blocked_requests m;
    parse_errors m; epoll_worker_count_cell m; duration_observations m] ++ response_status_classes m ++
    duration_bucket_counts m -> 0 <= n <= u64_max).
  { intros n Hn. apply in_range_spec, H5. by apply list_elem_of_In. }
  clear H5. split; [done| |done| |].
  - intros c Hc. pose proof (fun w => worker_range w m H6) as Hw. unfold worker_in_range in Hw.
    setoid_rewrite forallb_forall in Hw.
    assert (Hcell : forall w n, In n [wm_accepted_connections (worker_at w m); wm_requests (worker_at w m);
      wm_completed_requests (worker_at w m); wm_completion_queue_depth (worker_at w m);
      wm_completion_queue_high_water (worker_at w m)] -> 0 <= n <= u64_max)
      by (intros w n Hn; by apply in_range_spec, (Hw w)).
    destruct c; cbn [load]; try (apply (Hcell w); cbn; tauto);
      try (apply Hin; rewrite elem_of_app, !elem_of_cons; tauto).
    destruct (response_status_classes m !! i) as [x|] eqn:Hx; [|change (0 <= 0 <= u64_max); width].
    apply Hin, elem_of_app. right. apply elem_of_app. left. by eapply list_elem_of_lookup_2.
  - apply Forall_forall. intros n Hn. apply Hin. apply elem_of_app. right. apply elem_of_app. by right.
  - apply Hin. rewrite elem_of_app, !elem_of_cons. tauto.
Qed.

