(* ===== verification/Messages.v ===== *)
(** * Messages: the JSON of the recent messages

    Models [json_escape], [recent_messages_json] and [recent_messages_response]
    of src/src/network/tcp_server.cpp, over the log of MmapLog. *)
From stdpp Require Import base gmap list numbers strings.
From Stdlib Require Import Strings.Byte.
From S2P Require Import Prelude Text CircularBuffer Os MmapLog HttpParser Router.

Local Open Scope Z_scope.

(** ** [json_escape] *)

Definition quote : byte := x22.
Definition backslash : byte := x5c.

(** [hex[d]] *)
Definition hex_digit (d : Z) : byte := byte_of_Z (if d <? 10 then 48 + d else 87 + d).

(** The text a byte is replaced by. *)
Definition escape_byte (c : byte) : bytes :=
  match c with
  | x22 => [backslash; quote]
  | x5c => [backslash; backslash]
  | x08 => backslash :: B "b"
  | x0c => backslash :: B "f"
  | x0a => backslash :: B "n"
  | x0d => backslash :: B "r"
  | x09 => backslash :: B "t"
  | _ =>
      if byte_to_Z c <? 0x20 then
        backslash :: B "u00" ++ [hex_digit (Z.shiftr (byte_to_Z c) 4); hex_digit (Z.land (byte_to_Z c) 0x0f)]
      else [c]
  end.

Definition json_escape (value : bytes) : bytes := foldl (fun escaped c => escaped ++ escape_byte c) [] value.

(** ** [recent_messages_json] *)

(** [\"name\":] with the quotes of the source. *)
Definition key (name : string) : bytes := [quote] ++ B name ++ [quote] ++ B ":".

Definition message_json (m : Message) : bytes :=
  B "{" ++ key "offset" ++ to_string (offset m) ++
  B "," ++ key "timestamp_ns" ++ to_string (timestamp_ns m) ++
  B "," ++ key "payload_length" ++ to_string (payload_length m) ++
  B "," ++ key "payload" ++ [quote] ++ json_escape (payload m) ++ [quote] ++ B "}".

(** The loop over the messages, with its [first] flag. *)
Fixpoint messages_json (messages : list Message) (first : bool) (json : bytes) : bytes :=
  match messages with
  | [] => json
  | m :: messages =>
      let json := if negb first then json ++ B "," else json in
      messages_json messages false (json ++ message_json m)
  end.

Definition recent_messages_json (count : nat) : LogM bytes :=
  messages ← log_get_recent count;
  mret (messages_json messages true (B "[") ++ B "]").

(** ** [recent_messages_response] *)

Definition default_count : Z := 100.
Definition maximum_count : Z := 1000.

Definition invalid_count : HttpResponse :=
  mkResponse 400 (B "Bad Request") [] (B "Invalid recent count query").

(** The count a query asks for, if it is well formed. *)
Definition requested_count (query : bytes) : option Z :=
  if bool_decide (query = []) then Some default_count else
  if negb (bool_decide (substr query 0 6 = B "count=")) || contains_char x26 query then None else
  let value := substr_from query 6 in
  if bool_decide (value = []) then None else
  let result := from_chars value in
  if negb (bool_decide (ec result = errc_ok)) || negb (ptr result =? length value)%nat then None else
  match parsed result with
  | Some count => if maximum_count <? count then None else Some count
  | None => None
  end.

Definition recent_messages_response (req : HttpRequest) : LogM HttpResponse :=
  match requested_count (query req) with
  | None => mret invalid_count
  | Some count =>
      json ← recent_messages_json (Z.to_nat count);
      mret (mkResponse 200 (B "OK") [(B "Content-Type", B "application/json")] json)
  end.

(** ** A reader of JSON *)

Definition hex_value (c : byte) : option Z :=
  let v := byte_to_Z c in
  if (48 <=? v) && (v <=? 57) then Some (v - 48)
  else if (97 <=? v) && (v <=? 102) then Some (v - 87)
  else if (65 <=? v) && (v <=? 70) then Some (v - 55)
  else None.

(** The characters the short escapes stand for. *)
Definition short_escape (c : byte) : option byte :=
  match c with
  | x22 => Some x22 | x5c => Some x5c | x2f => Some x2f
  | x62 => Some x08 | x66 => Some x0c | x6e => Some x0a | x72 => Some x0d | x74 => Some x09
  | _ => None
  end.

(** The string up to the closing quote, and what follows it.  Control characters
    are not allowed in a string; of the numeric escapes the reader knows those of
    a single byte. *)
Fixpoint read_string (s : bytes) : option (bytes * bytes) :=
  match s with
  | [] => None
  | c :: s =>
      if bool_decide (c = quote) then Some ([], s)
      else if bool_decide (c = backslash) then
        match s with
        | x75 :: x30 :: x30 :: h :: l :: s =>
            match hex_value h, hex_value l with
            | Some vh, Some vl => prod_map (cons (byte_of_Z (16 * vh + vl))) id <$> read_string s
            | _, _ => None
            end
        | e :: s =>
            match short_escape e with
            | Some d => prod_map (cons d) id <$> read_string s
            | None => None
            end
        | [] => None
        end
      else if byte_to_Z c <? 0x20 then None
      else prod_map (cons c) id <$> read_string s
  end.

Definition read_literal (literal s : bytes) : option bytes :=
  if starts_with literal s then Some (drop (length literal) s) else None.

Definition read_number (s : bytes) : option (Z * bytes) :=
  match take_while is_digit s with
  | [] => None
  | digits => Some (decimal_value digits, drop_while is_digit s)
  end.

Definition read_field (name : string) (s : bytes) : option (Z * bytes) :=
  s ← read_literal (key name) s; read_number s.

Definition read_message (s : bytes) : option (Message * bytes) :=
  s ← read_literal (B "{") s;
  '(o, s) ← read_field "offset" s;
  s ← read_literal (B ",") s;
  '(t, s) ← read_field "timestamp_ns" s;
  s ← read_literal (B ",") s;
  '(n, s) ← read_field "payload_length" s;
  s ← read_literal (B ",") s;
  s ← read_literal (key "payload" ++ [quote]) s;
  '(p, s) ← read_string s;
  s ← read_literal (B "}") s;
  mret (mkMessage o t n p, s).

(** The elements after the first, then the end of the text. *)
Fixpoint read_more (fuel : nat) (s : bytes) : option (list Message) :=
  match fuel with
  | O => None
  | S fuel =>
      if bool_decide (s = B "]") then Some []
      else s ← read_literal (B ",") s;
           '(m, s) ← read_message s;
           cons m <$> read_more fuel s
  end.

Definition read_messages (s : bytes) : option (list Message) :=
  s ← read_literal (B "[") s;
  if bool_decide (s = B "]") then Some []
  else '(m, s) ← read_message s; cons m <$> read_more (length s) s.

Module MessageTests.
Definition tricky : bytes := B "a/" ++ [quote; backslash; x0a; x01; x1f; x7f; xff].

Example escaped :
  json_escape tricky = B "a/" ++ [backslash; quote; backslash; backslash] ++ [backslash] ++ B "n" ++
    [backslash] ++ B "u0001" ++ [backslash] ++ B "u001f" ++ [x7f; xff].
Proof. reflexivity. Qed.

Example counts :
  requested_count <$> [[]; B "count=7"; B "count=1000"; B "count=1001"; B "count="; B "count=7x"; B "count=7&a"; B "cnt=7"]
  = [Some 100; Some 7; Some 1000; None; None; None; None; None].
Proof. vm_compute. reflexivity. Qed.
End MessageTests.
