(* ===== verification/MessageTheorems.v ===== *)
(** * MessageTheorems: the properties of the message endpoints

    The JSON of any list of messages is read back to it; a count query is
    accepted exactly when it has the documented form; the response of an open log
    holds its newest messages. *)
From stdpp Require Import base gmap list numbers strings.
From Stdlib Require Import Strings.Byte.
From S2P Require Import Prelude Codec Text CircularBuffer Os MmapLog LogFormat LogScan LogSpec LogRecover LogLife LogDamage LogTheorems.
From S2P Require Import HttpParser Router Messages.

Local Open Scope Z_scope.

(** ** Strings *)

Lemma json_escape_concat v : json_escape v = concat (escape_byte <$> v).
Proof.
  unfold json_escape.
  assert (H : forall acc, foldl (fun escaped c => escaped ++ escape_byte c) acc v = acc ++ concat (escape_byte <$> v)).
  { induction v as [|c v IH]; intros acc; cbn [foldl fmap list_fmap concat]; [by rewrite app_nil_r|].
    by rewrite IH, app_assoc. }
  apply H.
Qed.

Lemma read_string_byte c s : read_string (escape_byte c ++ s) = prod_map (cons c) id <$> read_string s.
Proof. destruct c; reflexivity. Qed.

Lemma read_string_escape v rest : read_string (json_escape v ++ quote :: rest) = Some (v, rest).
Proof.
  rewrite json_escape_concat. induction v as [|c v IH]; [reflexivity|].
  rewrite fmap_cons. cbn [concat]. rewrite <- app_assoc, read_string_byte, IH. reflexivity.
Qed.

(** ** Messages *)

Lemma read_literal_app literal s : read_literal literal (literal ++ s) = Some s.
Proof.
  unfold read_literal. rewrite (proj2 (starts_with_spec _ _)) by (by eexists). by rewrite drop_app_length.
Qed.

(** What follows a numeral. *)
Definition no_digit (s : bytes) : Prop := match s with c :: _ => is_digit c = false | [] => True end.

Lemma read_number_app n s : 0 <= n -> no_digit s -> read_number (to_string n ++ s) = Some (n, s).
Proof.
  intros Hn Hs. rewrite to_string_decimal by done. destruct (decimal_spec n Hn) as (Hv & Hd & Hl & _).
  unfold read_number. rewrite drop_while_app by done.
  assert (Ht : take_while is_digit (decimal n ++ s) = decimal n).
  { destruct s as [|c s]; [rewrite app_nil_r; by apply take_while_all|by apply take_while_app]. }
  rewrite Ht. destruct (decimal n) as [|d ds]; [cbn in Hl; lia|]. by rewrite Hv.
Qed.

Lemma read_field_app name n s :
  0 <= n -> no_digit s -> read_field name (key name ++ to_string n ++ s) = Some (n, s).
Proof. intros Hn Hs. unfold read_field. rewrite read_literal_app. cbn [mbind option_bind]. by apply read_number_app. Qed.

(** The numbers of a message are unsigned. *)
Definition unsigned_message (m : Message) : Prop := 0 <= offset m /\ 0 <= timestamp_ns m /\ 0 <= payload_length m.

Ltac read_next :=
  first [rewrite read_literal_app | rewrite read_field_app by done | rewrite read_string_escape];
  cbn [mbind option_bind].

Lemma read_message_json m rest : unsigned_message m -> read_message (message_json m ++ rest) = Some (m, rest).
Proof.
  intros (H1 & H2 & H3). unfold message_json, read_message.
  rewrite <- !app_assoc. do 6 read_next. rewrite (app_assoc (key "payload") [quote]). read_next.
  change ([quote] ++ B "}" ++ rest) with (quote :: B "}" ++ rest). do 2 read_next.
  by destruct m.
Qed.

Lemma messages_json_more ms json :
  messages_json ms false json = json ++ concat ((fun m => B "," ++ message_json m) <$> ms).
Proof.
  revert json. induction ms as [|m ms IH]; intros json; cbn [messages_json fmap list_fmap concat negb];
    [by rewrite app_nil_r|]. by rewrite IH, <- !app_assoc.
Qed.

Lemma read_more_json fuel ms :
  Forall unsigned_message ms -> (length ms < fuel)%nat ->
  read_more fuel (concat ((fun m => B "," ++ message_json m) <$> ms) ++ B "]") = Some ms.
Proof.
  intros H. revert fuel. induction H as [|m ms Hm _ IH]; intros [|fuel] Hf; cbn [length] in Hf; try lia.
  - reflexivity.
  - rewrite fmap_cons. cbn [concat]. rewrite <- !app_assoc. cbn [read_more].
    rewrite bool_decide_eq_false_2 by done. rewrite read_literal_app. cbn [mbind option_bind].
    rewrite read_message_json by done. cbn [mbind option_bind]. rewrite IH by lia. reflexivity.
Qed.

Lemma length_message_json m : (0 < length (message_json m))%nat.
Proof. unfold message_json. rewrite length_app. cbn. lia. Qed.

Lemma read_messages_json ms :
  Forall unsigned_message ms -> read_messages (messages_json ms true (B "[") ++ B "]") = Some ms.
Proof.
  intros Hms. destruct Hms as [|m ms Hm Hms]; [reflexivity|].
  cbn [messages_json negb]. rewrite messages_json_more, <- !app_assoc. unfold read_messages.
  rewrite read_literal_app. cbn [mbind option_bind].
  rewrite bool_decide_eq_false_2.
  2:{ intros Heq. apply (f_equal length) in Heq. rewrite !length_app in Heq. cbn in Heq.
      pose proof (length_message_json m). lia. }
  rewrite read_message_json by done. cbn [mbind option_bind]. rewrite read_more_json; [reflexivity|done|].
  rewrite length_app. clear. induction ms as [|x ms IH]; cbn [fmap list_fmap concat length]; [cbn; lia|].
  rewrite !length_app. pose proof (length_message_json x). cbn in *. lia.
Qed.

(** ** Count queries *)

Lemma from_chars_ok value n :
  ec (from_chars value) = errc_ok -> ptr (from_chars value) = length value -> parsed (from_chars value) = Some n ->
  Forall (fun c => is_digit c = true) value /\ decimal_value value = n /\ value <> [].
Proof.
  unfold from_chars. destruct (take_while is_digit value) as [|d ds] eqn:Hd; [done|].
  destruct (_ <? _); [done|]. cbn [ec ptr parsed]. intros _ Hl [= <-].
  assert (Hv : take_while is_digit value = value).
  { rewrite Hd. rewrite <- (take_drop (length (d :: ds)) value).
    assert (Hp : exists k, value = (d :: ds) ++ k).
    { rewrite <- Hd. clear. induction value as [|c value [k IH]]; [by exists []|]. cbn.
      destruct (is_digit c); [exists k; cbn; by rewrite <- IH|by exists (c :: value)]. }
    destruct Hp as [k ->]. rewrite length_app in Hl. destruct k; [|cbn in Hl; lia].
    by rewrite !app_nil_r, firstn_all, drop_all, app_nil_r. }
  rewrite Hv in Hd. subst value. split_and!; [|done|done]. rewrite <- Hv. apply take_while_Forall.
Qed.

(** A query selects the count [n] exactly when it is empty and [n] is 100, or
    it is [count=] followed by a numeral of value [n], at most 1000, and nothing
    else; every other query is refused. *)
Theorem requested_count_spec q n :
  requested_count q = Some n <->
  (q = [] /\ n = 100) \/
  (exists ds, q = B "count=" ++ ds /\ ds <> [] /\ Forall (fun c => is_digit c = true) ds /\
              decimal_value ds = n /\ n <= 1000).
Proof.
  unfold requested_count. case_bool_decide as Hq.
  { subst q. split; [intros [= <-]; by left|]. intros [[_ ->]|(ds & [=] & _)]. done. }
  split.
  - destruct (negb _ || _) eqn:Hp; [done|]. apply orb_false_iff in Hp as [Hp _].
    apply negb_false_iff, bool_decide_eq_true in Hp. case_bool_decide as Hv; [done|].
    destruct (negb _ || _) eqn:Hc; [done|]. apply orb_false_iff in Hc as [Hec Hptr].
    apply negb_false_iff, bool_decide_eq_true in Hec. apply negb_false_iff, Nat.eqb_eq in Hptr.
    destruct (parsed _) as [k|] eqn:Hk; [|done]. destruct (Z.ltb_spec maximum_count k); [done|]. intros [= ->].
    destruct (from_chars_ok _ _ Hec Hptr Hk) as (H1 & H2 & H3). right. exists (substr_from q 6).
    split_and!; try done. rewrite <- Hp. unfold substr, substr_from. by rewrite drop_0, take_drop.
  - intros [[-> _]|(ds & -> & Hne & Hd & Hn & Hle)]; [done|].
    change (substr (B "count=" ++ ds) 0 6) with (take 6 (B "count=" ++ ds)).
    change (take 6 (B "count=" ++ ds)) with (B "count="). rewrite bool_decide_eq_true_2 by done.
    change (substr_from (B "count=" ++ ds) 6) with ds.
    assert (Ham : contains_char x26 (B "count=" ++ ds) = false).
    { unfold contains_char. apply bool_decide_eq_false_2. rewrite find_char_None; [by intros [? [=]]|].
      rewrite not_elem_of_app. split; [by vm_compute; intros ?; set_solver|]. intros Hin.
      rewrite Forall_forall in Hd. specialize (Hd _ Hin). by vm_compute in Hd. }
    rewrite Ham. cbn [negb orb]. rewrite bool_decide_eq_false_2 by done.
    assert (Hl : (0 < length ds)%nat) by (destruct ds; [done|cbn; lia]).
    rewrite from_chars_digits by (done || width). cbn [ec ptr parsed].
    rewrite bool_decide_eq_true_2, Nat.eqb_refl, Hn by done. cbn [negb orb].
    by replace (maximum_count <? n) with false by (unfold maximum_count; lia).
Qed.

(** ** The response *)

Lemma chained_unsigned base ms : 0 <= base -> chained base ms -> Forall unsigned_message ms.
Proof.
  revert base. induction ms as [|m ms IH]; intros base Hb Hc; [constructor|].
  destruct Hc as (Ho & [H1 H2 H3 H4] & Hc). constructor; [split_and!; lia|].
  apply (IH (base + record_size m)); [|done]. pose proof (record_size_ge m). lia.
Qed.

(** The response built from what the log returns. *)
Lemma recent_response_of req n ms s :
  requested_count (query req) = Some n -> log_get_recent (Z.to_nat n) s = (Ok ms, s) -> Forall unsigned_message ms ->
  exists json,
    recent_messages_response req s =
      (Ok (mkResponse 200 (B "OK") [(B "Content-Type", B "application/json")] json), s) /\
    read_messages json = Some ms.
Proof.
  intros Hq Hg Hms. exists (messages_json ms true (B "[") ++ B "]"). split; [|by apply read_messages_json].
  unfold recent_messages_response. rewrite Hq. unfold recent_messages_json. erewrite stm_bind_ok; [reflexivity|].
  erewrite stm_bind_ok by exact Hg. reflexivity.
Qed.

Lemma recent_response_ok outer s sealed cur req :
  log_inv outer s sealed cur ->
  match requested_count (query req) with
  | None => recent_messages_response req s = (Ok invalid_count, s)
  | Some n =>
      exists json,
        recent_messages_response req s =
          (Ok (mkResponse 200 (B "OK") [(B "Content-Type", B "application/json")] json), s) /\
        read_messages json =
          Some (newest (Z.to_nat n `min` capacity (recent_cache (log s))) (history sealed cur))
  end.
Proof.
  intros Hinv. destruct (requested_count (query req)) as [n|] eqn:Hq.
  - apply (recent_response_of req n); [done| |].
    + unfold log_get_recent, get_log, gets. do 2 f_equal. by apply get_recent_represents, (inv_cache _ _ _ _ Hinv).
    + unfold newest. apply Forall_drop. by apply (chained_unsigned 0), (hist_chained _ _ _ (inv_hist _ _ _ _ Hinv)).
  - unfold recent_messages_response. by rewrite Hq.
Qed.

(** C28: on an open log a refused query gets the 400 response; any other gets a 200
    response whose JSON body, whatever bytes the payloads contain, reads back as
    the newest messages of the history: as many as were asked for, at most 1000 and
    at most the capacity of the cache, oldest first.  The log is left as it was. *)
Theorem recent_response_reads_back outer s sealed cur req :
  log_inv outer s sealed cur ->
  match requested_count (query req) with
  | None => recent_messages_response req s = (Ok invalid_count, s)
  | Some n =>
      exists json,
        recent_messages_response req s =
          (Ok (mkResponse 200 (B "OK") [(B "Content-Type", B "application/json")] json), s) /\
        read_messages json =
          Some (newest (Z.to_nat n `min` capacity (recent_cache (log s))) (history sealed cur))
  end.
Proof. apply recent_response_ok. Qed.

Lemma recent_response_witness :
  exists s json,
    recent_messages_response empty_request s =
      (Ok (mkResponse 200 (B "OK") [(B "Content-Type", B "application/json")] json), s) /\
    read_messages json = Some [demo_message].
Proof.
  destruct demo_ok as (_ & Hs & Hi & Hr & _).
  assert (He : append_error (segment_size (log demo)) [] [] demo_text = None) by (rewrite Hs; reflexivity).
  apply append_error_None in He.
  pose proof (appended_inv [] demo [] [] demo_text 5 Hi He) as Ha. rewrite Hs in Ha.
  set (s := appended _ _ _ _ _) in Ha. exists s.
  destruct (recent_response_reads_back [] s [] [demo_message] empty_request Ha) as (json & H1 & H2).
  exists json. split; [exact H1|]. rewrite H2.
  destruct (appended_frame [] [] [] (new_message (end_of 0 (history [] [])) 5 demo_text) demo Hr) as (_ & _ & Hc).
  unfold s. rewrite Hc, push_capacity. change (capacity (recent_cache (log demo))) with 4%nat. reflexivity.
Defined.
