(* ===== verification/Sockets.v ===== *)
(** * Sockets: the operating system as an event-loop worker sees it

    The descriptors a worker owns, the interest list of its epoll instance, the
    trace of what it does with its sockets, and the answers of the nonblocking
    calls.  The answers still to come are lists;
    when a list is used up, a read, send or accept would block and every other
    call succeeds.  The lists are replaced at will between the steps of a worker,
    so that any sequence of answers is possible.  The kernel is assumed to do two
    things only: a descriptor that [accept] returns is not one that is in use, and
    a process does not live to accept 2^64 connections. *)
From stdpp Require Import base gmap list numbers strings.
From Stdlib Require Import Strings.Byte.
From S2P Require Import Prelude Os.

Local Open Scope Z_scope.

(** ** Events *)

Definition EPOLLIN : Z := 0x001.
Definition EPOLLOUT : Z := 0x004.
Definition EPOLLERR : Z := 0x008.
Definition EPOLLHUP : Z := 0x010.
Definition EPOLLRDHUP : Z := 0x2000.

(** [events & flags] *)
Definition has (events flags : Z) : bool := negb (Z.land events flags =? 0).

Definition EAGAIN : Z := 11.

(** ** Answers *)

Inductive read_answer := RBytes (data : bytes) | RError (code : Z).
Inductive send_answer := SSent (n : nat) | SError (code : Z).
(** A connection with its peer's address, [None] when [inet_ntop] fails. *)
Inductive accept_answer := AConnection (fd : Z) (ip : option bytes) | AError (code : Z).

Record answers := mkAnswers {
  an_reads : list read_answer;
  an_sends : list send_answer;
  an_accepts : list accept_answer;
  an_controls : list bool;
  an_nonblocking : list bool;
  an_submits : list bool
}.
Definition no_answers : answers := mkAnswers [] [] [] [] [] [].

(** ** The kernel *)

(** What a worker does with its descriptors, as the other side sees it. *)
Inductive net_event :=
| NAccepted (fd : Z)
| NReceived (fd : Z) (data : bytes)
| NSent (fd : Z) (data : bytes)
| NClosed (fd : Z).

Record kernel := mkKernel {
  k_open : gset Z;
  (** Closes of descriptors that were not open: a double close. *)
  k_bad_closes : list Z;
  k_interest : gmap Z Z;
  k_accepted : Z;
  k_trace : list net_event;
  k_answers : answers
}.

Definition set_answers (a : answers) (k : kernel) : kernel :=
  mkKernel (k_open k) (k_bad_closes k) (k_interest k) (k_accepted k) (k_trace k) a.

Definition sys_close_fd (fd : Z) (k : kernel) : kernel :=
  if decide (fd ∈ k_open k)
  then mkKernel (k_open k ∖ {[fd]}) (k_bad_closes k) (delete fd (k_interest k)) (k_accepted k)
                (k_trace k ++ [NClosed fd]) (k_answers k)
  else mkKernel (k_open k) (k_bad_closes k ++ [fd]) (k_interest k) (k_accepted k) (k_trace k) (k_answers k).

(** Bytes that [read] delivered, and bytes that [send] took. *)
Definition traced (e : net_event) (k : kernel) : kernel :=
  mkKernel (k_open k) (k_bad_closes k) (k_interest k) (k_accepted k) (k_trace k ++ [e]) (k_answers k).
Definition sys_received (fd : Z) (data : bytes) : kernel -> kernel := traced (NReceived fd data).
Definition sys_sent (fd : Z) (data : bytes) : kernel -> kernel := traced (NSent fd data).

Definition with_accepts (l : list accept_answer) (k : kernel) : kernel :=
  let a := k_answers k in
  set_answers (mkAnswers (an_reads a) (an_sends a) l (an_controls a) (an_nonblocking a) (an_submits a)) k.
Definition with_reads (l : list read_answer) (k : kernel) : kernel :=
  let a := k_answers k in
  set_answers (mkAnswers l (an_sends a) (an_accepts a) (an_controls a) (an_nonblocking a) (an_submits a)) k.
Definition with_sends (l : list send_answer) (k : kernel) : kernel :=
  let a := k_answers k in
  set_answers (mkAnswers (an_reads a) l (an_accepts a) (an_controls a) (an_nonblocking a) (an_submits a)) k.

(** The next answer of a call that only succeeds or fails. *)
Definition next_bool (l : list bool) : bool * list bool :=
  match l with [] => (true, []) | b :: l => (b, l) end.

Definition sys_control (k : kernel) : bool * kernel :=
  let a := k_answers k in
  let '(ok, l) := next_bool (an_controls a) in
  (ok, set_answers (mkAnswers (an_reads a) (an_sends a) (an_accepts a) l (an_nonblocking a) (an_submits a)) k).

(** The two [fcntl] calls of [set_nonblocking]. *)
Definition set_nonblocking (k : kernel) : bool * kernel :=
  let a := k_answers k in
  let '(flags_ok, l) := next_bool (an_nonblocking a) in
  let '(ok, l) := if flags_ok then next_bool l else (false, l) in
  (ok, set_answers (mkAnswers (an_reads a) (an_sends a) (an_accepts a) (an_controls a) l (an_submits a)) k).

Definition next_submit (k : kernel) : bool * kernel :=
  let a := k_answers k in
  let '(ok, l) := next_bool (an_submits a) in
  (ok, set_answers (mkAnswers (an_reads a) (an_sends a) (an_accepts a) (an_controls a) (an_nonblocking a) l) k).

Definition set_interest (i : gmap Z Z) (k : kernel) : kernel :=
  mkKernel (k_open k) (k_bad_closes k) i (k_accepted k) (k_trace k) (k_answers k).

(** A connection is taken from the queue. *)
Definition opened_fd (fd : Z) (k : kernel) : kernel :=
  mkKernel ({[fd]} ∪ k_open k) (k_bad_closes k) (k_interest k) (k_accepted k + 1) (k_trace k ++ [NAccepted fd])
           (k_answers k).

(** Whether the kernel can answer [accept] with this descriptor. *)
Definition acceptable (fd : Z) (k : kernel) : bool :=
  bool_decide (fd ∉ k_open k) && (0 <=? fd) && (k_accepted k <? u64_max - 1).
