(* ===== verification/EpollLoop.v ===== *)
(** * EpollLoop: the epoll wrapper and its loop

    Models src/src/network/epoll_loop.h and epoll_loop.cpp.  The loop is generic
    in the state its callbacks work on.  What [epoll_wait] reports are the events
    that the interest list asks for; between two callbacks other threads may
    change the state, which an [env] does. *)
From stdpp Require Import base gmap list numbers strings.
From S2P Require Import Prelude Os Sockets.

Local Open Scope Z_scope.

(** ** The interest list *)

Definition add_fd (fd events : Z) (k : kernel) : bool * kernel :=
  let '(ok, k) := sys_control k in
  if ok : bool then (true, set_interest (<[fd := events]> (k_interest k)) k) else (false, k).

Definition remove_fd (fd : Z) (k : kernel) : kernel := set_interest (delete fd (k_interest k)) k.

Definition modify_fd (fd events : Z) (k : kernel) : bool * kernel :=
  let '(ok, k) := sys_control k in
  match k_interest k !! fd with
  | Some _ => if ok : bool then (true, set_interest (<[fd := events]> (k_interest k)) k) else (false, k)
  | None => (false, k)
  end.

(** ** [run] *)

Definition max_events : nat := 64.

(** What the kernel reports of the events that happened: those of registered
    descriptors, restricted to what was asked for and to errors. *)
Definition reported (interest : gmap Z Z) (event : Z * Z) : option (Z * Z) :=
  match interest !! event.1 with
  | None => None
  | Some mask =>
      let events := Z.land event.2 (Z.lor mask (Z.lor EPOLLERR EPOLLHUP)) in
      if events =? 0 then None else Some (event.1, events)
  end.

Section Run.
(** [E] says what other threads do to the state, [interp] does it. *)
Context {W E : Type} (kernel_of : W -> kernel) (interp : E -> W -> W).

(** An answer of [epoll_wait]: each event with what other threads do before its
    callback runs, and what they do before [on_iteration]. *)
Inductive wait_answer :=
| WEvents (events : list ((Z * Z) * E)) (late : E)
| WError (code : Z).

(** The events [epoll_wait] stores, one per descriptor. *)
Fixpoint delivered (seen : list Z) (interest : gmap Z Z) (events : list ((Z * Z) * E)) :
    list ((Z * Z) * E) :=
  match events with
  | [] => []
  | (event, env) :: events =>
      if decide (event.1 ∈ seen) then delivered seen interest events
      else match reported interest event with
           | Some event => (event, env) :: delivered (event.1 :: seen) interest events
           | None => delivered seen interest events
           end
  end.

Context (callback : Z -> Z -> W -> W) (on_iteration : W -> W) (should_stop : W -> bool).

Definition handle_events (events : list ((Z * Z) * E)) (w : W) : W :=
  foldl (fun w e => callback e.1.1 e.1.2 (interp e.2 w)) w events.

(** The body of the loop for the events of one [epoll_wait]. *)
Definition iteration (events : list ((Z * Z) * E)) (late : E) (w : W) : W :=
  let stored := take max_events (delivered [] (k_interest (kernel_of w)) events) in
  on_iteration (interp late (handle_events stored w)).

(** The loop over the answers of [epoll_wait], each after a change by other
    threads: [Some] of what [run] returns, or [None] when it waits for more. *)
Fixpoint run_loop (waits : list (E * wait_answer)) (w : W) : option bool * W :=
  if should_stop w then (Some true, w) else
  match waits with
  | [] => (None, w)
  | (env, answer) :: waits =>
      let w := interp env w in
      match answer with
      | WError code => if code =? EINTR then run_loop waits w else (Some false, w)
      | WEvents events late =>
          let w := iteration events late w in
          if should_stop w then (Some true, w) else run_loop waits w
      end
  end.

(** [run]; [epoll_fd] is [false] when [epoll_create1] failed. *)
Definition run (epoll_fd : bool) (waits : list (E * wait_answer)) (w : W) : option bool * W :=
  if negb epoll_fd then (Some false, w) else run_loop waits w.
End Run.
Arguments wait_answer : clear implicits.
