(* ===== verification/TcpServer.v ===== *)
(** * TcpServer: the event-loop worker

    Models src/src/network/connection_manager.h and connection_manager.cpp and the
    worker of src/src/network/tcp_server.h and tcp_server.cpp: the connections of
    a worker, accepting, reading and dispatching requests, the completions, the
    backpressure of slow receivers, and draining.  The tasks a worker submits are
    executed by the pool threads between its steps; the metrics are the calls made,
    in their order.  The listener is the variable of [worker_loop], which
    [handle_event] receives by value. *)
From stdpp Require Import base gmap list numbers strings.
From Stdlib Require Import Strings.Byte.
From S2P Require Import Prelude Text Double Os HttpParser RateLimiter Router Metrics Sockets EpollLoop.

Local Open Scope Z_scope.

(** ** Connections *)

Record Connection := mkConnection {
  conn_fd : Z;
  client_ip : bytes;
  parser : HTTPParser;
  inbound : bytes;
  outbound : bytes;
  outbound_offset : nat;
  peer_closed : bool;
  request_in_flight : bool;
  generation : Z
}.

Definition new_connection (fd : Z) (ip : bytes) (generation : Z) : Connection :=
  mkConnection fd ip (new_parser default_max_header_bytes default_max_body_bytes) [] [] 0 false false generation.

Definition pending_bytes (c : Connection) : nat := length (outbound c) - outbound_offset c.

(** The bytes of the range given to [send]. *)
Definition unsent (c : Connection) : bytes := drop (outbound_offset c) (outbound c).

Definition set_parser x c := mkConnection (conn_fd c) (client_ip c) x (inbound c) (outbound c) (outbound_offset c)
  (peer_closed c) (request_in_flight c) (generation c).
Definition set_inbound x c := mkConnection (conn_fd c) (client_ip c) (parser c) x (outbound c) (outbound_offset c)
  (peer_closed c) (request_in_flight c) (generation c).
Definition set_outbound x c := mkConnection (conn_fd c) (client_ip c) (parser c) (inbound c) x (outbound_offset c)
  (peer_closed c) (request_in_flight c) (generation c).
Definition set_outbound_offset x c := mkConnection (conn_fd c) (client_ip c) (parser c) (inbound c) (outbound c) x
  (peer_closed c) (request_in_flight c) (generation c).
Definition set_peer_closed x c := mkConnection (conn_fd c) (client_ip c) (parser c) (inbound c) (outbound c)
  (outbound_offset c) x (request_in_flight c) (generation c).
Definition set_in_flight x c := mkConnection (conn_fd c) (client_ip c) (parser c) (inbound c) (outbound c)
  (outbound_offset c) (peer_closed c) x (generation c).

(** [ConnectionManager]: the map and its operations. *)
Abbreviation ConnectionManager := (gmap Z Connection).

Definition cm_add (fd : Z) (ip : bytes) (generation : Z) (m : ConnectionManager) : ConnectionManager :=
  <[fd := new_connection fd ip generation]> m.
Definition cm_remove (fd : Z) (m : ConnectionManager) : ConnectionManager := delete fd m.
Definition cm_get (fd : Z) (m : ConnectionManager) : option Connection := m !! fd.
Definition cm_count (m : ConnectionManager) : nat := size m.
(** In an order of the map's own. *)
Definition cm_file_descriptors (m : ConnectionManager) : list Z := (map_to_list m).*1.

(** ** The state of a worker *)

Record Completion := mkCompletion {
  comp_fd : Z;
  comp_generation : Z;
  serialized_response : bytes;
  comp_status : Z;
  elapsed : double
}.

(** What the closure given to [submit] captures. *)
Record Task := mkTask {
  task_fd : Z;
  task_generation : Z;
  task_request : HttpRequest;
  task_ip : bytes
}.

Record LoopState := mkLoopState {
  completion_fd : Z;
  completions : list Completion;
  outstanding_tasks : Z;
  next_generation : Z;
  worker_id : nat;
  draining : bool
}.

(** The members shared with other threads, as far as this worker sees them:
    [signal] counts the loads of [shutdown_requested] left before another thread
    sets it; [accepted_tasks] are the tasks of this worker the pool has not
    finished, [produced] the tasks it has finished with the responses. *)
Record shared := mkShared {
  shutdown_requested : bool;
  signal : option nat;
  worker_failed : bool;
  pool_stopping : bool;
  accepted_tasks : list Task;
  produced : list (Task * bytes);
  metric_calls : list metrics_call
}.

Record worker := mkWorker {
  connections : ConnectionManager;
  loop_state : LoopState;
  kern : kernel;
  shared_state : shared
}.

Definition set_connections m w := mkWorker m (loop_state w) (kern w) (shared_state w).
Definition set_loop_state l w := mkWorker (connections w) l (kern w) (shared_state w).
Definition set_kern k w := mkWorker (connections w) (loop_state w) k (shared_state w).
Definition set_shared s w := mkWorker (connections w) (loop_state w) (kern w) s.

Definition update_connection (fd : Z) (f : Connection -> Connection) (w : worker) : worker :=
  set_connections (alter f fd (connections w)) w.

Definition set_completions x l :=
  mkLoopState (completion_fd l) x (outstanding_tasks l) (next_generation l) (worker_id l) (draining l).
Definition set_outstanding x l :=
  mkLoopState (completion_fd l) (completions l) x (next_generation l) (worker_id l) (draining l).
Definition set_next_generation x l :=
  mkLoopState (completion_fd l) (completions l) (outstanding_tasks l) x (worker_id l) (draining l).
Definition set_draining x l :=
  mkLoopState (completion_fd l) (completions l) (outstanding_tasks l) (next_generation l) (worker_id l) x.

Definition set_shutdown x s :=
  mkShared x (signal s) (worker_failed s) (pool_stopping s) (accepted_tasks s) (produced s) (metric_calls s).
Definition set_signal x s :=
  mkShared (shutdown_requested s) x (worker_failed s) (pool_stopping s) (accepted_tasks s) (produced s) (metric_calls s).
Definition set_failed x s :=
  mkShared (shutdown_requested s) (signal s) x (pool_stopping s) (accepted_tasks s) (produced s) (metric_calls s).
Definition set_pool_stopping x s :=
  mkShared (shutdown_requested s) (signal s) (worker_failed s) x (accepted_tasks s) (produced s) (metric_calls s).
Definition set_accepted_tasks x s :=
  mkShared (shutdown_requested s) (signal s) (worker_failed s) (pool_stopping s) x (produced s) (metric_calls s).
Definition set_produced x s :=
  mkShared (shutdown_requested s) (signal s) (worker_failed s) (pool_stopping s) (accepted_tasks s) x (metric_calls s).
Definition set_metric_calls x s :=
  mkShared (shutdown_requested s) (signal s) (worker_failed s) (pool_stopping s) (accepted_tasks s) (produced s) x.

(** A call of a method of [metrics]. *)
Definition measure (c : metrics_call) (w : worker) : worker :=
  set_shared (set_metric_calls (metric_calls (shared_state w) ++ [c]) (shared_state w)) w.

(** [shutdown_requested.load()] *)
Definition load_shutdown (w : worker) : bool * worker :=
  let s := shared_state w in
  if shutdown_requested s then (true, w) else
  match signal s with
  | Some O => (true, set_shared (set_signal None (set_shutdown true s)) w)
  | Some (S n) => (false, set_shared (set_signal (Some n) s) w)
  | None => (false, w)
  end.

(** [worker_failed.store(true); shutdown_requested.store(true)] *)
Definition fail_worker (w : worker) : worker :=
  set_shared (set_shutdown true (set_failed true (shared_state w))) w.

Definition max_outbound_bytes : nat := Z.to_nat (Z.shiftl 1 20).

Definition bad_request : HttpResponse := mkResponse 400 (B "Bad Request") [] (B "Bad Request").
Definition overloaded : HttpResponse :=
  mkResponse 503 (B "Service Unavailable") [] (B "Service Unavailable").
Definition internal_error : HttpResponse :=
  mkResponse 500 (B "Internal Server Error") [] (B "Internal Server Error").

(** ** Closing and sending *)

(** [close_client] *)
Definition close_client (fd : Z) (w : worker) : worker :=
  let w := set_kern (remove_fd fd (kern w)) w in
  let w :=
    match cm_get fd (connections w) with
    | Some _ => measure CClosed (set_connections (cm_remove fd (connections w)) w)
    | None => w
    end in
  set_kern (sys_close_fd fd (kern w)) w.

Inductive send_result := AllSent | WouldBlock | SendFailed.

(** The [send] loop of [flush_client]: the answers left, how it ended, and
    [outbound_offset]. *)
Fixpoint send_loop (sends : list send_answer) (size offset : nat) : list send_answer * send_result * nat :=
  if (size - offset =? 0)%nat then (sends, AllSent, offset) else
  match sends with
  | [] => ([], WouldBlock, offset)
  | SSent n :: sends =>
      let bytes_sent := (n `min` (size - offset))%nat in
      if (0 <? bytes_sent)%nat then send_loop sends size (offset + bytes_sent)%nat
      else (sends, SendFailed, offset)
  | SError code :: sends =>
      if code =? EINTR then send_loop sends size offset
      else if code =? EAGAIN then (sends, WouldBlock, offset)
      else (sends, SendFailed, offset)
  end.

(** Registering for [events], or giving the client up. *)
Definition modify_or_close (fd events : Z) (w : worker) : bool * worker :=
  let '(ok, k) := modify_fd fd events (kern w) in
  let w := set_kern k w in
  if ok : bool then (true, w) else (false, close_client fd w).

Definition flush_client (fd : Z) (w : worker) : bool * worker :=
  match cm_get fd (connections w) with
  | None => (false, w)
  | Some c =>
      let '(sends, result, offset) :=
        send_loop (an_sends (k_answers (kern w))) (length (outbound c)) (outbound_offset c) in
      let sent := take (offset - outbound_offset c) (unsent c) in
      let w := set_kern (with_sends sends (sys_sent fd sent (kern w))) w in
      let w := update_connection fd (set_outbound_offset offset) w in
      match result with
      | WouldBlock => modify_or_close fd (Z.lor (Z.lor EPOLLIN EPOLLOUT) EPOLLRDHUP) w
      | SendFailed => (false, close_client fd w)
      | AllSent =>
          let w := update_connection fd (fun c => set_outbound_offset 0 (set_outbound [] c)) w in
          if peer_closed c then (false, close_client fd w)
          else modify_or_close fd (Z.lor EPOLLIN EPOLLRDHUP) w
      end
  end.

(** ** Accepting *)

Definition accept_connection (fd : Z) (ip : option bytes) (w : worker) : worker :=
  let w := set_kern (opened_fd fd (kern w)) w in
  match ip with
  | None => set_kern (sys_close_fd fd (kern w)) w
  | Some ip =>
      let '(nonblocking, k) := set_nonblocking (kern w) in
      let '(added, k) :=
        if nonblocking : bool then add_fd fd (Z.lor EPOLLIN EPOLLRDHUP) k else (false, k) in
      let w := set_kern k w in
      if negb added then set_kern (sys_close_fd fd (kern w)) w
      else
        let g := next_generation (loop_state w) in
        let w := set_loop_state (set_next_generation (u64_add g 1) (loop_state w)) w in
        let w := set_connections (cm_add fd ip g (connections w)) w in
        measure (COpened (worker_id (loop_state w))) w
  end.

(** The loop of [accept_clients]: the answers left and the worker. *)
Fixpoint accept_loop (accepts : list accept_answer) (w : worker) : list accept_answer * worker :=
  let '(stop, w) := load_shutdown w in
  if stop : bool then (accepts, w) else
  match accepts with
  | [] => ([], w)
  | AError code :: accepts =>
      if code =? EAGAIN then (accepts, w)
      else if code =? EINTR then accept_loop accepts w
      else (accepts, w)
  | AConnection fd ip :: accepts =>
      if acceptable fd (kern w) then accept_loop accepts (accept_connection fd ip w) else (accepts, w)
  end.

Definition accept_clients (w : worker) : worker :=
  let '(accepts, w) := accept_loop (an_accepts (k_answers (kern w))) w in
  set_kern (with_accepts accepts (kern w)) w.

(** ** Reading and dispatching *)

(** [thread_pool->submit]: refused by a full or stopping pool. *)
Definition submit_task (t : Task) (w : worker) : bool * worker :=
  let '(ok, k) := next_submit (kern w) in
  let w := set_kern k w in
  if ok && negb (pool_stopping (shared_state w))
  then (true, set_shared (set_accepted_tasks (accepted_tasks (shared_state w) ++ [t]) (shared_state w)) w)
  else (false, w).

Definition add_outstanding (d : Z) (w : worker) : worker :=
  set_loop_state (set_outstanding ((outstanding_tasks (loop_state w) + d) mod u64_modulus) (loop_state w)) w.

(** The branch of [handle_client] for a complete request; [false] when the
    function returns there. *)
Definition dispatch_request (fd : Z) (c : Connection) (w : worker) : bool * worker :=
  let w := measure (CStarted (worker_id (loop_state w))) w in
  let t := mkTask fd (generation c) (request (parser c)) (client_ip c) in
  let w := update_connection fd (set_in_flight true) w in
  let '(ok, k) := modify_fd fd EPOLLRDHUP (kern w) in
  let w := set_kern k w in
  if negb ok then (false, close_client fd w) else
  let w := add_outstanding 1 w in
  let '(accepted, w) := submit_task t w in
  if accepted : bool then (true, w) else
  let w := add_outstanding (-1) w in
  let w := update_connection fd
    (fun c => set_peer_closed true (set_outbound (outbound c ++ response_to_string overloaded) (set_in_flight false c))) w in
  let w := measure (CCompleted 503 (Fin 0) (worker_id (loop_state w))) w in
  (true, (flush_client fd w).2).

(** The branch for a malformed request. *)
Definition reject_request (fd : Z) (c : Connection) (w : worker) : bool * worker :=
  let w := measure CParseError w in
  let serialized := response_to_string bad_request in
  if (max_outbound_bytes <? pending_bytes c + length serialized)%nat then (false, close_client fd w)
  else (true, update_connection fd (fun c => set_peer_closed true (set_outbound (outbound c ++ serialized) c)) w).

(** The read loop: the answers left, whether the code after the loop is reached,
    and the worker.  A read delivers at most the 1024 bytes of the buffer. *)
Fixpoint read_loop (reads : list read_answer) (fd : Z) (w : worker) : list read_answer * bool * worker :=
  match reads with
  | [] => ([], true, w)
  | RError code :: reads =>
      if code =? EAGAIN then (reads, true, w)
      else if code =? EINTR then read_loop reads fd w
      else (reads, false, close_client fd w)
  | RBytes [] :: reads => (reads, true, update_connection fd (set_peer_closed true) w)
  | RBytes data :: reads =>
      match cm_get fd (connections w) with
      | None => (reads, false, w)
      | Some c =>
          let w := set_kern (sys_received fd (take 1024 data) (kern w)) w in
          let '(status, p) := feed (inbound c ++ take 1024 data) (parser c) in
          let c := set_inbound [] (set_parser p c) in
          let w := update_connection fd (fun _ => c) w in
          match status with
          | Error => let '(after, w) := reject_request fd c w in (reads, after, w)
          | Complete => let '(after, w) := dispatch_request fd c w in (reads, after, w)
          | Incomplete =>
              if (0 <? length (error (parser c)))%nat then (reads, false, close_client fd w)
              else read_loop reads fd w
          end
      end
  end.

Definition handle_client (fd : Z) (w : worker) : worker :=
  match cm_get fd (connections w) with
  | None => w
  | Some _ =>
      let '(reads, after, w) := read_loop (an_reads (k_answers (kern w))) fd w in
      let w := set_kern (with_reads reads (kern w)) w in
      if negb after then w else
      match cm_get fd (connections w) with
      | Some c => if negb (request_in_flight c) then (flush_client fd w).2 else w
      | None => w
      end
  end.

(** ** Completions *)

Definition process_completion (k : Completion) (w : worker) : worker :=
  let w := measure (CCompleted (comp_status k) (elapsed k) (worker_id (loop_state w))) w in
  let w :=
    match cm_get (comp_fd k) (connections w) with
    | Some c =>
        if (generation c =? comp_generation k) && request_in_flight c then
          let w := update_connection (comp_fd k) (set_in_flight false) w in
          if (pending_bytes c + length (serialized_response k) <=? max_outbound_bytes)%nat then
            let w := update_connection (comp_fd k)
              (fun c => set_peer_closed true (set_outbound (outbound c ++ serialized_response k) c)) w in
            (flush_client (comp_fd k) w).2
          else close_client (comp_fd k) w
        else w
    | None => w
    end in
  add_outstanding (-1) w.

Definition process_completions (w : worker) : worker :=
  let completed := completions (loop_state w) in
  let w := set_loop_state (set_completions [] (loop_state w)) w in
  let w := measure (CQueueSize (worker_id (loop_state w)) 0) w in
  foldl (flip process_completion) w completed.

(** ** Draining *)

(** The body of the loops over the descriptors in [begin_drain] and in
    [on_iteration]. *)
Definition drain_connection (fd : Z) (w : worker) : worker :=
  match cm_get fd (connections w) with
  | None => w
  | Some c =>
      if request_in_flight c then w
      else if negb (pending_bytes c =? 0)%nat then (flush_client fd w).2 else close_client fd w
  end.

Definition drain_connections (w : worker) : worker :=
  foldl (flip drain_connection) w (cm_file_descriptors (connections w)).

(** [begin_drain]: the worker and the listener variable it was given. *)
Definition begin_drain (listener : option Z) (w : worker) : option Z * worker :=
  if draining (loop_state w) then (listener, w) else
  let w := set_loop_state (set_draining true (loop_state w)) w in
  let w := set_shared (set_pool_stopping true (shared_state w)) w in
  let '(listener, w) :=
    match listener with
    | Some l => (None, set_kern (sys_close_fd l (remove_fd l (kern w))) w)
    | None => (None, w)
    end in
  (listener, drain_connections w).

(** ** Events *)

(** [handle_event], whose [listener_fd] is a copy. *)
Definition handle_event (listener : option Z) (fd events : Z) (w : worker) : worker :=
  let '(stop, w) := load_shutdown w in
  let '(listener, w) :=
    if stop && negb (draining (loop_state w)) then begin_drain listener w else (listener, w) in
  if fd =? completion_fd (loop_state w) then process_completions w else
  let is_listener := bool_decide (listener = Some fd) in
  if negb is_listener && bool_decide (cm_get fd (connections w) = None) then w else
  if is_listener then
    if draining (loop_state w) then w
    else if has events (Z.lor EPOLLERR EPOLLHUP) then fail_worker w
    else if has events EPOLLIN then accept_clients w else w
  else
  if has events (Z.lor EPOLLERR EPOLLHUP) then close_client fd w else
  let w := if has events EPOLLIN then handle_client fd w else w in
  if has events EPOLLIN && bool_decide (cm_get fd (connections w) = None) then w else
  let w := if has events EPOLLRDHUP then update_connection fd (set_peer_closed true) w else w in
  let w := if has events EPOLLOUT then (flush_client fd w).2 else w in
  match cm_get fd (connections w) with
  | Some c =>
      if negb (request_in_flight c) && peer_closed c && (pending_bytes c =? 0)%nat then close_client fd w else w
  | None => w
  end.

(** ** What other threads do *)

Inductive env_change :=
| EnvAnswers (a : answers)
| EnvSignal (loads : nat)
| EnvPoolStopping
(** A pool thread finishes a task of this worker, its handler having returned or thrown. *)
| EnvTask (i : nat) (response : outcome HttpResponse) (elapsed : double).

(** The closure of [handle_client] on the result of [router.route]. *)
Definition task_completion (t : Task) (response : outcome HttpResponse) (elapsed : double) : Completion :=
  let response := match response with Ok r => r | Throw _ => internal_error end in
  mkCompletion (task_fd t) (task_generation t) (response_to_string response) (status_code response) elapsed.

Definition finish_task (i : nat) (response : outcome HttpResponse) (elapsed : double) (w : worker) : worker :=
  match accepted_tasks (shared_state w) !! i with
  | None => w
  | Some t =>
      let w := set_shared (set_accepted_tasks (delete i (accepted_tasks (shared_state w))) (shared_state w)) w in
      let k := task_completion t response elapsed in
      let w := set_shared (set_produced (produced (shared_state w) ++ [(t, serialized_response k)]) (shared_state w)) w in
      let l := completions (loop_state w) ++ [k] in
      let w := set_loop_state (set_completions l (loop_state w)) w in
      measure (CQueueSize (worker_id (loop_state w)) (length l)) w
  end.

Definition apply_change (e : env_change) (w : worker) : worker :=
  match e with
  | EnvAnswers a => set_kern (set_answers a (kern w)) w
  | EnvSignal n => if shutdown_requested (shared_state w) then w
                   else set_shared (set_signal (Some n) (shared_state w)) w
  | EnvPoolStopping => set_shared (set_pool_stopping true (shared_state w)) w
  | EnvTask i response elapsed => finish_task i response elapsed w
  end.
Definition apply_changes (es : list env_change) (w : worker) : worker := foldl (flip apply_change) w es.

(** ** [worker_loop] *)

(** The loop works on the worker and on the listener variable of [worker_loop]. *)
Definition loop_worker : Type := option Z * worker.

Definition on_event (fd events : Z) (s : loop_worker) : loop_worker := (s.1, handle_event s.1 fd events s.2).

Definition on_iteration (s : loop_worker) : loop_worker :=
  let w := process_completions s.2 in
  let '(stop, w) := load_shutdown w in
  let '(listener, w) := if stop : bool then begin_drain s.1 w else (s.1, w) in
  (listener, if draining (loop_state w) then drain_connections w else w).

Definition should_stop (s : loop_worker) : bool :=
  draining (loop_state s.2) && (outstanding_tasks (loop_state s.2) =? 0) && (cm_count (connections s.2) =? 0)%nat.

(** What the calls that set a worker up return. *)
Record setup := mkSetup {
  su_listener : option Z;
  su_setsockopt : bool;
  su_bind : bool;
  su_listen : bool;
  su_epoll : bool;
  su_eventfd : option Z
}.

(** A fresh descriptor from [socket] or [eventfd]. *)
Definition sys_new_fd (fd : option Z) (k : kernel) : option Z * kernel :=
  match fd with
  | Some fd =>
      if bool_decide (fd ∉ k_open k) && (0 <=? fd)
      then (Some fd, mkKernel ({[fd]} ∪ k_open k) (k_bad_closes k) (k_interest k) (k_accepted k)
                           (k_trace k) (k_answers k))
      else (None, k)
  | None => (None, k)
  end.

Definition create_reuseport_listener (su : setup) (k : kernel) : option Z * kernel :=
  let '(socket, k) := sys_new_fd (su_listener su) k in
  match socket with
  | None => (None, k)
  | Some fd =>
      if negb (su_setsockopt su) then (None, sys_close_fd fd k)
      else if negb (su_bind su) then (None, sys_close_fd fd k)
      else if negb (su_listen su) then (None, sys_close_fd fd k)
      else
        let '(ok, k) := set_nonblocking k in
        if negb ok then (None, sys_close_fd fd k) else (Some fd, k)
  end.

Definition new_worker (id : nat) (eventfd : Z) (k : kernel) (s : shared) : worker :=
  mkWorker ∅ (mkLoopState eventfd [] 0 1 id false) k s.

Abbreviation waits := (list (list env_change * wait_answer (list env_change))).

Definition run_worker (epoll : bool) (ws : waits) (s : loop_worker) : option bool * loop_worker :=
  run (fun s => kern s.2) (fun es s => (s.1, apply_changes es s.2)) on_event on_iteration should_stop epoll ws s.

(** After the loop. *)
Definition finish_worker (completed : bool) (s : loop_worker) : worker :=
  let '(listener, w) := s in
  let w :=
    if negb completed then
      let '(stop, w) := load_shutdown w in if negb stop then fail_worker w else w
    else w in
  let w := match listener with Some l => set_kern (sys_close_fd l (kern w)) w | None => w end in
  set_kern (sys_close_fd (completion_fd (loop_state w)) (kern w)) w.

(** [worker_loop] on a kernel and the shared members: whether it returned. *)
Definition worker_loop (id : nat) (su : setup) (ws : waits) (k : kernel) (s : shared) : bool * worker :=
  let '(listener, k) := create_reuseport_listener su k in
  match listener with
  | None => (true, fail_worker (new_worker id (-1) k s))
  | Some l =>
      let '(eventfd, k) := sys_new_fd (su_eventfd su) k in
      match eventfd with
      | None => (true, fail_worker (new_worker id (-1) (sys_close_fd l k) s))
      | Some e =>
          let '(ok, k) := add_fd e EPOLLIN k in
          if negb (su_epoll su && ok) then (true, fail_worker (new_worker id e (sys_close_fd l (sys_close_fd e k)) s)) else
          let '(ok, k) := add_fd l EPOLLIN k in
          if negb ok then (true, fail_worker (new_worker id e (sys_close_fd l (sys_close_fd e k)) s)) else
          let '(completed, s) := run_worker (su_epoll su) ws (Some l, new_worker id e k s) in
          match completed with
          | None => (false, s.2)
          | Some completed => (true, finish_worker completed s)
          end
      end
  end.

(** ** Scenarios *)

Module ServerTests.
Definition idle_kernel : kernel := mkKernel ∅ [] ∅ 0 [] no_answers.
Definition idle_shared : shared := mkShared false None false false [] [] [].
Definition su : setup := mkSetup (Some 3) true true true true (Some 4).
Definition ip : bytes := B "10.0.0.1".
Definition get_health : bytes := B "GET /health HTTP/1.1" ++ crlf ++ B "Host: a" ++ crlf ++ crlf.
Definition ok_response : HttpResponse := mkResponse 200 (B "OK") [] (B "up").

Definition accepts (l : list accept_answer) : list env_change := [EnvAnswers (mkAnswers [] [] l [] [] [])].
Definition reads (l : list read_answer) : list env_change := [EnvAnswers (mkAnswers l [] [] [] [] [])].
Definition sends (l : list send_answer) : list env_change := [EnvAnswers (mkAnswers [] l [] [] [] [])].
Definition event (fd events : Z) (es : list env_change) : list env_change * wait_answer (list env_change) :=
  ([], WEvents [((fd, events), es)] []).

(** A client connects, asks, is answered, and the server is stopped. *)
Definition served : waits :=
  [event 3 EPOLLIN (accepts [AConnection 7 (Some ip)]);
   event 7 EPOLLIN (reads [RBytes (take 10 get_health); RBytes (drop 10 get_health)]);
   event 4 EPOLLIN (EnvTask 0 (Ok ok_response) (Fin 0) :: sends [SError EINTR; SSent 20; SSent 100]);
   ([EnvSignal 0], WEvents [] [])].

Definition summary (r : bool * worker) : bool * list Z * list Z * list metrics_call :=
  (r.1, elements (k_open (kern r.2)), k_bad_closes (kern r.2), metric_calls (shared_state r.2)).

Example served_and_stopped :
  summary (worker_loop 0 su served idle_kernel idle_shared) =
  (true, [], [],
   [COpened 0; CQueueSize 0 0; CStarted 0; CQueueSize 0 0; CQueueSize 0 1; CQueueSize 0 0;
    CCompleted 200 (Fin 0) 0; CClosed; CQueueSize 0 0; CQueueSize 0 0]).
Proof. vm_compute. reflexivity. Qed.

(** A failing handler: the answer is the 500 response, sent as far as the socket
    takes it. *)
Example failing_handler :
  let r := worker_loop 0 su
    [event 3 EPOLLIN (accepts [AConnection 7 (Some ip)]); event 7 EPOLLIN (reads [RBytes get_health]);
     event 4 EPOLLIN (EnvTask 0 (Throw out_of_bounds) (Fin 0) :: sends [SSent 20])] idle_kernel idle_shared in
  (r.1, (fun c => drop (outbound_offset c) (outbound c)) <$> cm_get 7 (connections r.2))
  = (false, Some (drop 20 (response_to_string internal_error))).
Proof. vm_compute. reflexivity. Qed.
End ServerTests.
