(* ===== verification/Protocol.v ===== *)
(** * Protocol: what a worker may do, abstractly

    The worker seen by its clients: the connections, the trace of what happened on
    the sockets, the tasks and the completions.  [move] says which changes of that
    view the worker may make; descriptors, registrations, counters, limits and
    draining are left out.  WorkerRefines shows that every run of TcpServer is a
    sequence of moves; the lemmas here show what any such sequence guarantees to
    every session of a client. *)
From stdpp Require Import base gmap list numbers strings.
From Stdlib Require Import Strings.Byte.
From S2P Require Import Prelude Text HttpParser HttpChunks Router Os Sockets TcpServer.

Local Open Scope Z_scope.

(** Changing an entry of a map that is there. *)
Lemma alter_Some_insert {A} (f : A -> A) (i : Z) x (m : gmap Z A) : m !! i = Some x -> alter f i m = <[i := f x]> m.
Proof.
  intros H. apply map_eq. intros j. destruct (decide (i = j)) as [->|Hne].
  - by rewrite lookup_alter_eq, lookup_insert_eq, H.
  - by rewrite lookup_alter_ne, lookup_insert_ne.
Qed.

(** ** Sessions *)

(** A session of a client, from its acceptance to its close: the pieces received
    from it and the bytes sent to it. *)
Record session := mkSession { ss_fd : Z; ss_received : list bytes; ss_sent : bytes }.

(** The open sessions by descriptor, and the closed ones. *)
Definition session_event (e : net_event) (s : gmap Z session * list session) : gmap Z session * list session :=
  let '(live, closed) := s in
  match e with
  | NAccepted fd => (<[fd := mkSession fd [] []]> live, closed)
  | NReceived fd data => (alter (fun s => mkSession fd (ss_received s ++ [data]) (ss_sent s)) fd live, closed)
  | NSent fd data => (alter (fun s => mkSession fd (ss_received s) (ss_sent s ++ data)) fd live, closed)
  | NClosed fd => (delete fd live, match live !! fd with Some s => closed ++ [s] | None => closed end)
  end.

Definition sessions (trace : list net_event) : gmap Z session * list session :=
  foldl (flip session_event) (∅, []) trace.

Lemma sessions_snoc trace e : sessions (trace ++ [e]) = session_event e (sessions trace).
Proof. unfold sessions. by rewrite foldl_app. Qed.

Definition all_sessions (trace : list net_event) : list session :=
  (sessions trace).2 ++ (map_to_list (sessions trace).1).*2.

(** ** The view and its moves *)

Record view := mkView {
  v_conns : ConnectionManager;
  v_trace : list net_event;
  v_tasks : list Task;
  v_completions : list Completion;
  v_produced : list (Task * bytes);
  v_next : Z
}.

Definition v_with (m : ConnectionManager) (events : list net_event) (v : view) : view :=
  mkView m (v_trace v ++ events) (v_tasks v) (v_completions v) (v_produced v) (v_next v).
Definition v_set fd c (v : view) : view := v_with (<[fd := c]> (v_conns v)) [] v.
Definition v_set_tasks ts v := mkView (v_conns v) (v_trace v) ts (v_completions v) (v_produced v) (v_next v).
Definition v_set_completions ks v := mkView (v_conns v) (v_trace v) (v_tasks v) ks (v_produced v) (v_next v).
Definition v_set_produced l v := mkView (v_conns v) (v_trace v) (v_tasks v) (v_completions v) l (v_next v).
Definition v_set_next n v := mkView (v_conns v) (v_trace v) (v_tasks v) (v_completions v) (v_produced v) n.

(** Queueing a response, after which the connection is closed when it is sent. *)
Definition queue_response (r : bytes) (c : Connection) : Connection :=
  set_peer_closed true (set_outbound (outbound c ++ r) c).

Definition task_of fd (c : Connection) : Task := mkTask fd (generation c) (request (parser c)) (client_ip c).

(** [accepting] is false for a worker that takes no clients any more. *)
Inductive move (accepting : bool) (v : view) : view -> Prop :=
(** A client is accepted, or taken and closed at once. *)
| mv_accept fd ip :
    accepting = true -> v_conns v !! fd = None -> v_next v < u64_max ->
    move accepting v (v_set_next (v_next v + 1) (v_with (cm_add fd ip (v_next v) (v_conns v)) [NAccepted fd] v))
| mv_drop fd :
    accepting = true -> v_conns v !! fd = None -> move accepting v (v_with (v_conns v) [NAccepted fd; NClosed fd] v)
(** Bytes are read and fed to the parser. *)
| mv_receive fd c data :
    v_conns v !! fd = Some c ->
    let p := (feed (inbound c ++ data) (parser c)).2 in
    move accepting v (v_with (<[fd := set_inbound [] (set_parser p c)]> (v_conns v)) [NReceived fd data] v)
(** A part of the queue is sent, and the empty queue is cleared. *)
| mv_send fd c n :
    v_conns v !! fd = Some c -> (n <= pending_bytes c)%nat ->
    move accepting v (v_with (<[fd := set_outbound_offset (outbound_offset c + n) c]> (v_conns v)) [NSent fd (take n (unsent c))] v)
| mv_clear fd c :
    v_conns v !! fd = Some c -> pending_bytes c = 0%nat ->
    move accepting v (v_set fd (set_outbound_offset 0 (set_outbound [] c)) v)
| mv_peer_closed fd c :
    v_conns v !! fd = Some c -> move accepting v (v_set fd (set_peer_closed true c) v)
| mv_close fd c :
    v_conns v !! fd = Some c -> move accepting v (v_with (delete fd (v_conns v)) [NClosed fd] v)
(** A descriptor of the worker's own is closed. *)
| mv_own fd :
    v_conns v !! fd = None -> move accepting v (v_with (v_conns v) [NClosed fd] v)
(** A complete request becomes a task, or is refused; a malformed one is rejected. *)
| mv_dispatch fd c :
    v_conns v !! fd = Some c -> complete (parser c) = true ->
    move accepting v (v_set_tasks (v_tasks v ++ [task_of fd c]) (v_set fd (set_in_flight true c) v))
| mv_refuse fd c :
    v_conns v !! fd = Some c -> complete (parser c) = true ->
    move accepting v (v_set fd (queue_response (response_to_string overloaded) (set_in_flight false c)) v)
| mv_reject fd c :
    v_conns v !! fd = Some c -> error (parser c) <> [] ->
    move accepting v (v_set fd (queue_response (response_to_string bad_request) c) v)
(** A pool thread executes a task. *)
| mv_finish i t response elapsed :
    v_tasks v !! i = Some t ->
    let k := task_completion t response elapsed in
    move accepting v (v_set_tasks (delete i (v_tasks v)) (v_set_completions (v_completions v ++ [k])
             (v_set_produced (v_produced v ++ [(t, serialized_response k)]) v)))
(** The oldest completion answers its client, or is discarded. *)
| mv_answer k ks c :
    v_completions v = k :: ks -> v_conns v !! comp_fd k = Some c -> generation c = comp_generation k ->
    request_in_flight c = true ->
    move accepting v (v_set_completions ks (v_set (comp_fd k) (queue_response (serialized_response k) (set_in_flight false c)) v))
| mv_discard k ks :
    v_completions v = k :: ks -> move accepting v (v_set_completions ks v).

(** ** What a session may contain *)

Definition fresh_parser : HTTPParser := new_parser default_max_header_bytes default_max_body_bytes.

(** The parser after the pieces received. *)
Definition parsed_pieces (pieces : list bytes) : HTTPParser := (feed_all pieces Incomplete fresh_parser).2.

(** The responses a client may get: 400 for bytes that are no request, 503, or the
    response that a pool thread produced for the request of this very session. *)
Inductive answers_session (produced : list (Task * bytes)) (fd gen : Z) (p : HTTPParser) : bytes -> Prop :=
| as_bad_request : error p <> [] -> answers_session produced fd gen p (response_to_string bad_request)
| as_overloaded : complete p = true -> answers_session produced fd gen p (response_to_string overloaded)
| as_produced t r :
    (t, r) ∈ produced -> task_fd t = fd -> task_generation t = gen -> complete p = true ->
    task_request t = request p -> answers_session produced fd gen p r.

(** The bytes sent are a prefix of whole responses. *)
Definition session_ok (produced : list (Task * bytes)) (gen : Z) (s : session) : Prop :=
  exists responses rest,
    ss_sent s ++ rest = concat responses /\
    Forall (answers_session produced (ss_fd s) gen (parsed_pieces (ss_received s))) responses.

(** ** The invariant of the moves *)

Definition task_ok (v : view) (t : Task) : Prop :=
  task_generation t < v_next v /\
  forall c, v_conns v !! task_fd t = Some c -> generation c = task_generation t ->
    complete (parser c) = true /\ task_request t = request (parser c) /\ task_ip t = client_ip c.

Record conn_session (v : view) (fd : Z) (c : Connection) (s : session) : Prop := {
  cs_fd : ss_fd s = fd;
  cs_parser : parser c = parsed_pieces (ss_received s);
  cs_inbound : inbound c = [];
  cs_offset : (outbound_offset c <= length (outbound c))%nat;
  cs_generation : generation c < v_next v;
  cs_queue : exists responses, ss_sent s ++ unsent c = concat responses /\
    Forall (answers_session (v_produced v) fd (generation c) (parser c)) responses
}.

(** The sessions that got something. *)
Definition answered_sessions (l : list session) : list session := filter (fun s => ss_sent s <> []) l.

Record proto_inv (v : view) : Prop := {
  pi_live : forall fd c, v_conns v !! fd = Some c ->
    exists s, (sessions (v_trace v)).1 !! fd = Some s /\ conn_session v fd c s;
  pi_dead : forall fd, v_conns v !! fd = None -> (sessions (v_trace v)).1 !! fd = None;
  pi_unique : forall fd fd' c c', v_conns v !! fd = Some c -> v_conns v !! fd' = Some c' ->
    generation c = generation c' -> fd = fd';
  (** Each closed session got its answers under a generation of its own. *)
  pi_closed : exists gens, NoDup gens /\
    Forall2 (session_ok (v_produced v)) gens (answered_sessions (sessions (v_trace v)).2) /\
    forall g, g ∈ gens -> g < v_next v /\ forall fd c, v_conns v !! fd = Some c -> generation c <> g;
  pi_tasks : forall t, t ∈ v_tasks v \/ t ∈ (v_produced v).*1 -> task_ok v t;
  pi_produced : forall t r, (t, r) ∈ v_produced v ->
    exists response elapsed, r = serialized_response (task_completion t response elapsed);
  pi_completions : forall k, k ∈ v_completions v -> exists t, (t, serialized_response k) ∈ v_produced v /\
    task_fd t = comp_fd k /\ task_generation t = comp_generation k
}.

(** ** The parser of a session *)

(** A parser with an answer is finished, and more bytes do not change it. *)
Lemma answers_finished produced fd gen p r : answers_session produced fd gen p r -> finished p = true.
Proof.
  unfold finished. intros [He|Hc|t r' _ _ _ Hc _]; rewrite ?Hc; try done.
  rewrite bool_decide_eq_false_2 by exact He. apply orb_true_r.
Qed.

Lemma answers_feed produced fd gen p r d :
  answers_session produced fd gen p r -> answers_session produced fd gen (feed d p).2 r.
Proof. intros H. by rewrite (feed_finished d p (answers_finished _ _ _ _ _ H)). Qed.

Lemma answers_more produced produced' fd gen p r :
  produced ⊆ produced' -> answers_session produced fd gen p r -> answers_session produced' fd gen p r.
Proof. intros Hs [?|?|t r' Hin]; [by apply as_bad_request|by apply as_overloaded|]. eapply as_produced; eauto. Qed.

Lemma complete_feed d p : complete p = true -> (feed d p).2 = p.
Proof. intros H. rewrite feed_finished; [done|]. unfold finished. by rewrite H. Qed.

Lemma parsed_pieces_snoc pieces d : parsed_pieces (pieces ++ [d]) = (feed d (parsed_pieces pieces)).2.
Proof. unfold parsed_pieces. by rewrite feed_all_snoc. Qed.
