(* ===== verification/ProtocolInv.v ===== *)
(** * ProtocolInv: what every sequence of moves guarantees

    The invariant of Protocol holds of the empty view and is kept by every move;
    from it follows what each session of a client received. *)
From stdpp Require Import base gmap list numbers strings.
From Stdlib Require Import Strings.Byte.
From S2P Require Import Prelude Text HttpParser HttpChunks Router Os Sockets TcpServer Protocol.

Local Open Scope Z_scope.

(** ** Changes that leave the connections alone *)

Lemma session_ok_more produced produced' g s :
  produced ⊆ produced' -> session_ok produced g s -> session_ok produced' g s.
Proof.
  intros Hp (rs & rest & E & H). exists rs, rest. split; [done|]. eapply Forall_impl; [exact H|].
  intros r. by apply answers_more.
Qed.

Lemma conn_session_more v v' fd c s :
  v_produced v ⊆ v_produced v' -> v_next v <= v_next v' -> conn_session v fd c s -> conn_session v' fd c s.
Proof.
  intros Hp Hn [H1 H2 H3 H4 H5 (rs & E & H)]. split; try done; [lia|]. exists rs. split; [done|].
  eapply Forall_impl; [exact H|]. intros r. by apply answers_more.
Qed.

Lemma inv_others v ts ks ps n :
  proto_inv v -> v_next v <= n -> v_produced v ⊆ ps ->
  (forall t, t ∈ ts \/ t ∈ ps.*1 -> (t ∈ v_tasks v \/ t ∈ (v_produced v).*1) \/ task_ok v t) ->
  (forall k, k ∈ ks -> exists t, (t, serialized_response k) ∈ ps /\ task_fd t = comp_fd k /\
     task_generation t = comp_generation k) ->
  (forall t r, (t, r) ∈ ps -> exists response elapsed, r = serialized_response (task_completion t response elapsed)) ->
  proto_inv (mkView (v_conns v) (v_trace v) ts ks ps n).
Proof.
  intros [H1 H2 H3 (gens & G1 & G2 & G3) H5 H0 H6] Hn Hp Ht Hk Hr. split; cbn [v_conns v_trace v_tasks v_completions v_produced v_next];
    try done.
  - intros fd c Hc. destruct (H1 fd c Hc) as (s & Hs & Hcs). exists s. split; [done|].
    by eapply conn_session_more; [..|exact Hcs].
  - exists gens. split_and!; [done| |].
    + eapply Forall2_impl; [exact G2|]. intros g s. by apply session_ok_more.
    + intros g Hg. destruct (G3 g Hg). split; [lia|done].
  - intros t Hin. assert (task_ok v t) as [T1 T2] by (destruct (Ht t Hin); auto). split; cbn; [lia|exact T2].
Qed.

(** ** One connection *)

(** What every move keeps of a connection. *)
Record conn_step (c c' : Connection) : Prop := {
  cst_generation : generation c' = generation c;
  cst_ip : client_ip c' = client_ip c;
  cst_parser : complete (parser c) = true -> parser c' = parser c
}.

Lemma inv_conn v fd c c' events :
  proto_inv v -> v_conns v !! fd = Some c -> conn_step c c' ->
  (forall s live closed, sessions (v_trace v) = (live, closed) -> live !! fd = Some s -> conn_session v fd c s ->
     exists s', sessions (v_trace v ++ events) = (<[fd := s']> live, closed) /\ conn_session v fd c' s') ->
  proto_inv (v_with (<[fd := c']> (v_conns v)) events v).
Proof.
  intros [H1 H2 H3 (gens & G1 & G2 & G3) H5 H0 H6] Hc [S1 S2 S3] Hs.
  destruct (H1 fd c Hc) as (s & Hl & Hcs).
  destruct (sessions (v_trace v)) as [live closed] eqn:Hses. cbn [fst snd] in *.
  destruct (Hs s live closed eq_refl Hl Hcs) as (s' & Hses' & Hcs').
  assert (Hold : forall fd' x, <[fd := c']> (v_conns v) !! fd' = Some x ->
    exists y, v_conns v !! fd' = Some y /\ conn_step y x).
  { intros fd' x [[<- <-]|[Hne Hx]]%lookup_insert_Some; [by exists c|]. exists x. by split. }
  split; cbn [v_with v_conns v_trace v_tasks v_completions v_produced v_next]; rewrite ?Hses'; cbn [fst snd]; try done.
  - intros fd' x [[<- <-]|[Hne Hx]]%lookup_insert_Some.
    + exists s'. rewrite lookup_insert_eq. by split; [|destruct Hcs'].
    + destruct (H1 fd' x Hx) as (sx & Hsx & Hcx). exists sx. rewrite lookup_insert_ne by done.
      by split; [|destruct Hcx].
  - intros fd' [Hx Hne]%lookup_insert_None. rewrite lookup_insert_ne by done. auto.
  - intros fd1 fd2 c1 c2 (y1 & Y1 & S)%Hold (y2 & Y2 & S')%Hold E. apply (H3 fd1 fd2 y1 y2); [done..|].
    destruct S, S'. congruence.
  - exists gens. split_and!; [done|done|]. intros g Hg. destruct (G3 g Hg) as [Hlt Hno]. split; [done|].
    intros fd' x (y & Hy & S)%Hold. destruct S. rewrite cst_generation0. by apply (Hno fd').
  - intros t Hin. destruct (H5 t Hin) as [T1 T2]. split; [done|]. cbn. intros x (y & Hy & S)%Hold Hg.
    destruct S as [E1 E2 E3]. destruct (T2 y Hy) as (T3 & T4 & T5); [congruence|].
    rewrite E3, E2 by done. done.
Qed.

(** A change of a connection that is no event. *)
Lemma inv_set v fd c c' :
  proto_inv v -> v_conns v !! fd = Some c -> conn_step c c' ->
  (forall s, conn_session v fd c s -> conn_session v fd c' s) -> proto_inv (v_set fd c' v).
Proof.
  intros Hi Hc Hst Hs. apply (inv_conn v fd c c' []); [done..|]. intros s live closed E Hl H.
  exists s. rewrite app_nil_r, insert_id by done. auto.
Qed.

(** ** Opening and closing *)

Lemma inv_close v fd c :
  proto_inv v -> v_conns v !! fd = Some c -> proto_inv (v_with (delete fd (v_conns v)) [NClosed fd] v).
Proof.
  intros [H1 H2 H3 (gens & G1 & G2 & G3) H5 H0 H6] Hc. destruct (H1 fd c Hc) as (s & Hl & Hcs).
  assert (Hok : session_ok (v_produced v) (generation c) s).
  { destruct Hcs as [C1 C2 C3 C4 C5 (rs & E & F)]. exists rs, (unsent c). split; [done|]. by rewrite C1, <- C2. }
  assert (Hg : generation c < v_next v) by apply Hcs. clear Hcs.
  split; cbn [v_with v_conns v_trace v_tasks v_completions v_produced v_next];
    rewrite ?sessions_snoc; destruct (sessions (v_trace v)) as [live closed]; cbn [session_event fst snd] in *;
    rewrite ?Hl; try done.
  - intros fd' x [Hne Hx]%lookup_delete_Some. destruct (H1 fd' x Hx) as (sx & Hsx & Hcx). exists sx.
    rewrite lookup_delete_ne by done. by split; [|destruct Hcx].
  - intros fd' [->|Hx]%lookup_delete_None; [by rewrite lookup_delete_eq|].
    apply lookup_delete_None. auto.
  - intros fd1 fd2 c1 c2 [_ E1]%lookup_delete_Some [_ E2]%lookup_delete_Some. by apply H3.
  - unfold answered_sessions in *. rewrite filter_app, filter_cons, filter_nil.
    destruct (decide (ss_sent s <> [])).
    + exists (gens ++ [generation c]). split_and!.
      * apply NoDup_app. split_and!; [done| |apply NoDup_singleton].
        intros g Hg1 ->%list_elem_of_singleton. destruct (G3 _ Hg1) as [_ Hno]. by apply (Hno fd c).
      * by apply Forall2_app; [|constructor].
      * intros g [Hin| ->%list_elem_of_singleton]%elem_of_app.
        -- destruct (G3 g Hin) as [? Hno]. split; [done|]. intros fd' x [_ Hx]%lookup_delete_Some. by apply (Hno fd').
        -- split; [done|]. intros fd' x [Hne Hx]%lookup_delete_Some E. by apply Hne, (H3 fd fd' c x).
    + exists gens. rewrite app_nil_r. split_and!; [done|done|]. intros g Hin. destruct (G3 g Hin) as [? Hno].
      split; [done|]. intros fd' x [_ Hx]%lookup_delete_Some. by apply (Hno fd').
  - intros t Hin. destruct (H5 t Hin) as [T1 T2]. split; [done|]. cbn.
    intros x [_ Hx]%lookup_delete_Some. by apply T2.
Qed.

Lemma parsed_nil : parsed_pieces [] = fresh_parser.
Proof. done. Qed.

Lemma inv_accept v fd ip :
  proto_inv v -> v_conns v !! fd = None ->
  proto_inv (v_set_next (v_next v + 1) (v_with (cm_add fd ip (v_next v) (v_conns v)) [NAccepted fd] v)).
Proof.
  intros [H1 H2 H3 (gens & G1 & G2 & G3) H5 H0 H6] Hc. unfold cm_add. set (c := new_connection fd ip (v_next v)).
  assert (Hold : forall fd' x, <[fd := c]> (v_conns v) !! fd' = Some x ->
    (fd' = fd /\ x = c) \/ (fd' <> fd /\ v_conns v !! fd' = Some x /\ generation x < v_next v)).
  { intros fd' x [[<- <-]|[Hne Hx]]%lookup_insert_Some; [by left|right]. destruct (H1 fd' x Hx) as (s & _ & Hs).
    split_and!; [done|done|apply Hs]. }
  split; cbn [v_set_next v_with v_conns v_trace v_tasks v_completions v_produced v_next];
    rewrite ?sessions_snoc; destruct (sessions (v_trace v)) as [live closed]; cbn [session_event fst snd] in *; try done.
  - intros fd' x [[-> ->]|(Hne & Hx & _)]%Hold.
    + exists (mkSession fd [] []). rewrite lookup_insert_eq. split; [done|]. split; cbn; try done; [lia|].
      by exists [].
    + destruct (H1 fd' x Hx) as (s & Hs & Hcs). exists s. rewrite lookup_insert_ne by done. split; [done|].
      apply (conn_session_more v); [done|cbn; lia|done].
  - intros fd' [Hx Hne]%lookup_insert_None. rewrite lookup_insert_ne by done. auto.
  - intros fd1 fd2 c1 c2 [[-> ->]|(N1 & E1 & L1)]%Hold [[-> ->]|(N2 & E2 & L2)]%Hold E; try done.
    + change (generation c) with (v_next v) in E. lia.
    + change (generation c) with (v_next v) in E. lia.
    + by apply (H3 fd1 fd2 c1 c2).
  - exists gens. split_and!; [done|done|]. intros g Hg. destruct (G3 g Hg) as [? Hno]. split; [lia|].
    intros fd' x [[-> ->]|(_ & Hx & _)]%Hold; [|by apply (Hno fd')]. change (generation c) with (v_next v). lia.
  - intros t Hin. destruct (H5 t Hin) as [T1 T2]. split; cbn; [lia|].
    intros x [[_ ->]|(_ & Hx & _)]%Hold E; [change (generation c) with (v_next v) in E; lia|by apply T2].
Qed.

(** A client that is taken and closed at once, and a descriptor of the worker's own. *)
Lemma inv_no_client v events :
  proto_inv v ->
  (forall live closed, sessions (v_trace v) = (live, closed) ->
     exists closed', sessions (v_trace v ++ events) = (live, closed') /\
                     answered_sessions closed' = answered_sessions closed) ->
  proto_inv (v_with (v_conns v) events v).
Proof.
  intros [H1 H2 H3 H4 H5 H0 H6] Hs. destruct (sessions (v_trace v)) as [live closed] eqn:E.
  destruct (Hs live closed eq_refl) as (closed' & E' & Ha).
  split; cbn [v_with v_conns v_trace v_tasks v_completions v_produced v_next]; rewrite ?E'; cbn [fst snd] in *;
    rewrite ?Ha; try done.
  - intros fd x Hx. destruct (H1 fd x Hx) as (s & Hl & Hcs). exists s. by split; [|destruct Hcs].
Qed.

(** ** The moves *)

Lemma answers_list_feed produced fd gen p d rs :
  Forall (answers_session produced fd gen p) rs -> Forall (answers_session produced fd gen (feed d p).2) rs.
Proof. intros H. eapply Forall_impl; [exact H|]. intros r. apply answers_feed. Qed.

Lemma inv_receive v fd c data :
  proto_inv v -> v_conns v !! fd = Some c ->
  let p := (feed (inbound c ++ data) (parser c)).2 in
  proto_inv (v_with (<[fd := set_inbound [] (set_parser p c)]> (v_conns v)) [NReceived fd data] v).
Proof.
  intros Hi Hc p. apply (inv_conn v fd c); [done|done| |].
  - split; [done|done|]. intros Hcomplete. by apply complete_feed.
  - intros s live closed E Hl [C1 C2 C3 C4 C5 (rs & Er & F)].
    exists (mkSession fd (ss_received s ++ [data]) (ss_sent s)). split.
    { rewrite sessions_snoc, E. cbn [session_event]. by rewrite (alter_Some_insert _ _ s) by done. }
    assert (Hp : p = (feed data (parser c)).2) by (unfold p; by rewrite C3).
    split; try done; cbn [parser set_parser set_inbound ss_received].
    + by rewrite parsed_pieces_snoc, <- C2.
    + exists rs. split; [done|]. rewrite Hp. by apply answers_list_feed.
Qed.

Lemma unsent_drop n c :
  unsent (set_outbound_offset (outbound_offset c + n) c) = drop n (unsent c).
Proof. unfold unsent. cbn. by rewrite drop_drop. Qed.

Lemma inv_send v fd c n :
  proto_inv v -> v_conns v !! fd = Some c -> (n <= pending_bytes c)%nat ->
  proto_inv (v_with (<[fd := set_outbound_offset (outbound_offset c + n) c]> (v_conns v))
                    [NSent fd (take n (unsent c))] v).
Proof.
  intros Hi Hc Hn. apply (inv_conn v fd c); [done|done|by split|].
  intros s live closed E Hl [C1 C2 C3 C4 C5 (rs & Er & F)].
  exists (mkSession fd (ss_received s) (ss_sent s ++ take n (unsent c))). split.
  { rewrite sessions_snoc, E. cbn [session_event]. by rewrite (alter_Some_insert _ _ s) by done. }
  unfold pending_bytes in Hn. split; try done; [cbn; lia|]. exists rs. split; [|done].
  rewrite unsent_drop. cbn [ss_sent]. by rewrite <- (assoc_L (++)), take_drop.
Qed.

(** A response queued on a connection whose parser justifies it. *)
Lemma conn_session_queue v fd c r b s :
  answers_session (v_produced v) fd (generation c) (parser c) r ->
  conn_session v fd c s -> conn_session v fd (queue_response r (set_in_flight b c)) s.
Proof.
  intros Hr [C1 C2 C3 C4 C5 (rs & E & F)]. split; try done.
  - cbn. rewrite length_app. lia.
  - exists (rs ++ [r]). split; [|by apply Forall_app; split; [|constructor]].
    unfold unsent in *. cbn. rewrite drop_app_le by done. rewrite (assoc_L (++)), E, concat_app. cbn.
    by rewrite app_nil_r.
Qed.

(** The request of a task whose client is still there is the one in its parser. *)
Lemma inv_answer v k ks c :
  proto_inv v -> v_completions v = k :: ks -> v_conns v !! comp_fd k = Some c -> generation c = comp_generation k ->
  answers_session (v_produced v) (comp_fd k) (generation c) (parser c) (serialized_response k).
Proof.
  intros Hi Hk Hc Hg. destruct (pi_completions v Hi k) as (t & Hin & Hfd & Htg); [rewrite Hk; left|].
  destruct (pi_tasks v Hi t) as [_ Ht]; [right; by apply (list_elem_of_fmap_2 fst) in Hin|].
  destruct (Ht c) as (H1 & H2 & _); [by rewrite Hfd|congruence|].
  apply (as_produced _ _ _ _ t); [done|done|congruence|done|done].
Qed.

Lemma task_of_ok v fd c : proto_inv v -> v_conns v !! fd = Some c -> complete (parser c) = true ->
  task_ok v (task_of fd c).
Proof.
  intros Hi Hc Hp. destruct (pi_live v Hi fd c Hc) as (s & _ & Hs). split; [apply Hs|].
  intros c' Hc' _. change (task_fd (task_of fd c)) with fd in Hc'. rewrite Hc in Hc'. by injection Hc' as <-.
Qed.

Lemma inv_drop v fd :
  proto_inv v -> v_conns v !! fd = None -> proto_inv (v_with (v_conns v) [NAccepted fd; NClosed fd] v).
Proof.
  intros Hi Hc. apply inv_no_client; [done|]. intros live closed E. pose proof (pi_dead v Hi fd Hc) as Hd. rewrite E in Hd.
  exists (closed ++ [mkSession fd [] []]). change [NAccepted fd; NClosed fd] with ([NAccepted fd] ++ [NClosed fd]).
  rewrite (assoc_L (++)), !sessions_snoc, E. cbn [session_event fst] in *.
  rewrite delete_insert_id, lookup_insert_eq by done. split; [done|].
  unfold answered_sessions. rewrite filter_app, filter_cons_False by (cbn; auto). apply app_nil_r.
Qed.

Lemma inv_own v fd :
  proto_inv v -> v_conns v !! fd = None -> proto_inv (v_with (v_conns v) [NClosed fd] v).
Proof.
  intros Hi Hc. apply inv_no_client; [done|]. intros live closed E. pose proof (pi_dead v Hi fd Hc) as Hd. rewrite E in Hd.
  exists closed. rewrite sessions_snoc, E. cbn [session_event fst] in *. by rewrite Hd, delete_id.
Qed.

Lemma inv_clear v fd c :
  proto_inv v -> v_conns v !! fd = Some c -> pending_bytes c = 0%nat ->
  proto_inv (v_set fd (set_outbound_offset 0 (set_outbound [] c)) v).
Proof.
  intros Hi Hc Hn. apply (inv_set v fd c); [done|done|by split|]. intros s [C1 C2 C3 C4 C5 (rs & E & F)].
  split; try done. exists rs. split; [|done]. rewrite <- E. f_equal. unfold unsent, pending_bytes in *. cbn.
  by rewrite drop_ge by lia.
Qed.

(** A queued response that the parser justifies. *)
Lemma inv_queue v fd c r b :
  proto_inv v -> v_conns v !! fd = Some c -> answers_session (v_produced v) fd (generation c) (parser c) r ->
  proto_inv (v_set fd (queue_response r (set_in_flight b c)) v).
Proof.
  intros Hi Hc Ha. apply (inv_set v fd c); [done|done|by split|]. intros s. by apply conn_session_queue.
Qed.

Lemma inv_dispatch v fd c :
  proto_inv v -> v_conns v !! fd = Some c -> complete (parser c) = true ->
  proto_inv (v_set_tasks (v_tasks v ++ [task_of fd c]) (v_set fd (set_in_flight true c) v)).
Proof.
  intros Hi Hc Hp. assert (Hi' : proto_inv (v_set fd (set_in_flight true c) v)).
  { apply (inv_set v fd c); [done|done|by split|]. by intros s []. }
  apply (inv_others _ _ _ _ (v_next v) Hi'); [done|done| |apply (pi_completions _ Hi')|apply (pi_produced _ Hi')].
  intros t [[Hin| ->%list_elem_of_singleton]%elem_of_app|Hin]; [left; by left| |left; by right].
  right. apply (task_of_ok _ fd (set_in_flight true c) Hi'); [apply lookup_insert_eq|done].
Qed.

Lemma inv_finish v i t response elapsed :
  proto_inv v -> v_tasks v !! i = Some t ->
  let k := task_completion t response elapsed in
  proto_inv (v_set_tasks (delete i (v_tasks v)) (v_set_completions (v_completions v ++ [k])
               (v_set_produced (v_produced v ++ [(t, serialized_response k)]) v))).
Proof.
  intros Hi Ht k. apply (inv_others v); [done|done|set_solver| | |];
    cbn [v_set_tasks v_set_completions v_set_produced v_tasks v_completions v_produced].
  - intros t' [Hin|Hin]; left.
    + left. by apply list_elem_of_delete_inv in Hin.
    + rewrite fmap_app in Hin. apply elem_of_app in Hin as [Hin|Hin]; [by right|].
      apply list_elem_of_singleton in Hin as ->. left. by eapply list_elem_of_lookup_2.
  - intros k' [Hin| ->%list_elem_of_singleton]%elem_of_app.
    + destruct (pi_completions v Hi k' Hin) as (t' & Ht' & E). exists t'. set_solver.
    + exists t. set_solver.
  - intros t' r' [Hin|[= -> ->]%list_elem_of_singleton]%elem_of_app; [by apply (pi_produced v Hi)|by exists response, elapsed].
Qed.

Lemma inv_discard v k ks : proto_inv v -> v_completions v = k :: ks -> proto_inv (v_set_completions ks v).
Proof.
  intros Hi Hk. apply (inv_others v); [done|done|done|auto| |apply (pi_produced _ Hi)].
  intros k' Hk'. apply (pi_completions v Hi). rewrite Hk. by right.
Qed.

Lemma set_in_flight_same c : set_in_flight (request_in_flight c) c = c.
Proof. by destruct c. Qed.

Lemma move_inv b v v' : move b v v' -> proto_inv v -> proto_inv v'.
Proof.
  intros Hm Hi. destruct Hm as [fd ip _ Hc _|fd _ Hc|fd c data Hc|fd c n Hc Hn|fd c Hc Hn|fd c Hc|fd c Hc|fd Hc|fd c Hc Hp
    |fd c Hc Hp|fd c Hc He|i t r el Ht k|k ks c Hk Hc Hg Hf|k ks Hk].
  - by apply inv_accept.
  - by apply inv_drop.
  - by apply inv_receive.
  - by apply inv_send.
  - by apply inv_clear.
  - apply (inv_set v fd c); [done|done|by split|]. by intros s [].
  - by apply (inv_close v fd c).
  - by apply inv_own.
  - by apply inv_dispatch.
  - apply inv_queue; [done|done|by apply as_overloaded].
  - rewrite <- (set_in_flight_same c) at 1. apply inv_queue; [done|done|by apply as_bad_request].
  - by apply inv_finish.
  - apply (inv_discard (v_set (comp_fd k) (queue_response (serialized_response k) (set_in_flight false c)) v) k ks);
      [|exact Hk]. apply inv_queue; [done|done|by apply (inv_answer v k ks)].
  - by apply (inv_discard v k ks).
Qed.

(** ** Runs *)

Definition empty_view : view := mkView ∅ [] [] [] [] 1.

Lemma proto_inv_empty : proto_inv empty_view.
Proof.
  split; cbn; try done.
  - exists []. split_and!; [constructor|constructor|]. intros g H. by apply elem_of_nil in H.
  - intros t [H|H]; by apply elem_of_nil in H.
  - intros t r H. by apply elem_of_nil in H.
  - intros k H. by apply elem_of_nil in H.
Qed.

Lemma moves_inv b v v' : rtc (move b) v v' -> proto_inv v -> proto_inv v'.
Proof. induction 1; eauto using move_inv. Qed.

(** A worker that takes no clients has none but its old ones. *)
Lemma move_shrinks v v' fd : move false v v' -> v_conns v !! fd = None -> v_conns v' !! fd = None.
Proof.
  destruct 1; cbn; try done; intros Hn; rewrite ?lookup_delete_None, ?lookup_insert_None; try (by right); try (by auto).
  all: split; [done|congruence].
Qed.

Lemma moves_shrink v v' fd : rtc (move false) v v' -> v_conns v !! fd = None -> v_conns v' !! fd = None.
Proof. induction 1; eauto using move_shrinks. Qed.

Lemma moves_any b v v' : rtc (move false) v v' -> rtc (move b) v v'.
Proof.
  apply rtc_subrel. intros x y H. destruct H; try discriminate; try (by econstructor). 
Qed.

(** What the moves keep: the tasks done and the next generation only grow. *)
Lemma move_grows b v v' : move b v v' -> v_produced v ⊆ v_produced v' /\ v_next v <= v_next v'.
Proof. destruct 1; cbn; split; try done; [lia|set_solver]. Qed.

(** The open sessions that got something, with the generations of their connections. *)
Lemma live_sessions v l :
  proto_inv v -> NoDup l.*1 -> (forall fd s, (fd, s) ∈ l -> (sessions (v_trace v)).1 !! fd = Some s) ->
  exists gens, NoDup gens /\ Forall2 (session_ok (v_produced v)) gens (answered_sessions l.*2) /\
    forall g, g ∈ gens -> exists fd c, fd ∈ l.*1 /\ v_conns v !! fd = Some c /\ generation c = g.
Proof.
  intros Hi. induction l as [|[fd s] l IH]; intros Hnd Hl.
  { exists []. split_and!; [constructor|constructor|]. intros g H. by apply elem_of_nil in H. }
  cbn [fmap list_fmap fst snd] in *. apply NoDup_cons in Hnd as [Hni Hnd].
  destruct IH as (gens & G1 & G2 & G3); [done|intros; apply Hl; by right|].
  assert (Hin : forall g, g ∈ gens -> exists fd' c, fd' ∈ fd :: l.*1 /\ v_conns v !! fd' = Some c /\ generation c = g).
  { intros g Hg. destruct (G3 g Hg) as (fd' & c & H & ?). exists fd', c. by split; [right|]. }
  unfold answered_sessions in *. rewrite filter_cons. destruct (decide _) as [Hs|Hs]; [|by exists gens].
  assert (Hls : (sessions (v_trace v)).1 !! fd = Some s) by (apply Hl; left).
  destruct (v_conns v !! fd) as [c|] eqn:Hc; [|by rewrite (pi_dead v Hi fd Hc) in Hls].
  destruct (pi_live v Hi fd c Hc) as (s' & Hs' & [C1 C2 C3 C4 C5 (rs & E & F)]). rewrite Hls in Hs'. injection Hs' as <-.
  exists (generation c :: gens). split_and!.
  - apply NoDup_cons. split; [|done]. intros (fd' & c' & H1 & H2 & H3)%G3.
    apply Hni. by rewrite (pi_unique v Hi fd fd' c c').
  - constructor; [|done]. exists rs, (unsent c). split; [done|]. by rewrite C1, <- C2.
  - intros g [->|Hg]%elem_of_cons; [|by apply Hin]. exists fd, c. split_and!; [left|done|done].
Qed.

(** Every session, open or closed, got whole responses to its own request, the last
    of them possibly in part, and no two sessions share a generation. *)
Definition sessions_answered (trace : list net_event) (produced : list (Task * bytes)) : Prop :=
  exists gens, NoDup gens /\ Forall2 (session_ok produced) gens (answered_sessions (all_sessions trace)).

Lemma proto_sessions v : proto_inv v -> sessions_answered (v_trace v) (v_produced v).
Proof.
  intros Hi. destruct (pi_closed v Hi) as (closed & C1 & C2 & C3).
  destruct (live_sessions v (map_to_list (sessions (v_trace v)).1) Hi) as (live & L1 & L2 & L3).
  { apply NoDup_fst_map_to_list. }
  { intros fd s. apply elem_of_map_to_list. }
  exists (closed ++ live). split.
  - apply NoDup_app. split_and!; [done| |done]. intros g Hg (fd & c & _ & Hc & E)%L3.
    by apply (proj2 (C3 g Hg) fd c).
  - unfold all_sessions, answered_sessions. rewrite filter_app. by apply Forall2_app.
Qed.
