(* ===== verification/WorkerInv.v ===== *)
(** * WorkerInv: the invariant of an event-loop worker

    The invariant is stated on the parts of the worker that matter: the
    connections, the keys of the pending tasks and completions, the counter of
    outstanding tasks, the next generation, the kernel and the metric calls.  Each
    operation of TcpServer preserves it. *)
From stdpp Require Import base gmap list numbers strings.
From Stdlib Require Import Strings.Byte.
From S2P Require Import Prelude Text Double Os HttpParser RateLimiter Router Metrics MetricsTheorems.
From S2P Require Import Sockets EpollLoop TcpServer.

Local Open Scope Z_scope.

(** ** The invariant *)

(** A pending task or completion: the descriptor and the generation of its client. *)
Abbreviation key := (Z * Z)%type.
Definition task_key (t : Task) : key := (task_fd t, task_generation t).
Definition comp_key (k : Completion) : key := (comp_fd k, comp_generation k).

(** The requests the pool refused. *)
Definition refusal (c : metrics_call) : bool :=
  match c with CCompleted status _ _ => status =? 503 | _ => false end.
Definition is_opened (c : metrics_call) : bool := match c with COpened _ => true | _ => false end.
Definition is_closed (c : metrics_call) : bool := match c with CClosed => true | _ => false end.

Definition overloaded_size : Z := zlen (response_to_string overloaded).

Record conn_ok (pend : list key) (next : Z) (calls : list metrics_call) (fd : Z) (c : Connection) : Prop := {
  co_fd : conn_fd c = fd;
  co_offset : (outbound_offset c <= length (outbound c))%nat;
  co_bound : Z.of_nat (pending_bytes c) <= Z.of_nat max_outbound_bytes + overloaded_size * count_calls refusal calls;
  co_peer : (0 < pending_bytes c)%nat -> peer_closed c = true;
  co_generation : 1 <= generation c < next;
  co_flight : request_in_flight c = true -> (fd, generation c) ∈ pend
}.

Record Inv (base : gset Z) (conns : ConnectionManager) (pend : list key) (out next : Z) (k : kernel)
    (calls : list metrics_call) : Prop := {
  in_conn : map_Forall (conn_ok pend next calls) conns;
  in_open : k_open k = dom conns ∪ base;
  in_base : base ## dom conns;
  in_registered : forall fd, fd ∈ dom conns -> is_Some (k_interest k !! fd);
  in_interest : forall fd, is_Some (k_interest k !! fd) -> fd ∈ k_open k;
  in_closes : k_bad_closes k = [];
  in_generations : forall fd1 fd2 c1 c2, conns !! fd1 = Some c1 -> conns !! fd2 = Some c2 ->
    generation c1 = generation c2 -> fd1 = fd2;
  in_pending : forall fd g, (fd, g) ∈ pend -> 1 <= g < next /\
    forall fd' c, conns !! fd' = Some c -> generation c = g -> fd' = fd;
  in_outstanding : out = zlen pend mod u64_modulus;
  in_next : 1 <= next <= 1 + k_accepted k /\ k_accepted k <= u64_max - 1;
  in_count : count_calls is_opened calls - count_calls is_closed calls = Z.of_nat (size conns)
}.

(** [extra] are the completions a loop still has in hand. *)
Definition pending_keys (extra : list Completion) (w : worker) : list key :=
  (task_key <$> accepted_tasks (shared_state w)) ++ (comp_key <$> completions (loop_state w)) ++ (comp_key <$> extra).

Definition worker_inv (base : gset Z) (extra : list Completion) (w : worker) : Prop :=
  Inv base (connections w) (pending_keys extra w) (outstanding_tasks (loop_state w)) (next_generation (loop_state w))
      (kern w) (metric_calls (shared_state w)).

(** ** Calls *)

Lemma count_calls_app P l1 l2 : count_calls P (l1 ++ l2) = count_calls P l1 + count_calls P l2.
Proof. unfold count_calls. rewrite filter_app, length_app. lia. Qed.

Lemma count_calls_one P c : count_calls P [c] = if P c then 1 else 0.
Proof. rewrite count_calls_cons. change (count_calls P []) with 0. destruct (P c); lia. Qed.

Lemma count_calls_nonneg P l : 0 <= count_calls P l.
Proof. unfold count_calls. lia. Qed.

Lemma overloaded_size_nonneg : 0 <= overloaded_size.
Proof. unfold overloaded_size. lia. Qed.

Lemma conn_ok_calls pend next calls calls' fd c :
  conn_ok pend next calls fd c -> conn_ok pend next (calls ++ calls') fd c.
Proof.
  intros [H1 H2 H3 H4 H5 H6]. split; try done. rewrite count_calls_app.
  pose proof (count_calls_nonneg refusal calls'). pose proof overloaded_size_nonneg. nia.
Qed.

(** A call that neither opens nor closes. *)
Lemma Inv_call base conns pend out next k calls c :
  is_opened c = false -> is_closed c = false ->
  Inv base conns pend out next k calls -> Inv base conns pend out next k (calls ++ [c]).
Proof.
  intros Ho Hc [H1 H2 H3 H4 H5 H6 H7 H8 H9 H10 H11]. split; try done.
  - intros fd x Hx. by apply conn_ok_calls, H1.
  - rewrite !count_calls_app, !count_calls_one, Ho, Hc. lia.
Qed.

(** ** The kernel *)

(** A change that leaves the descriptors alone. *)
Lemma Inv_kernel base conns pend out next k k' calls :
  k_open k' = k_open k -> k_bad_closes k' = k_bad_closes k -> k_interest k' = k_interest k ->
  k_accepted k' = k_accepted k ->
  Inv base conns pend out next k calls -> Inv base conns pend out next k' calls.
Proof. intros E1 E2 E3 E4 []. split; rewrite ?E1, ?E2, ?E3, ?E4; done. Qed.

(** Registering a descriptor in use. *)
Lemma Inv_register base conns pend out next k calls fd events :
  fd ∈ k_open k ->
  Inv base conns pend out next k calls ->
  Inv base conns pend out next (set_interest (<[fd := events]> (k_interest k)) k) calls.
Proof.
  intros Hfd [H1 H2 H3 H4 H5 H6 H7 H8 H9 H10 H11]. split; try done; cbn [k_interest set_interest k_open].
  - intros fd' Hd. destruct (decide (fd = fd')) as [->|Hne]; [by rewrite lookup_insert_eq|].
    rewrite lookup_insert_ne by done. by apply H4.
  - intros fd'. destruct (decide (fd = fd')) as [->|Hne]; [done|]. rewrite lookup_insert_ne by done. apply H5.
Qed.

(** ** Connections *)

(** An update of a connection that keeps its identity. *)
Lemma Inv_update base conns pend out next k calls fd c f :
  conns !! fd = Some c -> generation (f c) = generation c -> conn_ok pend next calls fd (f c) ->
  Inv base conns pend out next k calls -> Inv base (alter f fd conns) pend out next k calls.
Proof.
  intros Hc Hg Hok [H1 H2 H3 H4 H5 H6 H7 H8 H9 H10 H11].
  assert (Hlook : forall fd' c', alter f fd conns !! fd' = Some c' ->
    exists c0, conns !! fd' = Some c0 /\ generation c' = generation c0).
  { intros fd' c' H. destruct (decide (fd = fd')) as [->|Hne].
    - rewrite lookup_alter_eq, Hc in H. cbn in H. simplify_eq. eauto.
    - rewrite lookup_alter_ne in H by done. eauto. }
  split; rewrite ?dom_alter_L; try done.
  - intros fd' c' H. destruct (decide (fd = fd')) as [->|Hne].
    + rewrite lookup_alter_eq, Hc in H. cbn in H. by simplify_eq.
    + rewrite lookup_alter_ne in H by done. by apply H1.
  - intros fd1 fd2 c1 c2 (c1' & E1 & G1)%Hlook (c2' & E2 & G2)%Hlook E. apply (H7 fd1 fd2 c1' c2'); congruence.
  - intros fd' g Hin. destruct (H8 fd' g Hin) as [Hr Hu]. split; [done|].
    intros fd2 c2 (c2' & E2 & G2)%Hlook E. apply (Hu fd2 c2'); congruence.
  - by rewrite H11, <- !(size_dom (D := gset Z)), dom_alter_L.
Qed.

(** Closing a client: its entry, its registration and its descriptor go. *)
Lemma Inv_close base conns pend out next k calls fd :
  fd ∈ dom conns -> Inv base conns pend out next k calls ->
  Inv base (delete fd conns) pend out next (sys_close_fd fd (remove_fd fd k)) (calls ++ [CClosed]).
Proof.
  intros Hd [H1 H2 H3 H4 H5 H6 H7 H8 H9 H10 H11].
  assert (Ho : fd ∈ k_open k) by (rewrite H2; set_solver).
  unfold sys_close_fd. cbn [remove_fd set_interest k_open]. rewrite decide_True by done.
  split; cbn [k_open k_interest k_bad_closes k_accepted remove_fd set_interest]; rewrite ?dom_delete_L; try done.
  - intros fd' c' [_ H]%lookup_delete_Some. by apply conn_ok_calls, H1.
  - rewrite H2. assert (fd ∉ base) by set_solver. apply leibniz_equiv_iff. set_solver.
  - set_solver.
  - intros fd' [Hd' Hne]%elem_of_difference. rewrite !lookup_delete_ne by set_solver. by apply H4.
  - intros fd' Hs. destruct (decide (fd = fd')) as [->|Hne].
    + rewrite lookup_delete_eq in Hs. by destruct Hs.
    + rewrite !lookup_delete_ne in Hs by done. specialize (H5 fd' Hs). set_solver.
  - intros fd1 fd2 c1 c2 [_ E1]%lookup_delete_Some [_ E2]%lookup_delete_Some. by apply H7.
  - intros fd' g Hin. destruct (H8 fd' g Hin) as [Hr Hu]. split; [done|].
    intros fd2 c2 [_ E2]%lookup_delete_Some. by apply Hu.
  - rewrite !count_calls_app, !count_calls_one. cbn [is_opened is_closed].
    apply elem_of_dom in Hd. rewrite map_size_delete_Some by done.
    assert (size conns <> 0%nat) by (apply map_size_ne_0_lookup; destruct Hd; eauto). lia.
Qed.

(** A new client. *)
Lemma Inv_accept base conns pend out next k calls fd ip id events :
  acceptable fd k = true -> Inv base conns pend out next k calls ->
  let k1 := opened_fd fd k in
  Inv base (cm_add fd ip next conns) pend out (u64_add next 1)
      (set_interest (<[fd := events]> (k_interest k1)) k1) (calls ++ [COpened id]).
Proof.
  intros Ha [H1 H2 H3 H4 H5 H6 H7 H8 H9 H10 H11] k1. unfold acceptable in Ha.
  rewrite !andb_true_iff in Ha. destruct Ha as [[Hf%bool_decide_eq_true _] Hacc].
  assert (Hnone : conns !! fd = None) by (apply not_elem_of_dom; set_solver).
  rewrite u64_add_small by width.
  assert (Hold : forall fd' c', cm_add fd ip next conns !! fd' = Some c' ->
    (fd' = fd /\ c' = new_connection fd ip next) \/ (fd' <> fd /\ conns !! fd' = Some c')).
  { intros fd' c'. unfold cm_add. rewrite lookup_insert_Some. intros [[<- <-]|[Hne H]]; [by left|right; by split]. }
  assert (Hgen : forall fd' c', conns !! fd' = Some c' -> generation c' <> next).
  { intros fd' c' H. pose proof (co_generation _ _ _ _ _ (H1 fd' c' H)). lia. }
  split; cbn [k_open k_interest k_bad_closes k_accepted set_interest k1 opened_fd]; unfold cm_add; rewrite ?dom_insert_L;
    try done.
  - intros fd' c' [[-> ->]|[Hne H]]%Hold.
    + split; cbn; try done; [|lia|lia]. pose proof overloaded_size_nonneg.
      pose proof (count_calls_nonneg refusal (calls ++ [COpened id])). unfold pending_bytes. cbn. nia.
    + destruct (conn_ok_calls pend next calls [COpened id] fd' c' (H1 fd' c' H)). split; try done. lia.
  - rewrite H2. apply leibniz_equiv_iff. set_solver.
  - set_solver.
  - intros fd' Hd. destruct (decide (fd = fd')) as [->|Hne]; [by rewrite lookup_insert_eq|].
    rewrite lookup_insert_ne by done. apply H4. set_solver.
  - intros fd'. destruct (decide (fd = fd')) as [->|Hne]; [set_solver|].
    rewrite lookup_insert_ne by done. intros Hs. specialize (H5 fd' Hs). set_solver.
  - intros fd1 fd2 c1 c2 [[-> ->]|[N1 E1]]%Hold [[-> ->]|[N2 E2]]%Hold E; try done; cbn in E.
    + by destruct (Hgen fd2 c2 E2).
    + by destruct (Hgen fd1 c1 E1).
    + by apply (H7 fd1 fd2 c1 c2).
  - intros fd' g Hin. destruct (H8 fd' g Hin) as [Hr Hu]. split; [lia|].
    intros fd2 c2 [[-> ->]|[N2 E2]]%Hold E; cbn in E; [lia|by apply (Hu fd2 c2)].
  - lia.
  - rewrite !count_calls_app, !count_calls_one. cbn [is_opened is_closed].
    rewrite map_size_insert_None by done. lia.
Qed.

(** ** Pending tasks *)

Lemma Inv_perm base conns pend pend' out next k calls :
  pend ≡ₚ pend' -> Inv base conns pend out next k calls -> Inv base conns pend' out next k calls.
Proof.
  intros Hp [H1 H2 H3 H4 H5 H6 H7 H8 H9 H10 H11]. split; try done.
  - intros fd c Hc. destruct (H1 fd c Hc). split; try done. rewrite <- Hp. done.
  - intros fd g. rewrite <- Hp. apply H8.
  - by rewrite H9, Hp.
Qed.

Lemma mod_step x d n : x = n mod u64_modulus -> (x + d) mod u64_modulus = (n + d) mod u64_modulus.
Proof. intros ->. by rewrite Zplus_mod_idemp_l. Qed.

(** A request becomes a task, and its connection waits for it. *)
Lemma Inv_dispatch base conns pend out next k calls fd c :
  conns !! fd = Some c -> Inv base conns pend out next k calls ->
  Inv base (alter (set_in_flight true) fd conns) ((fd, generation c) :: pend) ((out + 1) mod u64_modulus) next k calls.
Proof.
  intros Hc Hinv. pose proof Hinv as [H1 H2 H3 H4 H5 H6 H7 H8 H9 H10 H11].
  apply (Inv_update _ _ _ _ _ _ _ _ c); [done|done| |].
  - destruct (H1 fd c Hc). split; try done. cbn. intros _. by left.
  - split; try done.
    + intros fd' c' H. destruct (H1 fd' c' H). split; try done. intros Hf. right. auto.
    + intros fd' g [[= -> ->]|Hin]%elem_of_cons; [|by apply H8].
      split; [by apply (H1 fd c Hc)|]. intros fd2 c2 E2 E. by apply (H7 fd2 fd c2 c).
    + rewrite (mod_step out 1 (zlen pend)) by done. f_equal. cbn [length]. lia.
Qed.

(** A pending entry is done, and no connection waits for it. *)
Lemma Inv_done base conns pend out next k calls fd g :
  (forall c, conns !! fd = Some c -> generation c = g -> request_in_flight c = false) ->
  Inv base conns ((fd, g) :: pend) out next k calls ->
  Inv base conns pend ((out + -1) mod u64_modulus) next k calls.
Proof.
  intros Hno [H1 H2 H3 H4 H5 H6 H7 H8 H9 H10 H11]. split; try done.
  - intros fd' c' H. destruct (H1 fd' c' H) as [? ? ? ? ? Hfl]. split; try done.
    intros Hf. specialize (Hfl Hf). apply elem_of_cons in Hfl as [[= -> <-]|]; [|done].
    by rewrite (Hno c' H eq_refl) in Hf.
  - intros fd' g' Hin. apply H8. by right.
  - rewrite (mod_step out (-1) (zlen ((fd, g) :: pend))) by done. f_equal. cbn [length]. lia.
Qed.

(** ** Worker operations *)

(** The loop state and the shared members stay, the metric calls apart. *)
Definition same_loop (w w' : worker) : Prop :=
  loop_state w' = loop_state w /\
  shared_state w' = set_metric_calls (metric_calls (shared_state w')) (shared_state w).

Lemma same_loop_refl w : same_loop w w.
Proof. split; [done|]. by destruct w as [? ? ? []]. Qed.

Lemma same_loop_trans w1 w2 w3 : same_loop w1 w2 -> same_loop w2 w3 -> same_loop w1 w3.
Proof. intros [H1 H2] [H3 H4]. split; [congruence|]. rewrite H4 at 1. rewrite H2. by destruct (shared_state w1). Qed.

Lemma same_loop_pending extra w w' : same_loop w w' -> pending_keys extra w' = pending_keys extra w.
Proof. intros [H1 H2]. unfold pending_keys. by rewrite H1, H2. Qed.

Lemma close_client_inv base extra fd w :
  fd ∈ dom (connections w) -> worker_inv base extra w ->
  worker_inv base extra (close_client fd w) /\ same_loop w (close_client fd w) /\
  connections (close_client fd w) = delete fd (connections w).
Proof.
  intros Hd Hinv. pose proof Hd as [c Hc]%elem_of_dom.
  unfold close_client, cm_get, cm_remove. cbn [connections set_kern]. rewrite Hc.
  split_and!; [|split; [done|reflexivity]|done].
  by apply Inv_close.
Qed.

(** What an operation on the client [fd] leaves: the other clients, and of its own
    connection the identity and the pending request, unless it was closed. *)
Record touches (fd : Z) (w w' : worker) : Prop := {
  to_others fd' : fd' <> fd -> connections w' !! fd' = connections w !! fd';
  to_own c' : connections w' !! fd = Some c' ->
    exists c, connections w !! fd = Some c /\ generation c' = generation c /\
              request_in_flight c' = request_in_flight c
}.

Lemma touches_refl fd w : touches fd w w.
Proof. split; [done|]. eauto. Qed.

Lemma touches_trans fd w1 w2 w3 : touches fd w1 w2 -> touches fd w2 w3 -> touches fd w1 w3.
Proof.
  intros [H1 H2] [H3 H4]. split.
  - intros fd' Hne. by rewrite H3, H1.
  - intros c3 (c2 & E2 & G2 & F2)%H4. destruct (H2 c2 E2) as (c1 & E1 & G1 & F1). exists c1. split_and!; congruence.
Qed.

Lemma touches_delete fd w w' : connections w' = delete fd (connections w) -> touches fd w w'.
Proof.
  intros E. split; rewrite E.
  - intros fd' Hne. by rewrite lookup_delete_ne.
  - intros c'. by rewrite lookup_delete_eq.
Qed.

Lemma touches_alter fd f w w' :
  connections w' = alter f fd (connections w) ->
  (forall c, generation (f c) = generation c /\ request_in_flight (f c) = request_in_flight c) -> touches fd w w'.
Proof.
  intros E Hf. split; rewrite E.
  - intros fd' Hne. by rewrite lookup_alter_ne.
  - intros c'. rewrite lookup_alter_eq. destruct (connections w !! fd) as [c|]; [|done].
    intros [= <-]. exists c. split; [done|apply Hf].
Qed.

(** The operation was carried out on a good worker. *)
Definition good_op (base : gset Z) (extra : list Completion) (fd : Z) (w w' : worker) : Prop :=
  worker_inv base extra w' /\ same_loop w w' /\ touches fd w w'.

Lemma good_refl base extra fd w : worker_inv base extra w -> good_op base extra fd w w.
Proof. intros H. split_and!; [done|apply same_loop_refl|apply touches_refl]. Qed.

Lemma good_trans base extra fd w1 w2 w3 :
  good_op base extra fd w1 w2 -> good_op base extra fd w2 w3 -> good_op base extra fd w1 w3.
Proof. intros (_ & S1 & T1) (I2 & S2 & T2). split_and!; [done|by eapply same_loop_trans|by eapply touches_trans]. Qed.

Lemma good_close base extra fd w :
  fd ∈ dom (connections w) -> worker_inv base extra w -> good_op base extra fd w (close_client fd w).
Proof.
  intros Hd Hinv. destruct (close_client_inv base extra fd w Hd Hinv) as (H1 & H2 & H3).
  split_and!; [done|done|by apply touches_delete].
Qed.

(** A change of the kernel that leaves the descriptors alone. *)
Definition same_fds (k k' : kernel) : Prop :=
  k_open k' = k_open k /\ k_bad_closes k' = k_bad_closes k /\ k_interest k' = k_interest k /\
  k_accepted k' = k_accepted k.

Lemma good_kernel base extra fd w k' :
  same_fds (kern w) k' -> worker_inv base extra w -> good_op base extra fd w (set_kern k' w).
Proof.
  intros (E1 & E2 & E3 & E4) Hinv. split_and!.
  - by apply (Inv_kernel _ _ _ _ _ (kern w)).
  - split; [done|]. by destruct w as [? ? ? []].
  - split; [done|]. eauto.
Qed.

Lemma sys_control_same k : same_fds k (sys_control k).2.
Proof. unfold sys_control. by destruct (next_bool _). Qed.

Lemma modify_or_close_good base extra fd events w :
  fd ∈ dom (connections w) -> worker_inv base extra w ->
  good_op base extra fd w (modify_or_close fd events w).2.
Proof.
  intros Hd Hinv. unfold modify_or_close, modify_fd. pose proof (sys_control_same (kern w)) as Hk.
  destruct (sys_control (kern w)) as [ok k]. cbn [snd] in Hk.
  pose proof (good_kernel base extra fd w k Hk Hinv) as Hg.
  assert (Hclose : good_op base extra fd w (close_client fd (set_kern k w))).
  { eapply good_trans; [exact Hg|]. apply good_close; [done|apply Hg]. }
  destruct (k_interest k !! fd); [|exact Hclose]. destruct ok; [|exact Hclose].
  cbn [snd]. eapply good_trans; [exact Hg|]. destruct Hg as (Hi & _ & _).
  split_and!; [|split; [done|by destruct w as [? ? ? []]]|split; [done|eauto]].
  apply (Inv_register base _ _ _ _ k); [|exact Hi].
  pose proof (in_open _ _ _ _ _ _ _ Hi) as Ho. change (k_open k = dom (connections w) ∪ base) in Ho. set_solver.
Qed.

Lemma send_loop_spec sends size offset :
  (offset <= size)%nat ->
  let '(_, result, offset') := send_loop sends size offset in
  (offset <= offset' <= size)%nat /\ (result = AllSent -> offset' = size).
Proof.
  revert offset. induction sends as [|[n|code] sends IH]; intros offset Ho; cbn [send_loop];
    destruct (Nat.eqb_spec (size - offset) 0); try (split; [lia|intros; lia]); try (split; [lia|done]).
  - destruct (Nat.ltb_spec 0 (n `min` (size - offset))); [|by split; [lia|]].
    specialize (IH (offset + n `min` (size - offset))%nat ltac:(lia)).
    destruct (send_loop sends size _) as [[? ?] ?]. split; [lia|]. apply IH.
  - destruct (code =? EINTR); [by apply IH|]. destruct (code =? EAGAIN); (split; [lia|done]).
Qed.

(** An update of a connection by an operation of the worker. *)
Lemma good_update base extra fd f w :
  (forall c, connections w !! fd = Some c ->
     generation (f c) = generation c /\ request_in_flight (f c) = request_in_flight c /\
     conn_ok (pending_keys extra w) (next_generation (loop_state w)) (metric_calls (shared_state w)) fd (f c)) ->
  fd ∈ dom (connections w) -> worker_inv base extra w -> good_op base extra fd w (update_connection fd f w).
Proof.
  intros Hf [c Hc]%elem_of_dom Hinv. destruct (Hf c Hc) as (Hg & Hfl & Hok). split_and!.
  - by apply (Inv_update _ _ _ _ _ _ _ _ c).
  - split; [done|]. by destruct w as [? ? ? []].
  - split; cbn.
    + intros fd' Hne. by rewrite lookup_alter_ne.
    + intros c'. rewrite lookup_alter_eq, Hc. intros [= <-]. eauto.
Qed.

(** The steps of a flush on the connection: bytes are sent, the empty queue is cleared. *)
Lemma sent_good base extra fd c offset w :
  connections w !! fd = Some c -> (outbound_offset c <= offset <= length (outbound c))%nat -> worker_inv base extra w ->
  good_op base extra fd w (update_connection fd (set_outbound_offset offset) w).
Proof.
  intros Hc Ho Hinv. apply good_update; [|by apply elem_of_dom|done]. intros c1 E1. simplify_eq.
  pose proof (in_conn _ _ _ _ _ _ _ Hinv fd c Hc) as [C1 C2 C3 C4 C5 C6]. split_and!; [done..|].
  unfold pending_bytes in *. split; cbn; try done; [lia|lia|]. intros. apply C4. lia.
Qed.

Lemma cleared_good base extra fd w :
  fd ∈ dom (connections w) -> worker_inv base extra w ->
  good_op base extra fd w (update_connection fd (fun c => set_outbound_offset 0 (set_outbound [] c)) w).
Proof.
  intros Hd Hinv. apply good_update; [|done|done]. intros c Hc.
  pose proof (in_conn _ _ _ _ _ _ _ Hinv fd c Hc) as [D1 D2 D3 D4 D5 D6]. split_and!; [done..|].
  split; cbn; try done; [|lia]. pose proof overloaded_size_nonneg.
  pose proof (count_calls_nonneg refusal (metric_calls (shared_state w))). unfold pending_bytes. cbn. nia.
Qed.

Lemma flush_client_good base extra fd w :
  worker_inv base extra w -> good_op base extra fd w (flush_client fd w).2.
Proof.
  intros Hinv. unfold flush_client, cm_get. destruct (connections w !! fd) as [c|] eqn:Hc; [|by apply good_refl].
  pose proof (co_offset _ _ _ _ _ (in_conn _ _ _ _ _ _ _ Hinv fd c Hc)) as C2.
  pose proof (send_loop_spec (an_sends (k_answers (kern w))) (length (outbound c)) (outbound_offset c) C2) as Hs.
  destruct (send_loop _ _ _) as [[sends result] offset]. destruct Hs as [Hoff Hall].
  set (w1 := set_kern (with_sends sends _) w).
  assert (G1 : good_op base extra fd w w1) by (by apply good_kernel).
  pose proof (good_trans _ _ _ _ _ _ G1 (sent_good base extra fd c offset w1 Hc Hoff (proj1 G1))) as G. clear G1.
  set (w2 := update_connection fd (set_outbound_offset offset) w1) in *.
  assert (Hd2 : fd ∈ dom (connections w2)) by (cbn; rewrite dom_alter_L; by apply elem_of_dom).
  destruct result.
  - pose proof (good_trans _ _ _ _ _ _ G (cleared_good base extra fd w2 Hd2 (proj1 G))) as G4.
    set (w3 := update_connection fd _ w2) in *.
    assert (Hd3 : fd ∈ dom (connections w3)) by (cbn; rewrite !dom_alter_L; by apply elem_of_dom).
    destruct (peer_closed c); cbn [snd]; (eapply good_trans; [exact G4|]).
    + apply good_close; [done|apply G4].
    + apply modify_or_close_good; [done|apply G4].
  - eapply good_trans; [exact G|]. apply modify_or_close_good; [done|apply G].
  - eapply good_trans; [exact G|]. apply good_close; [done|apply G].
Qed.

(** ** Accepting clients *)

(** What only [begin_drain] changes. *)
Definition same_mode (w w' : worker) : Prop :=
  completion_fd (loop_state w') = completion_fd (loop_state w) /\
  worker_id (loop_state w') = worker_id (loop_state w) /\
  draining (loop_state w') = draining (loop_state w).

Lemma same_mode_refl w : same_mode w w.
Proof. by split_and!. Qed.
Lemma same_mode_trans w1 w2 w3 : same_mode w1 w2 -> same_mode w2 w3 -> same_mode w1 w3.
Proof. intros (H1 & H2 & H3) (H4 & H5 & H6). split_and!; congruence. Qed.
Lemma same_loop_mode w w' : same_loop w w' -> same_mode w w'.
Proof. intros [E _]. unfold same_mode. by rewrite E. Qed.

(** Operations that keep the invariant and the mode. *)
Definition keeps (base : gset Z) (extra : list Completion) (w w' : worker) : Prop :=
  worker_inv base extra w' /\ same_mode w w'.

Lemma keeps_refl base extra w : worker_inv base extra w -> keeps base extra w w.
Proof. intros H. split; [done|apply same_mode_refl]. Qed.
Lemma keeps_trans base extra w1 w2 w3 : keeps base extra w1 w2 -> keeps base extra w2 w3 -> keeps base extra w1 w3.
Proof. intros [_ H1] [H2 H3]. split; [done|by eapply same_mode_trans]. Qed.
Lemma good_keeps base extra fd w w' : good_op base extra fd w w' -> keeps base extra w w'.
Proof. intros (H1 & H2 & _). split; [done|by apply same_loop_mode]. Qed.

(** What the operations below are proved with. *)
Create HintDb worker.
#[export] Hint Resolve keeps_refl good_keeps good_refl good_close : worker.

Lemma load_shutdown_keeps base extra w : worker_inv base extra w -> keeps base extra w (load_shutdown w).2.
Proof.
  intros H. unfold load_shutdown. destruct (shutdown_requested _); [by apply keeps_refl|].
  destruct (signal _) as [[|n]|]; (split; [exact H|by split_and!]).
Qed.

Lemma same_fds_trans k1 k2 k3 : same_fds k1 k2 -> same_fds k2 k3 -> same_fds k1 k3.
Proof. intros (H1 & H2 & H3 & H4) (H5 & H6 & H7 & H8). split_and!; congruence. Qed.

Lemma set_nonblocking_same k : same_fds k (set_nonblocking k).2.
Proof. unfold set_nonblocking. destruct (next_bool _) as [[] l]; [by destruct (next_bool l)|done]. Qed.

(** A connection that is taken and closed at once. *)
Lemma Inv_drop base conns pend out next k k' calls fd :
  acceptable fd k = true -> same_fds (opened_fd fd k) k' ->
  Inv base conns pend out next k calls -> Inv base conns pend out next (sys_close_fd fd k') calls.
Proof.
  intros Ha (E1 & E2 & E3 & E4) [H1 H2 H3 H4 H5 H6 H7 H8 H9 H10 H11]. unfold acceptable in Ha.
  rewrite !andb_true_iff in Ha. destruct Ha as [[Hf%bool_decide_eq_true _] Hacc].
  cbn [opened_fd k_open k_bad_closes k_interest k_accepted] in *.
  assert (Hni : k_interest k !! fd = None).
  { destruct (k_interest k !! fd) eqn:E; [|done]. destruct Hf. apply H5. by rewrite E. }
  unfold sys_close_fd. rewrite decide_True by (rewrite E1; set_solver).
  split; cbn [k_open k_interest k_bad_closes k_accepted]; rewrite ?E1, ?E2, ?E3, ?E4, ?(delete_id _ _ Hni); try done.
  - rewrite <- H2. apply leibniz_equiv_iff. set_solver.
  - intros fd' Hs. specialize (H5 fd' Hs). assert (fd' <> fd) by (intros ->; done). set_solver.
  - width.
Qed.

Lemma accept_connection_keeps base extra fd ip w :
  acceptable fd (kern w) = true -> worker_inv base extra w ->
  keeps base extra w (accept_connection fd ip w).
Proof.
  intros Ha Hinv. unfold accept_connection. destruct ip as [ip|].
  2:{ split; [|by split_and!]. by apply (Inv_drop _ _ _ _ _ (kern w)). }
  pose proof (set_nonblocking_same (opened_fd fd (kern w))) as Hn.
  change (kern (set_kern ?k w)) with k. destruct (set_nonblocking _) as [[] k1]; cbn [snd] in Hn.
  2:{ split; [|by split_and!]. by apply (Inv_drop _ _ _ _ _ (kern w)). }
  unfold add_fd. pose proof (sys_control_same k1) as Hk. destruct (sys_control k1) as [[] k2]; cbn [snd] in Hk.
  2:{ split; [|by split_and!]. apply (Inv_drop _ _ _ _ _ (kern w)); [done| |done]. by eapply same_fds_trans. }
  split; [|by split_and!]. destruct (same_fds_trans _ _ _ Hn Hk) as (E1 & E2 & E3 & E4).
  eapply Inv_kernel; [..|exact (Inv_accept base _ _ _ _ _ _ fd ip (worker_id (loop_state w))
    (Z.lor EPOLLIN EPOLLRDHUP) Ha Hinv)];
    cbn [kern set_kern set_interest k_open k_bad_closes k_interest k_accepted measure set_shared set_connections
         set_loop_state]; try done. by rewrite E3.
Qed.

Lemma accept_loop_keeps base extra accepts w :
  worker_inv base extra w -> keeps base extra w (accept_loop accepts w).2.
Proof.
  revert w. induction accepts as [|a accepts IH]; intros w Hinv; cbn [accept_loop];
    pose proof (load_shutdown_keeps base extra w Hinv) as Hl; destruct (load_shutdown w) as [[] w1];
    cbn [snd] in Hl |- *; try done.
  destruct a as [fd ip|code].
  - destruct (acceptable fd (kern w1)) eqn:Ha; [|done].
    pose proof (accept_connection_keeps base extra fd ip w1 Ha (proj1 Hl)) as Hacc.
    eapply keeps_trans; [exact Hl|]. eapply keeps_trans; [exact Hacc|]. apply IH, Hacc.
  - destruct (code =? EAGAIN); [done|]. destruct (code =? EINTR); [|done].
    eapply keeps_trans; [exact Hl|]. apply IH, Hl.
Qed.

Lemma keeps_kernel base extra w k' :
  same_fds (kern w) k' -> worker_inv base extra w -> keeps base extra w (set_kern k' w).
Proof. intros Hk Hinv. by apply (good_keeps _ _ 0), good_kernel. Qed.

Lemma accept_clients_keeps base extra w : worker_inv base extra w -> keeps base extra w (accept_clients w).
Proof.
  intros Hinv. unfold accept_clients.
  pose proof (accept_loop_keeps base extra (an_accepts (k_answers (kern w))) w Hinv) as Hl.
  destruct (accept_loop _ w) as [rest w1]. cbn [snd] in Hl. eapply keeps_trans; [exact Hl|].
  by apply keeps_kernel; [|apply Hl].
Qed.
