(* ===== verification/WorkerSteps.v ===== *)
(** * WorkerSteps: the operations of a worker keep the invariant

    Reading and dispatching requests, the completions, draining, events, and what
    other threads do between the steps: each preserves the invariant of WorkerInv. *)
From stdpp Require Import base gmap list numbers strings.
From Stdlib Require Import Strings.Byte.
From S2P Require Import Prelude Text Double Os HttpParser RateLimiter Router Metrics MetricsTheorems.
From S2P Require Import Sockets EpollLoop TcpServer WorkerInv.

Local Open Scope Z_scope.

(** ** Requests *)

Lemma good_call base extra fd c w :
  is_opened c = false -> is_closed c = false -> worker_inv base extra w -> good_op base extra fd w (measure c w).
Proof.
  intros Ho Hc Hinv. split_and!; [by apply Inv_call|split; [done|reflexivity]|split; [done|eauto]].
Qed.

(** Queueing a response on a good connection. *)
Lemma pending_bytes_append c r :
  (outbound_offset c <= length (outbound c))%nat ->
  pending_bytes (set_peer_closed true (set_outbound (outbound c ++ r) c)) = (pending_bytes c + length r)%nat.
Proof.
  intros H. unfold pending_bytes. change (length (outbound c ++ r) - outbound_offset c
    = length (outbound c) - outbound_offset c + length r)%nat. rewrite length_app. lia.
Qed.

Lemma conn_ok_append pend next calls fd c r :
  conn_ok pend next calls fd c ->
  Z.of_nat (pending_bytes c + length r) <= Z.of_nat max_outbound_bytes + overloaded_size * count_calls refusal calls ->
  conn_ok pend next calls fd (set_peer_closed true (set_outbound (outbound c ++ r) c)).
Proof.
  intros [D1 D2 D3 D4 D5 D6] Hb. split; try done; [|by rewrite pending_bytes_append].
  change (outbound_offset c <= length (outbound c ++ r))%nat. rewrite length_app. lia.
Qed.

Lemma within_limit n calls :
  (n <= max_outbound_bytes)%nat ->
  Z.of_nat n <= Z.of_nat max_outbound_bytes + overloaded_size * count_calls refusal calls.
Proof. pose proof overloaded_size_nonneg. pose proof (count_calls_nonneg refusal calls). nia. Qed.

Lemma reject_request_good base extra fd c w :
  connections w !! fd = Some c -> worker_inv base extra w ->
  good_op base extra fd w (reject_request fd c w).2.
Proof.
  intros Hc Hinv. unfold reject_request.
  assert (G : good_op base extra fd w (measure CParseError w)) by (by apply good_call).
  assert (Hd : fd ∈ dom (connections (measure CParseError w))) by (by apply elem_of_dom).
  destruct (Nat.ltb_spec max_outbound_bytes (pending_bytes c + length (response_to_string bad_request))) as [Hlt|Hle];
    (eapply good_trans; [exact G|]); cbn [snd].
  - apply good_close; [done|apply G].
  - apply good_update; [|done|apply G]. intros c1 E1. change (connections w !! fd = Some c1) in E1. simplify_eq.
    split_and!; [done..|]. apply conn_ok_append; [by apply (in_conn _ _ _ _ _ _ _ (proj1 G))|by apply within_limit].
Qed.

(** The refused request: its connection waits no longer and gets the 503 response. *)
Lemma refuse_keeps base extra fd w :
  fd ∈ dom (connections w) -> worker_inv base extra w ->
  let w1 := update_connection fd (fun c =>
    set_peer_closed true (set_outbound (outbound c ++ response_to_string overloaded) (set_in_flight false c))) w in
  worker_inv base extra (measure (CCompleted 503 (Fin 0) (worker_id (loop_state w))) w1).
Proof.
  intros [c Hc]%elem_of_dom Hinv w1.
  set (calls := metric_calls (shared_state w)). set (call := CCompleted 503 (Fin 0) (worker_id (loop_state w))).
  assert (Hi : Inv base (connections w) (pending_keys extra w) (outstanding_tasks (loop_state w))
    (next_generation (loop_state w)) (kern w) (calls ++ [call])) by (by apply Inv_call).
  apply (Inv_update base (connections w) (pending_keys extra w) _ _ (kern w) (calls ++ [call]) _ c);
    [done|done| |exact Hi].
  pose proof (in_conn _ _ _ _ _ _ _ Hinv fd c Hc) as [D1 D2 D3 D4 D5 D6].
  change (outbound c) with (outbound (set_in_flight false c)). apply conn_ok_append.
  - destruct (in_conn _ _ _ _ _ _ _ Hi fd c Hc). by split.
  - change (pending_bytes (set_in_flight false c)) with (pending_bytes c).
    rewrite count_calls_app, count_calls_one. change (refusal call) with true.
    fold calls in D3. unfold overloaded_size in *. nia.
Qed.

Lemma out_back out n : out = n mod u64_modulus -> ((out + 1) mod u64_modulus + -1) mod u64_modulus = out.
Proof. intros ->. rewrite !Zplus_mod_idemp_l. rewrite <- Z.add_assoc, Zplus_mod_idemp_l. f_equal. lia. Qed.

Lemma alter_absorbs (h g : Connection -> Connection) fd (m : ConnectionManager) :
  (forall c, h (g c) = h c) -> alter h fd (alter g fd m) = alter h fd m.
Proof.
  intros Hh. apply map_eq. intros fd'. destruct (decide (fd = fd')) as [->|Hne].
  - rewrite !lookup_alter_eq. destruct (m !! fd'); cbn; by rewrite ?Hh.
  - by rewrite !lookup_alter_ne.
Qed.

Lemma modify_fd_spec fd events k :
  let '(ok, k') := modify_fd fd events k in
  k_open k' = k_open k /\ k_bad_closes k' = k_bad_closes k /\ k_accepted k' = k_accepted k /\
  k_interest k' = (if ok : bool then <[fd := events]> (k_interest k) else k_interest k).
Proof.
  unfold modify_fd. pose proof (sys_control_same k) as Hk. destruct (sys_control k) as [ok k1].
  destruct Hk as (E1 & E2 & E3 & E4). cbn [snd] in *.
  destruct (k_interest k1 !! fd); [|by rewrite E1, E2, E3, E4].
  destruct ok; cbn [set_interest k_open k_bad_closes k_accepted k_interest]; by rewrite E1, E2, E3, E4.
Qed.

(** A registration changed by [modify_fd]. *)
Lemma Inv_modified base conns pend out next k calls fd events :
  fd ∈ dom conns -> Inv base conns pend out next k calls ->
  Inv base conns pend out next (modify_fd fd events k).2 calls.
Proof.
  intros Hd Hinv. pose proof (modify_fd_spec fd events k) as Hk. destruct (modify_fd fd events k) as [ok k1].
  destruct Hk as (E1 & E2 & E3 & E4). cbn [snd].
  assert (Ho : fd ∈ k_open k) by (rewrite (in_open _ _ _ _ _ _ _ Hinv); set_solver).
  destruct ok; [|by apply (Inv_kernel _ _ _ _ _ k)].
  apply (Inv_kernel _ _ _ _ _ (set_interest (<[fd := events]> (k_interest k)) k)); try done.
  by apply Inv_register.
Qed.

Lemma submit_task_spec t w :
  let '(accepted, w') := submit_task t w in
  same_fds (kern w) (kern w') /\ connections w' = connections w /\ loop_state w' = loop_state w /\
  metric_calls (shared_state w') = metric_calls (shared_state w) /\
  accepted_tasks (shared_state w') = accepted_tasks (shared_state w) ++ (if accepted : bool then [t] else []).
Proof.
  unfold submit_task, next_submit. destruct (next_bool _) as [ok l].
  destruct (ok && _); split_and!; try done. by rewrite app_nil_r.
Qed.

Lemma close_client_mode fd w : same_mode w (close_client fd w).
Proof. unfold close_client. destruct (cm_get _ _); by split_and!. Qed.

Lemma dispatch_request_keeps base extra fd c w :
  connections w !! fd = Some c -> worker_inv base extra w ->
  keeps base extra w (dispatch_request fd c w).2.
Proof.
  intros Hc Hinv. unfold dispatch_request. set (w1 := measure (CStarted _) w).
  assert (Hd : fd ∈ dom (connections w)) by (by apply elem_of_dom).
  assert (H1 : worker_inv base extra w1) by (by apply Inv_call).
  change (kern (update_connection fd (set_in_flight true) w1)) with (kern w1).
  pose proof (modify_fd_spec fd EPOLLRDHUP (kern w1)) as Hk.
  pose proof (Inv_modified _ _ _ _ _ _ _ fd EPOLLRDHUP Hd H1) as H2.
  destruct (modify_fd fd EPOLLRDHUP (kern w1)) as [ok k]. cbn [snd] in H2.
  set (w2 := set_kern k (update_connection fd (set_in_flight true) w1)).
  destruct ok; cbn [negb].
  2:{ split; [|apply (close_client_mode fd w2)].
      unfold close_client, cm_get, cm_remove. cbn [connections set_kern w2 update_connection set_connections].
      change (connections w1) with (connections w). rewrite lookup_alter_eq, Hc. cbn [fmap option_fmap option_map].
      pose proof (Inv_close _ _ _ _ _ _ _ fd Hd H2) as H3.
      replace (delete fd (connections w)) with (delete fd (alter (set_in_flight true) fd (connections w))) in H3
        by (by rewrite delete_alter_eq).
      exact H3. }
  pose proof (submit_task_spec (mkTask fd (generation c) (request (parser c)) (client_ip c)) (add_outstanding 1 w2)) as Hs.
  destruct (submit_task _ _) as [accepted w3]. destruct Hs as (Hf & E1 & E2 & E3 & E4).
  assert (Hmode : same_mode w w3) by (unfold same_mode; by rewrite E2).
  assert (H3 : Inv base (connections w) (pending_keys extra w) (outstanding_tasks (loop_state w))
    (next_generation (loop_state w)) (kern w3) (metric_calls (shared_state w1))).
  { destruct Hf as (F1 & F2 & F3 & F4). by apply (Inv_kernel _ _ _ _ _ k). }
  destruct accepted; cbn [snd].
  - split; [|done]. unfold worker_inv. rewrite E1, E2, E3.
    apply (Inv_perm _ _ ((fd, generation c) :: pending_keys extra w)).
    + unfold pending_keys. rewrite E2, E4, fmap_app, <- app_assoc. cbn [fmap list_fmap app].
      by rewrite Permutation_middle.
    + by apply Inv_dispatch.
  - set (w4 := update_connection fd _ (add_outstanding (-1) w3)).
    assert (H4 : worker_inv base extra (measure (CCompleted 503 (Fin 0) (worker_id (loop_state w4))) w4)).
    { pose proof (refuse_keeps base extra fd (set_kern (kern w3) w1) Hd H3) as H4.
      unfold worker_inv in *. cbn in H4. unfold w4. cbn.
      rewrite E1, E2, E3. cbn. rewrite (alter_absorbs _ (set_in_flight true)) by done.
      rewrite (out_back _ _ (in_outstanding _ _ _ _ _ _ _ Hinv)). unfold pending_keys in *. cbn.
      rewrite ?E2, E4, app_nil_r. exact H4. }
    eapply keeps_trans; [|apply (good_keeps _ _ fd), flush_client_good, H4]. split; [exact H4|].
    unfold same_mode, w4. cbn. by rewrite E2.
Qed.

(** ** Reading *)

Lemma read_loop_keeps base extra reads fd w :
  fd ∈ dom (connections w) -> worker_inv base extra w -> keeps base extra w (read_loop reads fd w).2.
Proof.
  revert w. induction reads as [|[data|code] reads IH]; intros w Hd Hinv; cbn [read_loop]; [auto with worker|..].
  2:{ destruct (code =? EAGAIN); [auto with worker|]. destruct (code =? EINTR); [by apply IH|].
      eauto with worker. }
  destruct data as [|b data].
  { apply (good_keeps _ _ fd), good_update; [|done|done]. intros c Hc.
    destruct (in_conn _ _ _ _ _ _ _ Hinv fd c Hc) as [D1 D2 D3 D4 D5 D6]. split_and!; [done..|]. by split. }
  pose proof Hd as [c Hc]%elem_of_dom. unfold cm_get. rewrite Hc.
  destruct (feed _ _) as [status p]. set (c1 := set_inbound [] (set_parser p c)).
  set (w0 := set_kern (sys_received fd _ (kern w)) w).
  assert (G0 : good_op base extra fd w w0) by (by apply good_kernel).
  set (w1 := update_connection fd (fun _ => c1) w0).
  assert (G : good_op base extra fd w w1).
  { eapply good_trans; [exact G0|]. apply good_update; [|done|apply G0]. intros c0 Hc0. change (connections w !! fd = Some c0) in Hc0. rewrite Hc in Hc0. injection Hc0 as <-.
    destruct (in_conn _ _ _ _ _ _ _ Hinv fd c Hc) as [D1 D2 D3 D4 D5 D6]. split_and!; [done..|]. by split. }
  assert (Hc1 : connections w1 !! fd = Some c1) by (cbn; by rewrite lookup_alter_eq, Hc).
  assert (Hd1 : fd ∈ dom (connections w1)) by (apply elem_of_dom; eauto).
  pose proof (good_keeps _ _ _ _ _ G) as K. destruct status.
  - destruct (0 <? _)%nat; cbn [snd].
    + eapply keeps_trans; [exact K|]. apply (good_keeps _ _ fd), good_close; [exact Hd1|apply G].
    + eapply keeps_trans; [exact K|]. apply IH; [exact Hd1|apply G].
  - pose proof (dispatch_request_keeps base extra fd c1 w1 Hc1 (proj1 G)) as Kd.
    destruct (dispatch_request fd c1 w1). eapply keeps_trans; [exact K|exact Kd].
  - pose proof (good_keeps _ _ _ _ _ (reject_request_good base extra fd c1 w1 Hc1 (proj1 G))) as Kr.
    destruct (reject_request fd c1 w1). eapply keeps_trans; [exact K|exact Kr].
Qed.

Lemma handle_client_keeps base extra fd w : worker_inv base extra w -> keeps base extra w (handle_client fd w).
Proof.
  intros Hinv. unfold handle_client, cm_get. destruct (connections w !! fd) as [c|] eqn:Hc; [|auto with worker].
  assert (Hd : fd ∈ dom (connections w)) by (by apply elem_of_dom).
  pose proof (read_loop_keeps base extra (an_reads (k_answers (kern w))) fd w Hd Hinv) as Kr.
  destruct (read_loop _ fd w) as [[reads after] w1]. cbn [snd] in Kr.
  assert (K : keeps base extra w (set_kern (with_reads reads (kern w1)) w1)).
  { eapply keeps_trans; [exact Kr|]. by apply keeps_kernel; [|apply Kr]. }
  destruct after; [|exact K]. cbn [negb]. set (w2 := set_kern _ w1) in *. unfold cm_get.
  destruct (connections w2 !! fd) as [c2|]; [|exact K]. destruct (request_in_flight c2); [exact K|].
  eapply keeps_trans; [exact K|]. apply (good_keeps _ _ fd), flush_client_good, K.
Qed.

(** ** Completions *)

Lemma pending_extra k extra w : pending_keys (k :: extra) w ≡ₚ comp_key k :: pending_keys extra w.
Proof.
  unfold pending_keys. rewrite fmap_cons, !app_assoc. by rewrite <- Permutation_middle.
Qed.

(** The entry in hand is done when its connection does not wait for it. *)
Lemma finish_extra base k extra w :
  (forall c, connections w !! comp_fd k = Some c -> generation c = comp_generation k -> request_in_flight c = false) ->
  worker_inv base (k :: extra) w -> keeps base extra w (add_outstanding (-1) w).
Proof.
  intros Hno Hinv. split; [|done].
  apply (Inv_done _ _ _ _ _ _ _ (comp_fd k) (comp_generation k)); [exact Hno|].
  apply (Inv_perm _ _ (pending_keys (k :: extra) w)); [exact (pending_extra k extra w)|exact Hinv].
Qed.

(** The answer is queued on its connection. *)
Lemma answer_good base extra fd c r w :
  connections w !! fd = Some c -> (pending_bytes c + length r <= max_outbound_bytes)%nat ->
  worker_inv base extra w ->
  good_op base extra fd w (update_connection fd (fun c => set_peer_closed true (set_outbound (outbound c ++ r) c)) w).
Proof.
  intros Hc Hl Hinv. apply good_update; [|by apply elem_of_dom|done].
  intros c0 Hc0. rewrite Hc in Hc0. injection Hc0 as <-. split_and!; [done..|].
  apply conn_ok_append; [by apply (in_conn _ _ _ _ _ _ _ Hinv)|by apply within_limit].
Qed.

Lemma process_completion_keeps base k extra w :
  worker_inv base (k :: extra) w ->
  worker_inv base extra (process_completion k w) /\ same_mode w (process_completion k w).
Proof.
  intros Hinv. unfold process_completion.
  set (w1 := measure _ w). assert (H1 : worker_inv base (k :: extra) w1) by (by apply Inv_call).
  assert (M1 : same_mode w w1) by (by split_and!). clearbody w1.
  set (w' := match cm_get (comp_fd k) (connections w1) with Some _ => _ | None => _ end).
  assert (Hw' : worker_inv base (k :: extra) w' /\ same_mode w1 w' /\
    forall c, connections w' !! comp_fd k = Some c -> generation c = comp_generation k -> request_in_flight c = false).
  { unfold w', cm_get. destruct (connections w1 !! comp_fd k) as [c|] eqn:Hc.
    2:{ split_and!; [done|apply same_mode_refl|]. intros c0 Hc0. congruence. }
    destruct ((generation c =? comp_generation k) && request_in_flight c) eqn:Hm.
    2:{ split_and!; [done|apply same_mode_refl|]. intros c0 Hc0 Hg. simplify_eq.
        rewrite (proj2 (Z.eqb_eq _ _) Hg) in Hm. exact Hm. }
    set (w2 := update_connection (comp_fd k) (set_in_flight false) w1).
    assert (H2 : worker_inv base (k :: extra) w2).
    { apply (Inv_update _ _ _ _ _ _ _ _ c); [done|done| |exact H1].
      destruct (in_conn _ _ _ _ _ _ _ H1 _ c Hc). by split. }
    assert (Hc2 : connections w2 !! comp_fd k = Some (set_in_flight false c)) by (cbn; by rewrite lookup_alter_eq, Hc).
    assert (G : good_op base (k :: extra) (comp_fd k) w2
      (if (pending_bytes c + length (serialized_response k) <=? max_outbound_bytes)%nat then
         (flush_client (comp_fd k) (update_connection (comp_fd k) (fun c =>
            set_peer_closed true (set_outbound (outbound c ++ serialized_response k) c)) w2)).2
       else close_client (comp_fd k) w2)).
    { destruct (Nat.leb_spec (pending_bytes c + length (serialized_response k)) max_outbound_bytes) as [Hle|].
      - pose proof (answer_good base (k :: extra) _ _ (serialized_response k) w2 Hc2 Hle H2) as Ga.
        eapply good_trans; [exact Ga|]. apply flush_client_good, Ga.
      - apply good_close; [by apply elem_of_dom|done]. }
    destruct G as (Hi & Hl & Ht). split_and!; [exact Hi| |].
    - eapply same_mode_trans; [|by apply same_loop_mode]. by split_and!.
    - intros c' (c0 & E0 & _ & ->)%(to_own _ _ _ Ht). rewrite Hc2 in E0. by simplify_eq. }
  destruct Hw' as (Hi & Hmode & Hno). destruct (finish_extra base k extra w' Hno Hi) as [Hf Hm].
  split; [exact Hf|]. eapply same_mode_trans; [exact M1|]. by eapply same_mode_trans.
Qed.

(** The completions taken from the state are in hand. *)
Definition take_completions (w : worker) : worker := set_loop_state (set_completions [] (loop_state w)) w.

Lemma take_completions_inv base w :
  worker_inv base [] w -> worker_inv base (completions (loop_state w)) (take_completions w).
Proof.
  intros Hinv. apply (Inv_perm _ _ (pending_keys [] w)); [|exact Hinv].
  unfold pending_keys. cbn. by rewrite app_nil_r.
Qed.

Lemma process_completions_keeps base w :
  worker_inv base [] w -> keeps base [] w (process_completions w).
Proof.
  intros Hinv. unfold process_completions. set (w1 := measure _ _).
  assert (H1 : worker_inv base (completions (loop_state w)) w1).
  { apply Inv_call; [done|done|]. by apply take_completions_inv. }
  assert (M1 : same_mode w w1) by (by split_and!). clearbody w1. revert w1 H1 M1.
  induction (completions (loop_state w)) as [|k l IH]; intros w1 H1 M1; cbn [foldl]; [by split|].
  destruct (process_completion_keeps base k l w1 H1) as [H2 M2]. apply IH; [exact H2|]. by eapply same_mode_trans.
Qed.

(** ** Draining *)

Lemma drain_connection_keeps base extra fd w :
  worker_inv base extra w -> keeps base extra w (drain_connection fd w).
Proof.
  intros Hinv. unfold drain_connection, cm_get.
  destruct (connections w !! fd) as [c|] eqn:Hc; [|auto with worker].
  destruct (request_in_flight c); [auto with worker|].
  destruct (pending_bytes c =? 0)%nat; cbn [negb]; apply (good_keeps _ _ fd).
  - apply good_close; [by apply elem_of_dom|done].
  - by apply flush_client_good.
Qed.

Lemma drain_connections_keeps base extra w :
  worker_inv base extra w -> keeps base extra w (drain_connections w).
Proof.
  unfold drain_connections. generalize (cm_file_descriptors (connections w)) as fds. intros fds. revert w.
  induction fds as [|fd fds IH]; intros w Hinv; cbn [foldl]; [auto with worker|].
  pose proof (drain_connection_keeps base extra fd w Hinv) as K.
  eapply keeps_trans; [exact K|]. apply IH, K.
Qed.

(** A descriptor of the worker's own is unregistered and closed. *)
Lemma Inv_close_own base conns pend out next k calls l :
  l ∈ base -> Inv base conns pend out next k calls ->
  Inv (base ∖ {[l]}) conns pend out next (sys_close_fd l (remove_fd l k)) calls.
Proof.
  intros Hl [H1 H2 H3 H4 H5 H6 H7 H8 H9 H10 H11].
  assert (Hnd : l ∉ dom conns) by set_solver.
  unfold sys_close_fd, remove_fd. cbn [set_interest k_open]. rewrite decide_True by set_solver.
  split; cbn [k_open k_bad_closes k_interest k_accepted set_interest]; try done.
  - rewrite H2. apply leibniz_equiv_iff. set_solver.
  - set_solver.
  - intros fd Hd. assert (l <> fd) by (intros ->; done). rewrite !lookup_delete_ne by done. by apply H4.
  - intros fd Hs. assert (l <> fd) by (intros ->; rewrite lookup_delete_eq in Hs; by destruct Hs).
    rewrite !lookup_delete_ne in Hs by done. specialize (H5 fd Hs). set_solver.
Qed.

(** ** The worker and its own descriptors *)

(** The listener [l] and the eventfd [e]: only the eventfd once draining. *)
Definition own_fds (l e : Z) (d : bool) : gset Z := if d then {[e]} else {[l; e]}.

(** What holds of a worker between two operations: the loop's copy of the listener
    may be stale only while draining. *)
Record server_inv (l e : Z) (listener : option Z) (w : worker) : Prop := {
  si_distinct : l <> e;
  si_eventfd : completion_fd (loop_state w) = e;
  si_worker : worker_inv (own_fds l e (draining (loop_state w))) [] w;
  si_listener : listener = Some l \/ (listener = None /\ draining (loop_state w) = true)
}.

Lemma server_inv_keeps l e listener w w' :
  server_inv l e listener w -> keeps (own_fds l e (draining (loop_state w))) [] w w' -> server_inv l e listener w'.
Proof. intros [H1 H2 H3 H4] [K1 (K2 & K3 & K4)]. split; rewrite ?K2, ?K4; done. Qed.

Lemma begin_drain_inv l e listener w :
  server_inv l e listener w ->
  let '(listener', w') := begin_drain listener w in
  server_inv l e listener' w' /\ draining (loop_state w') = true /\
  (draining (loop_state w) = false -> listener' = None) /\ (listener' = listener \/ listener' = None).
Proof.
  intros [H1 H2 H3 H4]. unfold begin_drain. destruct (draining (loop_state w)) eqn:Hd.
  { split_and!; try done; [|by left]. split; rewrite ?Hd; done. }
  destruct H4 as [->|[_ ?]]; [|done].
  change (kern (set_shared ?s ?w)) with (kern w). change (kern (set_loop_state ?s ?w)) with (kern w).
  set (w1 := set_kern _ _).
  assert (Hw : worker_inv {[e]} [] w1).
  { replace ({[e]} : gset Z) with ((own_fds l e false) ∖ {[l]})
      by (apply leibniz_equiv_iff; unfold own_fds; set_solver).
    apply Inv_close_own; [unfold own_fds; set_solver|exact H3]. }
  destruct (drain_connections_keeps _ _ _ Hw) as [Hk (E1 & E2 & E3)].
  cbn [fst snd]. split_and!; try done; [|by right]. split; rewrite ?E1, ?E3; try done. by right.
Qed.

(** ** Events *)

Lemma set_peer_closed_good base extra fd w :
  fd ∈ dom (connections w) -> worker_inv base extra w ->
  good_op base extra fd w (update_connection fd (set_peer_closed true) w).
Proof.
  intros Hd Hinv. apply good_update; [|done|done]. intros c Hc.
  destruct (in_conn _ _ _ _ _ _ _ Hinv fd c Hc) as [D1 D2 D3 D4 D5 D6]. split_and!; [done..|]. by split.
Qed.

Lemma fail_worker_keeps base extra w : worker_inv base extra w -> keeps base extra w (fail_worker w).
Proof. intros H. split; [exact H|by split_and!]. Qed.

(** The last steps of an event of a client. *)
Lemma client_event_keeps base fd events w :
  worker_inv base [] w -> fd ∈ dom (connections w) ->
  keeps base [] w
    (let w := if has events EPOLLRDHUP then update_connection fd (set_peer_closed true) w else w in
     let w := if has events EPOLLOUT then (flush_client fd w).2 else w in
     match cm_get fd (connections w) with
     | Some c =>
         if negb (request_in_flight c) && peer_closed c && (pending_bytes c =? 0)%nat then close_client fd w else w
     | None => w
     end).
Proof.
  intros Hinv Hd. cbv zeta. set (w1 := if has events EPOLLRDHUP then _ else w).
  assert (K1 : keeps base [] w w1).
  { unfold w1. destruct (has events EPOLLRDHUP); [|auto with worker].
    by apply (good_keeps _ _ fd), set_peer_closed_good. }
  clearbody w1. set (w2 := if has events EPOLLOUT then _ else w1).
  assert (K2 : keeps base [] w w2).
  { eapply keeps_trans; [exact K1|]. destruct K1 as [K1 _].
    unfold w2. destruct (has events EPOLLOUT); [|auto with worker].
    by apply (good_keeps _ _ fd), flush_client_good. }
  clearbody w2. unfold cm_get. destruct (connections w2 !! fd) as [c|] eqn:Hc; [|done].
  destruct (_ && _ && _); [|done]. eapply keeps_trans; [exact K2|]. destruct K2 as [K2 _].
  apply (good_keeps _ _ fd), good_close; [by apply elem_of_dom|done].
Qed.

Lemma client_readable_keeps base fd events w :
  worker_inv base [] w -> fd ∈ dom (connections w) ->
  keeps base [] w
    (let w := if has events EPOLLIN then handle_client fd w else w in
     if has events EPOLLIN && bool_decide (cm_get fd (connections w) = None) then w else
     let w := if has events EPOLLRDHUP then update_connection fd (set_peer_closed true) w else w in
     let w := if has events EPOLLOUT then (flush_client fd w).2 else w in
     match cm_get fd (connections w) with
     | Some c =>
         if negb (request_in_flight c) && peer_closed c && (pending_bytes c =? 0)%nat then close_client fd w else w
     | None => w
     end).
Proof.
  intros Hinv Hd. cbv zeta. set (w1 := if has events EPOLLIN then _ else w).
  assert (K1 : keeps base [] w w1).
  { unfold w1. destruct (has events EPOLLIN); [by apply handle_client_keeps|auto with worker]. }
  destruct (bool_decide_reflect (cm_get fd (connections w1) = None)) as [Hc|Hc]; rewrite ?andb_false_r, ?andb_true_r.
  - unfold w1 in Hc |- *. destruct (has events EPOLLIN); [exact K1|].
    apply elem_of_dom in Hd as [c Hd]. unfold cm_get in Hc. congruence.
  - eapply keeps_trans; [exact K1|]. apply client_event_keeps; [apply K1|].
    by apply elem_of_dom, not_eq_None_Some.
Qed.

Lemma handle_event_inv l e listener fd events w :
  server_inv l e listener w -> server_inv l e listener (handle_event listener fd events w).
Proof.
  intros Hinv. unfold handle_event.
  pose proof (server_inv_keeps _ _ _ _ _ Hinv (load_shutdown_keeps _ _ _ (si_worker _ _ _ _ Hinv))) as H1.
  destruct (load_shutdown w) as [stop w1]. cbn [snd] in H1.
  set (p := if stop && _ then begin_drain listener w1 else (listener, w1)).
  assert (Hp : server_inv l e p.1 p.2 /\ (p.1 = listener \/ (p.1 = None /\ draining (loop_state p.2) = true))).
  { unfold p. destruct (stop && _); [|split; [done|by left]].
    pose proof (begin_drain_inv l e listener w1 H1) as Hb. destruct (begin_drain listener w1) as [listener' w'].
    destruct Hb as (Hb & Hd & _ & Hor). cbn [fst snd]. split; [done|]. destruct Hor as [->| ->]; [by left|by right]. }
  destruct p as [listener' w2]. cbn [fst snd] in Hp. destruct Hp as [H2 Hl].
  assert (Hback : forall w', keeps (own_fds l e (draining (loop_state w2))) [] w2 w' -> server_inv l e listener w').
  { intros w' K. pose proof (server_inv_keeps _ _ _ _ _ H2 K) as H3.
    destruct Hl as [<-|[_ Hd]]; [done|]. destruct Hinv as [? ? ? Hli], H3 as [? ? ? _]. split; try done.
    destruct Hli as [?|[-> _]]; [by left|]. right. split; [done|]. by rewrite (proj2 (proj2 (proj2 K))). }
  pose proof (si_worker _ _ _ _ H2) as Hw. clear Hinv H1.
  assert (Hsame : server_inv l e listener w2) by (apply Hback, keeps_refl; done).
  destruct (fd =? completion_fd (loop_state w2)); [by apply Hback, process_completions_keeps|].
  destruct (bool_decide_reflect (listener' = Some fd)) as [->|Hn]; cbn [negb andb].
  - destruct (draining (loop_state w2)); [done|].
    destruct (has events (Z.lor EPOLLERR EPOLLHUP)); [by apply Hback, fail_worker_keeps|].
    destruct (has events EPOLLIN); [by apply Hback, accept_clients_keeps|done].
  - destruct (bool_decide_reflect (cm_get fd (connections w2) = None)) as [Hc|Hc]; [done|].
    assert (Hd : fd ∈ dom (connections w2)) by (by apply elem_of_dom, not_eq_None_Some).
    destruct (has events (Z.lor EPOLLERR EPOLLHUP)).
    + by apply Hback, (good_keeps _ _ fd), good_close.
    + by apply Hback, client_readable_keeps.
Qed.
