(* ===== verification/WorkerLoop.v ===== *)
(** * WorkerLoop: the worker over a whole run of its loop

    The invariant of WorkerInv over any sequence of answers of [epoll_wait] and of
    changes by other threads, from the setup of the worker to its exit. *)
From stdpp Require Import base gmap list numbers strings.
From Stdlib Require Import Strings.Byte.
From S2P Require Import Prelude Text Double Os HttpParser RateLimiter Router Metrics MetricsTheorems.
From S2P Require Import Sockets EpollLoop TcpServer WorkerInv WorkerSteps.

Local Open Scope Z_scope.

(** ** Other threads *)

Lemma finish_task_keeps base i response t w :
  worker_inv base [] w -> keeps base [] w (finish_task i response t w).
Proof.
  intros Hinv. unfold finish_task. destruct (accepted_tasks (shared_state w) !! i) as [task|] eqn:Hi;
    [|auto with worker].
  split; [|by split_and!]. apply Inv_call; [done|done|].
  apply (Inv_perm _ _ (pending_keys [] w)); [|exact Hinv].
  unfold pending_keys. cbn. rewrite fmap_app, !app_nil_r.
  rewrite (delete_Permutation (accepted_tasks (shared_state w)) i task Hi) at 1. cbn.
  rewrite app_assoc. by rewrite <- Permutation_cons_append.
Qed.

Lemma apply_change_keeps base e w : worker_inv base [] w -> keeps base [] w (apply_change e w).
Proof.
  intros Hinv. destruct e as [a|n| |i response t]; cbn [apply_change].
  - apply keeps_kernel; [by split_and!|done].
  - destruct (shutdown_requested _); [auto with worker|]. split; [exact Hinv|by split_and!].
  - split; [exact Hinv|by split_and!].
  - by apply finish_task_keeps.
Qed.

Lemma apply_changes_keeps base es w : worker_inv base [] w -> keeps base [] w (apply_changes es w).
Proof.
  unfold apply_changes. revert w. induction es as [|e es IH]; intros w Hinv; cbn [foldl]; [auto with worker|].
  pose proof (apply_change_keeps base e w Hinv) as K. eapply keeps_trans; [exact K|]. apply IH, K.
Qed.

(** ** The loop *)

(** The invariant of the worker with the listener variable of [worker_loop]. *)
Definition loop_inv (l e : Z) (s : loop_worker) : Prop := server_inv l e s.1 s.2.

Lemma changes_inv l e es s : loop_inv l e s -> loop_inv l e (s.1, apply_changes es s.2).
Proof. intros H. apply (server_inv_keeps _ _ _ _ _ H), apply_changes_keeps, H. Qed.

Lemma on_event_inv l e fd events s : loop_inv l e s -> loop_inv l e (on_event fd events s).
Proof. apply handle_event_inv. Qed.

Lemma on_iteration_inv l e s : loop_inv l e s -> loop_inv l e (on_iteration s).
Proof.
  intros H. unfold on_iteration.
  pose proof (server_inv_keeps _ _ _ _ _ H (process_completions_keeps _ _ (si_worker _ _ _ _ H))) as H1.
  pose proof (server_inv_keeps _ _ _ _ _ H1 (load_shutdown_keeps _ _ _ (si_worker _ _ _ _ H1))) as H2.
  destruct (load_shutdown _) as [stop w]. cbn [snd] in H2.
  assert (H3 : loop_inv l e (if stop then begin_drain s.1 w else (s.1, w))).
  { destruct stop; [|exact H2]. pose proof (begin_drain_inv l e s.1 w H2) as Hb.
    destruct (begin_drain s.1 w). apply Hb. }
  destruct (if stop then _ else _) as [listener w']. cbn in H3 |- *.
  unfold loop_inv. cbn [fst snd]. destruct (draining (loop_state w')) eqn:Hd; [|exact H3].
  apply (server_inv_keeps _ _ _ _ _ H3), drain_connections_keeps, H3.
Qed.

Lemma handle_events_inv l e events s :
  loop_inv l e s ->
  loop_inv l e (handle_events (fun es s => (s.1, apply_changes es s.2)) on_event events s).
Proof.
  unfold handle_events. revert s. induction events as [|ev events IH]; intros s H; cbn [foldl]; [done|].
  by apply IH, on_event_inv, changes_inv.
Qed.

Lemma run_loop_inv l e ws s :
  loop_inv l e s ->
  loop_inv l e
    (run_loop (fun s => kern s.2) (fun es s => (s.1, apply_changes es s.2)) on_event on_iteration should_stop ws s).2.
Proof.
  revert s. induction ws as [|[es answer] ws IH]; intros s H; cbn [run_loop]; destruct (should_stop s); try done.
  pose proof (changes_inv l e es s H) as H1. destruct answer as [events late|code].
  - unfold iteration. set (s' := on_iteration _).
    assert (H2 : loop_inv l e s') by (by apply on_iteration_inv, changes_inv, handle_events_inv).
    destruct (should_stop s'); [exact H2|by apply IH].
  - destruct (code =? EINTR); [by apply IH|exact H1].
Qed.

Lemma run_worker_inv l e epoll ws s : loop_inv l e s -> loop_inv l e (run_worker epoll ws s).2.
Proof. unfold run_worker, run. destruct epoll; [apply run_loop_inv|done]. Qed.

(** The loop ends normally only when [should_stop] holds. *)
Lemma run_worker_stopped epoll ws s s' : run_worker epoll ws s = (Some true, s') -> should_stop s' = true.
Proof.
  unfold run_worker, run. destruct epoll; cbn [negb]; [|done]. revert s.
  induction ws as [|[es answer] ws IH]; intros s; cbn [run_loop]; destruct (should_stop s) eqn:Hs; try congruence.
  destruct answer as [events late|code].
  - cbv zeta. match goal with |- context [should_stop ?s1] => destruct (should_stop s1) eqn:Hs' end;
      [congruence|apply IH].
  - destruct (code =? EINTR); [apply IH|done].
Qed.

Lemma run_loop_failed ws s s' :
  run_loop (fun s => kern s.2) (fun es s => (s.1, apply_changes es s.2)) on_event on_iteration should_stop ws s
    = (Some false, s') ->
  exists es code, (es, WError code) ∈ ws /\ code <> EINTR.
Proof.
  revert s. induction ws as [|[es answer] ws IH]; intros s; cbn [run_loop]; destruct (should_stop s); try done.
  destruct answer as [events late|code].
  - cbv zeta. destruct (should_stop _); [done|]. intros (es' & code & Hin & Hne)%IH. exists es', code.
    split; [by right|done].
  - destruct (Z.eqb_spec code EINTR) as [->|Hne].
    + intros (es' & code & Hin & Hne)%IH. exists es', code. split; [by right|done].
    + intros _. exists es, code. split; [by left|done].
Qed.

(** ** Setting up *)

(** A worker starts with no descriptor of its own. *)
Record fresh (k : kernel) (s : shared) : Prop := {
  fr_open : k_open k = ∅;
  fr_interest : k_interest k = ∅;
  fr_closes : k_bad_closes k = [];
  fr_accepted : 0 <= k_accepted k <= u64_max - 1;
  fr_trace : k_trace k = [];
  fr_tasks : accepted_tasks s = [];
  fr_produced : produced s = [];
  fr_calls : metric_calls s = []
}.

Lemma sys_new_fd_spec fd k :
  let '(r, k') := sys_new_fd fd k in
  match r with
  | Some x => fd = Some x /\ x ∉ k_open k /\ k_open k' = {[x]} ∪ k_open k
  | None => k_open k' = k_open k
  end /\ k_bad_closes k' = k_bad_closes k /\ k_interest k' = k_interest k /\ k_accepted k' = k_accepted k.
Proof.
  unfold sys_new_fd. destruct fd as [x|]; [|done].
  destruct (bool_decide_reflect (x ∉ k_open k)); [|done]. by destruct (0 <=? x).
Qed.

(** Closing the only descriptor. *)
Lemma close_only x k :
  k_open k = {[x]} -> k_interest k = ∅ ->
  k_open (sys_close_fd x k) = ∅ /\ k_bad_closes (sys_close_fd x k) = k_bad_closes k /\
  k_interest (sys_close_fd x k) = ∅ /\ k_accepted (sys_close_fd x k) = k_accepted k.
Proof.
  intros Ho Hi. unfold sys_close_fd. rewrite decide_True by (rewrite Ho; set_solver). cbn.
  rewrite Ho, Hi. split_and!; [apply leibniz_equiv_iff; set_solver|done|apply delete_empty|done].
Qed.

(** Every failure closes the socket again. *)
Lemma create_reuseport_listener_spec su k :
  k_open k = ∅ -> k_interest k = ∅ ->
  let '(r, k') := create_reuseport_listener su k in
  match r with
  | Some l => su_listener su = Some l /\ k_open k' = {[l]}
  | None => k_open k' = ∅
  end /\ k_bad_closes k' = k_bad_closes k /\ k_interest k' = ∅ /\ k_accepted k' = k_accepted k.
Proof.
  intros Ho Hi. unfold create_reuseport_listener.
  pose proof (sys_new_fd_spec (su_listener su) k) as Hn. destruct (sys_new_fd (su_listener su) k) as [[l|] k1];
    [|by rewrite Ho, Hi in Hn].
  destruct Hn as ((Hl & _ & Hk) & Hb & Hi' & Ha). rewrite Ho, union_empty_r_L in Hk. rewrite Hi in Hi'.
  assert (Hc : forall k2, same_fds k1 k2 -> k_open (sys_close_fd l k2) = ∅ /\
    k_bad_closes (sys_close_fd l k2) = k_bad_closes k /\ k_interest (sys_close_fd l k2) = ∅ /\
    k_accepted (sys_close_fd l k2) = k_accepted k).
  { intros k2 (E1 & E2 & E3 & E4). rewrite <- Hb, <- Ha, <- E2, <- E4. apply close_only; congruence. }
  destruct (negb (su_setsockopt su)); [by apply Hc|]. destruct (negb (su_bind su)); [by apply Hc|].
  destruct (negb (su_listen su)); [by apply Hc|].
  pose proof (set_nonblocking_same k1) as Hn. destruct (set_nonblocking k1) as [ok k2]. cbn [snd] in Hn.
  destruct ok; cbn [negb]; [|by apply Hc]. destruct Hn as (E1 & E2 & E3 & E4). split_and!; congruence.
Qed.

(** The two own descriptors are closed in the order of the code. *)
Lemma close_both l e k :
  l <> e -> k_open k = {[l; e]} ->
  k_open (sys_close_fd l (sys_close_fd e k)) = ∅ /\
  k_bad_closes (sys_close_fd l (sys_close_fd e k)) = k_bad_closes k.
Proof.
  intros Hne Ho. unfold sys_close_fd. rewrite (decide_True _ _ (P := e ∈ k_open k)) by (rewrite Ho; set_solver).
  cbn [k_open k_bad_closes k_interest k_accepted k_answers]. rewrite decide_True by (rewrite Ho; set_solver).
  split; [|done]. cbn. rewrite Ho. apply leibniz_equiv_iff. set_solver.
Qed.

Lemma add_fd_spec fd events k :
  let '(ok, k') := add_fd fd events k in
  k_open k' = k_open k /\ k_bad_closes k' = k_bad_closes k /\ k_accepted k' = k_accepted k /\
  k_interest k' = (if ok : bool then <[fd := events]> (k_interest k) else k_interest k).
Proof.
  unfold add_fd. pose proof (sys_control_same k) as Hk. destruct (sys_control k) as [[] k1];
    destruct Hk as (E1 & E2 & E3 & E4); cbn in *; by rewrite E1, E2, E3, E4.
Qed.

Lemma new_worker_inv id l e k s :
  l <> e -> k_open k = {[l; e]} -> k_bad_closes k = [] -> 0 <= k_accepted k <= u64_max - 1 ->
  k_interest k = <[l := EPOLLIN]> (<[e := EPOLLIN]> ∅) ->
  accepted_tasks s = [] -> metric_calls s = [] ->
  loop_inv l e (Some l, new_worker id e k s).
Proof.
  intros Hne Ho Hb Ha Hi Ht Hc. split; try done; [|by left]. cbn. unfold worker_inv, pending_keys. cbn.
  rewrite Ht, Hc. split; cbn; try done.
  - rewrite Ho. by rewrite dom_empty_L, union_empty_l_L.
  - intros fd Hs. rewrite Hi in Hs. rewrite Ho. destruct (decide (l = fd)) as [->|]; [set_solver|].
    destruct (decide (e = fd)) as [->|]; [set_solver|]. rewrite !lookup_insert_ne, lookup_empty in Hs by done.
    by destruct Hs.
  - intros fd g Hin. by apply elem_of_nil in Hin.
  - lia.
Qed.

(** *** What clients see of the setup *)

Lemma sys_control_trace k : k_trace (sys_control k).2 = k_trace k.
Proof. unfold sys_control. by destruct (next_bool _). Qed.

Lemma set_nonblocking_trace k : k_trace (set_nonblocking k).2 = k_trace k.
Proof. unfold set_nonblocking. destruct (next_bool _) as [[] l]; [by destruct (next_bool l)|done]. Qed.

Lemma add_fd_trace fd events k : k_trace (add_fd fd events k).2 = k_trace k.
Proof. unfold add_fd. pose proof (sys_control_trace k) as H. by destruct (sys_control k) as [[] k1]. Qed.

Lemma modify_fd_trace fd events k : k_trace (modify_fd fd events k).2 = k_trace k.
Proof.
  unfold modify_fd. pose proof (sys_control_trace k) as H. destruct (sys_control k) as [[] k1]; by destruct (_ !! fd).
Qed.

(** The kernel only closes, as far as clients see. *)
Definition is_close (e : net_event) : Prop := match e with NClosed _ => True | _ => False end.
Definition only_closes (k k' : kernel) : Prop := exists l, k_trace k' = k_trace k ++ l /\ Forall is_close l.

#[export] Instance only_closes_preorder : PreOrder only_closes.
Proof.
  split.
  - intros k. exists []. by rewrite app_nil_r.
  - intros k1 k2 k3 (l1 & E1 & F1) (l2 & E2 & F2). exists (l1 ++ l2). split; [by rewrite E2, E1, (assoc_L (++))|].
    by apply Forall_app.
Qed.

Lemma quiet_closes k k' : k_trace k' = k_trace k -> only_closes k k'.
Proof. intros E. exists []. by rewrite app_nil_r. Qed.

Lemma sys_close_closes fd k k' : only_closes k k' -> only_closes k (sys_close_fd fd k').
Proof.
  intros H. etrans; [exact H|]. unfold sys_close_fd. destruct (decide _); [|by apply quiet_closes].
  exists [NClosed fd]. by split; [|constructor].
Qed.

Lemma sys_new_fd_closes fd k : only_closes k (sys_new_fd fd k).2.
Proof. unfold sys_new_fd. destruct fd as [fd|]; [|done]. destruct (_ && _); by apply quiet_closes. Qed.

Lemma create_listener_closes su k : only_closes k (create_reuseport_listener su k).2.
Proof.
  unfold create_reuseport_listener. pose proof (sys_new_fd_closes (su_listener su) k) as H.
  destruct (sys_new_fd _ k) as [[fd|] k1]; [|done]. cbn [snd] in H.
  destruct (negb _); [by apply sys_close_closes|]. destruct (negb _); [by apply sys_close_closes|].
  destruct (negb _); [by apply sys_close_closes|]. pose proof (set_nonblocking_trace k1) as Hn.
  destruct (set_nonblocking k1) as [ok k2]. apply quiet_closes in Hn.
  destruct (negb ok); [apply sys_close_closes|]; by etrans.
Qed.

(** The worker never started: it closed what it had opened. *)
Definition not_started (r : bool * worker) : Prop :=
  r.1 = true /\ connections r.2 = ∅ /\ k_open (kern r.2) = ∅ /\ k_bad_closes (kern r.2) = [] /\
  worker_failed (shared_state r.2) = true /\ pending_keys [] r.2 = [] /\ metric_calls (shared_state r.2) = [].

Lemma not_started_intro id e k s :
  k_open k = ∅ -> k_bad_closes k = [] -> accepted_tasks s = [] -> metric_calls s = [] ->
  not_started (true, fail_worker (new_worker id e k s)).
Proof. intros Ho Hb Ht Hc. unfold not_started, pending_keys. cbn. by rewrite Ht, Hc. Qed.

(** Whether the worker started, and from where its loop ran: a new worker whose
    kernel has only closed descriptors, as far as clients see. *)
Lemma worker_loop_setup id su k s :
  fresh k s ->
  (exists e k', let w := fail_worker (new_worker id e k' s) in
    not_started (true, w) /\ only_closes k k' /\ forall ws, worker_loop id su ws k s = (true, w)) \/
  exists l e k', su_listener su = Some l /\ loop_inv l e (Some l, new_worker id e k' s) /\ only_closes k k' /\
    forall ws, worker_loop id su ws k s =
      match run_worker true ws (Some l, new_worker id e k' s) with
      | (None, s1) => (false, s1.2)
      | (Some completed, s1) => (true, finish_worker completed s1)
      end.
Proof.
  intros [F1 F2 F3 F4 _ F5 _ F6]. unfold worker_loop.
  pose proof (create_reuseport_listener_spec su k F1 F2) as Hl. pose proof (create_listener_closes su k) as C1.
  destruct (create_reuseport_listener su k) as [[l|] k1]; destruct Hl as (Ho & Hb & Hi & Ha); cbn [snd] in C1.
  2:{ left. exists (-1), k1. split_and!; [apply not_started_intro; congruence|done|done]. }
  destruct Ho as [Hl Ho].
  pose proof (sys_new_fd_spec (su_eventfd su) k1) as He. pose proof (sys_new_fd_closes (su_eventfd su) k1) as C2.
  destruct (sys_new_fd (su_eventfd su) k1) as [[e|] k2]; destruct He as (Hn & Hb2 & Hi2 & Ha2); rewrite Ho in Hn;
    cbn [snd] in C2; assert (C : only_closes k k2) by (by etrans); clear C1 C2.
  2:{ left. destruct (close_only l k2) as (C1 & C2 & _); [congruence..|].
      exists (-1), (sys_close_fd l k2). split_and!; [apply not_started_intro; congruence|by apply sys_close_closes|done]. }
  destruct Hn as (_ & Hne & Ho2). assert (l <> e) by set_solver.
  assert (Ho2' : k_open k2 = {[l; e]}) by (rewrite Ho2; apply leibniz_equiv_iff; set_solver).
  assert (Hfail : forall (run : waits -> bool * worker) k3,
    k_open k3 = k_open k2 -> k_bad_closes k3 = k_bad_closes k2 -> only_closes k k3 ->
    (forall ws, run ws = (true, fail_worker (new_worker id e (sys_close_fd l (sys_close_fd e k3)) s))) ->
    exists e k', let w := fail_worker (new_worker id e k' s) in
      not_started (true, w) /\ only_closes k k' /\ forall ws, run ws = (true, w)).
  { intros run k3 E1 E2 C3 E3. destruct (close_both l e k3) as [C4 C5]; [done|congruence|].
    exists e, (sys_close_fd l (sys_close_fd e k3)).
    split_and!; [apply not_started_intro; congruence|by do 2 apply sys_close_closes|exact E3]. }
  pose proof (add_fd_spec e EPOLLIN k2) as H3. pose proof (add_fd_trace e EPOLLIN k2) as T3.
  destruct (add_fd e EPOLLIN k2) as [ok k3]. cbn [snd] in T3. apply quiet_closes in T3.
  destruct H3 as (O3 & B3 & A3 & I3). assert (C3 : only_closes k k3) by (by etrans).
  destruct (su_epoll su); cbn [andb negb]; [|left; by apply (Hfail _ k3)]. destruct ok; cbn [negb]; [|left; by apply (Hfail _ k3)].
  pose proof (add_fd_spec l EPOLLIN k3) as H4. pose proof (add_fd_trace l EPOLLIN k3) as T4.
  destruct (add_fd l EPOLLIN k3) as [ok k4]. cbn [snd] in T4. apply quiet_closes in T4.
  destruct H4 as (O4 & B4 & A4 & I4). assert (C4 : only_closes k k4) by (by etrans).
  destruct ok; cbn [negb]; [|left; apply (Hfail _ k4); [congruence..|done|done]].
  right. exists l, e, k4. split_and!; [done| |done|by intros ws; destruct (run_worker _ _ _) as [[] ?]].
  apply new_worker_inv; [done|congruence|congruence| |congruence|done|done]. rewrite A4, A3, Ha2, Ha. done.
Qed.

Lemma worker_loop_start id su ws k s :
  fresh k s ->
  (not_started (worker_loop id su ws k s) /\
   exists e k', worker_loop id su ws k s = (true, fail_worker (new_worker id e k' s)) /\ only_closes k k') \/
  exists l e k' r s1, su_listener su = Some l /\ loop_inv l e (Some l, new_worker id e k' s) /\ only_closes k k' /\
    run_worker true ws (Some l, new_worker id e k' s) = (r, s1) /\
    worker_loop id su ws k s = match r with
                               | None => (false, s1.2)
                               | Some completed => (true, finish_worker completed s1)
                               end.
Proof.
  intros Hf. destruct (worker_loop_setup id su k s Hf) as [(e & k' & Hn & Hc & H)|(l & e & k' & Hl & Hi & Hc & H)]; rewrite H.
  - left. split; [done|]. by exists e, k'.
  - right. destruct (run_worker true ws (Some l, new_worker id e k' s)) as [r s1] eqn:Hr.
    exists l, e, k', r, s1. split_and!; [done..|by destruct r].
Qed.

Lemma worker_loop_cases id su ws k s :
  fresh k s ->
  not_started (worker_loop id su ws k s) \/
  exists l e s0 r s1, su_listener su = Some l /\ loop_inv l e s0 /\ run_worker true ws s0 = (r, s1) /\
    worker_loop id su ws k s = match r with
                               | None => (false, s1.2)
                               | Some completed => (true, finish_worker completed s1)
                               end.
Proof.
  intros Hf. destruct (worker_loop_start id su ws k s Hf) as [[? _]|(l & e & k' & r & s1 & Hl & Hi & _ & H)]; [by left|].
  right. eexists l, e, _, r, s1. eauto.
Qed.

(** ** Leaving the loop *)

(** The listener variable that [begin_drain] left behind. *)
Definition stale (l : Z) (s : loop_worker) : bool := draining (loop_state s.2) && bool_decide (s.1 = Some l).

Lemma finish_worker_spec l e completed s :
  loop_inv l e s -> connections s.2 = ∅ ->
  let w := finish_worker completed s in
  k_open (kern w) = ∅ /\ connections w = ∅ /\ k_bad_closes (kern w) = (if stale l s then [l] else []) /\
  pending_keys [] w = pending_keys [] s.2 /\
  metric_calls (shared_state w) = metric_calls (shared_state s.2).
Proof.
  intros [H1 H2 H3 H4] Hnone. destruct s as [listener w0]. cbn [fst snd] in *. unfold finish_worker.
  set (w1 := if negb completed then _ else w0).
  assert (E : kern w1 = kern w0 /\ connections w1 = connections w0 /\ loop_state w1 = loop_state w0 /\
    pending_keys [] w1 = pending_keys [] w0 /\
    metric_calls (shared_state w1) = metric_calls (shared_state w0)).
  { unfold w1. destruct completed; [done|]. cbn [negb].
    unfold load_shutdown. destruct (shutdown_requested _) eqn:?; cbn; [done|].
    by destruct (signal (shared_state w0)) as [[]|]. }
  destruct E as (E1 & E2 & E3 & E4 & E5). clearbody w1. rewrite Hnone in E2.
  pose proof (in_open _ _ _ _ _ _ _ H3) as Ho. pose proof (in_closes _ _ _ _ _ _ _ H3) as Hb.
  rewrite Hnone, dom_empty_L, union_empty_l_L in Ho. unfold stale. cbn [fst snd].
  assert (Hend : forall k, k_open k = {[e]} ->
    k_open (sys_close_fd e k) = ∅ /\ k_bad_closes (sys_close_fd e k) = k_bad_closes k).
  { intros k Hk. unfold sys_close_fd. rewrite decide_True by set_solver. split; [|done].
    cbn. rewrite Hk. apply leibniz_equiv_iff. set_solver. }
  destruct (draining (loop_state w0)), H4 as [->|[-> Hdr]]; try done; cbn [own_fds] in Ho;
    cbn [andb kern set_kern connections shared_state loop_state]; rewrite E3, H2, E1, ?E2, ?E5.
  - rewrite bool_decide_eq_true_2 by done. unfold sys_close_fd at 2 4. rewrite decide_False by set_solver.
    destruct (Hend (mkKernel (k_open (kern w0)) (k_bad_closes (kern w0) ++ [l]) (k_interest (kern w0))
      (k_accepted (kern w0)) (k_trace (kern w0)) (k_answers (kern w0)))) as [C1 C2]; [done|].
    rewrite C1, C2. cbn. rewrite Hb. split_and!; try done.
  - rewrite bool_decide_eq_false_2 by done. destruct (Hend (kern w0) Ho) as [C1 C2].
    rewrite C1, C2. split_and!; try done.
  - unfold sys_close_fd at 2 4. rewrite decide_True by set_solver.
    destruct (Hend (mkKernel (k_open (kern w0) ∖ {[l]}) (k_bad_closes (kern w0)) (delete l (k_interest (kern w0)))
      (k_accepted (kern w0)) (k_trace (kern w0 ) ++ [NClosed l]) (k_answers (kern w0)))) as [C1 C2].
    { cbn. rewrite Ho. apply leibniz_equiv_iff. set_solver. }
    rewrite C1, C2. split_and!; try done.
Qed.
