(* ===== verification/WorkerDrain.v ===== *)
(** * WorkerDrain: what a flush sends, and draining

    The bytes a flush leaves, and that a draining worker whose clients take their
    bytes closes every connection. *)
From stdpp Require Import base gmap list numbers strings.
From Stdlib Require Import Strings.Byte.
From S2P Require Import Prelude Text Double Os HttpParser RateLimiter Router Metrics MetricsTheorems.
From S2P Require Import Sockets EpollLoop TcpServer Protocol WorkerInv WorkerSteps WorkerLoop.

Local Open Scope Z_scope.

(** ** What a flush leaves *)

Lemma unsent_length c : length (unsent c) = pending_bytes c.
Proof. unfold unsent, pending_bytes. by rewrite length_drop. Qed.

Lemma close_client_connections fd w : connections (close_client fd w) = delete fd (connections w).
Proof.
  unfold close_client, cm_get, cm_remove. cbn. destruct (connections w !! fd) eqn:E; [done|].
  cbn. by rewrite delete_id.
Qed.

Lemma modify_or_close_connections fd events w :
  connections (modify_or_close fd events w).2 = connections w \/
  connections (modify_or_close fd events w).2 = delete fd (connections w).
Proof.
  unfold modify_or_close. destruct (modify_fd _ _ _) as [[] k]; [by left|right]. exact (close_client_connections fd (set_kern k w)).
Qed.

(** At most the bytes queued for [fd] change, from the front. *)
Definition sends_of (fd : Z) (m m' : ConnectionManager) : Prop :=
  (forall fd', fd' <> fd -> m' !! fd' = m !! fd') /\
  forall c', m' !! fd = Some c' ->
    exists c n, m !! fd = Some c /\ unsent c' = drop n (unsent c) /\
      generation c' = generation c /\ request_in_flight c' = request_in_flight c.

Lemma only_sends fd c (m m' : ConnectionManager) :
  m !! fd = Some c ->
  (exists c1 n, unsent c1 = drop n (unsent c) /\ generation c1 = generation c /\
     request_in_flight c1 = request_in_flight c /\ (m' = <[fd := c1]> m \/ m' = delete fd m)) ->
  sends_of fd m m'.
Proof.
  intros Hc (c1 & n & H1 & H2 & H3 & [-> | ->]); split; intros x; rewrite ?lookup_insert_eq, ?lookup_delete_eq.
  - intros Hne. by rewrite lookup_insert_ne.
  - intros [= <-]. eauto 10.
  - intros Hne. by rewrite lookup_delete_ne.
  - done.
Qed.

(** A flush sends a prefix of what is queued and touches no other client. *)
Lemma flush_client_unsent fd w :
  (forall c, connections w !! fd = Some c -> (outbound_offset c <= length (outbound c))%nat) ->
  sends_of fd (connections w) (connections (flush_client fd w).2).
Proof.
  intros Hoff. unfold flush_client, cm_get. destruct (connections w !! fd) as [c|] eqn:Hc.
  2:{ split; [done|]. cbn. congruence. }
  pose proof (send_loop_spec (an_sends (k_answers (kern w))) (length (outbound c)) (outbound_offset c)
    (Hoff c eq_refl)) as Hs.
  destruct (send_loop _ _ _) as [[sends result] offset]. destruct Hs as [Hs Hall].
  set (w1 := update_connection fd (set_outbound_offset offset) (set_kern (with_sends sends _) w)).
  assert (E1 : connections w1 = <[fd := set_outbound_offset offset c]> (connections w))
    by exact (alter_Some_insert (set_outbound_offset offset) fd c (connections w) Hc).
  assert (U1 : unsent (set_outbound_offset offset c) = drop (offset - outbound_offset c) (unsent c)).
  { unfold unsent. cbn. rewrite drop_drop. f_equal. lia. }
  destruct result.
  - set (c2 := set_outbound_offset 0 (set_outbound [] (set_outbound_offset offset c))).
    set (w2 := update_connection fd _ w1).
    assert (E2 : connections w2 = <[fd := c2]> (connections w)).
    { change (connections w2) with (alter (fun c => set_outbound_offset 0 (set_outbound [] c)) fd (connections w1)).
      rewrite E1, (alter_Some_insert _ fd (set_outbound_offset offset c)) by apply lookup_insert_eq.
      apply insert_insert_eq. }
    assert (U2 : unsent c2 = drop (offset - outbound_offset c) (unsent c)).
    { rewrite <- U1, Hall by done. unfold unsent. cbn. by rewrite drop_all. }
    eapply (only_sends fd c); [done|]. exists c2, (offset - outbound_offset c)%nat. split_and!; [done..|].
    destruct (peer_closed c); cbn [snd].
    + right. by rewrite close_client_connections, E2, delete_insert_eq.
    + destruct (modify_or_close_connections fd (Z.lor EPOLLIN EPOLLRDHUP) w2) as [->| ->]; [by left|right].
      by rewrite E2, delete_insert_eq.
  - eapply (only_sends fd c); [done|]. exists (set_outbound_offset offset c), (offset - outbound_offset c)%nat. split_and!; [done..|].
    destruct (modify_or_close_connections fd (Z.lor (Z.lor EPOLLIN EPOLLOUT) EPOLLRDHUP) w1) as [->| ->];
      [by left|right]. by rewrite E1, delete_insert_eq.
  - eapply (only_sends fd c); [done|]. exists (set_outbound_offset offset c), (offset - outbound_offset c)%nat. split_and!; [done..|].
    right. cbn [snd]. by rewrite close_client_connections, E1, delete_insert_eq.
Qed.

(** ** What a completion changes *)

(** A response queued on a client and flushed. *)
Definition answered (fd : Z) (r : bytes) (w : worker) : worker :=
  (flush_client fd (update_connection fd (fun c => set_peer_closed true (set_outbound (outbound c ++ r) c))
     (update_connection fd (set_in_flight false) w))).2.

Lemma answered_spec fd c r w :
  connections w !! fd = Some c -> (outbound_offset c <= length (outbound c))%nat ->
  (forall fd', fd' <> fd -> connections (answered fd r w) !! fd' = connections w !! fd') /\
  match connections (answered fd r w) !! fd with
  | None => True
  | Some c' => request_in_flight c' = false /\ exists n, unsent c' = drop n (unsent c ++ r)
  end.
Proof.
  intros Hc Ho. unfold answered. set (w1 := update_connection fd _ (update_connection fd _ w)).
  set (c1 := set_peer_closed true (set_outbound (outbound c ++ r) (set_in_flight false c))).
  assert (Hc1 : connections w1 !! fd = Some c1) by (cbn; by rewrite !lookup_alter_eq, Hc).
  destruct (flush_client_unsent fd w1) as [Hoth Hown].
  { intros y Hy. rewrite Hc1 in Hy. injection Hy as <-. cbn. rewrite length_app. lia. }
  split.
  - intros fd' Hne. rewrite Hoth by done. cbn. by rewrite !lookup_alter_ne by done.
  - destruct (connections (flush_client fd w1).2 !! fd) as [y|] eqn:Hy; [|done].
    destruct (Hown y eq_refl) as (c0 & n & E0 & Hu & _ & Hfl). rewrite Hc1 in E0. injection E0 as <-.
    split; [exact Hfl|]. exists n. rewrite Hu. f_equal. unfold unsent. cbn. by rewrite drop_app_le.
Qed.

Lemma process_completion_own k c w :
  connections w !! comp_fd k = Some c -> (outbound_offset c <= length (outbound c))%nat ->
  (generation c =? comp_generation k) && request_in_flight c = true ->
  match cm_get (comp_fd k) (connections (process_completion k w)) with
  | None => True
  | Some c' => request_in_flight c' = false /\ exists n, unsent c' = drop n (unsent c ++ serialized_response k)
  end.
Proof.
  intros Hc Ho Hm. unfold process_completion, cm_get. set (w0 := measure _ w).
  change (connections (add_outstanding (-1) ?x)) with (connections x).
  change (connections w) with (connections w0) in Hc. clearbody w0. rewrite Hc, Hm.
  destruct (_ <=? _)%nat.
  - exact (proj2 (answered_spec (comp_fd k) c (serialized_response k) w0 Hc Ho)).
  - by rewrite close_client_connections, lookup_delete_eq.
Qed.

Lemma process_completion_others k fd c w :
  connections w !! fd = Some c ->
  (forall x, connections w !! comp_fd k = Some x -> (outbound_offset x <= length (outbound x))%nat) ->
  (fd = comp_fd k -> (generation c =? comp_generation k) && request_in_flight c = false) ->
  cm_get fd (connections (process_completion k w)) = Some c.
Proof.
  intros Hc Ho Hm. unfold process_completion, cm_get. set (w0 := measure _ w).
  change (connections (add_outstanding (-1) ?x)) with (connections x).
  change (connections w) with (connections w0) in *. clearbody w0.
  destruct (connections w0 !! comp_fd k) as [x|] eqn:Hx; [|done].
  destruct ((generation x =? comp_generation k) && request_in_flight x) eqn:Hmx; [|done].
  assert (Hne : fd <> comp_fd k) by (intros ->; rewrite Hx in Hc; injection Hc as ->; by rewrite Hm in Hmx).
  destruct (_ <=? _)%nat.
  - rewrite <- Hc. exact (proj1 (answered_spec (comp_fd k) x (serialized_response k) w0 Hx (Ho x eq_refl)) fd Hne).
  - rewrite close_client_connections, lookup_delete_ne by done. cbn. by rewrite lookup_alter_ne.
Qed.

(** ** Clients that take their bytes *)

Definition progress (a : send_answer) : Prop := match a with SSent n => (0 < n)%nat | SError _ => False end.

(** The kernel's answers to the sends of an iteration. *)
Definition takes (sends : list send_answer) : list env_change := [EnvAnswers (mkAnswers [] sends [] [] [] [])].

(** As many answers that take bytes as there are bytes left are enough. *)
Lemma send_loop_progress sends size offset :
  Forall progress sends -> (size - offset <= length sends)%nat -> (offset <= size)%nat ->
  exists n, (n <= size - offset)%nat /\ send_loop sends size offset = (drop n sends, AllSent, size).
Proof.
  revert offset. induction sends as [|a sends IH]; intros offset Hp Hl Ho; cbn [send_loop].
  - exists 0%nat. cbn in Hl. assert (offset = size) as -> by lia. rewrite Nat.sub_diag. by split; [lia|].
  - destruct (Nat.eqb_spec (size - offset) 0) as [E|E].
    { exists 0%nat. assert (offset = size) as -> by lia. by split; [lia|]. }
    apply Forall_cons in Hp as [Ha Hp]. destruct a as [b|]; [|done]. cbn in Ha, Hl.
    destruct (Nat.ltb_spec 0 (b `min` (size - offset))) as [_|]; [|lia].
    destruct (IH (offset + b `min` (size - offset))%nat Hp ltac:(lia) ltac:(lia)) as (n & Hn & E').
    exists (S n). split; [lia|]. exact E'.
Qed.

(** The connections and what is queued on them. *)
Definition queued (fds : list Z) (m : ConnectionManager) : nat :=
  sum_list ((fun fd => match m !! fd with Some c => pending_bytes c | None => 0%nat end) <$> fds).

Lemma queued_delete fd fds m : fd ∉ fds -> queued fds (delete fd m) = queued fds m.
Proof.
  intros H. unfold queued. f_equal. apply list_fmap_ext. intros i x Hx.
  rewrite lookup_delete_ne; [done|]. intros ->. apply H. by eapply list_elem_of_lookup_2.
Qed.

(** What draining needs of a worker. *)
Record drainable (w : worker) : Prop := {
  dr_offset fd c : connections w !! fd = Some c -> (outbound_offset c <= length (outbound c))%nat;
  dr_peer fd c : connections w !! fd = Some c -> (0 < pending_bytes c)%nat -> peer_closed c = true;
  dr_flight fd c : connections w !! fd = Some c -> request_in_flight c = false;
  dr_sends : Forall progress (an_sends (k_answers (kern w)))
}.

Lemma drain_connection_closes fd fds w :
  drainable w -> fd ∈ dom (connections w) -> fd ∉ fds ->
  (queued (fd :: fds) (connections w) <= length (an_sends (k_answers (kern w))))%nat ->
  let w' := drain_connection fd w in
  drainable w' /\ connections w' = delete fd (connections w) /\ loop_state w' = loop_state w /\
  (queued fds (connections w') <= length (an_sends (k_answers (kern w'))))%nat.
Proof.
  intros [D1 D2 D3 D4] [c Hc]%elem_of_dom Hni Hq w'.
  assert (Hq' : (pending_bytes c + queued fds (connections w) <= length (an_sends (k_answers (kern w))))%nat).
  { revert Hq. unfold queued. cbn [fmap list_fmap sum_list]. by rewrite Hc. }
  assert (Hsuff : connections w' = delete fd (connections w) -> loop_state w' = loop_state w ->
    (exists n, (n <= pending_bytes c)%nat /\ an_sends (k_answers (kern w')) = drop n (an_sends (k_answers (kern w)))) ->
    drainable w' /\ connections w' = delete fd (connections w) /\ loop_state w' = loop_state w /\
    (queued fds (connections w') <= length (an_sends (k_answers (kern w'))))%nat).
  { intros E El (n & Hn & Es). split_and!; try done.
    - split; rewrite ?E; try (intros fd' c' [_ H]%lookup_delete_Some; eauto). rewrite Es. by apply Forall_drop.
    - rewrite E, Es, queued_delete by done. rewrite length_drop. lia. }
  assert (Hclose : forall w0, connections (close_client fd w0) = delete fd (connections w0) /\
    loop_state (close_client fd w0) = loop_state w0 /\ k_answers (kern (close_client fd w0)) = k_answers (kern w0)).
  { intros w0. split; [apply close_client_connections|]. unfold close_client, sys_close_fd.
    destruct (cm_get _ _); cbn; by destruct (decide _). }
  unfold w' in *. unfold drain_connection, cm_get in *. rewrite Hc, (D3 fd c Hc) in *.
  destruct (Nat.eqb_spec (pending_bytes c) 0) as [E0|E0]; cbn [negb] in *.
  - destruct (Hclose w) as (C1 & C2 & C3). apply Hsuff; [done..|]. exists 0%nat. rewrite C3. split; [lia|done].
  - unfold flush_client, cm_get in *. rewrite Hc in *.
    destruct (send_loop_progress (an_sends (k_answers (kern w))) (length (outbound c)) (outbound_offset c) D4)
      as (n & Hn & Es); [unfold pending_bytes in *; lia|by eapply D1|].
    rewrite Es, (D2 fd c Hc) in * by lia. cbn [snd] in *.
    match goal with H : context [close_client fd ?w1] |- _ => destruct (Hclose w1) as (C1 & C2 & C3) end.
    apply Hsuff.
    + rewrite C1. cbn. by rewrite !delete_alter_eq.
    + by rewrite C2.
    + exists n. rewrite C3. split; [exact Hn|done].
Qed.

Lemma drain_all fds w :
  drainable w -> NoDup fds -> dom (connections w) = list_to_set fds ->
  (queued fds (connections w) <= length (an_sends (k_answers (kern w))))%nat ->
  let w' := foldl (flip drain_connection) w fds in
  connections w' = ∅ /\ loop_state w' = loop_state w.
Proof.
  revert w. induction fds as [|fd fds IH]; intros w Hd Hnd Hdom Hq; cbn [foldl].
  - split; [|done]. by apply dom_empty_inv_L in Hdom.
  - apply NoDup_cons in Hnd as [Hni Hnd]. cbn [list_to_set] in Hdom.
    destruct (drain_connection_closes fd fds w Hd) as (H1 & H2 & H3 & H4); [set_solver|done|done|].
    unfold flip at 2 4. destruct (IH (drain_connection fd w)) as [E1 E2]; [done|done| |done|].
    + rewrite H2, dom_delete_L, Hdom. apply leibniz_equiv_iff. set_solver.
    + by rewrite E2, H3.
Qed.

Lemma drain_connections_empty w :
  drainable w ->
  (queued (cm_file_descriptors (connections w)) (connections w) <= length (an_sends (k_answers (kern w))))%nat ->
  connections (drain_connections w) = ∅ /\ loop_state (drain_connections w) = loop_state w.
Proof.
  intros Hd Hq. apply drain_all; [done| | |done].
  - apply NoDup_fst_map_to_list.
  - apply set_eq. intros fd. unfold cm_file_descriptors.
    rewrite elem_of_list_to_set, list_elem_of_fmap, elem_of_dom. split.
    + intros [c Hc]. exists (fd, c). by rewrite elem_of_map_to_list.
    + intros [[fd' c] [-> Hc%elem_of_map_to_list]]. eauto.
Qed.

(** ** An iteration of a draining worker *)

Lemma on_iteration_drains listener w :
  drainable w -> draining (loop_state w) = true -> completions (loop_state w) = [] ->
  (queued (cm_file_descriptors (connections w)) (connections w) <= length (an_sends (k_answers (kern w))))%nat ->
  connections (on_iteration (listener, w)).2 = ∅ /\
  loop_state (on_iteration (listener, w)).2 = loop_state w.
Proof.
  intros Hd Hdr Hc Hq. unfold on_iteration, process_completions. cbn [fst snd]. rewrite Hc. cbn [foldl].
  set (w1 := measure _ _).
  assert (H1 : loop_state w1 = loop_state w) by (unfold w1; cbn; rewrite <- Hc; by destruct (loop_state w)).
  assert (Hl : forall p, p = load_shutdown w1 -> connections p.2 = connections w /\ kern p.2 = kern w /\
    loop_state p.2 = loop_state w).
  { intros p ->. unfold load_shutdown. rewrite <- H1. destruct (shutdown_requested _); [done|].
    by destruct (signal (shared_state w1)) as [[]|]. }
  specialize (Hl _ eq_refl). destruct (load_shutdown w1) as [stop w2]. cbn [fst snd] in Hl.
  destruct Hl as (C2 & K2 & L2).
  assert (E : (if stop then begin_drain listener w2 else (listener, w2)) = (listener, w2)).
  { destruct stop; [|done]. unfold begin_drain. by rewrite L2, Hdr. }
  rewrite E. cbn [snd]. rewrite L2, Hdr.
  assert (Hd2 : drainable w2) by (destruct Hd; split; rewrite ?C2, ?K2; done).
  destruct (drain_connections_empty w2 Hd2) as [E1 E2]; [by rewrite C2, K2|]. by rewrite E1, E2, L2.
Qed.

(** A worker without pending tasks is drainable. *)
Lemma server_inv_drainable l e listener w :
  server_inv l e listener w -> pending_keys [] w = [] -> Forall progress (an_sends (k_answers (kern w))) ->
  drainable w /\ completions (loop_state w) = [] /\ outstanding_tasks (loop_state w) = 0.
Proof.
  intros [_ _ Hw _] Hp Hs. unfold worker_inv in Hw. rewrite Hp in Hw. destruct Hw as [Hc _ _ _ _ _ _ _ Ho _ _].
  split_and!; [| |by rewrite Ho].
  - split; [..|done]; intros fd c H; destruct (Hc fd c H) as [? ? ? ? ? Hf]; try done.
    destruct (request_in_flight c); [|done]. by apply elem_of_nil in Hf.
  - unfold pending_keys in Hp. apply app_eq_nil in Hp as [_ Hp]. apply app_eq_nil in Hp as [Hp _].
    by apply fmap_nil_inv in Hp.
Qed.

(** ** What is pending *)

Definition pending_of (w : worker) : list Task * list Completion :=
  (accepted_tasks (shared_state w), completions (loop_state w)).

Lemma close_pending fd w : pending_of (close_client fd w) = pending_of w.
Proof. unfold close_client. by destruct (cm_get _ _). Qed.

Lemma modify_or_close_pending fd events w : pending_of (modify_or_close fd events w).2 = pending_of w.
Proof. unfold modify_or_close. destruct (modify_fd _ _ _) as [[] k]; [done|]. cbn [snd]. by rewrite close_pending. Qed.

Lemma flush_pending fd w : pending_of (flush_client fd w).2 = pending_of w.
Proof.
  unfold flush_client. destruct (cm_get fd (connections w)) as [c|]; [|done].
  destruct (send_loop _ _ _) as [[sends []] offset]; [destruct (peer_closed c)|..]; cbn [snd];
    by rewrite ?modify_or_close_pending, ?close_pending.
Qed.

Lemma process_completion_pending k w : pending_of (process_completion k w) = pending_of w.
Proof.
  unfold process_completion. destruct (cm_get _ _) as [c|]; [|done]. destruct (_ && _); [|done].
  change (pending_of (add_outstanding ?d ?x)) with (pending_of x).
  destruct (_ <=? _)%nat; by rewrite ?flush_pending, ?close_pending.
Qed.

Lemma process_completions_pending w : pending_of (process_completions w) = (accepted_tasks (shared_state w), []).
Proof.
  unfold process_completions. set (w1 := measure _ _).
  change (accepted_tasks (shared_state w), []) with (pending_of w1). clearbody w1. revert w1.
  induction (completions (loop_state w)) as [|k ks IH]; intros w1; cbn [foldl]; [done|].
  rewrite IH. apply process_completion_pending.
Qed.

Lemma drain_connections_pending w : pending_of (drain_connections w) = pending_of w.
Proof.
  unfold drain_connections. generalize (cm_file_descriptors (connections w)) as fds. intros fds. revert w.
  induction fds as [|fd fds IH]; intros w; cbn [foldl]; [done|]. rewrite IH. unfold flip, drain_connection.
  destruct (cm_get fd (connections w)) as [c|]; [|done]. destruct (request_in_flight c); [done|].
  destruct (negb _); by rewrite ?flush_pending, ?close_pending.
Qed.

Lemma begin_drain_pending listener w : pending_of (begin_drain listener w).2 = pending_of w.
Proof.
  unfold begin_drain. destruct (draining (loop_state w)); [done|]. destruct listener; cbn [snd]; by rewrite drain_connections_pending.
Qed.

Lemma load_shutdown_requested w :
  shutdown_requested (shared_state w) = true -> load_shutdown w = (true, w).
Proof. intros H. unfold load_shutdown. by rewrite H. Qed.

(** The flag is never cleared while the worker runs. *)
Lemma flush_shutdown fd w : shutdown_requested (shared_state (flush_client fd w).2) = shutdown_requested (shared_state w).
Proof.
  assert (Hclose : forall fd w, shutdown_requested (shared_state (close_client fd w)) = shutdown_requested (shared_state w)).
  { intros fd' w'. unfold close_client. by destruct (cm_get _ _). }
  assert (Hmod : forall fd events w,
    shutdown_requested (shared_state (modify_or_close fd events w).2) = shutdown_requested (shared_state w)).
  { intros fd' events w'. unfold modify_or_close. destruct (modify_fd _ _ _) as [[] k]; [done|]. cbn [snd]. by rewrite Hclose. }
  unfold flush_client. destruct (cm_get fd (connections w)) as [c|]; [|done].
  destruct (send_loop _ _ _) as [[sends []] offset]; [destruct (peer_closed c)|..]; cbn [snd]; by rewrite ?Hmod, ?Hclose.
Qed.

Lemma process_completions_shutdown w :
  shutdown_requested (shared_state (process_completions w)) = shutdown_requested (shared_state w).
Proof.
  unfold process_completions. set (w1 := measure _ _).
  change (shutdown_requested (shared_state w)) with (shutdown_requested (shared_state w1)). clearbody w1. revert w1.
  induction (completions (loop_state w)) as [|k ks IH]; intros w1; cbn [foldl]; [done|].
  rewrite IH. unfold flip, process_completion. destruct (cm_get _ _) as [c|]; [|done]. destruct (_ && _); [|done].
  change (shutdown_requested (shared_state (add_outstanding ?d ?x))) with (shutdown_requested (shared_state x)).
  destruct (_ <=? _)%nat; [by rewrite flush_shutdown|]. unfold close_client. by destruct (cm_get _ _).
Qed.

(** The iteration of a worker that is asked to stop: it drains, and what the pool
    has finished is processed. *)
Lemma on_iteration_stops l e listener w :
  server_inv l e listener w -> shutdown_requested (shared_state w) = true ->
  let s := on_iteration (listener, w) in
  draining (loop_state s.2) = true /\ pending_of s.2 = (accepted_tasks (shared_state w), []).
Proof.
  intros Hinv Hsd s. unfold s, on_iteration. cbn [fst snd].
  pose proof (server_inv_keeps _ _ _ _ _ Hinv (process_completions_keeps _ _ (si_worker _ _ _ _ Hinv))) as H1.
  rewrite load_shutdown_requested by (by rewrite process_completions_shutdown).
  pose proof (begin_drain_inv l e listener _ H1) as Hb. pose proof (begin_drain_pending listener (process_completions w)) as Hp.
  rewrite process_completions_pending in Hp.
  destruct (begin_drain listener (process_completions w)) as [li w']. cbn [snd] in *. destruct Hb as (H2 & Hd & _).
  rewrite Hd, drain_connections_pending. split; [|exact Hp].
  by destruct (drain_connections_keeps _ _ _ (si_worker _ _ _ _ H2)) as [_ (_ & _ & ->)].
Qed.

(** The pool executes every task of the worker, with whatever results. *)
Definition finish_all (rs : list (outcome HttpResponse * double)) : list env_change := (fun r => EnvTask 0 r.1 r.2) <$> rs.

Lemma finish_all_spec rs w :
  length rs = length (accepted_tasks (shared_state w)) ->
  let w' := apply_changes (finish_all rs) w in
  accepted_tasks (shared_state w') = [] /\ shutdown_requested (shared_state w') = shutdown_requested (shared_state w).
Proof.
  unfold finish_all, apply_changes. revert w. induction rs as [|r rs IH]; intros w Hl; cbn [fmap list_fmap foldl].
  - split; [|done]. by apply nil_length_inv.
  - change (flip apply_change w (EnvTask 0 r.1 r.2)) with (finish_task 0 r.1 r.2 w).
    assert (Hw : length rs = length (accepted_tasks (shared_state (finish_task 0 r.1 r.2 w))) /\
      shutdown_requested (shared_state (finish_task 0 r.1 r.2 w)) = shutdown_requested (shared_state w)).
    { unfold finish_task. destruct (accepted_tasks (shared_state w)) as [|t ts] eqn:Ht; [done|].
      cbn in Hl |- *. split; [cbn; lia|done]. }
    destruct Hw as [Hw1 Hw2]. destruct (IH _ Hw1) as [E1 E2]. split; [exact E1|congruence].
Qed.
