(* ===== verification/WorkerRefines.v ===== *)
(** * WorkerRefines: the worker makes only the moves of the protocol

    The view of a worker, and for each operation of TcpServer that what it does to
    the view is a sequence of moves of Protocol. *)
From stdpp Require Import base gmap list numbers strings.
From Stdlib Require Import Strings.Byte.
From S2P Require Import Prelude Text Double Os HttpParser HttpChunks RateLimiter Router Metrics Sockets EpollLoop TcpServer.
From S2P Require Import Protocol ProtocolInv WorkerInv WorkerSteps WorkerLoop WorkerDrain.

Local Open Scope Z_scope.

(** ** The view *)

(** [extra] are the completions a loop still has in hand. *)
Definition view_of (extra : list Completion) (w : worker) : view :=
  mkView (connections w) (k_trace (kern w)) (accepted_tasks (shared_state w)) (extra ++ completions (loop_state w))
         (produced (shared_state w)) (next_generation (loop_state w)).

(** An operation that keeps the invariant and makes moves only; [b] says whether
    it may accept clients. *)
Definition steps (b : bool) (base : gset Z) (extra : list Completion) (w w' : worker) : Prop :=
  worker_inv base extra w' /\ rtc (move b) (view_of extra w) (view_of extra w').

Section Operations.
Context {b : bool}.

Lemma steps_refl base extra w : worker_inv base extra w -> steps b base extra w w.
Proof. by split. Qed.

Lemma steps_trans base extra w1 w2 w3 : steps b base extra w1 w2 -> steps b base extra w2 w3 -> steps b base extra w1 w3.
Proof. intros [_ M1] [I M2]. split; [done|by etrans]. Qed.

Lemma steps_one base extra w w' :
  worker_inv base extra w' -> move b (view_of extra w) (view_of extra w') -> steps b base extra w w'.
Proof. intros. split; [done|by apply rtc_once]. Qed.

Lemma steps_same base extra w w' :
  worker_inv base extra w' -> view_of extra w' = view_of extra w -> steps b base extra w w'.
Proof. intros H E. split; [done|by rewrite E]. Qed.

(** ** The kernel *)

(** A change of the kernel without events. *)
Lemma view_kern extra k w : k_trace k = k_trace (kern w) -> view_of extra (set_kern k w) = view_of extra w.
Proof. intros E. unfold view_of. cbn. by rewrite E. Qed.

Lemma view_load extra w : view_of extra (load_shutdown w).2 = view_of extra w.
Proof. unfold load_shutdown. destruct (shutdown_requested _); [done|]. by destruct (signal _) as [[]|]. Qed.

(** ** Closing and sending *)

Lemma sys_close_trace fd k : fd ∈ k_open k -> k_trace (sys_close_fd fd k) = k_trace k ++ [NClosed fd].
Proof. intros H. unfold sys_close_fd. by rewrite decide_True. Qed.

Lemma close_view extra fd w :
  is_Some (connections w !! fd) -> fd ∈ k_open (kern w) ->
  view_of extra (close_client fd w) = v_with (delete fd (connections w)) [NClosed fd] (view_of extra w).
Proof.
  intros [c Hc] Ho. unfold close_client, cm_get. cbn [connections set_kern]. rewrite Hc.
  unfold view_of, v_with. cbn [kern set_kern measure set_shared set_connections connections shared_state loop_state
    accepted_tasks set_metric_calls produced v_trace v_tasks v_completions v_produced v_next].
  by rewrite sys_close_trace by done.
Qed.

Lemma inv_owns base extra fd w : worker_inv base extra w -> fd ∈ dom (connections w) -> fd ∈ k_open (kern w).
Proof. intros Hi Hd. rewrite (in_open _ _ _ _ _ _ _ Hi). set_solver. Qed.

(** What closing and sending need of the worker. *)
Definition sendable (fd : Z) (w : worker) : Prop :=
  fd ∈ k_open (kern w) /\
  exists c, connections w !! fd = Some c /\ (outbound_offset c <= length (outbound c))%nat.

Lemma inv_sendable base extra fd c w :
  worker_inv base extra w -> connections w !! fd = Some c -> sendable fd w.
Proof.
  intros Hi Hc. split; [apply (inv_owns base extra fd w Hi); by apply elem_of_dom|].
  exists c. split; [done|]. apply (in_conn _ _ _ _ _ _ _ Hi fd c Hc).
Qed.

Lemma close_moves extra fd w : sendable fd w -> rtc (move b) (view_of extra w) (view_of extra (close_client fd w)).
Proof.
  intros (Ho & c & Hc & _). apply rtc_once. rewrite close_view by eauto. by apply (mv_close b (view_of extra w) fd c).
Qed.

Lemma modify_or_close_moves extra fd events w :
  sendable fd w -> rtc (move b) (view_of extra w) (view_of extra (modify_or_close fd events w).2).
Proof.
  intros (Ho & c & Hc & Hoff). unfold modify_or_close. pose proof (modify_fd_trace fd events (kern w)) as Ht.
  pose proof (modify_fd_spec fd events (kern w)) as Hk. destruct (modify_fd fd events (kern w)) as [ok k].
  cbn [snd] in Ht. destruct Hk as (Eo & _). rewrite <- (view_kern extra k w Ht).
  destruct ok; [done|]. apply close_moves. split; [by cbn; rewrite Eo|by exists c].
Qed.

(** The view after a change of one connection. *)
Lemma view_update extra fd f c w :
  connections w !! fd = Some c -> view_of extra (update_connection fd f w) = v_set fd (f c) (view_of extra w).
Proof.
  intros Hc. unfold view_of, v_set, v_with, update_connection. cbn. rewrite app_nil_r. f_equal. by apply alter_Some_insert.
Qed.

Lemma flush_moves extra fd w :
  sendable fd w -> rtc (move b) (view_of extra w) (view_of extra (flush_client fd w).2).
Proof.
  intros (Ho & c & Hc & C2). unfold flush_client, cm_get. rewrite Hc.
  pose proof (send_loop_spec (an_sends (k_answers (kern w))) (length (outbound c)) (outbound_offset c) C2) as Hs.
  destruct (send_loop _ _ _) as [[sends result] offset]. destruct Hs as [Hoff Hall].
  set (w1 := set_kern (with_sends sends _) w).
  set (w2 := update_connection fd (set_outbound_offset offset) w1).
  assert (M2 : move b (view_of extra w) (view_of extra w2)).
  { pose proof (mv_send b (view_of extra w) fd c (offset - outbound_offset c) Hc) as Hm.
    unfold w2. rewrite (view_update extra fd _ c w1) by done.
    replace (outbound_offset c + (offset - outbound_offset c))%nat with offset in Hm by lia.
    unfold v_set, v_with in *. cbn [view_of v_conns v_trace v_tasks v_completions v_produced v_next w1 set_kern
      connections kern loop_state shared_state with_sends set_answers k_trace sys_sent traced] in *.
    rewrite app_nil_r. apply Hm. unfold pending_bytes. lia. }
  assert (Hc2 : connections w2 !! fd = Some (set_outbound_offset offset c)) by (cbn; by rewrite lookup_alter_eq, Hc).
  assert (Hs2 : sendable fd w2) by (split; [exact Ho|eexists; split; [exact Hc2|cbn; lia]]).
  clearbody w2. eapply rtc_l; [exact M2|]. destruct result; [|by apply modify_or_close_moves|by apply close_moves].
  set (w3 := update_connection fd _ w2).
  assert (M3 : move b (view_of extra w2) (view_of extra w3)).
  { unfold w3. rewrite (view_update extra fd _ _ _ Hc2). apply mv_clear; [done|].
    unfold pending_bytes. cbn. rewrite Hall by done. lia. }
  assert (Hs3 : sendable fd w3).
  { split; [apply Hs2|]. eexists. cbn. rewrite lookup_alter_eq, Hc2. split; [reflexivity|done]. }
  eapply rtc_l; [exact M3|]. destruct (peer_closed c); [by apply close_moves|by apply modify_or_close_moves].
Qed.

Lemma close_steps base extra fd w :
  fd ∈ dom (connections w) -> worker_inv base extra w -> steps b base extra w (close_client fd w).
Proof.
  intros Hd Hi. split; [by apply (good_close _ _ fd)|]. apply elem_of_dom in Hd as [c Hc].
  by eapply close_moves, inv_sendable.
Qed.

Lemma flush_steps base extra fd w : worker_inv base extra w -> steps b base extra w (flush_client fd w).2.
Proof.
  intros Hi. split; [by apply (flush_client_good _ _ fd)|]. destruct (connections w !! fd) as [c|] eqn:Hc.
  - by eapply flush_moves, inv_sendable.
  - unfold flush_client, cm_get. by rewrite Hc.
Qed.

(** ** Requests *)

(** A change of the kernel's answers. *)
Lemma answers_steps base extra k w :
  same_fds (kern w) k -> k_trace k = k_trace (kern w) -> worker_inv base extra w -> steps b base extra w (set_kern k w).
Proof. intros Hf Ht Hi. apply steps_same; [by apply (keeps_kernel base extra w k)|by apply view_kern]. Qed.


Lemma submit_view extra t w :
  let '(accepted, w') := submit_task t w in
  view_of extra w' = v_set_tasks (accepted_tasks (shared_state w) ++ if accepted : bool then [t] else []) (view_of extra w).
Proof.
  unfold submit_task, next_submit. destruct (next_bool _) as [ok l]. destruct (ok && _); [done|].
  unfold view_of, v_set_tasks. cbn. by rewrite app_nil_r.
Qed.

Lemma v_with_twice m1 m2 e1 e2 v : v_with m2 e2 (v_with m1 e1 v) = v_with m2 (e1 ++ e2) v.
Proof. unfold v_with. cbn. by rewrite (assoc_L (++)). Qed.

Lemma v_set_twice fd c1 c2 v : v_set fd c2 (v_set fd c1 v) = v_set fd c2 v.
Proof. unfold v_set. rewrite v_with_twice. f_equal. apply insert_insert_eq. Qed.

Lemma v_set_tasks_same v : v_set_tasks (v_tasks v) v = v.
Proof. by destruct v. Qed.

(** A refused request: its connection gets the 503 response. *)
Lemma refuse_view extra fd c w w3 :
  connections w !! fd = Some c -> connections w3 !! fd = Some (set_in_flight true c) ->
  view_of extra w3 = v_set fd (set_in_flight true c) (view_of extra w) ->
  view_of extra (update_connection fd (fun c => set_peer_closed true
      (set_outbound (outbound c ++ response_to_string overloaded) (set_in_flight false c))) w3) =
    v_set fd (queue_response (response_to_string overloaded) (set_in_flight false c)) (view_of extra w).
Proof.
  intros Hc Hc3 V3. rewrite (view_update extra fd _ _ _ Hc3), V3.
  apply v_set_twice.
Qed.

Lemma dispatch_request_steps base extra fd c w :
  connections w !! fd = Some c -> complete (parser c) = true -> worker_inv base extra w ->
  steps b base extra w (dispatch_request fd c w).2.
Proof.
  intros Hc Hp Hi. split; [apply (dispatch_request_keeps base extra fd c w Hc Hi)|].
  destruct (inv_sendable base extra fd c w Hi Hc) as (Ho & c' & Hc' & Hoff). rewrite Hc in Hc'. injection Hc' as <-.
  unfold dispatch_request.
  set (w1 := update_connection fd (set_in_flight true) _).
  assert (V1 : view_of extra w1 = v_set fd (set_in_flight true c) (view_of extra w))
    by exact (view_update extra fd _ c (measure (CStarted (worker_id (loop_state w))) w) Hc).
  assert (Hc1 : connections w1 !! fd = Some (set_in_flight true c)) by (cbn; by rewrite lookup_alter_eq, Hc).
  pose proof (modify_fd_trace fd EPOLLRDHUP (kern w1)) as Ht.
  pose proof (modify_fd_spec fd EPOLLRDHUP (kern w1)) as Hk.
  destruct (modify_fd fd EPOLLRDHUP (kern w1)) as [[] k]; cbn [snd] in Ht; destruct Hk as (Eo & _); cbn [negb].
  2:{ apply rtc_once. cbn [snd]. rewrite close_view; [|cbn [connections set_kern]; eauto|cbn [kern set_kern]; by rewrite Eo].
      rewrite view_kern, V1 by done. unfold v_set. rewrite v_with_twice. cbn [app].
      change (connections (set_kern k w1)) with (alter (set_in_flight true) fd (connections w)). rewrite delete_alter_eq.
      by apply (mv_close b (view_of extra w) fd c). }
  set (w2 := add_outstanding 1 (set_kern k w1)).
  assert (V2 : view_of extra w2 = v_set fd (set_in_flight true c) (view_of extra w))
    by (rewrite <- V1; by apply view_kern).
  pose proof (submit_view extra (task_of fd c) w2) as Hs. pose proof (submit_task_spec (task_of fd c) w2) as Hs'.
  fold (task_of fd c). destruct (submit_task _ _) as [accepted w3]. destruct Hs' as ((Eo3 & _) & E1 & _).
  rewrite V2 in Hs. destruct accepted; cbn [snd].
  - rewrite Hs. apply rtc_once, (mv_dispatch b (view_of extra w) fd c Hc Hp).
  - set (w4 := update_connection fd _ (add_outstanding (-1) w3)).
    assert (V4 : view_of extra w4 =
      v_set fd (queue_response (response_to_string overloaded) (set_in_flight false c)) (view_of extra w)).
    { apply (refuse_view extra fd c w (add_outstanding (-1) w3)); [done|cbn; by rewrite E1|].
      rewrite app_nil_r in Hs. etransitivity; [exact Hs|].
      exact (v_set_tasks_same (v_set fd (set_in_flight true c) (view_of extra w))). }
    eapply rtc_l; [apply (mv_refuse b (view_of extra w) fd c Hc Hp)|]. rewrite <- V4.
    apply (flush_moves extra fd (measure _ w4)). split; [cbn; rewrite Eo3; cbn; by rewrite Eo|].
    eexists. unfold w4. cbn. rewrite E1. cbn. rewrite !lookup_alter_eq, Hc. split; [reflexivity|].
    cbn. rewrite length_app. lia.
Qed.

Lemma reject_request_steps base extra fd c w :
  connections w !! fd = Some c -> error (parser c) <> [] -> worker_inv base extra w ->
  steps b base extra w (reject_request fd c w).2.
Proof.
  intros Hc He Hi. pose proof (reject_request_good base extra fd c w Hc Hi) as (Hi' & _ & _).
  split; [done|]. unfold reject_request. destruct (_ <? _)%nat; cbn [snd].
  - apply (close_moves extra fd (measure CParseError w)). exact (inv_sendable base extra fd c w Hi Hc).
  - apply rtc_once. rewrite (view_update extra fd _ c (measure CParseError w)) by done.
    by apply (mv_reject b (view_of extra w) fd c).
Qed.

(** The bytes of one [read] are fed to the parser. *)
Lemma receive_steps base extra fd c data w :
  connections w !! fd = Some c -> worker_inv base extra w ->
  let p := (feed (inbound c ++ data) (parser c)).2 in
  let c1 := set_inbound [] (set_parser p c) in
  let w1 := update_connection fd (fun _ => c1) (set_kern (sys_received fd data (kern w)) w) in
  steps b base extra w w1 /\ connections w1 !! fd = Some c1.
Proof.
  intros Hc Hi p c1 w1. split; [|cbn; by rewrite lookup_alter_eq, Hc]. apply steps_one.
  - assert (G0 : good_op base extra fd w (set_kern (sys_received fd data (kern w)) w)) by (by apply good_kernel).
    apply (good_update base extra fd); [|by apply elem_of_dom|apply G0]. intros c0 Hc0.
    change (connections w !! fd = Some c0) in Hc0. rewrite Hc in Hc0. injection Hc0 as <-.
    destruct (in_conn _ _ _ _ _ _ _ Hi fd c Hc) as [D1 D2 D3 D4 D5 D6]. split_and!; [done..|]. by split.
  - unfold w1. rewrite (view_update extra fd _ c) by done. unfold v_set.
    change (view_of extra (set_kern (sys_received fd data (kern w)) w))
      with (v_with (connections w) [NReceived fd data] (view_of extra w)).
    rewrite v_with_twice, app_nil_r. by apply (mv_receive b (view_of extra w) fd c data).
Qed.

Lemma read_loop_steps base extra reads fd w :
  fd ∈ dom (connections w) -> worker_inv base extra w -> steps b base extra w (read_loop reads fd w).2.
Proof.
  revert w. induction reads as [|[data|code] reads IH]; intros w Hd Hi; cbn [read_loop]; [by apply steps_refl|..].
  2:{ destruct (code =? EAGAIN); [by apply steps_refl|]. destruct (code =? EINTR); [by apply IH|by apply close_steps]. }
  pose proof Hd as [c Hc]%elem_of_dom. destruct data as [|x data].
  { apply steps_one; [by apply (set_peer_closed_good base extra fd)|]. cbn [snd].
    rewrite (view_update extra fd _ c) by done. by apply mv_peer_closed. }
  unfold cm_get. rewrite Hc. set (piece := take 1024 (x :: data)).
  destruct (receive_steps base extra fd c piece w Hc Hi) as [S1 Hc1].
  pose proof (feed_status (inbound c ++ piece) (parser c)) as Hst.
  destruct (feed _ _) as [status p]. cbn [snd] in S1, Hc1. set (c1 := set_inbound [] (set_parser p c)) in *.
  cbv zeta. set (w1 := update_connection fd (fun _ => c1) _) in *.
  assert (Hd1 : fd ∈ dom (connections w1)) by (apply elem_of_dom; eauto).
  pose proof S1 as [I1 _]. destruct Hst as [Hcomplete Herror]. destruct status.
  - destruct (0 <? _)%nat; (eapply steps_trans; [exact S1|]); [by apply close_steps|by apply IH].
  - pose proof (dispatch_request_steps base extra fd c1 w1 Hc1 (Hcomplete eq_refl) I1) as Sd.
    destruct (dispatch_request fd c1 w1). by eapply steps_trans.
  - pose proof (reject_request_steps base extra fd c1 w1 Hc1 (Herror eq_refl) I1) as Sr.
    destruct (reject_request fd c1 w1). by eapply steps_trans.
Qed.

Lemma handle_client_steps base extra fd w : worker_inv base extra w -> steps b base extra w (handle_client fd w).
Proof.
  intros Hi. unfold handle_client, cm_get. destruct (connections w !! fd) as [c|] eqn:Hc; [|by apply steps_refl].
  assert (Hd : fd ∈ dom (connections w)) by (by apply elem_of_dom).
  pose proof (read_loop_steps base extra (an_reads (k_answers (kern w))) fd w Hd Hi) as S1.
  destruct (read_loop _ fd w) as [[reads after] w1]. cbn [snd] in S1.
  set (w2 := set_kern _ w1). assert (S2 : steps b base extra w w2).
  { eapply steps_trans; [exact S1|]. apply answers_steps; [by split_and!|done|apply S1]. }
  destruct after; [|exact S2]. cbn [negb]. destruct (connections w2 !! fd) as [c2|]; [|exact S2].
  destruct (request_in_flight c2); [exact S2|]. eapply steps_trans; [exact S2|]. apply flush_steps, S2.
Qed.

(** ** Completions *)

(** The completion in hand answers its client, or is discarded. *)
Lemma process_completion_moves base k extra w :
  worker_inv base (k :: extra) w ->
  rtc (move b) (view_of (k :: extra) w) (view_of extra (process_completion k w)).
Proof.
  intros Hi. unfold process_completion. set (w1 := measure _ w).
  assert (H1 : worker_inv base (k :: extra) w1) by (by apply Inv_call).
  change (view_of (k :: extra) w) with (view_of (k :: extra) w1).
  change (view_of extra (add_outstanding (-1) ?x)) with (view_of extra x). clearbody w1.
  assert (Hdis : forall w', rtc (move b) (view_of (k :: extra) w1) (view_of (k :: extra) w') ->
    rtc (move b) (view_of (k :: extra) w1) (view_of extra w')).
  { intros w' H. eapply rtc_r; [exact H|]. by apply (mv_discard b (view_of (k :: extra) w') k (extra ++ completions (loop_state w'))). }
  unfold cm_get. destruct (connections w1 !! comp_fd k) as [c|] eqn:Hc; [|by apply Hdis].
  destruct (inv_sendable _ _ _ _ _ H1 Hc) as (Ho & x & Hx & Hoff). rewrite Hc in Hx. injection Hx as <-.
  destruct (Z.eqb_spec (generation c) (comp_generation k)) as [Hg|]; [|by apply Hdis].
  destruct (request_in_flight c) eqn:Hf; [|by apply Hdis]. cbn [andb].
  set (w2 := update_connection (comp_fd k) (set_in_flight false) w1).
  assert (Hc2 : connections w2 !! comp_fd k = Some (set_in_flight false c)) by (cbn; by rewrite lookup_alter_eq, Hc).
  destruct (_ <=? _)%nat.
  - set (w3 := update_connection (comp_fd k) _ w2).
    eapply rtc_l; [by apply (mv_answer b (view_of (k :: extra) w1) k (extra ++ completions (loop_state w1)) c)|].
    assert (V3 : view_of extra w3 = v_set_completions (extra ++ completions (loop_state w1))
      (v_set (comp_fd k) (queue_response (serialized_response k) (set_in_flight false c)) (view_of (k :: extra) w1))).
    { unfold w3. rewrite (view_update extra _ _ _ _ Hc2). unfold w2. rewrite (view_update extra _ _ _ _ Hc).
      by rewrite v_set_twice. }
    rewrite <- V3. apply flush_moves. split; [exact Ho|]. eexists. unfold w3. cbn [update_connection set_connections connections].
    rewrite lookup_alter_eq, Hc2. split; [reflexivity|]. cbn. rewrite length_app. lia.
  - apply Hdis. apply rtc_once. rewrite close_view; [|eauto|done].
    unfold w2. rewrite (view_update _ _ _ _ _ Hc). unfold v_set. rewrite v_with_twice. cbn [app].
    change (connections (update_connection ?fd ?f w1)) with (alter f fd (connections w1)). rewrite delete_alter_eq.
    by apply (mv_close b (view_of (k :: extra) w1) (comp_fd k) c).
Qed.

Lemma process_completions_steps base w : worker_inv base [] w -> steps b base [] w (process_completions w).
Proof.
  intros Hi. split; [by apply process_completions_keeps|]. unfold process_completions.
  set (w1 := measure _ _). assert (H1 : worker_inv base (completions (loop_state w)) w1).
  { apply Inv_call; [done|done|]. by apply take_completions_inv. }
  assert (V1 : view_of (completions (loop_state w)) w1 = view_of [] w) by (unfold view_of; cbn; by rewrite app_nil_r).
  rewrite <- V1. clearbody w1. clear V1. revert w1 H1.
  induction (completions (loop_state w)) as [|k l IH]; intros w1 H1; cbn [foldl]; [done|].
  etrans; [by apply (process_completion_moves base)|].
  apply IH. by apply process_completion_keeps.
Qed.

(** ** Draining *)

Lemma drain_connection_steps base extra fd w :
  worker_inv base extra w -> steps b base extra w (drain_connection fd w).
Proof.
  intros Hi. unfold drain_connection, cm_get. destruct (connections w !! fd) as [c|] eqn:Hc; [|by apply steps_refl].
  destruct (request_in_flight c); [by apply steps_refl|].
  destruct (pending_bytes c =? 0)%nat; cbn [negb]; [|by apply flush_steps].
  apply close_steps; [by apply elem_of_dom|done].
Qed.

Lemma drain_connections_steps base extra w : worker_inv base extra w -> steps b base extra w (drain_connections w).
Proof.
  unfold drain_connections. generalize (cm_file_descriptors (connections w)) as fds. intros fds. revert w.
  induction fds as [|fd fds IH]; intros w Hi; cbn [foldl]; [by apply steps_refl|].
  pose proof (drain_connection_steps base extra fd w Hi) as S. eapply steps_trans; [exact S|]. apply IH, S.
Qed.

(** ** A client's event *)

Lemma client_event_steps base fd events w :
  worker_inv base [] w -> fd ∈ dom (connections w) ->
  steps b base [] w
    (let w := if has events EPOLLRDHUP then update_connection fd (set_peer_closed true) w else w in
     let w := if has events EPOLLOUT then (flush_client fd w).2 else w in
     match cm_get fd (connections w) with
     | Some c =>
         if negb (request_in_flight c) && peer_closed c && (pending_bytes c =? 0)%nat then close_client fd w else w
     | None => w
     end).
Proof.
  intros Hi Hd. cbv zeta. set (w1 := if has events EPOLLRDHUP then _ else w).
  assert (S1 : steps b base [] w w1).
  { unfold w1. destruct (has events EPOLLRDHUP); [|by apply steps_refl].
    apply steps_one; [by apply (set_peer_closed_good base [] fd)|]. apply elem_of_dom in Hd as [c Hc].
    rewrite (view_update [] fd _ c) by done. by apply mv_peer_closed. }
  clearbody w1. set (w2 := if has events EPOLLOUT then _ else w1).
  assert (S2 : steps b base [] w w2).
  { eapply steps_trans; [exact S1|]. unfold w2. destruct (has events EPOLLOUT); [apply flush_steps|apply steps_refl]; apply S1. }
  clearbody w2. unfold cm_get. destruct (connections w2 !! fd) as [c|] eqn:Hc; [|done].
  destruct (_ && _ && _); [|done]. eapply steps_trans; [exact S2|].
  apply close_steps; [by apply elem_of_dom|apply S2].
Qed.

Lemma client_readable_steps base fd events w :
  worker_inv base [] w -> fd ∈ dom (connections w) ->
  steps b base [] w
    (let w := if has events EPOLLIN then handle_client fd w else w in
     if has events EPOLLIN && bool_decide (cm_get fd (connections w) = None) then w else
     let w := if has events EPOLLRDHUP then update_connection fd (set_peer_closed true) w else w in
     let w := if has events EPOLLOUT then (flush_client fd w).2 else w in
     match cm_get fd (connections w) with
     | Some c =>
         if negb (request_in_flight c) && peer_closed c && (pending_bytes c =? 0)%nat then close_client fd w else w
     | None => w
     end).
Proof.
  intros Hi Hd. destruct (has events EPOLLIN); cbn [andb]; [|by apply client_event_steps].
  pose proof (handle_client_steps base [] fd w Hi) as S. cbv zeta.
  destruct (bool_decide_reflect (cm_get fd (connections (handle_client fd w)) = None)) as [|Hn]; [done|].
  eapply steps_trans; [exact S|]. apply client_event_steps; [apply S|]. apply not_eq_None_Some in Hn. by apply elem_of_dom.
Qed.

End Operations.

(** ** Accepting *)

Lemma acceptable_free base extra fd w :
  acceptable fd (kern w) = true -> worker_inv base extra w ->
  connections w !! fd = None /\ next_generation (loop_state w) < u64_max /\ fd ∉ k_open (kern w).
Proof.
  intros Ha Hi. unfold acceptable in Ha. rewrite !andb_true_iff in Ha. destruct Ha as [[Hf%bool_decide_eq_true _] Hk].
  split_and!; [|destruct (in_next _ _ _ _ _ _ _ Hi); lia|done]. apply not_elem_of_dom. intros Hd.
  by apply Hf, (inv_owns base extra fd w).
Qed.

(** The connection is dropped: the kernel closes it after what could not be done. *)
Lemma drop_steps base extra fd k w :
  acceptable fd (kern w) = true -> worker_inv base extra w -> worker_inv base extra (set_kern (sys_close_fd fd k) w) ->
  k_open k = k_open (opened_fd fd (kern w)) -> k_trace k = k_trace (opened_fd fd (kern w)) ->
  steps true base extra w (set_kern (sys_close_fd fd k) w).
Proof.
  intros Ha Hi Hi' Eo Et. destruct (acceptable_free base extra fd w Ha Hi) as (Hn & _ & _). apply steps_one; [done|].
  pose proof (mv_drop true (view_of extra w) fd eq_refl Hn) as Hm.
  unfold view_of, v_with in *. cbn [connections kern set_kern shared_state loop_state v_conns v_trace v_tasks
    v_completions v_produced v_next] in *.
  rewrite sys_close_trace by (rewrite Eo; cbn; set_solver). rewrite Et. cbn [opened_fd k_trace].
  by rewrite <- (assoc_L (++)).
Qed.

Lemma accept_connection_steps base extra fd ip w :
  acceptable fd (kern w) = true -> worker_inv base extra w -> steps true base extra w (accept_connection fd ip w).
Proof.
  intros Ha Hi. pose proof (accept_connection_keeps base extra fd ip w Ha Hi) as [Hi' _].
  unfold accept_connection in *. destruct ip as [ip|]; [|by apply (drop_steps base extra fd (opened_fd fd (kern w)) w)].
  change (kern (set_kern ?k w)) with k in *.
  pose proof (set_nonblocking_same (opened_fd fd (kern w))) as Hn.
  pose proof (set_nonblocking_trace (opened_fd fd (kern w))) as Tn.
  destruct (set_nonblocking _) as [[] k1]; cbn [snd negb] in *; [|by apply (drop_steps base extra fd k1 w); [..|apply Hn|]].
  pose proof (add_fd_spec fd (Z.lor EPOLLIN EPOLLRDHUP) k1) as Hk.
  pose proof (add_fd_trace fd (Z.lor EPOLLIN EPOLLRDHUP) k1) as Tk.
  destruct (add_fd _ _ k1) as [[] k2]; cbn [snd negb] in *.
  2:{ apply (drop_steps base extra fd k2 w); [done..| |congruence]. destruct Hk as [-> _]. apply Hn. }
  destruct (acceptable_free base extra fd w Ha Hi) as (Hnone & Hlt & _). apply steps_one; [exact Hi'|].
  pose proof (mv_accept true (view_of extra w) fd ip eq_refl Hnone Hlt) as Hm.
  unfold view_of, v_with, v_set_next in *. cbn [measure set_shared set_connections set_loop_state set_kern connections kern
    shared_state loop_state set_next_generation next_generation completions set_metric_calls accepted_tasks produced
    v_conns v_trace v_tasks v_completions v_produced v_next] in *.
  rewrite u64_add_small by (pose proof (in_next _ _ _ _ _ _ _ Hi); width). by rewrite Tk, Tn.
Qed.

Lemma accept_loop_steps base extra accepts w :
  worker_inv base extra w -> steps true base extra w (accept_loop accepts w).2.
Proof.
  revert w. induction accepts as [|a accepts IH]; intros w Hinv; cbn [accept_loop];
    pose proof (load_shutdown_keeps base extra w Hinv) as [Hl _]; pose proof (view_load extra w) as Hv;
    pose proof (steps_same (b := true) base extra w _ Hl Hv) as S; destruct (load_shutdown w) as [[] w1];
    cbn [snd] in *; try done.
  destruct a as [fd ip|code].
  - destruct (acceptable fd (kern w1)) eqn:Ha; [|done].
    pose proof (accept_connection_steps base extra fd ip w1 Ha Hl) as Sa.
    eapply steps_trans; [exact S|]. eapply steps_trans; [exact Sa|]. apply IH, Sa.
  - destruct (code =? EAGAIN); [done|]. destruct (code =? EINTR); [|done].
    eapply steps_trans; [exact S|]. by apply IH.
Qed.

Lemma accept_clients_steps base extra w : worker_inv base extra w -> steps true base extra w (accept_clients w).
Proof.
  intros Hi. unfold accept_clients.
  pose proof (accept_loop_steps base extra (an_accepts (k_answers (kern w))) w Hi) as Hl.
  destruct (accept_loop _ w) as [rest w1]. cbn [snd] in Hl. eapply steps_trans; [exact Hl|].
  apply answers_steps; [by split_and!|done|apply Hl].
Qed.

(** ** The worker between two operations *)

(** Moves of the worker that do not make its listener's descriptor a client: a
    draining worker may close that number a second time. *)
Definition server_moves (l : Z) (w w' : worker) : Prop :=
  rtc (move true) (view_of [] w) (view_of [] w') /\ (connections w !! l = None -> connections w' !! l = None).

#[export] Instance server_moves_preorder l : PreOrder (server_moves l).
Proof. split; [by split|]. intros w1 w2 w3 [M1 N1] [M2 N2]. split; [by etrans|auto]. Qed.

Lemma steps_server l base w w' : steps false base [] w w' -> server_moves l w w'.
Proof. intros [_ M]. split; [by apply moves_any|]. exact (moves_shrink _ _ l M). Qed.

Lemma view_server l w w' : view_of [] w' = view_of [] w -> server_moves l w w'.
Proof. intros E. split; [by rewrite E|]. by injection E as -> _. Qed.

Lemma own_not_client base extra fd w : worker_inv base extra w -> fd ∈ base -> connections w !! fd = None.
Proof. intros Hi Hb. apply not_elem_of_dom. pose proof (in_base _ _ _ _ _ _ _ Hi). set_solver. Qed.

(** A descriptor of the worker's own, or none at all, is closed. *)
Lemma own_close_moves l fd k w :
  connections w !! fd = None -> k_trace k = k_trace (kern w) -> server_moves l w (set_kern (sys_close_fd fd k) w).
Proof.
  intros Hn Et. destruct (decide (fd ∈ k_open k)) as [Ho|Ho].
  - split; [|done]. apply rtc_once. pose proof (mv_own true (view_of [] w) fd Hn) as Hm. unfold view_of, v_with in *.
    cbn [connections kern set_kern shared_state loop_state v_conns v_trace v_tasks v_completions v_produced v_next] in *.
    by rewrite sys_close_trace, Et by done.
  - apply view_server. rewrite view_kern; [done|]. unfold sys_close_fd. by rewrite decide_False.
Qed.

Lemma begin_drain_moves l e listener w :
  server_inv l e listener w -> server_moves l w (begin_drain listener w).2.
Proof.
  intros [H1 H2 H3 H4]. unfold begin_drain. destruct (draining (loop_state w)) eqn:Hd; [done|].
  destruct H4 as [->|[_ ?]]; [|done].
  change (kern (set_shared ?s ?w)) with (kern w). change (kern (set_loop_state ?s ?w)) with (kern w).
  set (w1 := set_kern _ _).
  assert (Hl : connections w !! l = None) by (eapply own_not_client; [exact H3|unfold own_fds; set_solver]).
  assert (Hw : worker_inv ((own_fds l e false) ∖ {[l]}) [] w1).
  { apply Inv_close_own; [unfold own_fds; set_solver|exact H3]. }
  etrans; [exact (own_close_moves l l (remove_fd l (kern w)) w Hl eq_refl)|].
  exact (steps_server l _ _ _ (drain_connections_steps _ _ _ Hw)).
Qed.

Lemma accept_clients_moves l e w :
  worker_inv (own_fds l e false) [] w -> server_moves l w (accept_clients w).
Proof.
  intros Hi. split; [by apply (accept_clients_steps (own_fds l e false))|]. intros _.
  eapply own_not_client; [by apply accept_clients_keeps|]. unfold own_fds. set_solver.
Qed.

(** ** Events *)

Lemma handle_event_moves l e listener fd events w :
  server_inv l e listener w -> server_moves l w (handle_event listener fd events w).
Proof.
  intros Hinv. unfold handle_event.
  pose proof (server_inv_keeps _ _ _ _ _ Hinv (load_shutdown_keeps _ _ _ (si_worker _ _ _ _ Hinv))) as H1.
  pose proof (view_server l _ _ (view_load [] w)) as Hv. destruct (load_shutdown w) as [stop w1]. cbn [snd] in H1, Hv.
  set (p := if stop && _ then begin_drain listener w1 else (listener, w1)).
  assert (Hp : server_moves l w p.2 /\ worker_inv (own_fds l e (draining (loop_state p.2))) [] p.2).
  { unfold p. destruct (stop && _); [|split; [done|apply H1]].
    split; [etrans; [exact Hv|by eapply begin_drain_moves]|].
    pose proof (begin_drain_inv l e listener w1 H1) as Hb. destruct (begin_drain listener w1). apply Hb. }
  destruct p as [listener' w2]. cbn [snd] in Hp. destruct Hp as (M & Hi). clear H1 Hv.
  assert (Hthen : forall base w', steps false base [] w2 w' -> server_moves l w w')
    by (intros base w' S; etrans; [exact M|by eapply steps_server]).
  destruct (fd =? completion_fd (loop_state w2)); [by eapply Hthen, process_completions_steps|].
  destruct (bool_decide (listener' = Some fd)); cbn [negb andb].
  - destruct (draining (loop_state w2)) eqn:Hd; [done|]. destruct (has events (Z.lor EPOLLERR EPOLLHUP)); [done|].
    destruct (has events EPOLLIN); [|done]. etrans; [exact M|by apply (accept_clients_moves l e)].
  - destruct (bool_decide_reflect (cm_get fd (connections w2) = None)) as [Hc|Hc]; [done|].
    assert (Hd : fd ∈ dom (connections w2)) by (by apply elem_of_dom, not_eq_None_Some).
    destruct (has events (Z.lor EPOLLERR EPOLLHUP)); eapply Hthen; [by apply close_steps|by apply client_readable_steps].
Qed.

(** ** Other threads *)

Lemma apply_change_moves l e w : server_moves l w (apply_change e w).
Proof.
  destruct e as [a|n| |i response t]; cbn [apply_change]; try by apply view_server.
  - destruct (shutdown_requested _); [done|by apply view_server].
  - unfold finish_task. destruct (accepted_tasks (shared_state w) !! i) as [task|] eqn:Hi; [|done].
    split; [|done]. apply rtc_once. by apply (mv_finish true (view_of [] w) i task response t).
Qed.

Lemma apply_changes_moves l es w : server_moves l w (apply_changes es w).
Proof.
  unfold apply_changes. revert w. induction es as [|e es IH]; intros w; cbn [foldl]; [done|].
  etrans; [apply apply_change_moves|apply IH].
Qed.

(** ** The loop *)

Lemma on_iteration_moves l e s : loop_inv l e s -> server_moves l s.2 (on_iteration s).2.
Proof.
  intros H. unfold on_iteration.
  pose proof (steps_server l _ _ _ (process_completions_steps _ _ (si_worker _ _ _ _ H))) as M1.
  pose proof (server_inv_keeps _ _ _ _ _ H (process_completions_keeps _ _ (si_worker _ _ _ _ H))) as H1.
  pose proof (server_inv_keeps _ _ _ _ _ H1 (load_shutdown_keeps _ _ _ (si_worker _ _ _ _ H1))) as H2.
  pose proof (view_server l _ _ (view_load [] (process_completions s.2))) as Mv.
  destruct (load_shutdown _) as [stop w]. cbn [snd] in H2, Mv.
  assert (M2 : server_moves l s.2 w) by (by etrans). clear M1 Mv.
  assert (H3 : server_moves l s.2 (if stop then begin_drain s.1 w else (s.1, w)).2 /\
    exists base, worker_inv base [] (if stop then begin_drain s.1 w else (s.1, w)).2).
  { destruct stop; [|split; [done|eexists; apply H2]]. split.
    - etrans; [exact M2|]. by eapply begin_drain_moves.
    - pose proof (begin_drain_inv l e s.1 w H2) as Hb. destruct (begin_drain s.1 w). eexists. apply Hb. }
  destruct (if stop then _ else _) as [listener w']. cbn [snd] in H3 |- *. destruct H3 as (M3 & base & I3).
  destruct (draining (loop_state w')); [|exact M3]. etrans; [exact M3|]. by eapply steps_server, drain_connections_steps.
Qed.

Abbreviation interp := (fun es (s : loop_worker) => (s.1, apply_changes es s.2)).

Lemma handle_events_moves l e events s :
  loop_inv l e s -> server_moves l s.2 (handle_events interp on_event events s).2.
Proof.
  unfold handle_events. revert s. induction events as [|ev events IH]; intros s H; cbn [foldl]; [done|].
  pose proof (changes_inv l e ev.2 s H) as H1. etrans; [apply (apply_changes_moves l ev.2)|].
  etrans; [|apply IH, on_event_inv, H1]. exact (handle_event_moves l e s.1 ev.1.1 ev.1.2 _ H1).
Qed.

Lemma iteration_moves l e events late s :
  loop_inv l e s -> server_moves l s.2 (iteration (fun s => kern s.2) interp on_event on_iteration events late s).2.
Proof.
  intros H. unfold iteration. set (events' := take max_events _).
  pose proof (handle_events_moves l e events' s H) as M1. pose proof (handle_events_inv l e events' s H) as H1.
  set (s1 := handle_events _ _ _ _) in *. pose proof (changes_inv l e late s1 H1) as H2.
  etrans; [exact M1|]. etrans; [exact (apply_changes_moves l late s1.2)|]. exact (on_iteration_moves l e _ H2).
Qed.

Lemma iteration_inv l e events late s :
  loop_inv l e s -> loop_inv l e (iteration (fun s => kern s.2) interp on_event on_iteration events late s).
Proof. intros H. by apply on_iteration_inv, changes_inv, handle_events_inv. Qed.

Lemma run_loop_moves l e ws s :
  loop_inv l e s ->
  server_moves l s.2 (run_loop (fun s => kern s.2) interp on_event on_iteration should_stop ws s).2.2.
Proof.
  revert s. induction ws as [|[es answer] ws IH]; intros s H; cbn [run_loop]; destruct (should_stop s); try done.
  pose proof (changes_inv l e es s H) as H1. pose proof (apply_changes_moves l es s.2) as M1.
  destruct answer as [events late|code].
  - pose proof (iteration_moves l e events late _ H1) as M2. pose proof (iteration_inv l e events late _ H1) as H2.
    cbv zeta. set (s' := iteration _ _ _ _ _ _ _) in *. assert (M : server_moves l s.2 s'.2) by (by etrans).
    destruct (should_stop s'); [exact M|]. etrans; [exact M|by apply IH].
  - destruct (code =? EINTR); [|exact M1]. etrans; [exact M1|by apply (IH _ H1)].
Qed.

(** ** From the setup to the exit *)

Lemma new_worker_moves id e k0 k s :
  fresh k0 s -> only_closes k0 k -> rtc (move true) empty_view (view_of [] (new_worker id e k s)).
Proof.
  intros Hf (l & E & Hl). unfold view_of. cbn. rewrite E, (fr_trace _ _ Hf), (fr_tasks _ _ Hf), (fr_produced _ _ Hf).
  cbn [app]. clear E. induction l as [|ev l IH] using rev_ind; [done|]. apply Forall_app in Hl as [Hl Hev].
  apply Forall_cons in Hev as [Hev _]. destruct ev as [| | |fd]; try done. eapply rtc_r; [by apply IH|].
  by apply (mv_own true (mkView ∅ l [] [] [] 1) fd).
Qed.

Lemma finish_worker_moves l e completed s :
  loop_inv l e s -> connections s.2 !! l = None -> server_moves l s.2 (finish_worker completed s).
Proof.
  intros [H1 H2 H3 H4] Hl. destruct s as [listener w0]. cbn [fst snd] in *. unfold finish_worker.
  set (w1 := if negb completed then _ else w0).
  assert (E : view_of [] w1 = view_of [] w0 /\ connections w1 = connections w0 /\ loop_state w1 = loop_state w0).
  { unfold w1. destruct completed; [done|]. cbn [negb]. unfold load_shutdown.
    destruct (shutdown_requested _) eqn:?; [done|]. by destruct (signal (shared_state w0)) as [[]|]. }
  destruct E as (E1 & E2 & E3). clearbody w1. etrans; [exact (view_server l _ _ E1)|].
  assert (He : connections w0 !! e = None).
  { eapply own_not_client; [exact H3|]. unfold own_fds. destruct (draining _); set_solver. }
  set (w2 := match listener with Some l => _ | None => w1 end).
  assert (M2 : server_moves l w1 w2 /\ connections w2 = connections w1 /\ loop_state w2 = loop_state w1).
  { unfold w2. destruct H4 as [->|[-> _]]; [|done]. split; [|done]. apply own_close_moves; [by rewrite E2|done]. }
  destruct M2 as (M2 & C2 & L2). etrans; [exact M2|]. rewrite L2, E3, H2.
  apply own_close_moves; [by rewrite C2, E2|done].
Qed.

(** The run of a worker is a sequence of moves from the empty view. *)
Lemma worker_loop_moves id su ws k s :
  fresh k s -> rtc (move true) empty_view (view_of [] (worker_loop id su ws k s).2).
Proof.
  intros Hf. destruct (worker_loop_start id su ws k s Hf)
    as [(_ & e & k' & -> & Hk)|(l & e & k' & r & s1 & _ & Hi & Hk & Hw & E)].
  - exact (new_worker_moves id e k k' s Hf Hk).
  - etrans; [exact (new_worker_moves id e k k' s Hf Hk)|].
    pose proof (run_loop_moves l e ws _ Hi) as [M N]. cbn [snd] in M, N. specialize (N eq_refl).
    pose proof (run_worker_inv l e true ws _ Hi) as H1.
    change (run_loop _ _ _ _ _ ws ?x) with (run_worker true ws x) in M, N. rewrite Hw in M, N, H1. cbn [snd] in *.
    rewrite E. destruct r as [completed|]; [|exact M]. etrans; [exact M|].
    by apply (finish_worker_moves l e completed s1 H1).
Qed.
