(* ===== verification/WorkerServe.v ===== *)
(** * WorkerServe: the way of one request through a worker

    A complete request in the pieces that [read] delivers becomes a task of the
    pool; the completion of that task is sent, and the connection closed. *)
From stdpp Require Import base gmap list numbers strings.
From Stdlib Require Import Strings.Byte.
From S2P Require Import Prelude Text Double Os HttpParser HttpChunks RateLimiter Router Metrics Sockets EpollLoop TcpServer.
From S2P Require Import Protocol WorkerInv WorkerSteps WorkerLoop WorkerDrain WorkerRefines.

Local Open Scope Z_scope.

(** ** Reading a request *)

(** The kernel after events on the sockets. *)
Definition trace_more (l : list net_event) (k : kernel) : kernel :=
  mkKernel (k_open k) (k_bad_closes k) (k_interest k) (k_accepted k) (k_trace k ++ l) (k_answers k).

(** A worker that has read: only the parser of the client and the trace change. *)
Definition has_read (fd : Z) (c : Connection) (q : HTTPParser) (used : list bytes) (w : worker) : worker :=
  mkWorker (<[fd := set_parser q c]> (connections w)) (loop_state w) (trace_more (NReceived fd <$> used) (kern w))
           (shared_state w).

Definition piece_ok (p : bytes) : Prop := p <> [] /\ (length p <= 1024)%nat.

Lemma read_loop_complete pieces rest fd c w q :
  connections w !! fd = Some c -> inbound c = [] -> finished (parser c) = false -> Forall piece_ok pieces ->
  feed_all pieces Incomplete (parser c) = (Complete, q) ->
  exists used left, pieces = used ++ left /\
    read_loop ((RBytes <$> pieces) ++ rest) fd w =
    let '(after, w') := dispatch_request fd (set_parser q c) (has_read fd c q used w) in
    ((RBytes <$> left) ++ rest, after, w').
Proof.
  revert c w. induction pieces as [|p pieces IH]; intros c w Hc Hin Hf Hok Hfeed; cbn [feed_all] in Hfeed; [done|].
  apply Forall_cons in Hok as [[Hp Hlen] Hok]. destruct p as [|x p]; [done|].
  cbn [fmap list_fmap app read_loop]. unfold cm_get. rewrite Hc, Hin. cbn [app].
  rewrite take_ge by done. set (piece := x :: p) in *. pose proof (feed_open piece (parser c) Hf) as Ho.
  pose proof (feed_status piece (parser c)) as Hs. destruct (feed piece (parser c)) as [st p1].
  destruct Ho as [Ho1 Ho2], Hs as [Hs1 Hs2].
  assert (Hc1 : set_inbound [] (set_parser p1 c) = set_parser p1 c)
    by (unfold set_inbound, set_parser; cbn; by rewrite Hin).
  rewrite Hc1. set (w1 := update_connection fd _ _).
  assert (E1 : w1 = has_read fd c p1 [piece] w).
  { unfold w1, has_read, update_connection, set_connections, set_kern. cbn. f_equal.
    exact (alter_Some_insert (fun _ => set_parser p1 c) fd c (connections w) Hc). }
  rewrite E1. clear w1 E1. destruct st; cbn [negb].
  - specialize (Ho1 eq_refl). replace (0 <? length (error (parser (set_parser p1 c))))%nat with false.
    2:{ unfold finished in Ho1. apply orb_false_iff in Ho1 as [_ He]. cbn. unfold error.
        destruct (parse_error p1); [done|by cbn in He]. }
    destruct (IH (set_parser p1 c) (has_read fd c p1 [piece] w)) as (used & left & E & Er); try done.
    { apply lookup_insert_eq. }
    exists (piece :: used), left. split; [by rewrite E|]. rewrite Er.
    replace (has_read fd (set_parser p1 c) q used (has_read fd c p1 [piece] w)) with (has_read fd c q (piece :: used) w);
      [done|].
    unfold has_read, trace_more. cbn. by rewrite insert_insert_eq, <- (assoc_L (++)).
  - exists [piece], pieces. split; [done|].
    assert (Hq : q = p1).
    { rewrite <- (feed_all_finished pieces Complete p1), Hfeed; [done|]. unfold finished. by rewrite Hs1. }
    by rewrite Hq.
  - assert (Hfin : finished p1 = true).
    { unfold finished. rewrite bool_decide_eq_false_2 by (by apply Hs2). apply orb_true_r. }
    by rewrite feed_all_failed in Hfeed by auto.
Qed.

(** What the later steps look at, apart from the connections and the tasks. *)
Record same_rest (w w' : worker) : Prop := {
  sr_completions : completions (loop_state w') = completions (loop_state w);
  sr_eventfd : completion_fd (loop_state w') = completion_fd (loop_state w);
  sr_shutdown : shutdown_requested (shared_state w') = shutdown_requested (shared_state w);
  sr_signal : signal (shared_state w') = signal (shared_state w);
  sr_trace : k_trace (kern w') = k_trace (kern w)
}.

Lemma modify_ok fd events k :
  is_Some (k_interest k !! fd) -> an_controls (k_answers k) = [] ->
  exists k', modify_fd fd events k = (true, k') /\ k_trace k' = k_trace k /\
    an_submits (k_answers k') = an_submits (k_answers k).
Proof.
  intros [x Hx] Hc. unfold modify_fd, sys_control. rewrite Hc. cbn [next_bool set_answers k_interest]. rewrite Hx.
  eexists. by split_and!.
Qed.

Lemma submit_ok t w :
  an_submits (k_answers (kern w)) = [] -> pool_stopping (shared_state w) = false ->
  exists w', submit_task t w = (true, w') /\ connections w' = connections w /\
    accepted_tasks (shared_state w') = accepted_tasks (shared_state w) ++ [t] /\ same_rest w w'.
Proof.
  intros Hs Hp. unfold submit_task, next_submit. rewrite Hs. cbn [next_bool shared_state set_kern]. rewrite Hp.
  eexists. by split_and!.
Qed.

(** The request is taken: the client is registered, and the pool accepts. *)
Lemma dispatch_accepted fd c w :
  connections w !! fd = Some c -> is_Some (k_interest (kern w) !! fd) ->
  an_controls (k_answers (kern w)) = [] -> an_submits (k_answers (kern w)) = [] ->
  pool_stopping (shared_state w) = false ->
  let '(after, w') := dispatch_request fd c w in
  after = true /\ connections w' = <[fd := set_in_flight true c]> (connections w) /\
  accepted_tasks (shared_state w') = accepted_tasks (shared_state w) ++ [task_of fd c] /\ same_rest w w'.
Proof.
  intros Hc Hi Hcontrols Hsubmits Hpool. unfold dispatch_request.
  set (w1 := update_connection fd (set_in_flight true) _).
  destruct (modify_ok fd EPOLLRDHUP (kern w1) Hi Hcontrols) as (k & -> & Et & Es). cbn [negb].
  apply (fun E => eq_trans E Hsubmits) in Es. destruct (submit_ok (task_of fd c) (add_outstanding 1 (set_kern k w1)) Es Hpool)
    as (w' & E & E1 & E2 & [R1 R2 R3 R4 R5]).
  fold (task_of fd c). rewrite E. split_and!; [done| |exact E2|].
  - rewrite E1. by apply alter_Some_insert.
  - split; [exact R1|exact R2|exact R3|exact R4|]. by rewrite R5.
Qed.

(** ** Answering *)

(** A flush of a connection that closes when its queue is empty, the client taking
    its bytes. *)
Lemma flush_delivers fd c w :
  connections w !! fd = Some c -> (outbound_offset c <= length (outbound c))%nat -> peer_closed c = true ->
  fd ∈ k_open (kern w) -> Forall progress (an_sends (k_answers (kern w))) ->
  (pending_bytes c <= length (an_sends (k_answers (kern w))))%nat ->
  let w' := (flush_client fd w).2 in
  connections w' = delete fd (connections w) /\ k_trace (kern w') = k_trace (kern w) ++ [NSent fd (unsent c); NClosed fd].
Proof.
  intros Hc Ho Hp Hopen Hs Hl. unfold flush_client, cm_get. rewrite Hc.
  destruct (send_loop_progress (an_sends (k_answers (kern w))) (length (outbound c)) (outbound_offset c))
    as (n & _ & ->); [done|exact Hl|done|]. rewrite Hp. cbn [snd].
  rewrite take_ge by (by rewrite unsent_length). set (w1 := update_connection fd _ (update_connection fd _ _)).
  rewrite close_client_connections. split; [unfold w1; cbn; by rewrite !delete_alter_eq|].
  assert (V : view_of [] (close_client fd w1) = v_with (delete fd (connections w1)) [NClosed fd] (view_of [] w1)).
  { apply close_view; [|done]. unfold w1. cbn. rewrite !lookup_alter_eq, Hc. by eexists. }
  apply (f_equal v_trace) in V. cbn [view_of v_with v_trace] in V. rewrite V. unfold w1. cbn.
  by rewrite <- (assoc_L (++)).
Qed.

(** The completion of a client that waits for it is sent, and the client closed. *)
Lemma completion_delivers base k extra c w :
  worker_inv base (k :: extra) w -> connections w !! comp_fd k = Some c -> generation c = comp_generation k ->
  request_in_flight c = true -> (pending_bytes c + length (serialized_response k) <= max_outbound_bytes)%nat ->
  Forall progress (an_sends (k_answers (kern w))) ->
  (pending_bytes c + length (serialized_response k) <= length (an_sends (k_answers (kern w))))%nat ->
  let w' := process_completion k w in
  connections w' = delete (comp_fd k) (connections w) /\
  k_trace (kern w') = k_trace (kern w) ++ [NSent (comp_fd k) (unsent c ++ serialized_response k); NClosed (comp_fd k)].
Proof.
  intros Hi Hc Hg Hf Hmax Hs Hl. destruct (inv_sendable _ _ _ _ _ Hi Hc) as (Hopen & x & Hx & Ho).
  rewrite Hc in Hx. injection Hx as <-. unfold process_completion, cm_get.
  cbn [connections measure set_shared]. rewrite Hc, Hg, Z.eqb_refl, Hf. cbn [andb].
  rewrite (proj2 (Nat.leb_le _ _) Hmax).
  change (connections (add_outstanding ?d ?v)) with (connections v). change (kern (add_outstanding ?d ?v)) with (kern v).
  set (w1 := update_connection _ _ (update_connection _ _ _)).
  set (c1 := set_peer_closed true (set_outbound (outbound c ++ serialized_response k) (set_in_flight false c))).
  assert (Hc1 : connections w1 !! comp_fd k = Some c1) by (unfold w1; cbn; by rewrite !lookup_alter_eq, Hc).
  destruct (flush_delivers (comp_fd k) c1 w1 Hc1) as [E1 E2]; try done.
  - cbn. rewrite length_app. lia.
  - pose proof (pending_bytes_append (set_in_flight false c) (serialized_response k) Ho) as E.
    change (pending_bytes c1 = (pending_bytes c + length (serialized_response k))%nat) in E. rewrite E. exact Hl.
  - rewrite E1, E2. split; [unfold w1; cbn; by rewrite !delete_alter_eq|].
    unfold unsent. cbn. by rewrite drop_app_le.
Qed.

(** ** Events *)

Lemma load_shutdown_none w :
  shutdown_requested (shared_state w) = false -> signal (shared_state w) = None -> load_shutdown w = (false, w).
Proof. intros H1 H2. unfold load_shutdown. by rewrite H1, H2. Qed.

(** The event of a client whose request is taken changes nothing more. *)
Lemma handle_event_taken listener fd c w :
  shutdown_requested (shared_state w) = false -> signal (shared_state w) = None ->
  fd <> completion_fd (loop_state w) -> listener <> Some fd -> is_Some (connections w !! fd) ->
  connections (handle_client fd w) !! fd = Some c -> request_in_flight c = true ->
  handle_event listener fd EPOLLIN w = handle_client fd w.
Proof.
  intros H1 H2 He Hl [c0 Hc0] Hc Hf. unfold handle_event. rewrite load_shutdown_none by done. cbn [andb].
  rewrite (proj2 (Z.eqb_neq _ _) He). rewrite bool_decide_eq_false_2 by done. unfold cm_get. rewrite Hc0. cbn [negb andb].
  rewrite bool_decide_eq_false_2 by done.
  change (has EPOLLIN (Z.lor EPOLLERR EPOLLHUP)) with false. change (has EPOLLIN EPOLLIN) with true.
  change (has EPOLLIN EPOLLRDHUP) with false. change (has EPOLLIN EPOLLOUT) with false. cbn [andb].
  rewrite Hc, Hf. by rewrite bool_decide_eq_false_2 by done.
Qed.

Lemma handle_event_completions listener w :
  shutdown_requested (shared_state w) = false -> signal (shared_state w) = None ->
  handle_event listener (completion_fd (loop_state w)) EPOLLIN w = process_completions w.
Proof. intros H1 H2. unfold handle_event. rewrite load_shutdown_none by done. cbn [andb]. by rewrite Z.eqb_refl. Qed.
