(* ===== verification/ServerTheorems.v ===== *)
(** * ServerTheorems: what a worker guarantees

    The properties of the event-loop worker: its invariant at every moment of a
    run, the bound on queued responses, which client a completion reaches, what an
    exit leaves, and that draining ends; and runs that show where the code does
    not do what it means to. *)
From stdpp Require Import base gmap list numbers strings.
From Stdlib Require Import Strings.Byte.
From S2P Require Import Prelude Text Double Os HttpParser RateLimiter Router Metrics MetricsTheorems.
From S2P Require Import Sockets EpollLoop TcpServer WorkerInv WorkerSteps WorkerLoop WorkerDrain.

Local Open Scope Z_scope.

(** ** Runs that go wrong *)

Module ServerFindings.
Import ServerTests.

(** The stop is seen by [handle_event]: the listener is closed there, and again
    after the loop. *)
Definition stop_in_event : waits :=
  [([], WEvents [((3, EPOLLIN), [EnvSignal 0])] [])].

Example listener_closed_twice :
  summary (worker_loop 0 su stop_in_event idle_kernel idle_shared)
  = (true, [], [3], [CQueueSize 0 0]).
Proof. vm_compute. reflexivity. Qed.

(** One request; its response does not fit the socket at once, and one more byte
    of the client dispatches the request again. *)
Definition slow_client : waits :=
  [event 3 EPOLLIN (accepts [AConnection 7 (Some ip)]);
   event 7 EPOLLIN (reads [RBytes get_health]);
   event 4 EPOLLIN (EnvTask 0 (Ok ok_response) (Fin 0) :: sends [SSent 20]);
   event 7 EPOLLIN (reads [RBytes (B "x")])].

Example request_dispatched_twice :
  let w := (worker_loop 0 su slow_client idle_kernel idle_shared).2 in
  (count_calls (fun c => match c with CStarted _ => true | _ => false end) (metric_calls (shared_state w)),
   (fun t => target_path (task_request t)) <$> accepted_tasks (shared_state w))
  = (2, [B "/health"]).
Proof. vm_compute. reflexivity. Qed.

(** One [epoll_wait] reports the completion whose answer ends client 7, a new
    client that gets the same descriptor, and an error of the old client: it
    closes the new one. *)
Definition stale_event : waits :=
  [event 3 EPOLLIN (accepts [AConnection 7 (Some ip)]);
   event 7 EPOLLIN (reads [RBytes get_health]);
   ([], WEvents
      [((4, EPOLLIN), EnvTask 0 (Ok ok_response) (Fin 0) :: sends [SSent 100]);
       ((3, EPOLLIN), accepts [AConnection 7 (Some (B "10.0.0.2"))]);
       ((7, EPOLLERR), [])] [])].

Example new_client_closed :
  let w := (worker_loop 0 su stale_event idle_kernel idle_shared).2 in
  (cm_get 7 (connections w), count_calls is_opened (metric_calls (shared_state w)),
   count_calls is_closed (metric_calls (shared_state w))) = (None, 2, 2).
Proof. vm_compute. reflexivity. Qed.

(** [epoll_wait] fails with [EBADF]: the worker ends and its clients stay open. *)
Example clients_leaked :
  let r := worker_loop 0 su
    [event 3 EPOLLIN (accepts [AConnection 7 (Some ip)]); ([], WError 9)] idle_kernel idle_shared in
  (r.1, elements (k_open (kern r.2)), worker_failed (shared_state r.2)) = (true, [7], true).
Proof. vm_compute. reflexivity. Qed.
End ServerFindings.

(** ** The invariant over a run *)

(** A worker that is still running. *)
Lemma running_worker_inv id su ws k s w :
  fresh k s -> worker_loop id su ws k s = (false, w) ->
  exists l e listener, su_listener su = Some l /\ server_inv l e listener w.
Proof.
  intros Hf Hr. destruct (worker_loop_cases id su ws k s Hf) as [[Ht _]|(l & e & s0 & r & s1 & Hl & Hi & Hw & E)].
  - by rewrite Hr in Ht.
  - pose proof (run_worker_inv l e true ws s0 Hi) as H. rewrite Hw in H. rewrite E in Hr.
    destruct r; [done|]. injection Hr as <-. eauto.
Qed.

(** C12: whatever the kernel, the pool and other threads do, a running worker is
    well formed: it owns its clients' descriptors and its own and no other, each
    client is registered with the kernel, has a generation no other client or
    pending task of another descriptor has, and, while it waits for a response,
    has its task or completion pending; the counter of outstanding tasks counts
    the pending ones, and clients are counted as opened until closed. *)
Theorem worker_invariant id su ws k s w :
  fresh k s -> worker_loop id su ws k s = (false, w) ->
  exists l e listener, su_listener su = Some l /\ server_inv l e listener w.
Proof. apply running_worker_inv. Qed.

(** A run continues where it waits. *)
Lemma run_worker_app ws ws' s :
  run_worker true (ws ++ ws') s =
  match run_worker true ws s with (None, s') => run_worker true ws' s' | r => r end.
Proof.
  unfold run_worker, run. cbn [negb]. revert s. induction ws as [|[es answer] ws IH]; intros s; cbn [app run_loop].
  - destruct (should_stop s) eqn:Hs; [|done]. destruct ws' as [|[? ?] ?]; cbn [run_loop]; by rewrite Hs.
  - destruct (should_stop s); [done|]. destruct answer as [events late|code].
    + cbv zeta. match goal with |- context [should_stop ?x] => destruct (should_stop x) end; [done|apply IH].
    + destruct (code =? EINTR); [apply IH|done].
Qed.

(** A running worker goes on from where it is. *)
Lemma worker_loop_continues id su ws k s w :
  fresh k s -> worker_loop id su ws k s = (false, w) ->
  exists l e listener, server_inv l e listener w /\
    forall more, worker_loop id su (ws ++ more) k s =
      match run_worker true more (listener, w) with
      | (None, s') => (false, s'.2)
      | (Some completed, s') => (true, finish_worker completed s')
      end.
Proof.
  intros Hf Hr. destruct (worker_loop_setup id su k s Hf) as [(e & k' & _ & _ & H)|(l & e & k' & _ & Hi & _ & H)];
    rewrite H in Hr; [done|].
  pose proof (run_worker_inv l e true ws _ Hi) as Hs. exists l, e.
  destruct (run_worker true ws (Some l, new_worker id e k' s)) as [[completed|] [listener w1]] eqn:E; [done|].
  injection Hr as <-. exists listener. split; [exact Hs|]. intros more. by rewrite H, run_worker_app, E.
Qed.

Lemma fresh_idle : fresh ServerTests.idle_kernel ServerTests.idle_shared.
Proof. by split. Qed.

(** The worker of a scenario that is still running. *)
Lemma scenario_inv ws :
  let r := worker_loop 0 ServerTests.su ws ServerTests.idle_kernel ServerTests.idle_shared in
  r.1 = false -> exists l e listener, server_inv l e listener r.2.
Proof.
  intros r Hr. destruct (running_worker_inv 0 ServerTests.su ws _ _ r.2 fresh_idle) as (l & e & listener & _ & H); [|eauto].
  unfold r in *. destruct (worker_loop _ _ _ _ _). by cbn in *; subst.
Qed.

(** The worker while a request of its client is with the pool. *)
Lemma worker_invariant_witness :
  let ws := take 2 ServerTests.served in
  let w := (worker_loop 0 ServerTests.su ws ServerTests.idle_kernel ServerTests.idle_shared).2 in
  pending_keys [] w = [(7, 1)] /\
  exists l e listener, su_listener ServerTests.su = Some l /\ server_inv l e listener w.
Proof.
  split; [by vm_compute|].
  apply (worker_invariant 0 ServerTests.su (take 2 ServerTests.served) ServerTests.idle_kernel
    ServerTests.idle_shared); [split; try done; by vm_compute|by vm_compute].
Defined.

(** C29: what is queued for a client never exceeds the limit by more than a 503
    response per refused request; without refusals it stays within the limit. *)
Theorem outbound_bounded id su ws k s w fd c :
  fresh k s -> worker_loop id su ws k s = (false, w) -> cm_get fd (connections w) = Some c ->
  let refusals := count_calls refusal (metric_calls (shared_state w)) in
  Z.of_nat (pending_bytes c) <= Z.of_nat max_outbound_bytes + zlen (response_to_string overloaded) * refusals /\
  (refusals = 0 -> (pending_bytes c <= max_outbound_bytes)%nat).
Proof.
  intros Hf Hr Hc refusals.
  destruct (running_worker_inv id su ws k s w Hf Hr) as (l & e & listener & _ & H).
  pose proof (co_bound _ _ _ _ _ (in_conn _ _ _ _ _ _ _ (si_worker _ _ _ _ H) fd c Hc)) as Hb.
  split; [exact Hb|]. intros E0. unfold refusals in E0. rewrite E0 in Hb. lia.
Qed.

(** ** Completions *)


(** The client of a request is gone and its descriptor accepted again when the
    request is answered. *)
Module Reuse.
Import ServerTests.

Definition reused : waits :=
  [event 3 EPOLLIN (accepts [AConnection 7 (Some ip)]);
   event 7 EPOLLIN (reads [RBytes get_health]);
   event 7 EPOLLERR [];
   event 3 EPOLLIN (accepts [AConnection 7 (Some (B "10.0.0.2"))])].

Definition before : worker := (worker_loop 0 su reused idle_kernel idle_shared).2.
Definition answer : Completion := mkCompletion 7 1 (response_to_string ok_response) 200 (Fin 0).
Definition in_hand : worker := take_completions (finish_task 0 (Ok ok_response) (Fin 0) before).

Lemma in_hand_inv : exists base, worker_inv base [answer] in_hand.
Proof.
  destruct (scenario_inv reused) as (l & e & listener & H); [by vm_compute|].
  pose proof (si_worker _ _ _ _ H) as Hinv. fold before in Hinv.
  assert (Ha : completions (loop_state (finish_task 0 (Ok ok_response) (Fin 0) before)) = [answer]) by (by vm_compute).
  eexists. rewrite <- Ha. apply take_completions_inv, (proj1 (finish_task_keeps _ _ _ _ _ Hinv)).
Qed.
End Reuse.


(** ** Leaving *)

Lemma worker_exit id su ws k s w :
  fresh k s -> (forall es code, (es, WError code) ∈ ws -> code = EINTR) ->
  worker_loop id su ws k s = (true, w) ->
  connections w = ∅ /\ k_open (kern w) = ∅ /\
  count_calls is_opened (metric_calls (shared_state w)) = count_calls is_closed (metric_calls (shared_state w)) /\
  (zlen (pending_keys [] w) < u64_modulus -> pending_keys [] w = []) /\
  (k_bad_closes (kern w) = [] \/ exists l, su_listener su = Some l /\ k_bad_closes (kern w) = [l]).
Proof.
  intros Hf Hws Hr.
  destruct (worker_loop_cases id su ws k s Hf) as [Hn|(l & e & s0 & r & s1 & Hl & Hi & Hw & E)].
  - rewrite Hr in Hn. destruct Hn as (_ & H1 & H2 & H3 & _ & H5 & H6). cbn [snd] in *.
    rewrite H6. split_and!; try done. by left.
  - rewrite E in Hr. destruct r as [[]|]; [| |done]; injection Hr as <-.
    2:{ destruct (run_loop_failed ws s0 s1 Hw) as (es & code & Hin & Hne). by destruct Hne; apply (Hws es). }
    pose proof (run_worker_inv l e true ws s0 Hi) as H. rewrite Hw in H. cbn [snd] in H.
    pose proof (run_worker_stopped true ws s0 s1 Hw) as Hs. unfold should_stop in Hs.
    rewrite !andb_true_iff in Hs. destruct Hs as [[_ Ho%Z.eqb_eq] Hc%Nat.eqb_eq%map_size_empty_inv].
    destruct (finish_worker_spec l e true s1 H Hc) as (F1 & F2 & F3 & F4 & F5).
    pose proof (si_worker _ _ _ _ H) as Hinv. rewrite F1, F2, F3, F4, F5. split_and!; try done.
    + pose proof (in_count _ _ _ _ _ _ _ Hinv) as Hcount. rewrite Hc, map_size_empty in Hcount. lia.
    + intros Hlt. pose proof (in_outstanding _ _ _ _ _ _ _ Hinv) as Hout. rewrite Ho in Hout.
      rewrite Z.mod_small in Hout by lia. by apply length_zero_iff_nil; lia.
    + destruct (stale l s1); [right; eauto|by left].
Qed.



(** A worker that stops has no client. *)
Lemma should_stop_empty s : should_stop s = true -> connections s.2 = ∅.
Proof.
  unfold should_stop. rewrite !andb_true_iff. intros [_ Hc%Nat.eqb_eq]. by apply map_size_empty_inv.
Qed.

(** Draining ends: once no request is pending, one iteration in which the
    clients take the bytes queued for them, in any number of sends, ends the loop
    with every client closed. *)
Theorem draining_ends l e listener w sends :
  server_inv l e listener w -> draining (loop_state w) = true -> pending_keys [] w = [] ->
  Forall progress sends ->
  (queued (cm_file_descriptors (connections w)) (connections w) <= length sends)%nat ->
  let '(r, s) := run_worker true [([], WEvents [] (takes sends))] (listener, w) in
  r = Some true /\ connections s.2 = ∅.
Proof.
  intros Hinv Hd Hp Hs Hq. unfold takes, run_worker, run. cbn [negb run_loop].
  destruct (should_stop (listener, w)) eqn:Hstop.
  { split; [done|]. unfold should_stop in Hstop. cbn [snd] in *. rewrite !andb_true_iff in Hstop.
    apply map_size_empty_inv. by destruct Hstop as [_ Hc%Nat.eqb_eq]. }
  unfold iteration, handle_events. cbn [delivered take foldl]. set (a := mkAnswers [] sends [] [] [] []).
  change (apply_changes [] (listener, w).2) with w.
  change (((listener, w).1, w).1, apply_changes [EnvAnswers a] _) with (listener, set_kern (set_answers a (kern w)) w).
  set (w1 := set_kern (set_answers a (kern w)) w).
  assert (H1 : server_inv l e listener w1).
  { apply (server_inv_keeps _ _ _ _ _ Hinv). apply keeps_kernel; [by split_and!|apply Hinv]. }
  destruct (server_inv_drainable l e listener w1 H1 Hp Hs) as (Hdr & Hc & Ho).
  destruct (on_iteration_drains listener w1 Hdr Hd Hc Hq) as [E1 E2].
  set (s' := on_iteration _) in *. assert (Hstop' : should_stop s' = true).
  { unfold should_stop. rewrite E1, E2, Ho. cbn. by rewrite Hd. }
  rewrite Hstop'. by split.
Qed.

(** A worker that is asked to stop, over two iterations: in the first the pool has
    executed its tasks, in the second the clients take their bytes. *)
Lemma stop_ends_loop l e listener w rs sends :
  server_inv l e listener w -> shutdown_requested (shared_state w) = true ->
  length rs = length (accepted_tasks (shared_state w)) -> Forall progress sends ->
  let w1 := (on_iteration (listener, apply_changes (finish_all rs) w)).2 in
  (queued (cm_file_descriptors (connections w1)) (connections w1) <= length sends)%nat ->
  let '(r, s) := run_worker true [(finish_all rs, WEvents [] []); ([], WEvents [] (takes sends))] (listener, w) in
  r = Some true /\ connections s.2 = ∅.
Proof.
  intros Hinv Hsd Hl Hs w1 Hq.
  change (run_worker true [(finish_all rs, WEvents [] []); ([], WEvents [] (takes sends))] (listener, w)) with
    (if should_stop (listener, w) then (Some true, (listener, w)) else
     let s := on_iteration (listener, apply_changes (finish_all rs) w) in
     if should_stop s then (Some true, s) else run_worker true [([], WEvents [] (takes sends))] s).
  destruct (should_stop (listener, w)) eqn:Hstop; [split; [done|by apply should_stop_empty in Hstop]|].
  set (w0 := apply_changes (finish_all rs) w) in *. destruct (finish_all_spec rs w Hl) as [Ha Hsd']. fold w0 in Ha, Hsd'.
  assert (H0 : server_inv l e listener w0) by (apply (server_inv_keeps _ _ _ _ _ Hinv), apply_changes_keeps, Hinv).
  destruct (on_iteration_stops l e listener w0 H0) as [Hd Hp]; [congruence|].
  pose proof (on_iteration_inv l e (listener, w0) H0) as H1. unfold loop_inv in H1.
  unfold w1 in Hq. destruct (on_iteration (listener, w0)) as [li w2]. cbn [fst snd] in *.
  destruct (should_stop (li, w2)) eqn:Hstop2;
    [split; [done|by apply should_stop_empty in Hstop2]|].
  apply (draining_ends l e li w2 sends H1 Hd); [|done|done].
  unfold pending_of in Hp. unfold pending_keys. injection Hp as -> ->. by rewrite Ha.
Qed.

(** The iterations of [stop_ends_loop]. *)
Definition stop_waits (rs : list (outcome HttpResponse * double)) (sends : list send_answer) : waits :=
  [(finish_all rs, WEvents [] []); ([], WEvents [] (takes sends))].

(** C17: a stop ends: whatever a worker has done so far, when a stop is requested
    and the pool executes the worker's tasks, with whatever results, it returns
    after two iterations, provided that in the second one the clients take the
    bytes queued for them, in any number of sends: every client is closed, and no
    descriptor is left open. *)
Theorem stop_ends id su ws k s w rs :
  fresh k s -> worker_loop id su ws k s = (false, w) -> shutdown_requested (shared_state w) = true ->
  length rs = length (accepted_tasks (shared_state w)) ->
  exists queued_bytes, forall sends, Forall progress sends -> (queued_bytes <= length sends)%nat ->
    exists w', worker_loop id su (ws ++ stop_waits rs sends) k s = (true, w') /\
      connections w' = ∅ /\ k_open (kern w') = ∅.
Proof.
  intros Hf Hr Hsd Hl.
  destruct (worker_loop_continues id su ws k s w Hf Hr) as (l & e & listener & Hinv & Hcont).
  set (w1 := (on_iteration (listener, apply_changes (finish_all rs) w)).2).
  exists (queued (cm_file_descriptors (connections w1)) (connections w1)). intros sends Hs Hq.
  pose proof (stop_ends_loop l e listener w rs sends Hinv Hsd Hl Hs Hq) as H. rewrite Hcont. unfold stop_waits.
  destruct (run_worker true _ (listener, w)) as [r s'] eqn:Hrun. destruct H as [-> Hc].
  exists (finish_worker true s'). split; [done|].
  pose proof (run_worker_inv l e true (stop_waits rs sends) (listener, w) Hinv) as Hi.
  change (stop_waits rs sends) with [(finish_all rs, WEvents [] []); ([], WEvents [] (takes sends))] in Hi.
  rewrite Hrun in Hi. destruct (finish_worker_spec l e true s' Hi Hc) as (H1 & H2 & _). by split.
Qed.


(** A draining worker with the rest of a response still queued for its client. *)
Module Draining.
Import ServerTests.

Definition ws : waits :=
  [event 3 EPOLLIN (accepts [AConnection 7 (Some ip)]);
   event 7 EPOLLIN (reads [RBytes get_health]);
   event 4 EPOLLIN (EnvTask 0 (Ok ok_response) (Fin 0) :: sends [SSent 20]);
   ([EnvSignal 0], WEvents [] [])].

Definition worker_left : worker := (worker_loop 0 su ws idle_kernel idle_shared).2.
Definition taken : list send_answer := replicate 100 (SSent 1).
End Draining.

Lemma draining_ends_witness :
  (size (connections Draining.worker_left), pending_bytes <$> cm_get 7 (connections Draining.worker_left))
    = (1%nat, Some 39%nat) /\
  exists listener,
    let '(r, s) := run_worker true [([], WEvents [] (takes Draining.taken))]
                     (listener, Draining.worker_left) in
    r = Some true /\ connections s.2 = ∅.
Proof.
  split; [vm_compute; reflexivity|].
  destruct (scenario_inv Draining.ws) as (l & e & listener & H); [by vm_compute|]. exists listener.
  apply (draining_ends l e listener Draining.worker_left Draining.taken H).
  - vm_compute. reflexivity.
  - vm_compute. reflexivity.
  - apply Forall_replicate, le_n.
  - apply Nat.leb_le. vm_compute. reflexivity.
Defined.

(** A stop while the request of a client is with the pool. *)
Definition stopping_waits : waits := take 2 ServerTests.served ++ [([EnvSignal 0], WEvents [] [])].
Definition worker_stopping : worker :=
  (worker_loop 0 ServerTests.su stopping_waits ServerTests.idle_kernel ServerTests.idle_shared).2.

Lemma stop_ends_witness :
  (size (connections worker_stopping), pending_keys [] worker_stopping) = (1%nat, [(7, 1)]) /\
  exists queued_bytes, forall sends, Forall progress sends -> (queued_bytes <= length sends)%nat ->
    exists w', worker_loop 0 ServerTests.su
        (stopping_waits ++ stop_waits [(Ok ServerTests.ok_response, Fin 0)] sends)
        ServerTests.idle_kernel ServerTests.idle_shared = (true, w') /\
      connections w' = ∅ /\ k_open (kern w') = ∅.
Proof.
  split; [vm_compute; reflexivity|].
  apply (stop_ends 0 ServerTests.su stopping_waits ServerTests.idle_kernel ServerTests.idle_shared worker_stopping
    [(Ok ServerTests.ok_response, Fin 0)] fresh_idle); vm_compute; reflexivity.
Defined.

(** A client that has been sent a part of its response. *)
Lemma outbound_bounded_witness :
  exists c, cm_get 7 (connections Draining.worker_left) = Some c /\ pending_bytes c = 39%nat /\
    (pending_bytes c <= max_outbound_bytes)%nat.
Proof.
  destruct (cm_get 7 (connections Draining.worker_left)) as [c|] eqn:Hc; [|by vm_compute in Hc].
  assert (Hp : pending_bytes c = 39%nat).
  { assert (pending_bytes <$> cm_get 7 (connections Draining.worker_left) = Some 39%nat) as H by (by vm_compute).
    rewrite Hc in H. by injection H. }
  exists c. split_and!; [done|done|].
  assert (Hrun : worker_loop 0 ServerTests.su Draining.ws ServerTests.idle_kernel ServerTests.idle_shared
    = (false, Draining.worker_left)).
  { unfold Draining.worker_left. destruct (worker_loop _ _ _ _ _) as [b w] eqn:E. cbn [snd].
    assert (b = false) as -> by (change b with (b, w).1; rewrite <- E; by vm_compute). done. }
  destruct (outbound_bounded 0 ServerTests.su Draining.ws ServerTests.idle_kernel ServerTests.idle_shared
    Draining.worker_left 7 c fresh_idle Hrun Hc) as [_ H].
  apply H. vm_compute. reflexivity.
Defined.
