(* ===== verification/SessionTheorems.v ===== *)
(** * SessionTheorems: what the clients of a worker get

    The worker refines the protocol, so that over every run each session gets
    answers to its own request only; and the whole way of one request, from the
    bytes that arrive in any pieces to the response and the close. *)
From stdpp Require Import base gmap list numbers strings.
From Stdlib Require Import Strings.Byte.
From S2P Require Import Prelude Text Double Os HttpParser HttpChunks HttpRender HttpTheorems RateLimiter Router Metrics.
From S2P Require Import Sockets EpollLoop TcpServer Protocol ProtocolInv WorkerInv WorkerSteps WorkerLoop WorkerDrain.
From S2P Require Import WorkerRefines WorkerServe ServerTheorems.

Local Open Scope Z_scope.

(** ** Every run *)

(** C7: the worker refines the protocol: whatever the kernel, the pool and other
    threads do, the connections, the events on the sockets, the tasks and the
    completions of a run change by moves of the protocol only, from the empty
    state to the end. *)
Theorem worker_refines_protocol id su ws k s :
  fresh k s -> rtc (move true) empty_view (view_of [] (worker_loop id su ws k s).2).
Proof. apply worker_loop_moves. Qed.

(** A client served, and a stop. *)
Lemma worker_refines_witness :
  let w := (worker_loop 0 ServerTests.su ServerTests.served ServerTests.idle_kernel ServerTests.idle_shared).2 in
  length (k_trace (kern w)) = 7%nat /\ rtc (move true) empty_view (view_of [] w).
Proof.
  split; [vm_compute; reflexivity|].
  apply (worker_refines_protocol 0 ServerTests.su ServerTests.served _ _ fresh_idle).
Defined.

Lemma worker_sessions id su ws k s :
  fresh k s -> proto_inv (view_of [] (worker_loop id su ws k s).2).
Proof. intros Hf. eapply moves_inv; [by apply worker_loop_moves|exact proto_inv_empty]. Qed.

(** C5: over a whole run, what a session of a client got is a sequence of whole
    responses, the last one possibly in part: 400 when its bytes are no request,
    503 when they are, or what the pool produced for the request that its own
    bytes spell.  No two sessions share the generation their responses were
    produced for, also not sessions on the same descriptor. *)
Theorem clients_get_their_answers id su ws k s :
  fresh k s ->
  let w := (worker_loop id su ws k s).2 in
  sessions_answered (k_trace (kern w)) (produced (shared_state w)) /\
  forall t r, (t, r) ∈ produced (shared_state w) ->
    exists response elapsed, r = serialized_response (task_completion t response elapsed).
Proof.
  intros Hf w. pose proof (worker_sessions id su ws k s Hf) as Hi.
  split; [by apply (proto_sessions _ Hi)|by apply (pi_produced _ Hi)].
Qed.

(** Two clients on the same descriptor, each with an answer of its own. *)
Module Sessions.
Import ServerTests.

Definition post : http_text := demo_request.
Definition accepted_response : HttpResponse := mkResponse 202 (B "Accepted") [] (B "queued").

Definition two_clients : waits :=
  [event 3 EPOLLIN (accepts [AConnection 7 (Some ip)]);
   event 7 EPOLLIN (reads [RBytes (take 10 get_health); RBytes (drop 10 get_health)]);
   event 4 EPOLLIN (EnvTask 0 (Ok ok_response) (Fin 0) :: sends [SError EINTR; SSent 20; SSent 100]);
   event 3 EPOLLIN (accepts [AConnection 7 (Some (B "10.0.0.2"))]);
   event 7 EPOLLIN (reads [RBytes (take 33 (render post)); RBytes (drop 33 (render post) ++ B "more")]);
   event 4 EPOLLIN (EnvTask 0 (Ok accepted_response) (Fin 0) :: sends [SSent 30])].

Definition run : worker := (worker_loop 0 su two_clients idle_kernel idle_shared).2.

(** The open session of the second client. *)
Definition second : session :=
  mkSession 7 [take 33 (render post); drop 33 (render post) ++ B "more"]
            (take 30 (response_to_string accepted_response)).

Lemma all_two :
  all_sessions (k_trace (kern run)) =
    [mkSession 7 [take 10 get_health; drop 10 get_health] (response_to_string ok_response); second].
Proof. vm_compute. reflexivity. Qed.
End Sessions.

Lemma clients_get_their_answers_witness :
  sessions_answered (k_trace (kern Sessions.run)) (produced (shared_state Sessions.run)) /\
  forall t r, (t, r) ∈ produced (shared_state Sessions.run) ->
    exists response elapsed, r = serialized_response (task_completion t response elapsed).
Proof.
  apply (clients_get_their_answers 0 ServerTests.su Sessions.two_clients _ _ fresh_idle).
Defined.

(** ** From the text of a request to its answers *)

Lemma default_limits : default_max_header_bytes + default_max_body_bytes <= u64_max /\ 0 <= default_max_body_bytes.
Proof. unfold default_max_header_bytes, default_max_body_bytes, u64_max, u64_modulus. lia. Qed.

(** A request as a client writes it, within the limits of the worker's parsers. *)
Record request_fits (t : http_text) : Prop := {
  rf_ok : text_ok t;
  rf_body : zlen (t_body t) <= default_max_body_bytes;
  rf_headers : zlen (render t) - zlen (t_body t) <= default_max_header_bytes
}.

Lemma session_in_all s trace produced :
  sessions_answered trace produced -> s ∈ all_sessions trace -> exists gen, session_ok produced gen s.
Proof.
  intros (gens & _ & Hall) Hin. destruct (decide (ss_sent s = [])) as [E|E].
  - exists 0. exists [], []. rewrite E. by split.
  - assert (Hin' : s ∈ answered_sessions (all_sessions trace)) by (by apply list_elem_of_filter).
    apply list_elem_of_lookup in Hin' as [i Hi]. destruct (Forall2_lookup_r _ _ _ _ _ Hall Hi) as (g & _ & Hg). eauto.
Qed.


Lemma post_fits : request_fits Sessions.post.
Proof. split; [exact demo_request_ok|vm_compute; discriminate|vm_compute; discriminate]. Qed.


(** ** The way of one request *)

(** A client that has been accepted and has not sent anything, on a worker that
    has nothing else to do and is not asked to stop. *)
Record waiting_client (fd : Z) (ip : bytes) (g : Z) (w : worker) : Prop := {
  wc_client : cm_get fd (connections w) = Some (new_connection fd ip g);
  wc_running : draining (loop_state w) = false;
  wc_shutdown : shutdown_requested (shared_state w) = false;
  wc_signal : signal (shared_state w) = None;
  wc_pool : pool_stopping (shared_state w) = false;
  wc_completions : completions (loop_state w) = []
}.

(** The bytes of the answer to a handler's result. *)
Definition answer_bytes (response : outcome HttpResponse) : bytes :=
  response_to_string (match response with Ok r => r | Throw _ => internal_error end).

Lemma not_own l e listener w fd :
  server_inv l e listener w -> draining (loop_state w) = false -> fd ∈ dom (connections w) ->
  fd <> completion_fd (loop_state w) /\ listener <> Some fd.
Proof.
  intros [H1 H2 H3 H4] Hd Hin. rewrite Hd in H3, H4. pose proof (in_base _ _ _ _ _ _ _ H3) as Hb. unfold own_fds in Hb.
  split; [rewrite H2; intros ->; set_solver|]. destruct H4 as [->|[_ ?]]; [|done]. intros [= ->]. set_solver.
Qed.

Lemma request_taken l e listener w fd ip g t pieces :
  server_inv l e listener w -> waiting_client fd ip g w -> request_fits t -> Forall piece_ok pieces ->
  concat pieces = render t ->
  let w0 := apply_change (EnvAnswers (mkAnswers (RBytes <$> pieces) [] [] [] [] [])) w in
  let w1 := handle_event listener fd EPOLLIN w0 in
  exists q used left, pieces = used ++ left /\
    connections w1 !! fd = Some (set_in_flight true (set_parser q (new_connection fd ip g))) /\
    accepted_tasks (shared_state w1) = accepted_tasks (shared_state w) ++ [mkTask fd g (text_request t (t_body t)) ip] /\
    k_trace (kern w1) = k_trace (kern w) ++ (NReceived fd <$> used) /\
    completions (loop_state w1) = [] /\ completion_fd (loop_state w1) = completion_fd (loop_state w) /\
    shutdown_requested (shared_state w1) = false /\ signal (shared_state w1) = None.
Proof.
  intros Hinv [Hc Hd Hsd Hsig Hpool Hcs] [Hok Hbody Hhead] Hpieces Hcat w0 w1. unfold cm_get in Hc.
  assert (Hdom : fd ∈ dom (connections w)) by (apply elem_of_dom; eauto).
  destruct (not_own l e listener w fd Hinv Hd Hdom) as [Hne Hnl]. destruct default_limits as [Hmax Hmb].
  pose proof (render_parsed default_max_header_bytes default_max_body_bytes t pieces Hok Hmb Hmax Hbody Hhead Hcat) as Hp.
  destruct (feed_all pieces Incomplete _) as [st q] eqn:Hfeed. destruct Hp as (-> & Hreq & _).
  set (c := new_connection fd ip g) in *.
  destruct (read_loop_complete pieces [] fd c w0 q Hc eq_refl eq_refl Hpieces Hfeed) as (used & left & E & Er).
  rewrite app_nil_r in Er. set (w2 := has_read fd c q used w0) in Er.
  assert (Hc2 : connections w2 !! fd = Some (set_parser q c)) by apply lookup_insert_eq.
  pose proof (dispatch_accepted fd (set_parser q c) w2 Hc2) as Hdis.
  destruct (dispatch_request fd (set_parser q c) w2) as [after w3].
  destruct Hdis as (-> & C3 & T3 & [R1 R2 R3 R4 R5]); [|done|done|exact Hpool|].
  { exact (in_registered _ _ _ _ _ _ _ (si_worker _ _ _ _ Hinv) fd Hdom). }
  assert (Hh : handle_client fd w0 = set_kern (with_reads ((RBytes <$> left) ++ []) (kern w3)) w3).
  { unfold handle_client, cm_get. change (connections w0) with (connections w). rewrite Hc.
    change (an_reads (k_answers (kern w0))) with (RBytes <$> pieces). rewrite Er. cbn [negb connections set_kern].
    rewrite C3, lookup_insert_eq. done. }
  assert (Hw1 : w1 = handle_client fd w0).
  { apply (handle_event_taken listener fd (set_in_flight true (set_parser q c))); try done.
    rewrite Hh. cbn [connections set_kern]. rewrite C3. apply lookup_insert_eq. }
  exists q, used, left. rewrite Hw1, Hh. cbn [connections kern shared_state loop_state set_kern].
  split_and!; [done|rewrite C3; apply lookup_insert_eq| | | | | |].
  - rewrite T3. unfold task_of. cbn. by rewrite Hreq.
  - exact R5.
  - by rewrite R1.
  - by rewrite R2.
  - by rewrite R3.
  - by rewrite R4.
Qed.

Lemma serve l e listener w fd ip g t pieces response elapsed sends :
  server_inv l e listener w -> waiting_client fd ip g w ->
  request_fits t -> Forall piece_ok pieces -> concat pieces = render t ->
  (length (answer_bytes response) <= max_outbound_bytes)%nat ->
  Forall progress sends -> (length (answer_bytes response) <= length sends)%nat ->
  let w1 := handle_event listener fd EPOLLIN
              (apply_change (EnvAnswers (mkAnswers (RBytes <$> pieces) [] [] [] [] [])) w) in
  let pending := length (accepted_tasks (shared_state w)) in
  let w2 := handle_event listener e EPOLLIN
              (apply_changes (EnvTask pending response elapsed :: takes sends) w1) in
  accepted_tasks (shared_state w1) !! pending = Some (mkTask fd g (text_request t (t_body t)) ip) /\
  cm_get fd (connections w2) = None /\
  exists used left, pieces = used ++ left /\
    k_trace (kern w2) = k_trace (kern w) ++ (NReceived fd <$> used) ++ [NSent fd (answer_bytes response); NClosed fd].
Proof.
  intros Hinv Hw Hfit Hpieces Hcat Hmax Hs Hl w1 pending w2.
  destruct (request_taken l e listener w fd ip g t pieces Hinv Hw Hfit Hpieces Hcat)
    as (q & used & left & E & Hc1 & Ht1 & Tr1 & Cs1 & Fd1 & Sd1 & Sg1). fold w1 in Hc1, Ht1, Tr1, Cs1, Fd1, Sd1, Sg1.
  set (task := mkTask fd g (text_request t (t_body t)) ip) in *.
  assert (Hlook : accepted_tasks (shared_state w1) !! pending = Some task).
  { rewrite Ht1. unfold pending. apply list_lookup_middle. done. }
  split; [exact Hlook|].
  assert (Hinv1 : server_inv l e listener w1).
  { apply handle_event_inv. apply (server_inv_keeps _ _ _ _ _ Hinv), apply_change_keeps, Hinv. }
  unfold w2, takes. set (a := mkAnswers [] sends [] [] [] []).
  set (w1' := apply_changes _ w1).
  pose proof (server_inv_keeps _ _ _ _ _ Hinv1 (apply_changes_keeps _ [EnvTask pending response elapsed; EnvAnswers a] _
    (si_worker _ _ _ _ Hinv1))) as Hinv1'. fold w1' in Hinv1'.
  set (k := task_completion task response elapsed).
  assert (E1' : w1' = set_kern (set_answers a (kern w1)) (finish_task pending response elapsed w1)).
  { unfold w1', apply_changes, apply_change, finish_task. cbn [foldl flip]. by rewrite Hlook. }
  assert (Hk : completions (loop_state w1') = [k]).
  { rewrite E1'. unfold finish_task. rewrite Hlook. cbn. by rewrite Cs1. }
  assert (He : e = completion_fd (loop_state w1')) by (by rewrite (si_eventfd _ _ _ _ Hinv1')).
  rewrite He, handle_event_completions.
  2,3: rewrite E1'; unfold finish_task; rewrite Hlook; done.
  unfold process_completions. rewrite Hk. cbn [foldl flip].
  set (w3 := measure _ _).
  assert (Hi3 : worker_inv (own_fds l e (draining (loop_state w1'))) [k] w3).
  { apply Inv_call; [done|done|]. rewrite <- Hk. apply take_completions_inv, Hinv1'. }
  assert (Hc3 : connections w3 !! fd = Some (set_in_flight true (set_parser q (new_connection fd ip g)))).
  { change (connections w1' !! fd = Some (set_in_flight true (set_parser q (new_connection fd ip g)))).
    rewrite E1'. unfold finish_task. by rewrite Hlook. }
  assert (Hk3 : kern w3 = set_answers a (kern w1)).
  { change (kern w1' = set_answers a (kern w1)). by rewrite E1'. }
  destruct (completion_delivers _ k [] _ w3 Hi3 Hc3) as [C4 T4]; try done; rewrite ?Hk3; try done.
  rewrite C4, T4, Hk3. unfold cm_get. split; [apply lookup_delete_eq|]. exists used, left. split; [done|].
  cbn [set_answers k_trace]. rewrite Tr1. rewrite <- (assoc_L (++)). done.
Qed.


(** A client of a worker that has just accepted it writes its request in two
    pieces and takes the answer byte by byte. *)
Module Serving.
Import ServerTests.

Definition accepted : worker := (worker_loop 0 su (take 1 served) idle_kernel idle_shared).2.
Definition pieces : list bytes := [take 33 (render Sessions.post); drop 33 (render Sessions.post)].
Definition byte_by_byte : list send_answer := replicate 200 (SSent 1).
End Serving.


(** ** Answers that are too long *)

(** An answer longer than the limit of the queue is not sent, not even in part
    and not even to a client that would take it at once: the client is closed. *)
Theorem oversized_answer_closes base k extra w c :
  worker_inv base (k :: extra) w -> cm_get (comp_fd k) (connections w) = Some c ->
  generation c = comp_generation k -> request_in_flight c = true ->
  (max_outbound_bytes < length (serialized_response k))%nat ->
  let w' := process_completion k w in
  connections w' = delete (comp_fd k) (connections w) /\ k_trace (kern w') = k_trace (kern w) ++ [NClosed (comp_fd k)].
Proof.
  intros Hi Hc Hg Hf Hmax. unfold cm_get in Hc. destruct (inv_sendable _ _ _ _ _ Hi Hc) as (Hopen & _).
  unfold process_completion, cm_get. cbn [connections measure set_shared]. rewrite Hc, Hg, Z.eqb_refl, Hf. cbn [andb].
  rewrite (proj2 (Nat.leb_gt _ _)) by lia.
  change (connections (add_outstanding ?d ?v)) with (connections v). change (kern (add_outstanding ?d ?v)) with (kern v).
  set (w1 := update_connection _ _ _). rewrite close_client_connections.
  assert (V : view_of [] (close_client (comp_fd k) w1) =
    v_with (delete (comp_fd k) (connections w1)) [NClosed (comp_fd k)] (view_of [] w1)).
  { apply close_view; [|done]. unfold w1. cbn. rewrite lookup_alter_eq, Hc. by eexists. }
  apply (f_equal v_trace) in V. cbn [view_of v_with v_trace] in V. rewrite V.
  unfold w1. cbn. by rewrite delete_alter_eq.
Qed.

(** A handler answers with a mebibyte and one byte. *)
Module Oversized.
Import ServerTests.
Definition answer : Completion := mkCompletion 7 1 (replicate (S max_outbound_bytes) x78) 200 (Fin 0).
Definition asking : worker := (worker_loop 0 su (take 2 served) idle_kernel idle_shared).2.
Definition in_hand : worker := take_completions (finish_task 0 (Ok ok_response) (Fin 0) asking).
End Oversized.

Lemma oversized_answer_witness :
  let w' := process_completion Oversized.answer Oversized.in_hand in
  connections w' = delete 7 (connections Oversized.in_hand) /\
  k_trace (kern w') = k_trace (kern Oversized.in_hand) ++ [NClosed 7].
Proof.
  destruct (scenario_inv (take 2 ServerTests.served)) as (l & e & listener & H); [by vm_compute|].
  fold Oversized.asking in H.
  pose proof (take_completions_inv _ _ (proj1 (finish_task_keeps _ 0 (Ok ServerTests.ok_response) (Fin 0) _
    (si_worker _ _ _ _ H)))) as Hi. fold Oversized.in_hand in Hi.
  assert (Hk : comp_key <$> completions (loop_state (finish_task 0 (Ok ServerTests.ok_response) (Fin 0) Oversized.asking))
    = [comp_key Oversized.answer]) by (by vm_compute).
  destruct (cm_get 7 (connections Oversized.in_hand)) as [c|] eqn:Hc; [|by vm_compute in Hc].
  assert (Hg : (fun c => (generation c, request_in_flight c)) <$> cm_get 7 (connections Oversized.in_hand) = Some (1, true))
    by (by vm_compute).
  rewrite Hc in Hg. injection Hg as Hg Hf.
  eapply (oversized_answer_closes _ Oversized.answer [] Oversized.in_hand c); [|exact Hc|exact Hg|exact Hf|].
  - unfold worker_inv, pending_keys in *. rewrite Hk in Hi. exact Hi.
  - cbn [serialized_response Oversized.answer]. rewrite length_replicate. apply Nat.lt_succ_diag_r.
Defined.
