(* ===== verification/Handoff.v ===== *)
(** * Handoff: completions between the pool threads and a worker

    TcpServer takes the completions as one list that other threads extend between
    the steps of the worker.  Here is the handoff itself at the granularity of the
    code (src/src/network/tcp_server.cpp): the critical sections of
    [completion_mutex], the counter of the eventfd, the loads of
    [outstanding_tasks], and the lifetime of the [LoopState] on the stack of the
    worker, which the closures of the tasks hold by reference.  Actions of the
    worker and of the pool threads interleave in any order. *)
From stdpp Require Import base gmap list numbers strings.
From Stdlib Require Import Strings.Byte.
From S2P Require Import Prelude Text Double Os HttpParser RateLimiter Router Metrics Sockets EpollLoop TcpServer.

Local Open Scope Z_scope.

(** ** The state *)

(** A task of the worker: in the queue of the pool, executing the handler, between
    the critical section that pushes the completion and the [write] that notifies
    the worker, and done. *)
Inductive task_phase :=
| TQueued (t : Task)
| TRunning (t : Task)
| TPushed
| TDone.

(** Where the worker is.  [process_completions] runs for an event of the eventfd
    ([last] is false) and at the end of every iteration. *)
Inductive worker_phase :=
| WSleeping
| WEvents
| WReading (last : bool)
| WSwapping (last : bool)
| WHolding (last : bool) (completed : list Completion)
| WChecking
| WEnded.

Record handoff := mkHandoff {
  h_completions : list Completion;
  h_outstanding : Z;
  (** The counter of the eventfd. *)
  h_notifications : Z;
  h_tasks : list task_phase;
  h_worker : worker_phase;
  h_draining : bool;
  (** For the statements: all completions pushed and processed, and the tasks that
      used the state of a worker that had returned. *)
  h_pushed : list Completion;
  h_processed : list Completion;
  h_dangling : list nat
}.

Definition h_start : handoff := mkHandoff [] 0 0 [] WChecking false [] [] [].

Definition h_at p h := mkHandoff (h_completions h) (h_outstanding h) (h_notifications h) (h_tasks h) p (h_draining h)
  (h_pushed h) (h_processed h) (h_dangling h).
Definition h_set_task i p h := mkHandoff (h_completions h) (h_outstanding h) (h_notifications h) (<[i := p]> (h_tasks h))
  (h_worker h) (h_draining h) (h_pushed h) (h_processed h) (h_dangling h).
Definition h_add_outstanding d h := mkHandoff (h_completions h) ((h_outstanding h + d) mod u64_modulus)
  (h_notifications h) (h_tasks h) (h_worker h) (h_draining h) (h_pushed h) (h_processed h) (h_dangling h).
Definition h_set_notifications n h := mkHandoff (h_completions h) (h_outstanding h) n (h_tasks h) (h_worker h)
  (h_draining h) (h_pushed h) (h_processed h) (h_dangling h).
Definition h_dangle i h := mkHandoff (h_completions h) (h_outstanding h) (h_notifications h) (h_tasks h) (h_worker h)
  (h_draining h) (h_pushed h) (h_processed h) (h_dangling h ++ [i]).

Definition ended (h : handoff) : bool := match h_worker h with WEnded => true | _ => false end.

(** ** The actions *)

Inductive handoff_action :=
(** The worker submits a task, which the pool takes or refuses. *)
| HDispatch (t : Task) (accepted : bool)
(** A pool thread takes the task, pushes its completion, and notifies. *)
| HStart (i : nat)
| HPush (i : nat) (response : outcome HttpResponse) (elapsed : double)
| HNotify (i : nat)
(** [epoll_wait] returns, for the eventfd or for another descriptor, or fails. *)
| HWake (eventfd : bool)
| HFail
(** [process_completions]: a [read] of the eventfd, the critical section, one
    completion, and its end. *)
| HEnter (last : bool)
| HRead
| HSwap
| HProcess
| HReturn
(** [begin_drain], and [should_stop]. *)
| HDrain
| HCheck (no_clients : bool).

(** The largest value an eventfd holds; a nonblocking [write] beyond fails. *)
Definition eventfd_max : Z := u64_max - 1.

Definition notify (h : handoff) : handoff :=
  h_set_notifications (if h_notifications h <? eventfd_max then h_notifications h + 1 else h_notifications h) h.

(** The critical section of the closure. *)
Definition push_completion (k : Completion) (h : handoff) : handoff :=
  mkHandoff (h_completions h ++ [k]) (h_outstanding h) (h_notifications h) (h_tasks h) (h_worker h) (h_draining h)
            (h_pushed h ++ [k]) (h_processed h) (h_dangling h).

(** The critical section of [process_completions]. *)
Definition swap_completions (last : bool) (h : handoff) : handoff :=
  mkHandoff [] (h_outstanding h) (h_notifications h) (h_tasks h) (WHolding last (h_completions h)) (h_draining h)
            (h_pushed h) (h_processed h) (h_dangling h).

(** The end of the loop body of [process_completions] for the next completion. *)
Definition complete_one (last : bool) (k : Completion) (ks : list Completion) (h : handoff) : handoff :=
  h_add_outstanding (-1)
    (mkHandoff (h_completions h) (h_outstanding h) (h_notifications h) (h_tasks h) (WHolding last ks) (h_draining h)
               (h_pushed h) (h_processed h ++ [k]) (h_dangling h)).

(** One action; [None] when it is not possible. *)
Definition handoff_step (a : handoff_action) (h : handoff) : option handoff :=
  match a, h_worker h with
  | HDispatch t accepted, WEvents =>
      let h := h_add_outstanding 1 h in
      if accepted then
        Some (mkHandoff (h_completions h) (h_outstanding h) (h_notifications h) (h_tasks h ++ [TQueued t]) (h_worker h)
                        (h_draining h) (h_pushed h) (h_processed h) (h_dangling h))
      else Some (h_add_outstanding (-1) h)
  | HStart i, _ =>
      match h_tasks h !! i with Some (TQueued t) => Some (h_set_task i (TRunning t) h) | _ => None end
  | HPush i response elapsed, _ =>
      match h_tasks h !! i with
      | Some (TRunning t) =>
          let h := h_set_task i TPushed h in
          if ended h then Some (h_dangle i h) else Some (push_completion (task_completion t response elapsed) h)
      | _ => None
      end
  | HNotify i, _ =>
      match h_tasks h !! i with
      | Some TPushed =>
          let h := h_set_task i TDone h in
          if ended h then Some (h_dangle i h) else Some (notify h)
      | _ => None
      end
  | HWake eventfd, WSleeping => if negb eventfd || (0 <? h_notifications h) then Some (h_at WEvents h) else None
  | HFail, WSleeping => Some (h_at WEnded h)
  | HEnter last, WEvents => Some (h_at (WReading last) h)
  | HRead, WReading last =>
      if 0 <? h_notifications h then Some (h_set_notifications 0 h) else Some (h_at (WSwapping last) h)
  | HSwap, WSwapping last => Some (swap_completions last h)
  | HProcess, WHolding last (k :: ks) => Some (complete_one last k ks h)
  | HReturn, WHolding last [] => Some (h_at (if last then WChecking else WEvents) h)
  | HDrain, (WEvents | WChecking) =>
      Some (mkHandoff (h_completions h) (h_outstanding h) (h_notifications h) (h_tasks h) (h_worker h) true
                      (h_pushed h) (h_processed h) (h_dangling h))
  | HCheck no_clients, WChecking =>
      if h_draining h && (h_outstanding h =? 0) && no_clients then Some (h_at WEnded h) else Some (h_at WSleeping h)
  | _, _ => None
  end.

Fixpoint handoff_run (acts : list handoff_action) (h : handoff) : option handoff :=
  match acts with
  | [] => Some h
  | a :: acts => h ← handoff_step a h; handoff_run acts h
  end.

(** ** Scenarios *)

Module HandoffTests.
Definition t : Task := mkTask 7 1 empty_request [].
Definition r : outcome HttpResponse := Ok (mkResponse 200 (B "OK") [] []).

(** A request is answered and its notification wakes the worker, once more than
    needed: the completion is already processed at the end of the iteration. *)
Definition answered : list handoff_action :=
  [HCheck true; HWake false; HDispatch t true; HStart 0; HPush 0 r (Fin 0);
   HEnter true; HRead; HSwap; HProcess; HReturn; HCheck false; HNotify 0; HWake true; HEnter false; HRead; HRead; HSwap; HReturn].

Example answered_once :
  (fun h => (length (h_processed h), h_outstanding h, h_notifications h, h_dangling h)) <$> handoff_run answered h_start
  = Some (1%nat, 0, 0, []).
Proof. vm_compute. reflexivity. Qed.

(** The worker is asked to stop; it sees the completion before the pool thread
    notifies, closes its last client and returns; the thread then reads
    [state.completion_fd] of a state that is gone. *)
Definition stopped_before_notified : list handoff_action :=
  [HCheck true; HWake false; HDispatch t true; HStart 0; HPush 0 r (Fin 0);
   HEnter true; HRead; HSwap; HProcess; HReturn; HDrain; HCheck true; HNotify 0].

Example use_after_return :
  (fun h => (h_worker h, h_dangling h)) <$> handoff_run stopped_before_notified h_start = Some (WEnded, [0%nat]).
Proof. vm_compute. reflexivity. Qed.

(** [epoll_wait] fails while a task is executed: its completion is pushed on a
    queue that is gone. *)
Example use_after_failure :
  (fun h => (h_worker h, h_dangling h)) <$>
    handoff_run [HCheck true; HWake false; HDispatch t true; HStart 0; HEnter true; HRead; HSwap; HReturn; HCheck false;
                 HFail; HPush 0 r (Fin 0)] h_start = Some (WEnded, [0%nat]).
Proof. vm_compute. reflexivity. Qed.
End HandoffTests.
