(* ===== verification/HandoffTheorems.v ===== *)
(** * HandoffTheorems: no completion is lost, doubled or forgotten

    The invariants of the handoff over every interleaving of the worker with the
    pool threads, and what a worker that has returned leaves to them. *)
From stdpp Require Import base gmap list numbers strings.
From Stdlib Require Import Strings.Byte.
From S2P Require Import Prelude Text Double Os HttpParser RateLimiter Router Metrics Sockets EpollLoop TcpServer Handoff.

Local Open Scope Z_scope.

(** ** Counting tasks *)

(** Tasks whose completion is still to be pushed. *)
Definition in_pool (p : task_phase) : bool := match p with TQueued _ | TRunning _ => true | _ => false end.
Definition pool_tasks (h : handoff) : Z := zlen (filter in_pool (h_tasks h)).

(** The completions the worker has taken and not processed. *)
Definition in_hand (h : handoff) : list Completion :=
  match h_worker h with WHolding _ ks => ks | _ => [] end.

Lemma filter_insert (l : list task_phase) i p q :
  l !! i = Some p ->
  zlen (filter in_pool (<[i := q]> l)) =
  zlen (filter in_pool l) - (if in_pool p then 1 else 0) + (if in_pool q then 1 else 0).
Proof.
  revert i. induction l as [|x l IH]; intros [|i] H; cbn in H; try done.
  - injection H as ->. cbn [insert list_insert]. rewrite !filter_cons.
    destruct (decide (in_pool p)) as [Hp|Hp], (decide (in_pool q)) as [Hq|Hq]; destruct (in_pool p), (in_pool q);
      cbn in Hp, Hq; try done; try (by destruct Hp); try (by destruct Hq); cbn [length]; lia.
  - change (<[S i := q]> (x :: l)) with (x :: <[i := q]> l). rewrite !filter_cons. specialize (IH i H).
    destruct (decide (in_pool x)); [rewrite !length_cons, !Nat2Z.inj_succ|]; lia.
Qed.

(** ** The invariant *)

(** The worker is about to look at the queue. *)
Definition looking (h : handoff) : Prop :=
  match h_worker h with WReading _ | WSwapping _ => True | _ => False end.

Record handoff_inv (h : handoff) : Prop := {
  hi_exact : h_processed h ++ in_hand h ++ h_completions h = h_pushed h;
  hi_notifications : 0 <= h_notifications h;
  hi_outstanding : ended h = false ->
    h_outstanding h = (pool_tasks h + zlen (in_hand h) + zlen (h_completions h)) mod u64_modulus;
  hi_wakeup : ended h = false -> h_completions h <> [] ->
    looking h \/ 0 < h_notifications h \/ exists i, h_tasks h !! i = Some TPushed;
  hi_dangling : ended h = false -> h_dangling h = [];
  hi_count : pool_tasks h + zlen (h_pushed h) <= zlen (h_tasks h)
}.

Lemma handoff_inv_start : handoff_inv h_start.
Proof. by split. Qed.

(** Another task still waits to notify. *)
Lemma pushed_elsewhere (l : list task_phase) i p q :
  l !! i = Some p -> p <> TPushed -> (exists j, l !! j = Some TPushed) -> exists j, <[i := q]> l !! j = Some TPushed.
Proof.
  intros Hi Hp [j Hj]. exists j. rewrite list_lookup_insert_ne; [done|]. intros ->. congruence.
Qed.

Lemma start_inv i t h :
  h_tasks h !! i = Some (TQueued t) -> handoff_inv h -> handoff_inv (h_set_task i (TRunning t) h).
Proof.
  intros Hi [H1 H2 H3 H4 H5 H6]. split; try done.
  - intros He. unfold pool_tasks. cbn [h_set_task h_tasks]. rewrite (filter_insert _ _ _ _ Hi). cbn [in_pool].
    rewrite Z.sub_add. exact (H3 He).
  - intros He Hc. destruct (H4 He Hc) as [Hl|[Hn|Hp]]; [by left|by right; left|right; right].
    by apply (pushed_elsewhere _ _ (TQueued t)).
  - unfold pool_tasks. cbn [h_set_task h_tasks h_pushed]. rewrite (filter_insert _ _ _ _ Hi), length_insert. cbn [in_pool].
    unfold pool_tasks in H6. lia.
Qed.

Lemma push_inv i t k h :
  h_tasks h !! i = Some (TRunning t) -> handoff_inv h -> handoff_inv (push_completion k (h_set_task i TPushed h)).
Proof.
  intros Hi [H1 H2 H3 H4 H5 H6]. split; try done.
  - change (in_hand (push_completion _ _)) with (in_hand h). cbn [push_completion h_set_task h_processed h_completions h_pushed].
    by rewrite <- H1, <- !(assoc_L (++)).
  - intros He. unfold pool_tasks. change (in_hand (push_completion _ _)) with (in_hand h).
    cbn [push_completion h_set_task h_tasks h_completions h_outstanding].
    rewrite (filter_insert _ _ _ _ Hi), length_app. cbn [in_pool length]. rewrite (H3 He). f_equal. unfold pool_tasks. lia.
  - intros He _. right; right. exists i. cbn. apply list_lookup_insert_eq. by apply lookup_lt_Some in Hi.
  - unfold pool_tasks. cbn [push_completion h_set_task h_tasks h_pushed].
    rewrite (filter_insert _ _ _ _ Hi), length_insert, length_app. cbn [in_pool length]. unfold pool_tasks in H6. lia.
Qed.

Lemma notify_inv i h :
  h_tasks h !! i = Some TPushed -> handoff_inv h -> handoff_inv (notify (h_set_task i TDone h)).
Proof.
  intros Hi [H1 H2 H3 H4 H5 H6].
  assert (Hn : 0 < h_notifications (notify (h_set_task i TDone h))).
  { unfold notify. cbn [h_set_notifications h_notifications h_set_task].
    destruct (Z.ltb_spec (h_notifications h) eventfd_max); [lia|]. unfold eventfd_max, u64_max, u64_modulus in *. lia. }
  assert (Hp : pool_tasks (notify (h_set_task i TDone h)) = pool_tasks h).
  { unfold pool_tasks. cbn [notify h_set_notifications h_set_task h_tasks]. rewrite (filter_insert _ _ _ _ Hi). cbn [in_pool]. lia. }
  split; try done; [lia| |intros; by right; left|].
  - intros He. rewrite Hp. exact (H3 He).
  - rewrite Hp. cbn [notify h_set_notifications h_set_task h_tasks h_pushed]. by rewrite length_insert.
Qed.

Lemma complete_inv last k ks h :
  h_worker h = WHolding last (k :: ks) -> handoff_inv h -> handoff_inv (complete_one last k ks h).
Proof.
  intros Hw [H1 H2 H3 H4 H5 H6]. unfold in_hand, looking, ended in *. rewrite Hw in *. split; try done.
  - unfold in_hand. cbn. by rewrite <- H1, <- !(assoc_L (++)).
  - intros _. unfold complete_one, pool_tasks, in_hand. cbn [h_add_outstanding h_outstanding h_tasks h_worker h_completions].
    rewrite (H3 eq_refl), Zplus_mod_idemp_l. f_equal. unfold pool_tasks. cbn [length]. lia.
Qed.

(** A change of the worker's phase that keeps what it holds, and stays awake to the queue. *)
Lemma phase_inv p h :
  in_hand (h_at p h) = in_hand h -> (ended (h_at p h) = false -> ended h = false) ->
  (looking h -> looking (h_at p h)) -> handoff_inv h -> handoff_inv (h_at p h).
Proof.
  intros Ei Ee El [H1 H2 H3 H4 H5 H6]. split; rewrite ?Ei; auto.
  intros He Hc. destruct (H4 (Ee He) Hc) as [Hl|?]; [left; auto|by right].
Qed.

Lemma dispatch_inv t h :
  handoff_inv h ->
  handoff_inv (mkHandoff (h_completions h) ((h_outstanding h + 1) mod u64_modulus) (h_notifications h)
    (h_tasks h ++ [TQueued t]) (h_worker h) (h_draining h) (h_pushed h) (h_processed h) (h_dangling h)).
Proof.
  intros [H1 H2 H3 H4 H5 H6]. split; try done.
  - intros He. unfold pool_tasks. cbn [h_outstanding h_tasks h_completions].
    change (in_hand _) with (in_hand h). rewrite (H3 He), Zplus_mod_idemp_l, filter_app, length_app. f_equal.
    unfold pool_tasks.
    change (filter in_pool [TQueued t]) with [TQueued t]. cbn [length]. lia.
  - intros He Hc. destruct (H4 He Hc) as [Hl|[Hn|[i Hi]]]; [by left|by right; left|right; right].
    exists i. cbn. by apply lookup_app_l_Some.
  - unfold pool_tasks. cbn [h_tasks h_pushed]. rewrite filter_app, !length_app.
    change (filter in_pool [TQueued t]) with [TQueued t]. cbn [length]. unfold pool_tasks in H6. lia.
Qed.

Lemma refuse_inv h : handoff_inv h -> handoff_inv (h_add_outstanding (-1) (h_add_outstanding 1 h)).
Proof.
  intros [H1 H2 H3 H4 H5 H6]. split; try done. intros He.
  change (pool_tasks _) with (pool_tasks h). change (in_hand _) with (in_hand h).
  cbn [h_add_outstanding h_outstanding h_completions]. rewrite (H3 He).
  rewrite Zplus_mod_idemp_l, <- Z.add_assoc, Zplus_mod_idemp_l. f_equal. lia.
Qed.

(** A task of a worker that has returned. *)
Lemma dangling_inv i p q h :
  ended h = true -> h_tasks h !! i = Some p -> in_pool q = false -> handoff_inv h ->
  handoff_inv (h_dangle i (h_set_task i q h)).
Proof.
  intros He Hi Hq [H1 H2 H3 H4 H5 H6]. unfold ended in *.
  split; unfold ended; cbn [h_dangle h_set_task h_worker]; try done; try (intros; congruence).
  unfold pool_tasks. cbn [h_dangle h_set_task h_tasks h_pushed].
  rewrite (filter_insert _ _ _ _ Hi), length_insert, Hq. unfold pool_tasks in H6. destruct (in_pool p); lia.
Qed.

Lemma swap_inv last h : h_worker h = WSwapping last -> handoff_inv h -> handoff_inv (swap_completions last h).
Proof.
  intros Hw [H1 H2 H3 H4 H5 H6]. unfold in_hand, ended, looking in *. rewrite Hw in *. split; try done.
  - unfold in_hand. cbn. cbn in H1. by rewrite app_nil_r.
  - intros _. unfold in_hand. cbn. rewrite (H3 eq_refl). unfold pool_tasks. cbn. f_equal. lia.
Qed.

Lemma handoff_step_inv a h h' : handoff_step a h = Some h' -> handoff_inv h -> handoff_inv h'.
Proof.
  intros Hs Hi. pose proof Hi as [H1 H2 H3 H4 H5 H6].
  destruct a as [t acc|i|i response el|i|fd| |last| | | | | |nc]; cbn [handoff_step] in Hs.
  - destruct (h_worker h) eqn:Hw; try done. destruct acc; simplify_eq; [|by apply refuse_inv].
    cbn [h_add_outstanding h_worker h_completions h_notifications h_tasks h_draining h_pushed h_processed h_dangling
      h_outstanding]. by apply dispatch_inv.
  - destruct (h_tasks h !! i) as [[]|] eqn:Ht; try done. simplify_eq. by apply start_inv.
  - destruct (h_tasks h !! i) as [[]|] eqn:Ht; try done.
    change (ended (h_set_task i TPushed h)) with (ended h) in Hs. destruct (ended h) eqn:He; simplify_eq.
    + by eapply dangling_inv.
    + by eapply push_inv.
  - destruct (h_tasks h !! i) as [[]|] eqn:Ht; try done.
    change (ended (h_set_task i TDone h)) with (ended h) in Hs. destruct (ended h) eqn:He; simplify_eq.
    + by eapply dangling_inv.
    + by apply notify_inv.
  - destruct (h_worker h) eqn:Hw; try done. destruct (_ || _); simplify_eq.
    apply phase_inv; unfold in_hand, ended, looking; by rewrite ?Hw.
  - destruct (h_worker h) eqn:Hw; try done. simplify_eq. apply phase_inv; unfold in_hand, ended, looking; by rewrite ?Hw.
  - destruct (h_worker h) eqn:Hw; try done. simplify_eq. apply phase_inv; unfold in_hand, ended, looking; by rewrite ?Hw.
  - destruct (h_worker h) eqn:Hw; try done. destruct (0 <? h_notifications h); simplify_eq.
    + split; try done. intros _ _. left. unfold looking. cbn. by rewrite Hw.
    + apply phase_inv; unfold in_hand, ended, looking; by rewrite ?Hw.
  - destruct (h_worker h) eqn:Hw; try done. simplify_eq. by apply swap_inv.
  - destruct (h_worker h) as [| | | |last [|k ks]| |] eqn:Hw; try done. simplify_eq. by apply complete_inv.
  - destruct (h_worker h) as [| | | |last [|k ks]| |] eqn:Hw; try done. simplify_eq.
    apply phase_inv; unfold in_hand, ended, looking; rewrite ?Hw; by destruct last.
  - destruct (h_worker h) eqn:Hw; try done; simplify_eq; unfold ended, in_hand, looking in *; rewrite Hw in *;
      split; unfold ended, in_hand, looking; try done; exact H4.
  - destruct (h_worker h) eqn:Hw; try done. destruct (_ && _ && _); simplify_eq;
      apply phase_inv; unfold in_hand, ended, looking; by rewrite ?Hw.
Qed.

Lemma handoff_run_inv acts h h' : handoff_run acts h = Some h' -> handoff_inv h -> handoff_inv h'.
Proof.
  revert h. induction acts as [|a acts IH]; intros h Hr Hi; cbn [handoff_run] in Hr; [by simplify_eq|].
  destruct (handoff_step a h) as [h1|] eqn:Hs; [|done]. apply (IH h1); [exact Hr|by eapply handoff_step_inv].
Qed.

(** ** The queue of the protocol *)

(** What TcpServer and Protocol take as one list: a push extends it, and the
    worker takes its oldest element; no other action changes it. *)
Definition queue_of (h : handoff) : list Completion := in_hand h ++ h_completions h.

Lemma handoff_queue a h h' :
  handoff_step a h = Some h' -> ended h = false ->
  queue_of h' =
    match a with
    | HPush i response elapsed =>
        queue_of h ++ match h_tasks h !! i with Some (TRunning t) => [task_completion t response elapsed] | _ => [] end
    | HProcess => tail (queue_of h)
    | _ => queue_of h
    end.
Proof.
  unfold queue_of, in_hand. intros Hs He.
  destruct a as [t acc|i|i response el|i|fd| |last| | | | | |nc]; cbn [handoff_step] in Hs.
  2,3,4: destruct (h_tasks h !! i) as [[]|]; try done;
    try change (ended (h_set_task i ?p h)) with (ended h) in Hs; rewrite ?He in Hs; simplify_eq; try done;
    cbn; by destruct (h_worker h); rewrite ?(assoc_L (++)).
  all: destruct (h_worker h) as [| |last'|last'|last' [|k ks]| |] eqn:Hw; try done.
  - destruct acc; simplify_eq; cbn; by rewrite Hw.
  - destruct (_ || _); by simplify_eq.
  - by simplify_eq.
  - by simplify_eq.
  - destruct (0 <? _); simplify_eq; cbn; by rewrite ?Hw.
  - simplify_eq. cbn. by rewrite app_nil_r.
  - by simplify_eq.
  - simplify_eq. by destruct last'.
  - simplify_eq. cbn. by rewrite ?Hw.
  - simplify_eq. cbn. by rewrite ?Hw.
  - destruct (_ && _ && _); by simplify_eq.
Qed.

(** ** A worker that has returned *)

Lemma step_tasks_grow a h h' : handoff_step a h = Some h' -> (length (h_tasks h) <= length (h_tasks h'))%nat.
Proof.
  destruct a; cbn [handoff_step]; intros Hs; repeat case_match; simplify_eq; cbn; rewrite ?length_insert, ?length_app; cbn; lia.
Qed.

Lemma run_tasks_grow acts h h' : handoff_run acts h = Some h' -> (length (h_tasks h) <= length (h_tasks h'))%nat.
Proof.
  revert h. induction acts as [|a acts IH]; intros h Hr; cbn [handoff_run] in Hr; [by simplify_eq|].
  destruct (handoff_step a h) as [h1|] eqn:Hs; [|done]. apply step_tasks_grow in Hs. specialize (IH h1 Hr). lia.
Qed.

(** Nothing is left but notifications. *)
Definition settled (h : handoff) : Prop :=
  ended h = true ->
  pool_tasks h = 0 /\ h_completions h = [] /\ forall i, i ∈ h_dangling h -> h_tasks h !! i = Some TDone.

Lemma pool_none h i p : pool_tasks h = 0 -> h_tasks h !! i = Some p -> in_pool p = false.
Proof.
  intros H0 Hi. destruct (in_pool p) eqn:Hp; [|done].
  assert (Hin : p ∈ filter in_pool (h_tasks h)).
  { apply list_elem_of_filter. rewrite Hp. split; [done|by eapply list_elem_of_lookup_2]. }
  unfold pool_tasks in H0. destruct (filter in_pool (h_tasks h)); [by apply elem_of_nil in Hin|cbn [length] in H0; lia].
Qed.

(** [should_stop] lets the worker return only when it has nothing left to process. *)
Lemma check_settled h :
  handoff_inv h -> h_worker h = WChecking -> zlen (h_tasks h) < u64_modulus -> h_outstanding h = 0 ->
  pool_tasks h = 0 /\ h_completions h = [] /\ h_dangling h = [].
Proof.
  intros [H1 H2 H3 H4 H5 H6] Hw Hlt H0. unfold in_hand, ended in *. rewrite Hw in *. cbn [app] in *.
  rewrite H0 in H3. specialize (H3 eq_refl). rewrite <- H1, length_app in H6.
  assert (Hp : 0 <= pool_tasks h) by (unfold pool_tasks; lia). cbn [length] in H3.
  rewrite Z.mod_small in H3 by lia. split_and!; [lia| |by apply H5].
  destruct (h_completions h); [done|cbn [length] in H3; lia].
Qed.

Lemma handoff_step_settled a h h' :
  handoff_step a h = Some h' -> a <> HFail -> handoff_inv h -> zlen (h_tasks h) < u64_modulus -> settled h -> settled h'.
Proof.
  intros Hs Ha Hi Hlt Hset. unfold settled in *.
  destruct a as [t acc|i|i response el|i|fd| |last| | | | | |nc]; cbn [handoff_step] in Hs; try done.
  - destruct (h_worker h) eqn:Hw; try done. destruct acc; simplify_eq; intros He; unfold ended in He; cbn in He; by rewrite Hw in He.
  - destruct (h_tasks h !! i) as [[]|] eqn:Ht; try done. simplify_eq. intros He. destruct (Hset He) as (H0 & _).
    by pose proof (pool_none h i _ H0 Ht).
  - destruct (h_tasks h !! i) as [[]|] eqn:Ht; try done.
    change (ended (h_set_task i TPushed h)) with (ended h) in Hs. destruct (ended h) eqn:He; simplify_eq.
    + destruct (Hset eq_refl) as (H0 & _). by pose proof (pool_none h i _ H0 Ht).
    + intros He'. change (ended h = true) in He'. congruence.
  - destruct (h_tasks h !! i) as [[]|] eqn:Ht; try done.
    change (ended (h_set_task i TDone h)) with (ended h) in Hs. destruct (ended h) eqn:He; simplify_eq.
    + destruct (Hset eq_refl) as (H0 & Hc & Hd). intros _. split_and!; [|exact Hc|].
      * unfold pool_tasks. cbn [h_dangle h_set_task h_tasks]. rewrite (filter_insert _ _ _ _ Ht). cbn [in_pool].
        unfold pool_tasks in H0. lia.
      * cbn [h_dangle h_set_task h_dangling h_tasks]. intros j Hj.
        destruct (decide (i = j)) as [->|Hne]; [apply list_lookup_insert_eq; by apply lookup_lt_Some in Ht|].
        rewrite list_lookup_insert_ne by done. apply Hd. apply elem_of_app in Hj as [|Hj%list_elem_of_singleton]; [done|].
        congruence.
    + intros He'. change (ended h = true) in He'. congruence.
  - destruct (h_worker h) eqn:Hw; try done. destruct (_ || _); simplify_eq. done.
  - destruct (h_worker h) eqn:Hw; try done. by simplify_eq.
  - destruct (h_worker h) eqn:Hw; try done. destruct (0 <? h_notifications h); simplify_eq; [|done].
    intros He. unfold ended in He. cbn in He. by rewrite Hw in He.
  - destruct (h_worker h) eqn:Hw; try done. by simplify_eq.
  - destruct (h_worker h) as [| | | |last [|k ks]| |] eqn:Hw; try done. by simplify_eq.
  - destruct (h_worker h) as [| | | |last [|k ks]| |] eqn:Hw; try done. simplify_eq. by destruct last.
  - destruct (h_worker h) eqn:Hw; try done; simplify_eq; intros He; unfold ended in He; cbn in He; done.
  - destruct (h_worker h) eqn:Hw; try done. destruct (h_draining h && (h_outstanding h =? 0) && nc) eqn:Hstop; simplify_eq; [|done].
    rewrite !andb_true_iff in Hstop. destruct Hstop as [[_ H0%Z.eqb_eq] _]. intros _.
    destruct (check_settled h Hi Hw Hlt H0) as (S1 & S2 & S3). split_and!; [exact S1|exact S2|].
    cbn [h_at h_dangling]. rewrite S3. intros i Hin. by apply elem_of_nil in Hin.
Qed.

Lemma handoff_run_settled acts h h' :
  handoff_run acts h = Some h' -> (HFail ∉ acts) -> zlen (h_tasks h') < u64_modulus -> handoff_inv h -> settled h ->
  settled h'.
Proof.
  revert h. induction acts as [|a acts IH]; intros h Hr Hf Hlt Hi Hset; cbn [handoff_run] in Hr; [by simplify_eq|].
  destruct (handoff_step a h) as [h1|] eqn:Hs; [|done]. apply not_elem_of_cons in Hf as [Ha Hf].
  pose proof (run_tasks_grow acts h1 h' Hr). pose proof (step_tasks_grow a h h1 Hs).
  apply (IH h1 Hr Hf Hlt); [by eapply handoff_step_inv|].
  apply (handoff_step_settled a h h1 Hs); [congruence|done|lia|done].
Qed.

(** ** The properties *)

(** C19: under every interleaving of the worker with the pool threads, the worker
    has processed, has in hand or will find in the queue exactly the completions
    that were pushed, in their order, and until it returns [outstanding_tasks]
    counts, modulo 2^64, the requests whose completion is still to be processed. *)
Theorem completions_exactly_once acts h :
  handoff_run acts h_start = Some h ->
  h_processed h ++ in_hand h ++ h_completions h = h_pushed h /\
  (ended h = false ->
   h_outstanding h = (pool_tasks h + zlen (in_hand h) + zlen (h_completions h)) mod u64_modulus).
Proof. intros Hr. pose proof (handoff_run_inv acts _ h Hr handoff_inv_start) as []. done. Qed.

Lemma completions_exactly_once_witness :
  exists h, handoff_run HandoffTests.answered h_start = Some h /\ length (h_pushed h) = 1%nat /\
    h_processed h ++ in_hand h ++ h_completions h = h_pushed h.
Proof.
  destruct (handoff_run HandoffTests.answered h_start) as [h|] eqn:Hr; [|by vm_compute in Hr].
  exists h. split; [done|]. split; [vm_compute in Hr; by injection Hr as <-|].
  exact (proj1 (completions_exactly_once HandoffTests.answered h Hr)).
Defined.

(** C18: no wakeup is lost: when the worker sleeps in [epoll_wait] and a completion
    waits in its queue, the eventfd is readable, so that [epoll_wait] returns, or a
    pool thread is about to notify. *)
Theorem no_lost_notification acts h :
  handoff_run acts h_start = Some h -> h_worker h = WSleeping -> h_completions h <> [] ->
  (exists h', handoff_step (HWake true) h = Some h' /\ h_worker h' = WEvents) \/
  (exists i h', handoff_step (HNotify i) h = Some h' /\ exists h'', handoff_step (HWake true) h' = Some h'').
Proof.
  intros Hr Hw Hc. pose proof (handoff_run_inv acts _ h Hr handoff_inv_start) as Hi.
  assert (Hwake : forall g, h_worker g = WSleeping -> 0 < h_notifications g -> handoff_step (HWake true) g = Some (h_at WEvents g)).
  { intros g Hg Hn. cbn [handoff_step]. rewrite Hg. by replace (0 <? h_notifications g) with true by lia. }
  assert (He : ended h = false) by (unfold ended; by rewrite Hw).
  destruct (hi_wakeup h Hi He Hc) as [Hl|[Hn|[i Ht]]].
  - unfold looking in Hl. by rewrite Hw in Hl.
  - left. exists (h_at WEvents h). split; [by apply Hwake|done].
  - right. assert (Hs : handoff_step (HNotify i) h = Some (notify (h_set_task i TDone h))).
    { cbn [handoff_step]. rewrite Ht. change (ended (h_set_task i TDone h)) with (ended h). by rewrite He. }
    exists i, (notify (h_set_task i TDone h)). split; [exact Hs|]. eexists. apply Hwake; [exact Hw|].
    unfold notify. cbn [h_set_notifications h_notifications h_set_task]. pose proof (hi_notifications h Hi).
    destruct (Z.ltb_spec (h_notifications h) eventfd_max); [lia|]. unfold eventfd_max, u64_max, u64_modulus in *. lia.
Qed.

(** The thread has pushed and not yet notified; the worker sleeps. *)
Definition pushed_asleep : list handoff_action :=
  [HCheck true; HWake false; HDispatch HandoffTests.t true; HStart 0; HEnter true; HRead; HSwap; HReturn; HCheck false;
   HPush 0 HandoffTests.r (Fin 0)].

Lemma no_lost_notification_witness :
  exists h, handoff_run pushed_asleep h_start = Some h /\
    ((exists h', handoff_step (HWake true) h = Some h' /\ h_worker h' = WEvents) \/
     (exists i h', handoff_step (HNotify i) h = Some h' /\ exists h'', handoff_step (HWake true) h' = Some h'')).
Proof.
  destruct (handoff_run pushed_asleep h_start) as [h|] eqn:Hr; [|by vm_compute in Hr].
  exists h. split; [done|]. apply (no_lost_notification pushed_asleep h Hr); vm_compute in Hr; by injection Hr as <-.
Defined.

(** C20: when the worker has returned, [epoll_wait] not having failed and fewer than
    2^64 requests having been submitted, every completion has been processed and
    no handler is executed any more; all that may still use the state of the
    worker is the notification of a completion that it had already processed. *)
Theorem returned_worker_settled acts h :
  handoff_run acts h_start = Some h -> (HFail ∉ acts) -> zlen (h_tasks h) < u64_modulus -> ended h = true ->
  h_processed h = h_pushed h /\ pool_tasks h = 0 /\
  forall i, i ∈ h_dangling h -> h_tasks h !! i = Some TDone.
Proof.
  intros Hr Hf Hlt He.
  destruct (handoff_run_settled acts _ h Hr Hf Hlt handoff_inv_start) as (H0 & Hc & Hd); [done|done|].
  pose proof (hi_exact h (handoff_run_inv acts _ h Hr handoff_inv_start)) as Hx. unfold in_hand, ended in *.
  rewrite Hc in Hx. destruct (h_worker h); try done. cbn [app] in Hx. by rewrite app_nil_r in Hx.
Qed.

(** Its notification comes after the return. *)
Lemma returned_worker_witness :
  exists h, handoff_run HandoffTests.stopped_before_notified h_start = Some h /\ h_dangling h = [0%nat] /\
    h_processed h = h_pushed h /\ pool_tasks h = 0 /\ forall i, i ∈ h_dangling h -> h_tasks h !! i = Some TDone.
Proof.
  destruct (handoff_run HandoffTests.stopped_before_notified h_start) as [h|] eqn:Hr; [|by vm_compute in Hr].
  exists h. split; [done|]. split; [vm_compute in Hr; by injection Hr as <-|].
  apply (returned_worker_settled HandoffTests.stopped_before_notified h Hr).
  - unfold HandoffTests.stopped_before_notified. rewrite !not_elem_of_cons. split_and!; try done. apply not_elem_of_nil.
  - vm_compute in Hr. by injection Hr as <-.
  - vm_compute in Hr. by injection Hr as <-.
Defined.
