(* ===== verification/Logger.v ===== *)
(** * Logger: the log output of the process

    Models src/src/core/logger.h.  The stream of the class is an [ofstream]: it is
    open on a file or not, and it writes nothing once its fail bit is set.  A file
    is opened for appending; the contents of the files and of standard output are
    the state. *)
From stdpp Require Import base gmap list strings.
From Stdlib Require Import Strings.Byte.
From S2P Require Import Prelude.

Record Logger := mkLogger {
  log_file : option bytes;
  fail_bit : bool;
  written : gmap bytes bytes;
  console : bytes
}.
Definition new_logger : Logger := mkLogger None false ∅ [].

Section Streams.
(** Which files can be opened for appending. *)
Context (openable : bytes -> bool).

(** [ofstream::close] *)
Definition stream_close (l : Logger) : Logger :=
  match log_file l with
  | Some _ => mkLogger None (fail_bit l) (written l) (console l)
  | None => mkLogger None true (written l) (console l)
  end.

(** [ofstream::open]: it fails when a file is open already. *)
Definition stream_open (path : bytes) (l : Logger) : Logger :=
  match log_file l with
  | Some _ => mkLogger (log_file l) true (written l) (console l)
  | None => if openable path then mkLogger (Some path) false (written l) (console l)
            else mkLogger None true (written l) (console l)
  end.

Definition set_file (path : bytes) : stm Logger unit :=
  if bool_decide (path = []) then modify stream_close
  else
    modify (stream_open path);;
    failed ← gets fail_bit;
    if (failed : bool) then throw (runtime_error (B "Unable to open log file: " ++ path)) else mret tt.
End Streams.

(** One line of [info]; [time] is the text [ctime] gives, which ends in a line feed. *)
Definition info_line (time message : bytes) : bytes := B "[" ++ time ++ B "] [INFO] " ++ message ++ [x0a].

Definition info (time message : bytes) (l : Logger) : Logger :=
  match log_file l with
  | Some path =>
      if fail_bit l then l
      else mkLogger (log_file l) false
             (<[path := default [] (written l !! path) ++ info_line time message]> (written l)) (console l)
  | None => mkLogger None (fail_bit l) (written l) (console l ++ info_line time message)
  end.

(** ** Scenarios *)

Module LoggerTests.
Definition time : bytes := B "Thu Jan  1 00:00:00 1970" ++ [x0a].
Definition logged (path : bytes) : Logger := info time (B "started") (set_file (fun _ => true) path new_logger).2.

Example to_console : console (logged []) = info_line time (B "started").
Proof. vm_compute. reflexivity. Qed.
Example to_file : written (logged (B "a")) !! B "a" = Some (info_line time (B "started")).
Proof. vm_compute. reflexivity. Qed.

(** A second file is refused, and the stream writes nothing after that. *)
Example second_file :
  let '(r, l) := set_file (fun _ => true) (B "b") (logged (B "a")) in
  (r, written (info time (B "lost") l)) =
  (Throw (runtime_error (B "Unable to open log file: b")), written (logged (B "a"))).
Proof. vm_compute. reflexivity. Qed.

(** The line feed of [ctime] splits every entry. *)
Example split_entry :
  info_line time (B "started") = B "[Thu Jan  1 00:00:00 1970" ++ [x0a] ++ B "] [INFO] started" ++ [x0a].
Proof. vm_compute. reflexivity. Qed.
End LoggerTests.
