(* ===== verification/Gateway.v ===== *)
(** * Gateway: the server object and its routes

    Models the members of TCPServer in src/src/network/tcp_server.h that the routes
    call, its constructor in src/src/network/tcp_server.cpp, and the routes that
    src/src/main.cpp registers.  A handler works on the log, the metrics, the
    figures of the thread pool and the clocks. *)
From stdpp Require Import base gmap list numbers strings.
From Stdlib Require Import Strings.Byte.
From S2P Require Import Prelude Text Double CircularBuffer Os MmapLog HttpParser RateLimiter Router.
From S2P Require ThreadPool.
From S2P Require Import Config Metrics Messages.

Local Open Scope Z_scope.

(** ** The server *)

Record gateway := mkGateway {
  storage_log : state;
  metrics : Metrics;
  (** What [thread_pool->stats()] returns, [None] when there is no pool. *)
  pool_stats : option ThreadPool.Stats;
  system_clock : Z;
  steady_clock : Z
}.

Definition set_storage_log s g := mkGateway s (metrics g) (pool_stats g) (system_clock g) (steady_clock g).

Abbreviation Handler := (HttpRequest -> stm gateway HttpResponse).

(** A call of a method of [storage_log]. *)
Definition with_log {A} (m : LogM A) : stm gateway A := fun g =>
  let '(r, s) := m (storage_log g) in (r, set_storage_log s g).

Definition active_connection_count (g : gateway) : Z := active_connections (metrics g).

Definition metrics_text : stm gateway bytes :=
  st ← gets (fun g => default (ThreadPool.mkStats 0 0 0 0) (pool_stats g));
  log_disk_bytes ← with_log disk_usage_bytes;
  gets (fun g => prometheus_text (Z.of_nat (ThreadPool.worker_count st)) (ThreadPool.stats_busy_threads st)
    (Z.of_nat (ThreadPool.queue_length st)) log_disk_bytes (Z.of_nat (ThreadPool.stats_queue_high_water st))
    (steady_clock g) (metrics g)).

Definition append_message (payload : bytes) : stm gateway Z :=
  now ← gets system_clock;
  with_log (append payload now).

(** ** The routes of [main] *)

Definition json_type : list (bytes * bytes) := [(B "Content-Type", B "application/json")].

Definition health_text : bytes := B "{" ++ key "status" ++ [quote] ++ B "ok" ++ [quote] ++ B "}".

Definition health : Handler := fun _ => mret (mkResponse 200 (B "OK") json_type health_text).

Definition connections_route : Handler := fun _ =>
  n ← gets active_connection_count;
  mret (mkResponse 200 (B "OK") json_type (B "{" ++ key "connections" ++ to_string n ++ B "}")).

Definition metrics_route : Handler := fun _ =>
  text ← metrics_text;
  mret (mkResponse 200 (B "OK") [(B "Content-Type", B "text/plain; version=0.0.4; charset=utf-8")] text).

Definition recent : Handler := fun request => with_log (recent_messages_response request).

Definition body_required : HttpResponse :=
  mkResponse 400 (B "Bad Request") [] (B "Request body is required").

Definition publish : Handler := fun request =>
  if bool_decide (body request = []) then mret body_required
  else
    offset ← append_message (body request);
    mret (mkResponse 201 (B "Created") [] (to_string offset)).

Definition large_response : Handler := fun _ =>
  mret (mkResponse 200 (B "OK") [] (replicate (512 * 1024) x78)).

(** The handler sleeps for 15 seconds first. *)
Definition hold : Handler := fun _ => mret (mkResponse 200 (B "OK") [] (B "held")).

(** The routes [main] adds; [test_mode] when GATEWAY_TEST_MODE is set. *)
Definition add_routes (test_mode : bool) (rt : Router gateway) : Router gateway :=
  let rt := add_route (B "GET") (B "/health") health rt in
  let rt := add_route (B "GET") (B "/connections") connections_route rt in
  let rt := add_route (B "GET") (B "/metrics") metrics_route rt in
  let rt := add_route (B "GET") (B "/recent") recent rt in
  let rt := add_route (B "POST") (B "/publish") publish rt in
  let rt := add_route (B "GET") (B "/large-response") large_response rt in
  if test_mode then add_route (B "GET") (B "/test/hold") hold rt else rt.

(** ** The constructor *)

(** [epoll_worker_count] of the server. *)
Definition worker_threads (hardware_concurrency : Z) (c : Config) : Z :=
  if epoll_worker_count c =? 0 then Z.max 1 hardware_concurrency else epoll_worker_count c.

(** [TCPServer(config)]: the number of workers and the router. *)
Definition new_server (hardware_concurrency : Z) (c : Config) : outcome (Z * Router gateway) :=
  validate c;; Ok (worker_threads hardware_concurrency c,
                   new_router (rate_limit_capacity c) (rate_limit_refill_rate c)).

(** The server [main] runs. *)
Definition main_server (test_mode : bool) (hardware_concurrency : Z) (c : Config) :
    outcome (Z * Router gateway) :=
  s ← new_server hardware_concurrency c; mret (s.1, add_routes test_mode s.2).

(** ** Scenarios *)

Module GatewayTests.
Definition request (m path q : string) (b : bytes) : HttpRequest := mkRequest (B m) (B path) (B q) ∅ b.

Definition opened : state := (open 256 4 LogTests.start).2.
Definition idle : gateway := mkGateway opened (new_metrics 0) None 5 7.
Definition rt : Router gateway := add_routes false (new_router (Fin 1) (Fin 1)).

Definition answer (req : HttpRequest) (g : gateway) : outcome (Z * bytes) * gateway :=
  let '(r, _, g) := dispatch req rt g in
  (r ← r; Ok (status_code r, resp_body r), g).

Example health_ok : (answer (request "GET" "/health" "" []) idle).1 = Ok (200, health_text).
Proof. vm_compute. reflexivity. Qed.

Example published_and_recent :
  let '(r1, g1) := answer (request "POST" "/publish" "" (B "hi")) idle in
  let '(r2, g2) := answer (request "POST" "/publish" "" (B "there")) g1 in
  let '(r3, _) := answer (request "GET" "/recent" "count=1" []) g2 in
  (r1, r2, (fun r => payload <$> default [] (read_messages r.2)) <$> match r3 with Ok x => Some x | _ => None end)
  = (Ok (201, B "0"), Ok (201, B "34"), Some [B "there"]).
Proof. vm_compute. reflexivity. Qed.

Example empty_publish :
  answer (request "POST" "/publish" "" []) idle = (Ok (400, B "Request body is required"), idle).
Proof. vm_compute. reflexivity. Qed.
End GatewayTests.
