(* ===== verification/GatewayTheorems.v ===== *)
(** * GatewayTheorems: what the routes do

    Requests through the routes of [main], from the dispatch to the log and back. *)
From stdpp Require Import base gmap list numbers strings.
From Stdlib Require Import Strings.Byte.
From S2P Require Import Prelude Codec Text Double CircularBuffer Os MmapLog LogFormat LogScan LogSpec LogRecover LogLife.
From S2P Require Import LogTheorems Store HttpParser RateLimiter Router.
From S2P Require Import Config Metrics Messages MessageTheorems Gateway.

Local Open Scope Z_scope.

(** ** The routes *)

(** The routes of [main], as a list. *)
Definition route_list (test_mode : bool) : list (RouteKey * Handler) :=
  [((B "GET", B "/health"), health); ((B "GET", B "/connections"), connections_route);
   ((B "GET", B "/metrics"), metrics_route); ((B "GET", B "/recent"), recent);
   ((B "POST", B "/publish"), publish); ((B "GET", B "/large-response"), large_response)] ++
  (if test_mode then [((B "GET", B "/test/hold"), hold)] else []).

Lemma add_routes_lookup test_mode limiter k h :
  routes (add_routes test_mode (mkRouter ∅ limiter)) !! k = Some h -> (k, h) ∈ route_list test_mode.
Proof.
  unfold add_routes, add_route, route_list. cbn [routes]. intros H.
  destruct test_mode; cbn [routes app] in *;
    repeat (apply lookup_insert_Some in H as [[<- <-]|[_ H]]; [set_solver|]); by rewrite lookup_empty in H.
Qed.

Lemma add_routes_none test_mode limiter k :
  routes (add_routes test_mode (mkRouter ∅ limiter)) !! k = None <-> k ∉ (route_list test_mode).*1.
Proof.
  unfold add_routes, add_route, route_list. destruct test_mode; cbn [routes app fmap list_fmap fst];
    rewrite ?lookup_insert_None, ?lookup_empty, ?not_elem_of_cons; naive_solver set_solver.
Qed.

Section Requests.
Context (test_mode : bool) (limiter : RateLimiter).

Definition main_router : Router gateway := add_routes test_mode (mkRouter ∅ limiter).

Lemma dispatch_route req h g :
  routes main_router !! (method req, target_path req) = Some h ->
  dispatch req main_router g = (let '(r, g) := h req g in (r, main_router, g)).
Proof. unfold dispatch. by intros ->. Qed.

Lemma dispatch_none req g :
  routes main_router !! (method req, target_path req) = None ->
  dispatch req main_router g = (Ok not_found, main_router, g).
Proof. intros H. unfold dispatch. by destruct (routes main_router !! _) eqn:E; [rewrite H in E|]. Qed.

(** The routes added later have other keys. *)
Ltac find_route :=
  unfold main_router, add_routes, add_route; destruct test_mode; cbn [routes];
  rewrite !lookup_insert_ne by (apply (bool_decide_unpack _); vm_compute; exact I); apply lookup_insert_eq.

Lemma publish_registered : routes main_router !! (B "POST", B "/publish") = Some publish.
Proof. find_route. Qed.

Lemma recent_registered : routes main_router !! (B "GET", B "/recent") = Some recent.
Proof. find_route. Qed.
End Requests.

(** ** What changes the server *)

Lemma with_log_ok {A} (m : LogM A) a g s' :
  m (storage_log g) = (Ok a, s') -> with_log m g = (Ok a, set_storage_log s' g).
Proof. unfold with_log. by intros ->. Qed.

Lemma set_storage_log_same g : set_storage_log (storage_log g) g = g.
Proof. by destruct g. Qed.

(** The handlers that only read, on an open log. *)
Lemma reading_handlers test_mode outer g sealed cur req k h :
  let s := storage_log g in
  log_inv outer s sealed cur -> reliable (os s) -> (1 + zlen sealed) * segment_size (log s) <= u64_max ->
  (k, h) ∈ route_list test_mode -> k <> (B "POST", B "/publish") ->
  exists resp, h req g = (Ok resp, g) /\
    (status_code resp = 200 \/
     (status_code resp = 400 /\ k = (B "GET", B "/recent") /\ requested_count (query req) = None)).
Proof.
  intros s Hinv Hr Hov Hin Hk.
  assert (Hm : exists text, metrics_text g = (Ok text, g)).
  { pose proof (disk_usage_ok outer s sealed cur Hinv Hr Hov) as Hd.
    apply with_log_ok in Hd. unfold s in Hd. rewrite set_storage_log_same in Hd.
    eexists. unfold metrics_text. erewrite stm_bind_ok by reflexivity.
    erewrite stm_bind_ok by exact Hd. reflexivity. }
  destruct Hm as [text Hm].
  pose proof (recent_response_ok outer s sealed cur req Hinv) as Hrec.
  unfold route_list in Hin. cbn [app] in Hin. repeat (apply elem_of_cons in Hin as [[= -> ->]|Hin]).
  - eexists. split; [reflexivity|by left].
  - eexists. split; [reflexivity|by left].
  - eexists. unfold metrics_route. erewrite stm_bind_ok by exact Hm. split; [reflexivity|by left].
  - unfold recent. destruct (requested_count (query req)) as [n|].
    + destruct Hrec as (json & Hj & _). eexists. rewrite (with_log_ok _ _ _ _ Hj). unfold s.
      rewrite set_storage_log_same. split; [reflexivity|by left].
    + eexists. rewrite (with_log_ok _ _ _ _ Hrec). unfold s. rewrite set_storage_log_same.
      split; [reflexivity|by right].
  - done.
  - eexists. split; [reflexivity|by left].
  - destruct test_mode; [|by apply elem_of_nil in Hin]. apply list_elem_of_singleton in Hin as [= -> ->].
    eexists. split; [reflexivity|by left].
Qed.


(** ** Publishing *)

(** A request for POST /publish with a body, at a reading of the clock. *)
Definition publish_request (pub : Z * HttpRequest) : Prop :=
  method pub.2 = B "POST" /\ target_path pub.2 = B "/publish" /\ body pub.2 <> [].

Definition set_clock now g := mkGateway (storage_log g) (metrics g) (pool_stats g) now (steady_clock g).

(** Requests dispatched one after the other. *)
Fixpoint dispatch_all (rt : Router gateway) (reqs : list (Z * HttpRequest)) (g : gateway) :
    list (outcome HttpResponse) * gateway :=
  match reqs with
  | [] => ([], g)
  | (now, req) :: reqs =>
      let '(r, _, g) := dispatch req rt (set_clock now g) in
      let '(rs, g) := dispatch_all rt reqs g in (r :: rs, g)
  end.

(** The answer to a publication. *)
Definition publication (r : outcome Z) : outcome HttpResponse :=
  match r with Ok offset => Ok (mkResponse 201 (B "Created") [] (to_string offset)) | Throw e => Throw e end.

Lemma publish_appends test_mode limiter now req g :
  publish_request (now, req) ->
  let rt := main_router test_mode limiter in
  let '(r, s) := store_append (body req) now (storage_log g) in
  dispatch req rt (set_clock now g) = (publication r, rt, set_storage_log s (set_clock now g)).
Proof.
  intros (Hm & Hp & Hb) rt. cbn in Hm, Hp, Hb. destruct (store_append _ _ _) as [r s] eqn:Ha.
  change (append (body req) now (storage_log g) = (r, s)) in Ha.
  unfold rt. erewrite dispatch_route by (rewrite Hm, Hp; apply publish_registered).
  unfold publish. rewrite bool_decide_eq_false_2 by done.
  assert (Happ : append_message (body req) (set_clock now g) = (r, set_storage_log s (set_clock now g))).
  { unfold append_message. erewrite stm_bind_ok by reflexivity. unfold with_log.
    change (append (body req) now (storage_log g)) with (append (body req) now (storage_log g)).
    cbn [storage_log set_clock system_clock]. by rewrite Ha. }
  destruct r as [offset|e].
  - by erewrite stm_bind_ok by exact Happ.
  - by erewrite stm_bind_throw by exact Happ.
Qed.

Lemma dispatch_all_appends test_mode limiter pubs g :
  Forall publish_request pubs ->
  let rt := main_router test_mode limiter in
  let '(rs, s) := append_all ((fun pub => (pub.1, body pub.2)) <$> pubs) (storage_log g) in
  let '(answers, g') := dispatch_all rt pubs g in
  answers = publication <$> rs /\ storage_log g' = s.
Proof.
  intros Hp. cbv zeta. revert g. induction Hp as [|[now req] pubs H1 _ IH]; intros g; [done|].
  rewrite fmap_cons. cbn [append_all fst snd dispatch_all].
  pose proof (publish_appends test_mode limiter now req g H1) as Hd. cbv zeta in Hd.
  destruct (store_append _ _ _) as [r s]. rewrite Hd.
  specialize (IH (set_storage_log s (set_clock now g))). cbn [storage_log set_storage_log] in IH.
  destruct (append_all _ s) as [rs s'], (dispatch_all _ pubs _) as [answers g']. destruct IH as [-> <-]. done.
Qed.

(** A request for the newest messages, on a log that holds a history. *)
Lemma recent_dispatched test_mode limiter g cap h req n :
  store_holds (storage_log g) cap h ->
  method req = B "GET" -> target_path req = B "/recent" -> requested_count (query req) = Some n ->
  let rt := main_router test_mode limiter in
  exists json, dispatch req rt g = (Ok (mkResponse 200 (B "OK") json_type json), rt, g) /\
    read_messages json = Some (newest (Z.to_nat n `min` cap) h).
Proof.
  intros Hs Hm Htp Hq rt. pose proof (store_recent_ok _ _ _ (Z.to_nat n) Hs) as Hr.
  change (store_recent ?k) with (log_get_recent k) in Hr.
  destruct (recent_response_of req n _ _ Hq Hr) as (json & Hj & Hread).
  { apply Forall_drop, (chained_unsigned 0); [done|]. by eapply store_chained. }
  exists json. split; [|done]. unfold rt.
  erewrite dispatch_route by (rewrite Hm, Htp; apply recent_registered).
  unfold recent. rewrite (with_log_ok _ _ _ _ Hj), set_storage_log_same. reflexivity.
Qed.

(** C11: any sequence of POST /publish requests is answered one by one, either with
    201 and the offset of the message it appended to the log, or, when the log
    refuses the body, by an exception that leaves the log alone; whatever bytes the
    bodies contain, a following GET /recent returns the newest messages of the
    history extended by exactly the accepted bodies, in their order. *)
Theorem published_messages_are_recent test_mode limiter pubs g cap h :
  store_holds (storage_log g) cap h -> Forall publish_request pubs ->
  let rt := main_router test_mode limiter in
  let '(answers, g') := dispatch_all rt pubs g in
  exists rs added,
    stored h ((fun pub => (pub.1, body pub.2)) <$> pubs) rs added /\ answers = publication <$> rs /\
    forall req n, method req = B "GET" -> target_path req = B "/recent" -> requested_count (query req) = Some n ->
      exists json, dispatch req rt g' = (Ok (mkResponse 200 (B "OK") json_type json), rt, g') /\
        read_messages json = Some (newest (Z.to_nat n `min` cap) (h ++ added)).
Proof.
  intros Hs Hp rt. pose proof (dispatch_all_appends test_mode limiter pubs g Hp) as Hd.
  destruct (append_all_stored ((fun pub => (pub.1, body pub.2)) <$> pubs) (storage_log g) cap h Hs)
    as (added & Hst & Hs').
  cbv zeta in Hd. destruct (append_all _ _) as [rs s]. fold rt in Hd. destruct (dispatch_all rt pubs g) as [answers g'].
  destruct Hd as [-> <-]. cbn [fst snd] in Hst, Hs'. exists rs, added. split_and!; [done|done|].
  intros req n. by apply recent_dispatched.
Qed.

(** ** A server with an empty log *)

Definition demo_gateway : gateway := mkGateway demo (new_metrics 0) None 5 7.
Definition demo_request (m path q : string) (b : bytes) : HttpRequest := mkRequest (B m) (B path) (B q) ∅ b.


Lemma demo_holds : store_holds (storage_log demo_gateway) 4 [].
Proof.
  destruct demo_ok as (_ & _ & Hi & Hr & _). exists [], [], []. split_and!; [exact Hi|exact Hr|done|done].
Qed.

(** Two publications, of which the log, made for records of at most 12 bytes,
    refuses the second. *)
Definition demo_pubs : list (Z * HttpRequest) :=
  [(5, demo_request "POST" "/publish" "" demo_text); (6, demo_request "POST" "/publish" "" (demo_text ++ demo_text))].

Lemma published_witness :
  let rt := main_router false (new_limiter (Fin 1) (Fin 1)) in
  let '(answers, g') := dispatch_all rt demo_pubs demo_gateway in
  (fun r => match r with Ok r => Some (status_code r, resp_body r) | Throw _ => None end) <$> answers
    = [Some (201, B "0"); None] /\
  exists json messages, dispatch (demo_request "GET" "/recent" "" []) rt g'
    = (Ok (mkResponse 200 (B "OK") json_type json), rt, g') /\ read_messages json = Some messages.
Proof.
  cbv zeta. pose proof (published_messages_are_recent false (new_limiter (Fin 1) (Fin 1)) demo_pubs demo_gateway 4 []
    demo_holds) as H. cbv zeta in H.
  assert (Ha : (fun r => match r with Ok r => Some (status_code r, resp_body r) | Throw _ => None end) <$>
    (dispatch_all (main_router false (new_limiter (Fin 1) (Fin 1))) demo_pubs demo_gateway).1
    = [Some (201, B "0"); None]) by (vm_compute; reflexivity).
  destruct (dispatch_all _ demo_pubs demo_gateway) as [answers g']. split; [exact Ha|].
  destruct H as (rs & added & _ & _ & H); [by repeat constructor|].
  destruct (H (demo_request "GET" "/recent" "" []) 100 eq_refl eq_refl eq_refl) as (json & H1 & H2).
  by exists json, (newest (Z.to_nat 100 `min` 4) ([] ++ added)).
Defined.
