(* ===== verification/EndToEnd.v ===== *)
(** * EndToEnd: a request from the socket to the log and back

    The composition of the components: the worker that reads the bytes of a client,
    the parser, the pool thread that runs the router with its rate limiter, the
    handler on the message log, and the response on the socket. *)
From stdpp Require Import base gmap list numbers strings.
From Stdlib Require Import Strings.Byte.
From S2P Require Import Prelude Codec Text Double CircularBuffer Os MmapLog LogFormat LogSpec LogLife LogTheorems Store.
From S2P Require Import HttpParser HttpRender HttpTheorems RateLimiter Router Metrics Messages MessageTheorems.
From S2P Require Import Sockets TcpServer WorkerSteps WorkerLoop WorkerDrain WorkerServe ServerTheorems SessionTheorems.
From S2P Require Import Gateway GatewayTheorems.

Local Open Scope Z_scope.

(** ** The length of an answer *)

Lemma decimal_digits_length fuel n acc : (length (decimal_digits fuel n acc) <= length acc + fuel)%nat.
Proof.
  revert n acc. induction fuel as [|fuel IH]; intros n acc; cbn [decimal_digits]; [lia|].
  destruct (_ =? 0); [cbn; lia|]. specialize (IH (n / 10) (digit_char (n mod 10) :: acc)). cbn in IH. lia.
Qed.

(** A number of 64 bits has at most 64 digits. *)
Lemma to_string_length n : 0 <= n < u64_modulus -> (length (to_string n) <= 64)%nat.
Proof.
  intros Hn. rewrite to_string_decimal by lia. unfold decimal.
  pose proof (decimal_digits_length (S (Z.to_nat (Z.log2 n))) n []) as H. cbn [length] in H.
  destruct (decide (n = 0)) as [->|]; [cbn in *; lia|].
  assert (Z.log2 n < 64) by (apply Z.log2_lt_pow2; [lia|exact (proj2 Hn)]). lia.
Qed.

(** The answer to a publication. *)
Definition created (offset : Z) : HttpResponse := mkResponse 201 (B "Created") [] (to_string offset).

Lemma created_fits offset :
  0 <= offset < u64_modulus -> (length (response_to_string (created offset)) <= max_outbound_bytes)%nat.
Proof.
  intros Ho. transitivity 1024%nat; [|apply Nat.leb_le; by vm_compute].
  pose proof (to_string_length offset Ho) as H1.
  assert (H2 : (length (to_string (zlen (to_string offset))) <= 64)%nat).
  { apply to_string_length. unfold u64_modulus. lia. }
  unfold response_to_string, created. cbn [status_code reason resp_headers response_headers resp_body negb].
  rewrite !length_app.
  change (length (B "HTTP/1.1 ")) with 9%nat. change (length (to_string 201)) with 3%nat.
  change (length (B " ")) with 1%nat. change (length (B "Created")) with 7%nat. change (length crlf) with 2%nat.
  change (length (B "Content-Length: ")) with 16%nat. change (length (B "Connection: close")) with 17%nat. lia.
Qed.

(** ** A request over the wire *)

Section Wire.
(** A waiting client [fd] of a worker that writes the text [t] and takes its answer. *)
Context (l e : Z) (listener : option Z) (w : worker) (fd : Z) (ip : bytes) (gen : Z).
Context (t : http_text) (pieces : list bytes) (elapsed : double) (sends : list send_answer).

Record wire_ok : Prop := {
  wo_server : server_inv l e listener w;
  wo_client : waiting_client fd ip gen w;
  wo_request : request_fits t;
  wo_pieces : Forall piece_ok pieces;
  wo_text : concat pieces = render t;
  wo_sends : Forall progress sends
}.

(** The worker after the request's bytes, and after the pool's answer. *)
Definition asked : worker :=
  handle_event listener fd EPOLLIN (apply_change (EnvAnswers (mkAnswers (RBytes <$> pieces) [] [] [] [] [])) w).
Definition answered_with (response : outcome HttpResponse) : worker :=
  handle_event listener e EPOLLIN
    (apply_changes (EnvTask (length (accepted_tasks (shared_state w))) response elapsed :: takes sends) asked).

(** The client got exactly these bytes and was closed. *)
Definition client_got (bs : bytes) (w' : worker) : Prop :=
  cm_get fd (connections w') = None /\
  exists used left, pieces = used ++ left /\
    k_trace (kern w') = k_trace (kern w) ++ (NReceived fd <$> used) ++ [NSent fd bs; NClosed fd].

Lemma wire response :
  wire_ok -> (length (answer_bytes response) <= max_outbound_bytes)%nat ->
  (length (answer_bytes response) <= length sends)%nat ->
  accepted_tasks (shared_state asked) !! length (accepted_tasks (shared_state w)) =
    Some (mkTask fd gen (text_request t (t_body t)) ip) /\
  client_got (answer_bytes response) (answered_with response).
Proof. intros [H1 H2 H3 H4 H5 H6] Hm Hl. by apply (serve l). Qed.
End Wire.

(** ** The router on the task *)

Lemma main_router_limiter test_mode limiter : rate_limiter (main_router test_mode limiter) = limiter.
Proof. unfold main_router, add_routes. by destruct test_mode. Qed.

Lemma main_router_set test_mode limiter limiter' :
  mkRouter (routes (main_router test_mode limiter)) limiter' = main_router test_mode limiter'.
Proof. unfold main_router, add_routes, add_route. by destruct test_mode. Qed.

(** An admitted request is dispatched. *)
Lemma route_admitted test_mode limiter limiter' req ip created_at now g :
  check ip created_at now limiter = Some (true, limiter') ->
  route req ip created_at now (main_router test_mode limiter) g = dispatch req (main_router test_mode limiter') g.
Proof. intros H. unfold route. by rewrite main_router_limiter, H, main_router_set. Qed.

(** ** Publishing over the wire *)

(** C1: the whole way of a publication: a client writes POST /publish with a body,
    in any pieces; the task that the worker submits is the request with this body
    and the client's address; when the limiter admits the address and the log
    accepts the body, the message log then holds the history extended by a message
    with exactly this body, and the client gets the 201 response with its offset. *)
Theorem publish_over_the_wire test_mode limiter limiter' created_at now clock g cap h
    l e listener w fd ip gen t pieces elapsed sends :
  wire_ok l e listener w fd ip gen t pieces sends ->
  store_holds (storage_log g) cap h -> store_refusal (storage_log g) (t_body t) = None ->
  check ip created_at now limiter = Some (true, limiter') ->
  t_method t = B "POST" -> t_path t = B "/publish" -> t_body t <> [] ->
  (length (response_to_string (created (end_of 0 h))) <= length sends)%nat ->
  let task := mkTask fd gen (text_request t (t_body t)) ip in
  accepted_tasks (shared_state (asked listener w fd pieces)) !! length (accepted_tasks (shared_state w)) = Some task /\
  let '(response, _, g') := route (task_request task) (task_ip task) created_at now (main_router test_mode limiter)
                              (set_clock clock g) in
  store_holds (storage_log g') cap (h ++ [new_message (end_of 0 h) clock (t_body t)]) /\
  client_got w fd pieces (response_to_string (created (end_of 0 h)))
    (answered_with e listener w fd pieces elapsed sends response).
Proof.
  intros Hw Hs Hr Hlim Hm Hp Hb Hl task.
  destruct (store_append_ok (storage_log g) cap h (t_body t) clock Hs Hr) as (s' & Ha & Hs').
  assert (Hoff : 0 <= end_of 0 h < u64_modulus).
  { pose proof (store_chained _ _ _ Hs') as Hch. apply chained_app in Hch as [_ (_ & Hwf & _)]. apply Hwf. }
  pose proof (publish_appends test_mode limiter' clock (text_request t (t_body t)) g) as Hd.
  cbv zeta in Hd. change (body (text_request t (t_body t))) with (t_body t) in Hd. rewrite Ha in Hd.
  rewrite (route_admitted _ _ _ _ _ _ _ _ Hlim). unfold task. cbn [task_request]. rewrite Hd by done.
  destruct (wire l e listener w fd ip gen t pieces elapsed sends (Ok (created (end_of 0 h))) Hw) as [H1 H2];
    [by apply created_fits|exact Hl|]. split; [exact H1|]. split; [exact Hs'|exact H2].
Qed.

(** ** Reading over the wire *)


(** ** A publication, and a reader *)

Module Wired.
Definition limiter : RateLimiter := new_limiter (Fin (2 * one)) (Fin one).
Definition limiter' : RateLimiter := default limiter (snd <$> check ServerTests.ip 5 5 limiter).
Definition worker_accepted : worker := Serving.accepted.
Definition taken : list send_answer := Serving.byte_by_byte.
Definition get : http_text := mkText (B "GET") (B "/recent") (B "count=10") [(B "host", B "localhost")] [].
Definition get_pieces : list bytes := [render get].

Lemma admitted : check ServerTests.ip 5 5 limiter = Some (true, limiter').
Proof. vm_compute. reflexivity. Qed.

Lemma get_ok : text_ok get.
Proof.
  split; cbn [t_method t_path t_query t_headers get].
  - split_and!; [done|by apply (bool_decide_unpack _)..].
  - split_and!; [done|by apply (bool_decide_unpack _)..].
  - split_and!; by apply (bool_decide_unpack _).
  - exact (ok_headers _ demo_request_ok).
  - apply NoDup_singleton.
  - split; by apply (bool_decide_unpack _).
Qed.

Lemma get_fits : request_fits get.
Proof. split; [exact get_ok|vm_compute; discriminate|vm_compute; discriminate]. Qed.

(** The accepted client of Serving, writing [t] in [pieces]. *)
Lemma wired t pieces :
  request_fits t -> Forall piece_ok pieces -> concat pieces = render t ->
  exists l e listener, wire_ok l e listener worker_accepted 7 ServerTests.ip 1 t pieces taken.
Proof.
  intros Hf Hp Hc. destruct (scenario_inv (take 1 ServerTests.served)) as (l & e & listener & H); [by vm_compute|].
  exists l, e, listener. split; [exact H|split; vm_compute; reflexivity|done|done|done|].
  apply Forall_replicate, le_n.
Qed.
End Wired.

Lemma publish_over_the_wire_witness :
  exists e listener,
  let task := mkTask 7 1 (text_request Sessions.post (B "hello")) ServerTests.ip in
  accepted_tasks (shared_state (asked listener Wired.worker_accepted 7 Serving.pieces)) !! 0%nat = Some task /\
  let '(response, _, g') := route (task_request task) (task_ip task) 5 5 (main_router false Wired.limiter)
                              (set_clock 9 demo_gateway) in
  store_holds (storage_log g') 4 [new_message 0 9 (B "hello")] /\
  client_got Wired.worker_accepted 7 Serving.pieces (response_to_string (created 0))
    (answered_with e listener Wired.worker_accepted 7 Serving.pieces (Fin 0) Wired.taken response).
Proof.
  destruct (Wired.wired Sessions.post Serving.pieces post_fits) as (l & e & listener & H).
  - repeat constructor; try discriminate; apply Nat.leb_le; by vm_compute.
  - cbn [concat Serving.pieces]. rewrite app_nil_r. apply take_drop.
  - exists e, listener.
    apply (publish_over_the_wire false Wired.limiter Wired.limiter' 5 5 9 demo_gateway 4 [] l e listener
      Wired.worker_accepted 7 ServerTests.ip 1 Sessions.post Serving.pieces (Fin 0) Wired.taken H).
    + exact demo_holds.
    + vm_compute. reflexivity.
    + exact Wired.admitted.
    + reflexivity.
    + reflexivity.
    + discriminate.
    + apply Nat.leb_le. by vm_compute.
Defined.

