(* ===== verification/Process.v ===== *)
(** * Process: starting the server and the process

    Models [start] of src/src/network/tcp_server.cpp and src/src/main.cpp.  What
    the operating system does with the threads is given: whether the pool could be
    created, how many worker threads could be, and the run of each worker. *)
From stdpp Require Import base gmap list numbers strings.
From Stdlib Require Import Strings.Byte.
From S2P Require Import Prelude Text Double Os MmapLog HttpParser RateLimiter Router Config Metrics.
From S2P Require Import Sockets EpollLoop TcpServer Gateway.
From S2P Require Logger.

Local Open Scope Z_scope.

(** ** [TCPServer::start] *)

(** What a worker thread meets. *)
Record thread_run := mkRun {
  tr_setup : setup;
  tr_waits : waits;
  tr_kernel : kernel;
  tr_shared : shared
}.

Record threads := mkThreads {
  th_pool : outcome unit;
  (** The worker threads the system can create. *)
  th_limit : nat;
  th_runs : nat -> thread_run
}.

Definition run_thread (th : threads) (id : nat) : bool * worker :=
  let r := th_runs th id in worker_loop id (tr_setup r) (tr_waits r) (tr_kernel r) (tr_shared r).

(** The worker threads [start] creates. *)
Definition created (th : threads) (count : nat) : list nat := seq 0 (th_limit th `min` count).

Definition set_gw_metrics m g := mkGateway (storage_log g) m (pool_stats g) (system_clock g) (steady_clock g).

(** The result of [start], [None] while a worker runs, and the server. *)
Definition start (c : Config) (count : nat) (th : threads) (g : gateway) : option bool * gateway :=
  let g := set_gw_metrics (run_accesses (set_epoll_worker_count count) (metrics g)) g in
  let '(r, s) := open (storage_segment_size c) (Z.to_nat (recent_message_capacity c)) (storage_log g) in
  let g := set_storage_log s g in
  match r with
  | Throw _ => (Some false, g)
  | Ok _ =>
      match th_pool th with
      | Throw _ => (Some false, g)
      | Ok _ =>
          let results := run_thread th <$> created th count in
          let failed := (th_limit th <? count)%nat ||
                        existsb (fun r => worker_failed (shared_state r.2)) results in
          if forallb fst results then (Some (negb failed), g) else (None, g)
      end
  end.

(** ** [main] *)

Section Main.
Context (read_file : bytes -> option bytes) (openable : bytes -> bool).

(** [main] without the program name: the exit code, [None] while the server runs,
    the logger and the server.  The constructor of the server is outside the
    [try]: an exception there ends the process, which the last result stands for. *)
Definition main (args : list bytes) (hardware_concurrency : Z) (th : threads) (l : Logger.Logger) (g : gateway) :
    outcome (option Z * Logger.Logger * gateway) :=
  match from_args read_file args with
  | Throw _ => Ok (Some 1, l, g)
  | Ok c =>
      let '(r, l) := Logger.set_file openable (log_path c) l in
      match r with
      | Throw _ => Ok (Some 1, l, g)
      | Ok _ =>
          s ← new_server hardware_concurrency c;
          let '(started, g) := start c (Z.to_nat s.1) th g in
          Ok ((fun b : bool => if b then 0 else 1) <$> started, l, g)
      end
  end.
End Main.
