(* ===== verification/ProcessTheorems.v ===== *)
(** * ProcessTheorems: the whole process

    What an exit code of [main] says, from the configuration to the workers. *)
From stdpp Require Import base gmap list numbers strings.
From Stdlib Require Import Strings.Byte.
From S2P Require Import Prelude Text CircularBuffer Double Os MmapLog HttpParser RateLimiter Router Config ConfigTheorems Metrics.
From S2P Require Import Sockets EpollLoop TcpServer WorkerInv WorkerSteps WorkerLoop ServerTheorems Gateway Process.
From S2P Require Logger.

Local Open Scope Z_scope.

(** A log that was opened is open. *)
Lemma open_opened size cap s s' : open size cap s = (Ok tt, s') -> opened (log s') = true.
Proof.
  unfold open. intros (is_open & s0 & H0 & H)%stm_bind_inv. injection H0 as <- <-.
  destruct (opened (log s)); [done|]. destruct (_ || _); [done|]. destruct (cap =? 0)%nat; [done|].
  apply stm_bind_inv in H as (? & s1 & _ & H). destruct (new_buffer cap) as [cache|]; [|done].
  apply stm_bind_inv in H as (? & s2 & _ & H). apply stm_bind_inv in H as (? & s3 & _ & H).
  apply stm_bind_inv in H as (? & s4 & _ & H). injection H as <-. done.
Qed.

(** The constructor accepts every configuration that [from_args] returns. *)
Lemma new_server_ok read_file args hw c :
  from_args read_file args = Ok c ->
  new_server hw c = Ok (worker_threads hw c, new_router (rate_limit_capacity c) (rate_limit_refill_rate c)).
Proof.
  intros [Hv _]%from_args_ok. apply validate_ok in Hv. unfold new_server. by rewrite Hv.
Qed.

(** What a successful [start] has done. *)
Lemma start_true c count th g g' :
  start c count th g = (Some true, g') ->
  opened (log (storage_log g')) = true /\ (count <= th_limit th)%nat /\
  forall id, (id < count)%nat -> (run_thread th id).1 = true /\ worker_failed (shared_state (run_thread th id).2) = false.
Proof.
  unfold start. destruct (open _ _ _) as [[[]|e] s] eqn:Ho; [|done]. apply open_opened in Ho.
  destruct (th_pool th); [|done]. destruct (forallb fst _) eqn:Hall; [|done]. intros [= Hf <-].
  apply negb_true_iff, orb_false_iff in Hf as [Hl%Nat.ltb_ge Hf]. split_and!; [done|done|].
  intros id Hid. assert (Hin : In (run_thread th id) (run_thread th <$> created th count)).
  { apply list_elem_of_In, list_elem_of_fmap_2. unfold created. rewrite Nat.min_r by done. apply elem_of_seq. lia. }
  split; [by apply (proj1 (forallb_forall _ _) Hall)|].
  destruct (worker_failed _) eqn:Hw; [|done]. rewrite <- Hf. symmetry. apply existsb_exists. eauto.
Qed.


(** ** A process that serves one client and is stopped *)

Definition demo_args : list bytes :=
  [B "--storage-segment-size"; B "84"; B "--recent-capacity"; B "4"; B "--epoll-workers"; B "1"].
Definition demo_threads : threads :=
  mkThreads (Ok tt) 1
    (fun _ => mkRun ServerTests.su ServerTests.served ServerTests.idle_kernel ServerTests.idle_shared).
Definition demo_process : outcome (option Z * Logger.Logger * gateway) :=
  main (fun _ => None) (fun _ => true) demo_args 1 demo_threads Logger.new_logger
    (mkGateway LogTests.start (new_metrics 0) None 0 0).

